(* ===== verification/_CoqProject ===== *)
-Q . S2P
Prelude.v
Numeric.v
Lattice.v
Energy.v
Metropolis.v
Wolff.v
History.v
Observables.v
StructureFactor.v
Text.v
Page.v
Export.v
Core.v
Simulation.v
Liveness.v
