(* ===== verification/Prelude.v ===== *)
(** * Verification of the lattice spin simulation (src/Heisenberg Model/script.js)

    The program is a browser script that keeps a 10 x 10 grid of binary spins
    on a torus and, ten times a second, runs one update (a Metropolis-Hastings
    sweep of 100 trials, or one Wolff cluster flip), appends a deep copy of the
    grid to a bounded history and recomputes the observables it displays.
    All of its state is global: [spins], [temperature], [magneticField],
    [interactionStrength], [algorithm], [spinHistory], [simulationInterval].

    ** How the development models the program

    - Global state is passed explicitly.  A function of the script that reads
      [spins] takes the grid as an argument; one that writes it returns the new
      grid.  [Math.random()] is a stream [random : nat -> Q] with values in
      [0, 1) and a cursor that every call advances, so the order and the number
      of draws (which depend on short-circuit evaluation) are part of the model.
    - A JavaScript number is an exact rational or one of the IEEE special
      values ([Numeric.num]: [Fin q], [PInf], [NInf], [NaN]).  Rounding,
      overflow of finite values and the sign of zero are not modelled; division
      by zero, [0 * Infinity] and comparisons with [NaN] are.  [Math.exp] is an
      interface with the few laws the theorems need ([Numeric.ExpModel]); an
      executable rational instance is supplied so that every model runs.
    - [spins[i][j]] on a missing row throws in JavaScript; here every read
      returns in [res], the error monad of this file, and the theorems prove
      that no operation of the script throws on a well-formed grid.  A read of
      a missing column yields [None] ([undefined]), which the script's
      comparisons with ['up'] treat as a down spin.  A write outside the row
      would grow the array: the model stops with [OutOfGrid] there, and the
      invariants show that the case does not arise.
    - Loops over [0 .. gridSize-1] are left folds over [seqZ 0 gridSize] in the
      order of the script; the Wolff [while] loop is a fixpoint on fuel, and
      [4 * gridSize^2 + 1] iterations are proved to be enough.
    - [gridSize] and [historySize] are the fields of the class
      [Lattice.Params]; [Lattice.source_params] is the script's (10 and 100).
      Theorems are stated for every positive grid size.
    - The page is the record [Page.document]: the text of the elements that
      have an identifier (a finite map from identifiers to strings; an access
      to a missing element throws [TypeError], as a property read of [null]
      does), the cells of the grid in document order, each with its class,
      the two strings of its dataset and the site that its click listener
      captured, the width and the height of the grid, the registered
      listeners and the files offered for download.  The document is a field
      of the state, so that a handler that redraws changes the state.
    - [math.format] and [Number.prototype.toString] are the fields of the
      class [Page.Browser], with the laws the theorems use;
      [Page.decimal_browser] is an instance that runs.  [JSON.stringify] is
      modelled by [Export.stringify] on a tree of JSON values.
    - An infinite run of the page is a function from instants to states and
      events ([Liveness.run]); the fairness of the interval timer is a
      hypothesis on runs, and the run of a schedule is computed by
      [Liveness.runOf].

    ** Files (in dependency order)

    - [Prelude] (this file): the error monad [res], integer-indexed list
      reads, monadic loops, finite sums, tactics and the hint database.
    - [Numeric]: JavaScript numbers ([num]) with their arithmetic and
      comparison, the equivalence [num_equiv] built on [Qeq] with its [Proper]
      instances, the [ExpModel] and [RandomSource] interfaces and one
      instance of each, [randomIndex] ([Math.floor(Math.random() * gridSize)]).
    - [Lattice]: [spin], the grid, [spinToValue], reads and writes of a cell,
      the flip assignment, [toggleSpin], the wrap-around index [wrap], the
      initial grid, and the well-formedness invariant [wf_grid].
    - [Energy]: [deltaEnergy] and [calculateEnergy], their closed forms, the
      Hamiltonian they are compared with.
    - [Metropolis]: one trial and [runMetropolisHastings].
    - [Wolff]: [runWolffCluster]: the seed, the [while] loop over the stack
      ([wolffStep], [wolffLoop]; the top of the stack is the head of the
      list), the bond test of a neighbour ([tryNeighbour]) and the flip of the
      cluster ([flipCluster]); the loop invariant [wolffInv] and the measure
      [remaining] that bounds the iterations.
    - [History]: the push-and-evict step of [runSimulation] on [spinHistory].
    - [Observables]: [calculateMagnetization], [calculateCorrelation],
      [calculateTwoPointCorrelation], [calculatePairCorrelation],
      [calculateTemporalCorrelation].
    - [StructureFactor]: [calculateStructureFactor] against the interface
      [TrigModel] for [Math.PI], [Math.cos], [Math.sin] and [Math.sqrt], with
      a rational instance that makes it run.
    - [Text]: [sanitizeText] on strings of characters; the decimal text of
      an integer and its reading as an array index ([spins[row][col]] with
      strings for [row] and [col]).
    - [Page]: the document and its accesses; [createGrid], [updateGrid],
      [adjustGridSize], the writes of [updateResults] ([showResults]), the
      label of a slider ([showValue]) and the statements at the top level of
      the script ([loadPage]); the reference rendering [renderGrid] and the
      invariant [wf_page] that relates a page to the lattice it shows.
    - [Export]: the object literal of [exportData] as a tree of JSON values
      ([dataObject]), its text ([stringify]), and a decoder used to state
      that the object determines the data.
    - [Core]: the contract of the specification, without random numbers: the
      relations [metropolisSpec] and [wolffSpec] between the lattice before
      and after an update, the interface [UpdateEngine] that both updates
      implement, and the transition relation [coreStep] of a core, labelled
      by the entry point that is called ([Step u] or [Toggle i j]).
    - [Simulation]: the globals and the document as the record [simState];
      the load of the script ([loadScript]); [runSimulation],
      [updateResults], [exportData], [toggleSpin] as a click listener
      ([cellClick]), [startSimulation], [stopSimulation] and the listeners of
      the sliders as functions on it, each with its calls of [updateGrid] and
      [updateResults]; the interval timers of the browser; the page as the
      step relation [step] labelled by [event] (an event can happen when its
      listener is registered), its reachable states, sequences of steps
      ([steps]) and the invariant [simInv]; the map [labelOf] from the events
      of the page to the entry points of the core, and the refinement of
      [coreStep] by the page.
    - [Liveness]: runs, fairness of the timer, the progress of the history.

    ** What the theorems show

    - Safety: on a well-formed grid no read or write of the script throws,
      every index computed by [wrap] or [randomIndex] is in range, every
      operation preserves [wf_grid]; in every reachable state of the page
      every handler returns, and at most one timer is active; after a click
      on stop no timer fires and the history stays as it is, whatever
      happens on the page, until start is clicked.
    - Termination: the [while] loop of [runWolffCluster] ends within the fuel
      it is given, for every temperature, coupling and random stream, so
      [OutOfFuel] is never returned.  The fuel is [4 * gridSize^2 + 1]: a site
      enters the cluster at most once, each entry pushes at most four
      neighbours, and every iteration pops one element.
    - Functional behaviour: the value of each operation on each branch, as a
      closed form over the spin values; acceptance of a Metropolis trial when
      the energy decreases, when it is unchanged, and at temperature zero; the
      Wolff cluster as a duplicate-free connected set of sites of the seed's
      spin, flipped as a whole; the degenerate clusters at [J <= 0] and at
      temperature zero.
    - Bounds: observables lie in [-1, 1], structure-factor entries in
      [0, 2 * gridSize^2]; a sweep consumes between 200 and 300 random draws,
      a cluster update between 2 and [2 + 4 * gridSize^2]; the history never
      exceeds [historySize].
    - Refinement: the loop-and-accumulator definitions equal the reference
      sums over the lattice sites; the two passes of [sanitizeText] equal one
      pass; for every random stream each update returns a lattice that its
      specification allows.  The page refines the core label by label
      ([Simulation.simulation_refines_core]): a click on a cell is the toggle
      of that cell, a tick is a step of the algorithm that [algorithm] names
      (and the lattice and the cursor it leaves are those that
      [runMetropolisHastings], respectively [runWolffCluster], returns), and
      every other event leaves lattice and history unchanged.
    - Determinism: the result of an update depends only on the draws that
      follow the cursor, 300 for a sweep and [2 + 4 * gridSize^2] for a
      cluster update.
    - Errors: the arguments for which an observable throws [TypeError]
      (a negative distance or lag, a row outside the grid); while the
      datasets hold array indices, [updateGrid] throws exactly when a cell
      names a row beyond the end of [spins]; the load of the script throws
      when an element is missing.
    - The view: in every reachable state the cells of the grid are the
      rendering of [spins], one cell per site, row by row, and the eight
      listeners are registered once each ([Simulation.page_shows_lattice]);
      [updateGrid] reaches that rendering from the cells of any grid, through
      the strings of the dataset; [updateResults] writes the seven results
      into their elements, whatever these held before, and changes nothing
      else, so that no line accumulates from tick to tick; after a click on
      a cell the elements still hold the text of the tick before.
    - Types: the results that [updateResults] computes are finite numbers, a
      list of [gridSize / 2] pairs for the distances in order, and a square
      matrix; the exported object holds no number that JSON cannot write.
    - Round trips: the exported object and the data it was built from; the
      decimal text that [createGrid] stores for an index is read back as
      that index (a lemma of [Text]).
    - Liveness: in a fair run, once a timer is active and the start and stop
      buttons are left alone, ticks keep coming and the history reaches
      [historySize] snapshots and stays full; the hypothesis on the buttons
      cannot be dropped, since a click on start at every instant gives a fair
      run in which no timer ever fires.

    The theorems on reachable states assume [0 <= historySize] and
    [gridSize <= 2^32 - 1] (the largest length of an array, needed for the
    dataset strings to be read back as indices); both hold for the constants
    of the script.

    Theorems whose comment starts with an identifier [C<n>] are the listed
    properties of the development; each one that has hypotheses is followed,
    at the end of its file, by a witness that applies it to a concrete input.

    ** Not modelled

    Floating-point rounding is not modelled: numbers are exact rationals, and
    the transcendental functions are interfaces.  The digits that
    [math.format] and [toString] produce are those of the instance of
    [Browser], not those of the libraries; the theorems on texts hold for
    every instance.  The value of a slider is taken to be a finite number.
    The document has only the elements the script names and the cells the
    script creates (no other element carries the class [cell]), and reading
    [innerHTML] returns the text that was written.  An array is read with
    a string key through [Text.keyLookup], which is what the language does
    for keys that are array indices, the keys the script stores; the other
    properties of an array ([length], what it inherits) have no counterpart,
    and no theorem reads one.  The object URL of the
    download is not kept, only the name, the type and the text of the file.
    A handler that throws leaves the state of the page outside the model:
    [step] has no transition for it, and the theorems show that no handler
    throws in a reachable state.  The scheduling of the browser is the
    nondeterminism of [step]: a timer that is active may fire at any time
    between two other events; the time between two ticks is not measured. *)

From Stdlib Require Import ZArith Lia.
From stdpp Require Import base tactics option list list_numbers.

#[local] Open Scope Z_scope.

(** ** The error monad

    [TypeError] is the exception JavaScript raises when a property of
    [undefined] is read; [OutOfGrid] marks an assignment that would add an
    element to a row, which is outside the grid the model describes;
    [OutOfFuel] marks a [while] loop that has not finished within the number
    of iterations the model gives it. *)

Inductive error : Type :=
| TypeError
| OutOfGrid
| OutOfFuel.

Inductive res (A : Type) : Type :=
| Ok (a : A)
| Throw (e : error).

Arguments Ok {A} a.
Arguments Throw {A} e.

#[export] Instance error_eq_dec : EqDecision error.
Proof. solve_decision. Defined.

#[export] Instance res_eq_dec {A} `{EqDecision A} : EqDecision (res A).
Proof. solve_decision. Defined.

#[export] Instance res_ret : MRet res := @Ok.

#[export] Instance res_bind : MBind res := fun A B f m =>
  match m with
  | Ok a => f a
  | Throw e => Throw e
  end.

#[export] Instance res_fmap : FMap res := fun A B f m =>
  match m with
  | Ok a => Ok (f a)
  | Throw e => Throw e
  end.

Definition is_Ok {A} (m : res A) : Prop := exists a, m = Ok a.

(** [from_option e o] turns a failed lookup into the exception [e]. *)
Definition from_option_res {A} (e : error) (o : option A) : res A :=
  match o with
  | Some a => Ok a
  | None => Throw e
  end.

(** ** Reading a list at a JavaScript index

    An index is a number; a negative one names no element. *)

Definition zlookup {A} (l : list A) (i : Z) : option A :=
  if decide (0 <= i) then l !! Z.to_nat i else None.

(** ** Loops

    [foldlM] is the body of a [for] loop run over the successive elements of a
    list, stopping at the first exception; [forZ n] runs it for
    [i = 0 .. n-1]. *)

Fixpoint foldlM {A S} (body : A -> S -> res S) (l : list A) (s : S) : res S :=
  match l with
  | [] => Ok s
  | x :: l' =>
      match body x s with
      | Ok s' => foldlM body l' s'
      | Throw e => Throw e
      end
  end.

Definition forZ {S} (n : Z) (body : Z -> S -> res S) (s : S) : res S :=
  foldlM body (seqZ 0 n) s.

(** [iterM n] runs a body that ignores the loop counter [n] times. *)
Fixpoint iterM {S} (n : nat) (body : S -> res S) (s : S) : res S :=
  match n with
  | O => Ok s
  | S n' =>
      match body s with
      | Ok s' => iterM n' body s'
      | Throw e => Throw e
      end
  end.

(** [l.forEach(x => ...)] with a callback that returns the new value of the
    element: the elements are visited in order, and the first exception
    stops the visit. *)
Fixpoint forEachM {A B} (f : A -> res B) (l : list A) : res (list B) :=
  match l with
  | [] => Ok []
  | x :: l' =>
      match f x with
      | Ok y =>
          match forEachM f l' with
          | Ok k => Ok (y :: k)
          | Throw e => Throw e
          end
      | Throw e => Throw e
      end
  end.

(** [l.forEach((x, i) => ...)]: the elements with their indices. *)
Definition indexed {A} (l : list A) : list (Z * A) :=
  zip (seqZ 0 (Z.of_nat (length l))) l.

(** ** Finite sums, the reference against which accumulating loops are
    compared *)

Definition sumZ {A} (f : A -> Z) (l : list A) : Z :=
  foldr (fun x acc => f x + acc) 0 l.

(** The sum of [f] over the sites [(i, j)] with [0 <= i, j < n]. *)
Definition sum_sites (n : Z) (f : Z -> Z -> Z) : Z :=
  sumZ (fun i => sumZ (fun j => f i j) (seqZ 0 n)) (seqZ 0 n).

(** ** Tactics *)

(** Case analysis on the outcome of the first monadic step of the goal or of
    a hypothesis. *)
Ltac case_res :=
  match goal with
  | |- context [match ?m with Ok _ => _ | Throw _ => _ end] =>
      let E := fresh "E" in destruct m eqn:E
  | H : context [match ?m with Ok _ => _ | Throw _ => _ end] |- _ =>
      let E := fresh "E" in destruct m eqn:E
  end.

Ltac unfold_res := unfold mbind, mret, fmap, res_bind, res_ret, res_fmap in *.

Ltac simplify_res :=
  repeat (unfold_res; simpl in *; simplify_eq; try case_res).

(** Closes a decidable goal on concrete data by evaluating its decision
    procedure, or the goal itself. *)
Ltac solve_concrete :=
  first
    [ apply (bool_decide_unpack _); vm_compute; exact I
    | vm_compute; first [reflexivity | intuition discriminate | lia] ].

Create HintDb heis discriminated.

(** ** Lemmas *)

Section res_lemmas.
Context {A B : Type}.
Implicit Types (m : res A) (f : A -> res B).

Lemma bind_Ok m f a : m = Ok a -> m ≫= f = f a.
Proof. by intros ->. Qed.

Lemma bind_Ok_inv m f b :
  m ≫= f = Ok b -> exists a, m = Ok a /\ f a = Ok b.
Proof. destruct m as [a|e]; simpl; [eauto | discriminate]. Qed.

Lemma bind_Throw m f e : m = Throw e -> m ≫= f = Throw e.
Proof. by intros ->. Qed.

Lemma fmap_Ok (g : A -> B) m a : m = Ok a -> g <$> m = Ok (g a).
Proof. by intros ->. Qed.

Lemma is_Ok_Ok (a : A) : is_Ok (Ok a).
Proof. by exists a. Qed.

Lemma is_Ok_Throw (e : error) : ~ is_Ok (@Throw A e).
Proof. by intros [a ?]. Qed.

Lemma is_Ok_bind m f :
  is_Ok (m ≫= f) <-> exists a, m = Ok a /\ is_Ok (f a).
Proof.
  split.
  - intros [b Hb]. apply bind_Ok_inv in Hb as (a & -> & Hf).
    exists a. split; [done | by exists b].
  - intros (a & -> & Hf). done.
Qed.
End res_lemmas.

#[export] Hint Resolve is_Ok_Ok : heis.

Section zlookup_lemmas.
Context {A : Type}.
Implicit Types (l : list A) (i : Z).

Lemma zlookup_nonneg l i : 0 <= i -> zlookup l i = l !! Z.to_nat i.
Proof. intros. unfold zlookup. by case_decide. Qed.

Lemma zlookup_neg l i : i < 0 -> zlookup l i = None.
Proof. intros. unfold zlookup. case_decide; [lia | done]. Qed.

Lemma zlookup_of_nat l (n : nat) : zlookup l (Z.of_nat n) = l !! n.
Proof. rewrite zlookup_nonneg by lia. by rewrite Nat2Z.id. Qed.

Lemma zlookup_is_Some l i :
  is_Some (zlookup l i) <-> 0 <= i < Z.of_nat (length l).
Proof.
  unfold zlookup. case_decide.
  - rewrite lookup_lt_is_Some. lia.
  - split; [by intros [? ?] | lia].
Qed.

Lemma zlookup_None l i :
  zlookup l i = None <-> i < 0 \/ Z.of_nat (length l) <= i.
Proof.
  rewrite eq_None_not_Some, zlookup_is_Some. lia.
Qed.

Lemma zlookup_insert_eq l i x :
  0 <= i < Z.of_nat (length l) ->
  zlookup (<[Z.to_nat i := x]> l) i = Some x.
Proof.
  intros. rewrite zlookup_nonneg by lia.
  apply list_lookup_insert_eq. lia.
Qed.

Lemma zlookup_insert_ne l i j x :
  0 <= i -> i <> j -> zlookup (<[Z.to_nat i := x]> l) j = zlookup l j.
Proof.
  intros. unfold zlookup. case_decide; [|done].
  apply list_lookup_insert_ne. lia.
Qed.

Lemma zlookup_replicate (n : nat) (x : A) i :
  0 <= i < Z.of_nat n -> zlookup (replicate n x) i = Some x.
Proof.
  intros. rewrite zlookup_nonneg by lia.
  apply lookup_replicate_2. lia.
Qed.
End zlookup_lemmas.

(** Dropping fewer elements than the list holds keeps its last one. *)
Lemma last_drop_lt {A} (l : list A) (n : nat) :
  (n < length l)%nat -> last (drop n l) = last l.
Proof.
  intros Hn. rewrite !last_lookup, lookup_drop, length_drop. f_equal. lia.
Qed.

Lemma zlookup_fmap_seqZ {A} (f : Z -> A) (n i : Z) :
  0 <= i < n -> zlookup (f <$> seqZ 0 n) i = Some (f i).
Proof.
  intros Hi. rewrite zlookup_nonneg by lia.
  rewrite list_lookup_fmap, (lookup_seqZ_lt 0 n (Z.to_nat i)) by lia. simpl.
  f_equal. f_equal. lia.
Qed.

Lemma zlookup_last {A} (l : list A) (x : A) :
  last l = Some x -> zlookup l (Z.of_nat (length l) - 1) = Some x.
Proof.
  intros Hlast. destruct l as [|y l]; [done|].
  rewrite last_lookup in Hlast. rewrite zlookup_nonneg by (simpl; lia).
  rewrite <- Hlast. f_equal. simpl. lia.
Qed.

Section loop_lemmas.
Context {A S : Type}.
Implicit Types (body : A -> S -> res S) (l : list A) (s : S).

Lemma foldlM_cons body x l s :
  foldlM body (x :: l) s = body x s ≫= foldlM body l.
Proof. done. Qed.

Lemma foldlM_app body l1 l2 s :
  foldlM body (l1 ++ l2) s = foldlM body l1 s ≫= foldlM body l2.
Proof.
  revert s. induction l1 as [|x l1 IH]; intros s; simpl; [done|].
  destruct (body x s); simpl; [apply IH | done].
Qed.

(** An invariant that every iteration preserves holds when the loop ends,
    and the loop does not throw if no iteration does. *)
Lemma foldlM_invariant (I : S -> Prop) body l s :
  I s ->
  (forall x s0, x ∈ l -> I s0 -> exists s1, body x s0 = Ok s1 /\ I s1) ->
  exists s', foldlM body l s = Ok s' /\ I s'.
Proof.
  revert s. induction l as [|x l IH]; intros s Hs Hbody; simpl.
  - eauto.
  - destruct (Hbody x s) as (s1 & -> & Hs1); [left | done |].
    apply IH; [done|]. intros y s0 Hy. apply Hbody. by right.
Qed.

(** Two bodies that agree on the elements of the list run the same loop. *)
Lemma foldlM_ext body1 body2 l s :
  (forall x s0, x ∈ l -> body1 x s0 = body2 x s0) ->
  foldlM body1 l s = foldlM body2 l s.
Proof.
  revert s. induction l as [|x l IH]; intros s Hb; simpl; [done|].
  rewrite Hb by left. destruct (body2 x s); [|done].
  apply IH. intros y s0 Hy. apply Hb. by right.
Qed.

(** A loop whose iterations only add to a log kept in the state (the
    children of an element, the text of an element) adds what the
    iterations emit, in their order. *)
Lemma foldlM_log {B} (add : S -> list B -> S) (emit : A -> list B)
    (I : S -> Prop) body l s :
  (forall s0, add s0 [] = s0) ->
  (forall s0 k1 k2, add (add s0 k1) k2 = add s0 (k1 ++ k2)) ->
  (forall s0 k, I s0 -> I (add s0 k)) ->
  I s ->
  (forall x s0, x ∈ l -> I s0 -> body x s0 = Ok (add s0 (emit x))) ->
  foldlM body l s = Ok (add s (l ≫= emit)).
Proof.
  intros Hnil Happ HI. revert s. induction l as [|x l IH]; intros s Hs Hb; simpl.
  - by rewrite Hnil.
  - rewrite Hb by (done || left). rewrite IH.
    + by rewrite Happ.
    + by apply HI.
    + intros y s0 Hy. apply Hb. by right.
Qed.
End loop_lemmas.

Section forEach_lemmas.
Context {A B : Type}.
Implicit Types (f : A -> res B) (l : list A).

(** A visit in which no callback throws is a map. *)
Lemma forEachM_Ok f (g : A -> B) l :
  (forall x, x ∈ l -> f x = Ok (g x)) -> forEachM f l = Ok (g <$> l).
Proof.
  induction l as [|x l IH]; intros Hf; simpl; [done|].
  rewrite Hf by left. rewrite IH; [done|]. intros y Hy. apply Hf. by right.
Qed.

(** The visit stops at the first callback that throws. *)
Lemma forEachM_throws f (e : error) l1 x l2 :
  (forall y, y ∈ l1 -> is_Ok (f y)) -> f x = Throw e ->
  forEachM f (l1 ++ x :: l2) = Throw e.
Proof.
  intros Hl1 Hx. induction l1 as [|y l1 IH]; simpl; [by rewrite Hx|].
  destruct (Hl1 y) as [b ->]; [left|].
  rewrite IH; [done|]. intros z Hz. apply Hl1. by right.
Qed.

Lemma forEachM_length f l k : forEachM f l = Ok k -> length k = length l.
Proof.
  revert k. induction l as [|x l IH]; intros k; simpl; [by intros [= <-]|].
  destruct (f x); [|done]. destruct (forEachM f l); [|done].
  intros [= <-]. simpl. f_equal. by apply IH.
Qed.
End forEach_lemmas.

Lemma indexed_length {A} (l : list A) : length (indexed l) = length l.
Proof. unfold indexed. rewrite length_zip, length_seqZ. lia. Qed.

Lemma indexed_lookup {A} (l : list A) (i : nat) (x : A) :
  l !! i = Some x -> indexed l !! i = Some (Z.of_nat i, x).
Proof.
  intros Hx. unfold indexed. apply lookup_zip_with_Some. exists (Z.of_nat i), x.
  split; [done|]. split; [|done].
  apply lookup_seqZ. apply lookup_lt_Some in Hx. lia.
Qed.

Section iter_lemmas.
Context {S : Type}.
Implicit Types (body : S -> res S) (s : S) (n k : nat).

Lemma iterM_S body n s : iterM (Datatypes.S n) body s = body s ≫= iterM n body.
Proof. simpl. by destruct (body s). Qed.

Lemma iterM_invariant_from (I : nat -> S -> Prop) body n k s :
  I k s ->
  (forall m s0, (k <= m < k + n)%nat -> I m s0 ->
     exists s1, body s0 = Ok s1 /\ I (Datatypes.S m) s1) ->
  exists s', iterM n body s = Ok s' /\ I (k + n)%nat s'.
Proof.
  revert k s. induction n as [|n IH]; intros k s Hs Hbody.
  - exists s. by rewrite Nat.add_0_r.
  - destruct (Hbody k s) as (s1 & Hs1 & HI); [lia | done |].
    rewrite iterM_S, Hs1. simpl.
    destruct (IH (Datatypes.S k) s1) as (s' & Hs' & HI'); [done | |].
    + intros m s0 Hm. apply Hbody. lia.
    + exists s'. split; [done|]. by replace (k + Datatypes.S n)%nat
        with (Datatypes.S k + n)%nat by lia.
Qed.

(** An invariant indexed by the number of iterations made: if every
    iteration takes it from [m] to [m + 1] without throwing, the loop of [n]
    iterations does not throw and ends in a state that satisfies it at [n]. *)
Lemma iterM_invariant (I : nat -> S -> Prop) body n s :
  I 0%nat s ->
  (forall m s0, (m < n)%nat -> I m s0 ->
     exists s1, body s0 = Ok s1 /\ I (Datatypes.S m) s1) ->
  exists s', iterM n body s = Ok s' /\ I n s'.
Proof.
  intros Hs Hbody. apply (iterM_invariant_from I body n 0 s); [done|].
  intros m s0 Hm. apply Hbody. lia.
Qed.

(** Two bodies that agree on every state the loop can reach run the same
    loop. *)
Lemma iterM_agree_from (P : nat -> S -> Prop) body1 body2 n k s :
  P k s ->
  (forall m s0, (k <= m < k + n)%nat -> P m s0 ->
     body1 s0 = body2 s0 /\ forall s1, body1 s0 = Ok s1 -> P (Datatypes.S m) s1) ->
  iterM n body1 s = iterM n body2 s.
Proof.
  revert k s. induction n as [|n IH]; intros k s Hs Hbody; [done|].
  destruct (Hbody k s ltac:(lia) Hs) as [Heq Hnext].
  rewrite !iterM_S, <- Heq. destruct (body1 s) as [s1|e]; [|done].
  simpl. apply (IH (Datatypes.S k)); [by apply Hnext |].
  intros m s0 Hm. apply Hbody. lia.
Qed.
End iter_lemmas.

Section sum_lemmas.
Context {A : Type}.
Implicit Types (f g : A -> Z) (l : list A).

Lemma sumZ_nil f : sumZ f [] = 0.
Proof. done. Qed.

Lemma sumZ_cons f x l : sumZ f (x :: l) = f x + sumZ f l.
Proof. done. Qed.

Lemma sumZ_app f l1 l2 : sumZ f (l1 ++ l2) = sumZ f l1 + sumZ f l2.
Proof. induction l1 as [|x l1 IH]; simpl; [done | rewrite IH; lia]. Qed.

Lemma sumZ_ext f g l : (forall x, x ∈ l -> f x = g x) -> sumZ f l = sumZ g l.
Proof.
  induction l as [|x l IH]; intros H; simpl; [done|].
  rewrite H by left. rewrite IH; [done|]. intros y Hy. apply H. by right.
Qed.

Lemma sumZ_add f g l :
  sumZ (fun x => f x + g x) l = sumZ f l + sumZ g l.
Proof. induction l as [|x l IH]; simpl; lia. Qed.

Lemma sumZ_scale (c : Z) f l : sumZ (fun x => c * f x) l = c * sumZ f l.
Proof. induction l as [|x l IH]; simpl; lia. Qed.

Lemma sumZ_const (c : Z) l : sumZ (fun _ => c) l = c * Z.of_nat (length l).
Proof. induction l as [|x l IH]; simpl length; simpl sumZ; lia. Qed.

Lemma sumZ_bounds (lo hi : Z) f l :
  (forall x, x ∈ l -> lo <= f x <= hi) ->
  lo * Z.of_nat (length l) <= sumZ f l <= hi * Z.of_nat (length l).
Proof.
  induction l as [|x l IH]; intros H; simpl length; simpl sumZ; [lia|].
  pose proof (H x ltac:(left)).
  assert (forall y, y ∈ l -> lo <= f y <= hi) as Hl
    by (intros y Hy; apply H; by right).
  specialize (IH Hl). lia.
Qed.

(** The accumulating loop [acc += f x] computes the sum. *)
Lemma foldlM_sum (body : A -> Z -> res Z) f l (acc : Z) :
  (forall x a, x ∈ l -> body x a = Ok (a + f x)) ->
  foldlM body l acc = Ok (acc + sumZ f l).
Proof.
  revert acc. induction l as [|x l IH]; intros acc H; simpl.
  - f_equal. lia.
  - rewrite H by left. rewrite IH.
    + f_equal. lia.
    + intros y a Hy. apply H. by right.
Qed.
End sum_lemmas.

Lemma length_seqZ_nonneg (n : Z) :
  0 <= n -> Z.of_nat (length (seqZ 0 n)) = n.
Proof. intros. rewrite length_seqZ. lia. Qed.

Lemma sum_sites_ext (n : Z) (f g : Z -> Z -> Z) :
  (forall i j, 0 <= i < n -> 0 <= j < n -> f i j = g i j) ->
  sum_sites n f = sum_sites n g.
Proof.
  intros H. unfold sum_sites. apply sumZ_ext. intros i Hi.
  apply sumZ_ext. intros j Hj.
  apply elem_of_seqZ in Hi, Hj. apply H; lia.
Qed.

Lemma sum_sites_add (n : Z) (f g : Z -> Z -> Z) :
  sum_sites n (fun i j => f i j + g i j) = sum_sites n f + sum_sites n g.
Proof.
  unfold sum_sites. rewrite <- sumZ_add. apply sumZ_ext. intros i _.
  apply sumZ_add.
Qed.

Lemma sum_sites_scale (n c : Z) (f : Z -> Z -> Z) :
  sum_sites n (fun i j => c * f i j) = c * sum_sites n f.
Proof.
  unfold sum_sites. rewrite <- sumZ_scale. apply sumZ_ext. intros i _.
  apply sumZ_scale.
Qed.

Lemma sum_sites_const (n c : Z) : 0 <= n -> sum_sites n (fun _ _ => c) = c * (n * n).
Proof.
  intros. unfold sum_sites.
  rewrite (sumZ_ext _ (fun _ => c * n)).
  - rewrite sumZ_const, length_seqZ_nonneg by done. lia.
  - intros i _. by rewrite sumZ_const, length_seqZ_nonneg.
Qed.

Lemma sum_sites_bounds (n lo hi : Z) (f : Z -> Z -> Z) :
  0 <= n ->
  (forall i j, 0 <= i < n -> 0 <= j < n -> lo <= f i j <= hi) ->
  lo * (n * n) <= sum_sites n f <= hi * (n * n).
Proof.
  intros Hn H. unfold sum_sites.
  pose proof (sumZ_bounds (lo * n) (hi * n)
    (fun i => sumZ (fun j => f i j) (seqZ 0 n)) (seqZ 0 n)) as Hb.
  rewrite length_seqZ_nonneg in Hb by done.
  assert (lo * n * n = lo * (n * n)) as <- by lia.
  assert (hi * n * n = hi * (n * n)) as <- by lia.
  apply Hb. intros i Hi. apply elem_of_seqZ in Hi.
  pose proof (sumZ_bounds lo hi (fun j => f i j) (seqZ 0 n)) as Hc.
  rewrite length_seqZ_nonneg in Hc by done.
  apply Hc. intros j Hj. apply elem_of_seqZ in Hj. apply H; lia.
Qed.

(** ** Sums under a change of the summand at one or two points *)

Lemma sumZ_fmap {A B} (f : B -> Z) (g : A -> B) (l : list A) :
  sumZ f (g <$> l) = sumZ (fun x => f (g x)) l.
Proof.
  induction l as [|x l IH]; [done|]. rewrite fmap_cons. simpl. by f_equal.
Qed.

Lemma sumZ_update {A} (f f' : A -> Z) (l : list A) (x : A) :
  NoDup l -> x ∈ l -> (forall y, y ∈ l -> y <> x -> f' y = f y) ->
  sumZ f' l = sumZ f l + f' x - f x.
Proof.
  induction l as [|y l IH]; intros Hnd Hx Hf; [by apply elem_of_nil in Hx|].
  apply NoDup_cons in Hnd as [Hy Hnd]. simpl.
  apply elem_of_cons in Hx as [<- | Hx].
  - rewrite (sumZ_ext f' f l); [lia|].
    intros z Hz. apply Hf; [by right | by intros ->].
  - rewrite IH; [| done | done | by intros z Hz; apply Hf; right].
    rewrite (Hf y); [lia | left | by intros ->].
Qed.

Lemma sum_sites_update (n : Z) (F F' : Z -> Z -> Z) (a b : Z) :
  0 <= a < n -> 0 <= b < n ->
  (forall i j, 0 <= i < n -> 0 <= j < n -> (i, j) <> (a, b) -> F' i j = F i j) ->
  sum_sites n F' = sum_sites n F + F' a b - F a b.
Proof.
  intros Ha Hb HF.
  change (sum_sites n F')
    with (sumZ (fun i => sumZ (F' i) (seqZ 0 n)) (seqZ 0 n)).
  change (sum_sites n F)
    with (sumZ (fun i => sumZ (F i) (seqZ 0 n)) (seqZ 0 n)).
  rewrite (sumZ_update (fun i => sumZ (F i) (seqZ 0 n)) _ _ a);
    [| apply NoDup_seqZ | apply elem_of_seqZ; lia |].
  - rewrite (sumZ_update (F a) (F' a) _ b);
      [lia | apply NoDup_seqZ | apply elem_of_seqZ; lia |].
    intros j Hj Hne. apply elem_of_seqZ in Hj. apply HF; [lia.. | congruence].
  - intros i Hi Hne. apply elem_of_seqZ in Hi.
    apply sumZ_ext. intros j Hj. apply elem_of_seqZ in Hj.
    apply HF; [lia.. | congruence].
Qed.

Lemma sum_sites_update2 (n : Z) (F F' : Z -> Z -> Z) (a b c d : Z) :
  0 <= a < n -> 0 <= b < n -> 0 <= c < n -> 0 <= d < n -> (a, b) <> (c, d) ->
  (forall i j, 0 <= i < n -> 0 <= j < n ->
     (i, j) <> (a, b) -> (i, j) <> (c, d) -> F' i j = F i j) ->
  sum_sites n F' = sum_sites n F + (F' a b - F a b) + (F' c d - F c d).
Proof.
  intros Ha Hb Hc Hd Hne HF.
  set (G := fun i j => if decide ((i, j) = (a, b)) then F' i j else F i j).
  assert (sum_sites n G = sum_sites n F + G a b - F a b) as HG.
  { apply sum_sites_update; [done..|]. intros i j _ _ Hij.
    unfold G. by rewrite decide_False. }
  assert (sum_sites n F' = sum_sites n G + F' c d - G c d) as HF'.
  { apply sum_sites_update; [done..|]. intros i j Hi Hj Hij.
    unfold G. case_decide; [congruence | by apply HF]. }
  rewrite HF', HG. unfold G.
  rewrite decide_True by done. rewrite decide_False by done. lia.
Qed.

Lemma sumZ_le {A} (f g : A -> Z) (l : list A) :
  (forall x, x ∈ l -> f x <= g x) -> sumZ f l <= sumZ g l.
Proof.
  induction l as [|x l IH]; intros Hle; [done|]. rewrite !sumZ_cons.
  pose proof (Hle x ltac:(left)).
  assert (sumZ f l <= sumZ g l) by (apply IH; intros y Hy; apply Hle; by right).
  lia.
Qed.

Lemma sum_sites_le (n : Z) (f g : Z -> Z -> Z) :
  (forall i j, 0 <= i < n -> 0 <= j < n -> f i j <= g i j) ->
  sum_sites n f <= sum_sites n g.
Proof.
  intros Hle. unfold sum_sites. apply sumZ_le. intros i Hi%elem_of_seqZ.
  apply sumZ_le. intros j Hj%elem_of_seqZ. apply Hle; lia.
Qed.

(** A sum whose summand stays below [hi] everywhere and [d] below it at one
    site stays [d] below the bound. *)
Lemma sum_sites_deficit (n hi d : Z) (f : Z -> Z -> Z) (a b : Z) :
  0 <= a < n -> 0 <= b < n ->
  (forall i j, 0 <= i < n -> 0 <= j < n -> f i j <= hi) ->
  f a b <= hi - d ->
  sum_sites n f <= hi * (n * n) - d.
Proof.
  intros Ha Hb Hle Hab.
  set (F' := fun i j => if decide ((i, j) = (a, b)) then hi else f i j).
  assert (sum_sites n F' = sum_sites n f + F' a b - f a b) as HF'.
  { apply sum_sites_update; [done..|]. intros i j _ _ Hij.
    unfold F'. by rewrite decide_False. }
  assert (sum_sites n F' <= hi * (n * n)) as Hsum.
  { rewrite <- sum_sites_const by lia. apply sum_sites_le.
    intros i j Hi Hj. unfold F'. case_decide; [lia | by apply Hle]. }
  unfold F' in HF' at 2. rewrite decide_True in HF' by done. lia.
Qed.

(** A sum of products of a site with one of its neighbours, when the value
    at one site changes sign.  [nb] maps a site to that neighbour and [pb]
    is its inverse at the changed site [(i, j)]. *)
Section bond_flip.
Context (n : Z) (s s' : Z -> Z -> Z) (nb pb : Z * Z -> Z * Z) (i j : Z).
Let inside (p : Z * Z) : Prop := 0 <= p.1 < n /\ 0 <= p.2 < n.
Context (Hin : inside (i, j)) (Hpb_in : inside (pb (i, j))).
Context (Hnb_pb : nb (pb (i, j)) = (i, j)).
Context (Hnb_inj : forall p, inside p -> nb p = (i, j) -> p = pb (i, j)).
Context (Hnb_ne : nb (i, j) <> (i, j)).
Context (Hflip : s' i j = - s i j).
Context (Hsame : forall k l, (k, l) <> (i, j) -> s' k l = s k l).

Lemma bond_flip_pb_ne : pb (i, j) <> (i, j).
Proof using Hnb_pb Hnb_ne. intros Heq. rewrite Heq in Hnb_pb. done. Qed.

Lemma bond_sum_flip :
  sum_sites n (fun k l => s' k l * s' (nb (k, l)).1 (nb (k, l)).2)
  = sum_sites n (fun k l => s k l * s (nb (k, l)).1 (nb (k, l)).2)
    - 2 * (s i j * s (nb (i, j)).1 (nb (i, j)).2)
    - 2 * (s (pb (i, j)).1 (pb (i, j)).2 * s i j).
Proof using All.
  pose proof bond_flip_pb_ne as Hpb_ne.
  destruct (pb (i, j)) as [a b] eqn:Epb. destruct (nb (i, j)) as [c d] eqn:Enb.
  destruct Hin as [Hi Hj]. destruct Hpb_in as [Ha Hb]. simpl in *.
  rewrite (sum_sites_update2 n
    (fun k l => s k l * s (nb (k, l)).1 (nb (k, l)).2) _ i j a b);
    [| done.. | congruence |].
  - rewrite Enb, Hnb_pb. simpl.
    rewrite Hflip, (Hsame c d), (Hsame a b) by congruence. lia.
  - intros k l Hk Hl Hne1 Hne2. rewrite (Hsame k l) by done. f_equal.
    destruct (nb (k, l)) as [u v] eqn:Euv. simpl. apply Hsame.
    intros [= -> ->]. apply Hne2. by apply (Hnb_inj (k, l)).
Qed.
End bond_flip.

(** ** Successor and predecessor modulo [n] *)

Lemma mod_succ_cases (n i : Z) :
  0 <= i < n ->
  ((i + 1) mod n = i + 1 /\ i + 1 < n) \/ ((i + 1) mod n = 0 /\ i = n - 1).
Proof.
  intros Hi. destruct (decide (i + 1 < n)) as [Hlt | Hge].
  - left. split; [apply Z.mod_small; lia | done].
  - right. assert (i + 1 = n) as -> by lia.
    split; [apply Z.mod_same; lia | lia].
Qed.

Lemma mod_pred_cases (n i : Z) :
  0 <= i < n ->
  ((i - 1) mod n = i - 1 /\ 0 < i) \/ ((i - 1) mod n = n - 1 /\ i = 0).
Proof.
  intros Hi. destruct (decide (0 < i)) as [Hlt | Hge].
  - left. split; [apply Z.mod_small; lia | done].
  - right. assert (i = 0) as -> by lia. split; [|done].
    rewrite <- (Z.mod_add _ 1 n) by lia.
    replace (0 - 1 + 1 * n) with (n - 1) by lia. apply Z.mod_small. lia.
Qed.

(** Case analysis on every successor or predecessor modulo [n] in sight,
    then linear arithmetic. *)
Ltac name_mod lem n i t :=
  let Hr := fresh in
  let Hx := fresh in
  let x := fresh "m" in
  assert (0 <= i < n) as Hr by lia;
  pose proof (lem n i Hr) as Hx; clear Hr;
  set (x := t) in *; clearbody x.

Ltac mod_cases :=
  repeat match goal with
  | |- context [(?i + 1) mod ?n] =>
      name_mod mod_succ_cases n i ((i + 1) mod n)
  | |- context [(?i - 1) mod ?n] =>
      name_mod mod_pred_cases n i ((i - 1) mod n)
  | H0 : context [(?i + 1) mod ?n] |- _ =>
      name_mod mod_succ_cases n i ((i + 1) mod n)
  | H0 : context [(?i - 1) mod ?n] |- _ =>
      name_mod mod_pred_cases n i ((i - 1) mod n)
  end; try lia.

Lemma mod_succ_pred (n i : Z) : 0 <= i < n -> ((i - 1) mod n + 1) mod n = i.
Proof. intros. mod_cases. Qed.

Lemma mod_succ_ne (n i : Z) : 1 < n -> 0 <= i < n -> (i + 1) mod n <> i.
Proof. intros. mod_cases. Qed.

Lemma mod_succ_inj (n i k : Z) :
  0 <= i < n -> 0 <= k < n -> (k + 1) mod n = i -> k = (i - 1) mod n.
Proof. intros ? ? Heq. mod_cases. Qed.

(** ** Sums over a cyclic shift of the index *)

Lemma sumZ_seqZ_last (n : Z) (f : Z -> Z) :
  0 <= n -> sumZ f (seqZ 0 (n + 1)) = sumZ f (seqZ 0 n) + f n.
Proof.
  intros. rewrite (seqZ_app 0 n 1) by lia. rewrite sumZ_app.
  rewrite (seqZ_cons (0 + n) 1), (seqZ_nil _ (Z.pred 1)) by lia. simpl.
  rewrite Z.add_0_r. done.
Qed.

Lemma sumZ_seqZ_first (n : Z) (f : Z -> Z) :
  0 <= n -> sumZ f (seqZ 0 (n + 1)) = f 0 + sumZ (fun i => f (1 + i)) (seqZ 0 n).
Proof.
  intros. rewrite seqZ_cons by lia. simpl. f_equal.
  replace (Z.pred (n + 1)) with n by lia.
  change (Z.succ 0) with (1 + 0). rewrite <- fmap_add_seqZ. apply sumZ_fmap.
Qed.

Lemma sumZ_rotate (n : Z) (f : Z -> Z) :
  0 < n -> sumZ (fun i => f ((i + 1) mod n)) (seqZ 0 n) = sumZ f (seqZ 0 n).
Proof.
  intros Hn.
  assert (exists m, 0 <= m /\ n = m + 1) as (m & Hm & ->)
    by (exists (n - 1); lia).
  rewrite sumZ_seqZ_last, (sumZ_seqZ_first m f) by done.
  rewrite Z.mod_same by lia.
  rewrite (sumZ_ext _ (fun i => f (1 + i))); [lia|].
  intros i Hi. apply elem_of_seqZ in Hi.
  rewrite Z.mod_small by lia. f_equal. lia.
Qed.

(** ** Sums over the elements of a list and over its indices *)

Lemma foldl_sumZ {A} (f : A -> Z) (l : list A) (acc : Z) :
  foldl (fun a x => a + f x) acc l = acc + sumZ f l.
Proof.
  revert acc. induction l as [|x l IH]; intros acc; simpl; [lia|].
  rewrite IH. lia.
Qed.

Lemma sumZ_zlookup {A} (f : A -> Z) (d : Z) (l : list A) :
  sumZ f l
  = sumZ (fun i => from_option f d (zlookup l i)) (seqZ 0 (Z.of_nat (length l))).
Proof.
  induction l as [|x l IH]; [done|].
  replace (Z.of_nat (length (x :: l))) with (Z.of_nat (length l) + 1)
    by (simpl; lia).
  rewrite sumZ_seqZ_first by lia. simpl. f_equal. rewrite IH.
  apply sumZ_ext. intros i Hi. apply elem_of_seqZ in Hi.
  unfold zlookup. rewrite !decide_True by lia.
  replace (Z.to_nat (1 + i)) with (Datatypes.S (Z.to_nat i)) by lia. done.
Qed.

Lemma sum_sites_rotate_rows (n : Z) (F : Z -> Z -> Z) :
  0 < n ->
  sum_sites n (fun i j => F ((i + 1) mod n) j) = sum_sites n F.
Proof.
  intros. unfold sum_sites.
  apply (sumZ_rotate n (fun i => sumZ (fun j => F i j) (seqZ 0 n))). done.
Qed.

Lemma sum_sites_rotate_cols (n : Z) (F : Z -> Z -> Z) :
  0 < n ->
  sum_sites n (fun i j => F i ((j + 1) mod n)) = sum_sites n F.
Proof.
  intros. unfold sum_sites. apply sumZ_ext. intros i _.
  by apply (sumZ_rotate n (F i)).
Qed.

(** A nested accumulating loop over the sites computes [sum_sites]. *)
Lemma forZ_sum_sites (n : Z) (body : Z -> Z -> Z -> res Z) (f : Z -> Z -> Z) (acc : Z) :
  (forall i j a, 0 <= i < n -> 0 <= j < n -> body i j a = Ok (a + f i j)) ->
  forZ n (fun i => forZ n (body i)) acc = Ok (acc + sum_sites n f).
Proof.
  intros H. unfold forZ, sum_sites.
  apply foldlM_sum. intros i a Hi. apply elem_of_seqZ in Hi.
  apply foldlM_sum. intros j b Hj. apply elem_of_seqZ in Hj.
  apply H; lia.
Qed.

(** ** Loops that sum and count, and loops that throw *)

Lemma foldlM_sum_pair {A} (body : A -> Z * Z -> res (Z * Z)) (f g : A -> Z)
    (l : list A) (acc : Z * Z) :
  (forall x a, x ∈ l -> body x a = Ok (a.1 + f x, a.2 + g x)) ->
  foldlM body l acc = Ok (acc.1 + sumZ f l, acc.2 + sumZ g l).
Proof.
  revert acc. induction l as [|x l IH]; intros [a c] Hb; simpl.
  - do 2 f_equal; lia.
  - rewrite Hb by left. rewrite IH by (intros y b Hy; apply Hb; by right).
    simpl. do 2 f_equal; lia.
Qed.

Lemma forZ_sum_count (n : Z) (body : Z -> Z -> Z * Z -> res (Z * Z))
    (f : Z -> Z -> Z) (acc : Z * Z) :
  0 <= n ->
  (forall i j a, 0 <= i < n -> 0 <= j < n ->
     body i j a = Ok (a.1 + f i j, a.2 + 1)) ->
  forZ n (fun i => forZ n (body i)) acc
  = Ok (acc.1 + sum_sites n f, acc.2 + n * n).
Proof.
  intros Hn Hb. unfold forZ.
  rewrite (foldlM_sum_pair _ (fun i => sumZ (f i) (seqZ 0 n)) (fun _ => n)).
  - unfold sum_sites. rewrite sumZ_const, length_seqZ_nonneg by done.
    do 2 f_equal; lia.
  - intros i a Hi. apply elem_of_seqZ in Hi.
    rewrite (foldlM_sum_pair _ (f i) (fun _ => 1)).
    + rewrite sumZ_const, length_seqZ_nonneg by done. do 2 f_equal; lia.
    + intros j b Hj. apply elem_of_seqZ in Hj. apply Hb; lia.
Qed.

(** A loop throws [e] when one iteration throws it from every state and the
    iterations before it return or throw [e] too. *)
Lemma foldlM_throws {A S} (body : A -> S -> res S) (e : error) (l : list A) (s : S) :
  (forall x s0, x ∈ l -> is_Ok (body x s0) \/ body x s0 = Throw e) ->
  (exists x, x ∈ l /\ forall s0, body x s0 = Throw e) ->
  foldlM body l s = Throw e.
Proof.
  revert s. induction l as [|x l IH]; intros s Hall (y & Hy & Hthrow).
  - by apply elem_of_nil in Hy.
  - simpl. destruct (Hall x s) as [[s1 E] | ->]; [left | | done].
    rewrite E. apply elem_of_cons in Hy as [-> | Hy].
    + by rewrite Hthrow in E.
    + apply IH; [intros; apply Hall; by right | eauto].
Qed.

Lemma foldl_foldl_sumZ {A} (f : A -> Z) (l : list (list A)) (acc : Z) :
  foldl (fun a row => foldl (fun a x => a + f x) a row) acc l
  = acc + sumZ (sumZ f) l.
Proof.
  revert acc. induction l as [|row l IH]; intros acc; simpl; [lia|].
  rewrite IH, foldl_sumZ. lia.
Qed.

Lemma foldlM_Ok_or_throws {A S} (body : A -> S -> res S) (e : error) (l : list A) (s : S) :
  (forall x s0, x ∈ l -> is_Ok (body x s0) \/ body x s0 = Throw e) ->
  is_Ok (foldlM body l s) \/ foldlM body l s = Throw e.
Proof.
  revert s. induction l as [|x l IH]; intros s Hall; simpl.
  - left. apply is_Ok_Ok.
  - destruct (Hall x s) as [[s1 ->] | ->]; [left | | by right].
    apply IH. intros. apply Hall. by right.
Qed.

Lemma forZ_throws {S} (n : Z) (body : Z -> S -> res S) (e : error) (i : Z) (s : S) :
  0 <= i < n ->
  (forall k s0, 0 <= k < n -> is_Ok (body k s0) \/ body k s0 = Throw e) ->
  (forall s0, body i s0 = Throw e) ->
  forZ n body s = Throw e.
Proof.
  intros Hi Hall Hthrow. apply foldlM_throws.
  - intros k s0 Hk. apply elem_of_seqZ in Hk. apply Hall. lia.
  - exists i. split; [apply elem_of_seqZ; lia | done].
Qed.

(** ** Counted loops with an invariant that follows the counter *)

Lemma seqZ_snoc (n : nat) : seqZ 0 (Z.of_nat (Datatypes.S n)) = seqZ 0 (Z.of_nat n) ++ [Z.of_nat n].
Proof.
  replace (Z.of_nat (Datatypes.S n)) with (Z.of_nat n + 1) by lia.
  rewrite seqZ_app by lia. by f_equal.
Qed.

Lemma forZ_invariant {S} (I : nat -> S -> Prop) (body : Z -> S -> res S)
    (n : nat) (s0 : S) :
  I O s0 ->
  (forall k s, (k < n)%nat -> I k s ->
     exists s', body (Z.of_nat k) s = Ok s' /\ I (Datatypes.S k) s') ->
  exists s', forZ (Z.of_nat n) body s0 = Ok s' /\ I n s'.
Proof.
  intros H0 Hstep. unfold forZ.
  induction n as [|n IH]; [by exists s0|].
  destruct IH as (s1 & E1 & H1); [intros; apply Hstep; (lia || done)|].
  destruct (Hstep n s1) as (s2 & E2 & H2); [lia | done |].
  exists s2. rewrite seqZ_snoc, foldlM_app, E1. simpl. by rewrite E2.
Qed.

(** Writing the next element after a prefix that is already in place. *)
Lemma insert_after_prefix {A} (pre l0 : list A) (x : A) (k : nat) :
  length pre = k -> (k < length l0)%nat ->
  <[k := x]> (pre ++ drop k l0) = (pre ++ [x]) ++ drop (Datatypes.S k) l0.
Proof.
  intros <- Hlt. destruct (lookup_lt_is_Some_2 l0 (length pre) Hlt) as [y Hy].
  rewrite (drop_S _ _ _ Hy), insert_app_r_alt, Nat.sub_diag by lia.
  simpl. by rewrite <- app_assoc.
Qed.

(** A loop that writes its [k]-th value at index [k] fills the list. *)
Lemma forZ_fill {A} (P : A -> Prop) (n : nat)
    (body : Z -> list A -> res (list A)) (v : Z -> A) (l0 : list A) :
  length l0 = n -> Forall P l0 -> (forall k, 0 <= k -> P (v k)) ->
  (forall k l, (k < n)%nat -> length l = n -> Forall P l ->
     body (Z.of_nat k) l = Ok (<[k := v (Z.of_nat k)]> l)) ->
  forZ (Z.of_nat n) body l0 = Ok (v <$> seqZ 0 (Z.of_nat n)).
Proof.
  intros Hlen Hl0 Hv Hbody.
  destruct (forZ_invariant
    (fun k l => l = (v <$> seqZ 0 (Z.of_nat k)) ++ drop k l0) body n l0)
    as (l & E & ->).
  - done.
  - intros k l Hk ->. eexists. split.
    + apply Hbody; [done | |].
      * rewrite length_app, length_fmap, length_seqZ, length_drop. lia.
      * apply Forall_app. split; [|by apply Forall_drop].
        apply Forall_fmap, Forall_forall. intros i Hi%elem_of_seqZ.
        apply Hv. lia.
    + set (pre := v <$> seqZ 0 (Z.of_nat k)).
      assert (length pre = k) as Hpre
        by (unfold pre; rewrite length_fmap, length_seqZ; lia).
      rewrite (insert_after_prefix pre) by (done || lia).
      by rewrite seqZ_snoc, fmap_app.
  - rewrite E, drop_ge, app_nil_r by lia. done.
Qed.

(** The same through a row of a matrix: the loop fills row [i]. *)
Lemma forZ_fill_row {A} (n : nat) (body : Z -> list (list A) -> res (list (list A)))
    (v : Z -> A) (m : list (list A)) (i : nat) (row0 : list A) :
  m !! i = Some row0 -> length row0 = n ->
  (forall k row, (k < n)%nat -> length row = n ->
     body (Z.of_nat k) (<[i := row]> m)
     = Ok (<[i := <[k := v (Z.of_nat k)]> row]> m)) ->
  forZ (Z.of_nat n) body m = Ok (<[i := v <$> seqZ 0 (Z.of_nat n)]> m).
Proof.
  intros Hrow Hlen Hbody.
  destruct (forZ_invariant
    (fun k s => s = <[i := (v <$> seqZ 0 (Z.of_nat k)) ++ drop k row0]> m) body n m)
    as (s & E & ->).
  - simpl. by rewrite list_insert_id.
  - intros k s Hk ->. eexists. split.
    + apply Hbody; [done|].
      rewrite length_app, length_fmap, length_seqZ, length_drop. lia.
    + set (pre := v <$> seqZ 0 (Z.of_nat k)).
      assert (length pre = k) as Hpre
        by (unfold pre; rewrite length_fmap, length_seqZ; lia).
      rewrite (insert_after_prefix pre) by (done || lia).
      by rewrite seqZ_snoc, fmap_app.
  - rewrite E, drop_ge, app_nil_r by lia. done.
Qed.
