(* ===== verification/Numeric.v ===== *)
(** * JavaScript numbers, [Math.exp] and [Math.random]

    The script computes with IEEE doubles.  The model keeps their algebra and
    their special values and drops their rounding: a number is an exact
    rational, an infinity or NaN.  Zero is unsigned and stands for [+0], the
    only zero a slider value or a product of the script can produce before it
    divides by it.  The operations are the ones the script applies to values
    that may be special: [/], [*], unary and binary [-], [<] and [Math.exp].

    [Math.exp] and [Math.random] are interfaces ([ExpModel], [RandomSource]):
    the theorems hold for every implementation that satisfies their laws, and
    [rational_exp] and [lcg_random] are implementations that compute. *)

From Stdlib Require Import ZArith QArith Qround Qabs Lqa Lia.
From stdpp Require Import base tactics option list.
From S2P Require Import Prelude.

#[local] Open Scope Q_scope.

Declare Scope num_scope.
Delimit Scope num_scope with num.

(** ** Decidable order on the rationals *)

#[export] Instance Qlt_decision (x y : Q) : Decision (x < y).
Proof. unfold Qlt. apply _. Defined.

#[export] Instance Qle_decision (x y : Q) : Decision (x <= y).
Proof. unfold Qle. apply _. Defined.

#[export] Instance Qeq_decision (x y : Q) : Decision (x == y).
Proof. unfold Qeq. apply _. Defined.

(** ** Numbers *)

Inductive num : Type :=
| Fin (q : Q)
| PInf
| NInf
| NaN.

Bind Scope num_scope with num.

(** [a / b] *)
Definition ndiv (a b : num) : num :=
  match a, b with
  | NaN, _ | _, NaN => NaN
  | Fin x, Fin y =>
      if decide (y == 0) then
        if decide (x == 0) then NaN
        else if decide (0 < x) then PInf else NInf
      else Fin (x / y)
  | Fin _, (PInf | NInf) => Fin 0
  | PInf, Fin y => if decide (y < 0) then NInf else PInf
  | NInf, Fin y => if decide (y < 0) then PInf else NInf
  | (PInf | NInf), (PInf | NInf) => NaN
  end.

(** [a * b] *)
Definition nmul (a b : num) : num :=
  match a, b with
  | NaN, _ | _, NaN => NaN
  | Fin x, Fin y => Fin (x * y)
  | Fin x, PInf | PInf, Fin x =>
      if decide (x == 0) then NaN
      else if decide (0 < x) then PInf else NInf
  | Fin x, NInf | NInf, Fin x =>
      if decide (x == 0) then NaN
      else if decide (0 < x) then NInf else PInf
  | PInf, PInf | NInf, NInf => PInf
  | PInf, NInf | NInf, PInf => NInf
  end.

(** [-a] *)
Definition nneg (a : num) : num :=
  match a with
  | Fin x => Fin (- x)
  | PInf => NInf
  | NInf => PInf
  | NaN => NaN
  end.

(** [a - b] *)
Definition nsub (a b : num) : num :=
  match a, b with
  | NaN, _ | _, NaN => NaN
  | Fin x, Fin y => Fin (x - y)
  | Fin _, PInf => NInf
  | Fin _, NInf => PInf
  | PInf, (Fin _ | NInf) => PInf
  | NInf, (Fin _ | PInf) => NInf
  | PInf, PInf | NInf, NInf => NaN
  end.

(** [a < b]: false as soon as one side is NaN. *)
Definition nlt (a b : num) : bool :=
  match a, b with
  | NaN, _ | _, NaN => false
  | Fin x, Fin y => bool_decide (x < y)
  | _, NInf => false
  | PInf, _ => false
  | NInf, (Fin _ | PInf) => true
  | Fin _, PInf => true
  end.

Notation "a / b" := (ndiv a b) : num_scope.
Notation "a * b" := (nmul a b) : num_scope.
Notation "a - b" := (nsub a b) : num_scope.
Notation "- a" := (nneg a) : num_scope.
Notation "a <? b" := (nlt a b) : num_scope.

(** Two numbers are equivalent when they are the same special value or equal
    rationals. *)
Definition num_equiv (a b : num) : Prop :=
  match a, b with
  | Fin x, Fin y => x == y
  | PInf, PInf | NInf, NInf | NaN, NaN => True
  | _, _ => False
  end.

#[export] Instance num_equiv_inst : Equiv num := num_equiv.

Definition is_finite (a : num) : Prop :=
  match a with Fin _ => True | _ => False end.

(** ** [Math.exp] *)

Class ExpModel : Type := {
  qexp : Q -> Q;
  qexp_proper : Proper (Qeq ==> Qeq) qexp;
  qexp_0 : qexp 0 == 1;
  qexp_nonneg : forall x, 0 <= qexp x;
  qexp_le_1 : forall x, x <= 0 -> qexp x <= 1;
  qexp_ge_1 : forall x, 0 <= x -> 1 <= qexp x;
}.

#[export] Existing Instance qexp_proper.

(** [Math.exp(a)]: [exp(-Infinity)] is 0, [exp(Infinity)] is Infinity. *)
Definition nexp `{ExpModel} (a : num) : num :=
  match a with
  | Fin x => Fin (qexp x)
  | PInf => PInf
  | NInf => Fin 0
  | NaN => NaN
  end.

(** A rational function with the laws of [ExpModel]: the second-order Taylor
    polynomial on the non-negative side, its reciprocal on the other. *)
Definition rational_exp (x : Q) : Q :=
  if decide (0 <= x) then 1 + x + x * x * (1 # 2)
  else 1 / (1 - x + x * x * (1 # 2)).

(** ** [Math.random] *)

Class RandomSource : Type := {
  random : nat -> Q;
  random_range : forall k, 0 <= random k < 1;
}.

(** [Math.floor(Math.random() * n)], the [k]-th draw scaled to an index. *)
Definition randomIndex `{RandomSource} (n : Z) (k : nat) : Z :=
  Qfloor (random k * inject_Z n).

(** A linear congruential generator (the constants of the "minimal standard"
    generator), as a stream that computes. *)
Definition lcg_modulus : positive := 2147483647.

Definition lcg_next (x : Z) : Z := ((48271 * x) mod Z.pos lcg_modulus)%Z.

Definition lcg_state (seed : Z) (k : nat) : Z := Nat.iter (S k) lcg_next seed.

Definition lcg_draw (seed : Z) (k : nat) : Q := lcg_state seed k # lcg_modulus.

(** ** Sums of rationals, the reference for loops that accumulate a number *)

Definition sumQ {A} (f : A -> Q) (l : list A) : Q :=
  foldr (fun x acc => f x + acc) 0 l.

Definition sumQ_sites (n : Z) (f : Z -> Z -> Q) : Q :=
  sumQ (fun i => sumQ (fun j => f i j) (seqZ 0 n)) (seqZ 0 n).

(** The outcome of a computation is a rational equal to [q]. *)
Definition returns_Q (m : res Q) (q : Q) : Prop :=
  exists r, m = Ok r /\ r == q.

(** The outcome of a computation is a number equivalent to [a]. *)
Definition returns_num (m : res num) (a : num) : Prop :=
  exists r, m = Ok r /\ r ≡ a.

(** ** Lemmas on the order *)

Lemma decide_Qlt_true {A} (x y : Q) (a b : A) :
  x < y -> (if decide (x < y) then a else b) = a.
Proof. intros. by rewrite decide_True. Qed.

Lemma decide_Qlt_false {A} (x y : Q) (a b : A) :
  y <= x -> (if decide (x < y) then a else b) = b.
Proof. intros. rewrite decide_False; [done | lra]. Qed.

Lemma Qabs_bounds (x : Q) : - Qabs x <= x <= Qabs x.
Proof. apply Qabs_Qle_condition. apply Qle_refl. Qed.

Lemma inject_Z_bounds (n lo hi : Z) :
  (lo <= n <= hi)%Z -> inject_Z lo <= inject_Z n <= inject_Z hi.
Proof. intros [? ?]. split; by rewrite <- Zle_Qle. Qed.

Lemma inject_Z_pos (n : Z) : (0 < n)%Z -> 0 < inject_Z n.
Proof. intros. by rewrite <- (Zlt_Qlt 0). Qed.

Lemma inject_Z_nonzero (n : Z) : (n <> 0)%Z -> ~ inject_Z n == 0.
Proof. intros Hn Heq. apply Hn. by apply (inject_Z_injective n 0). Qed.

(** ** The equivalence and its morphisms *)

#[export] Instance num_equiv_equivalence : Equivalence num_equiv.
Proof.
  split.
  - intros [x| | |]; simpl; first [exact I | apply Qeq_refl].
  - intros [x| | |] [y| | |]; simpl; first [tauto | apply Qeq_sym].
  - intros [x| | |] [y| | |] [z| | |]; simpl; first [tauto | apply Qeq_trans].
Qed.

Lemma num_equiv_Fin (x y : Q) : Fin x ≡ Fin y <-> x == y.
Proof. done. Qed.

Lemma num_equiv_Fin_l (x : Q) (b : num) :
  Fin x ≡ b <-> exists y, b = Fin y /\ x == y.
Proof.
  destruct b as [y| | |]; simpl.
  - rewrite num_equiv_Fin. split; [eauto | by intros (? & [= <-] & ?)].
  - split; [done | by intros (? & [=] & _)].
  - split; [done | by intros (? & [=] & _)].
  - split; [done | by intros (? & [=] & _)].
Qed.

(** Rewrites a test on a rational into the same test on an equal one. *)
Lemma decide_Qeq_proper {A} (x x' y y' : Q) (a b : A) :
  x == x' -> y == y' ->
  (if decide (x == y) then a else b) = (if decide (x' == y') then a else b).
Proof.
  intros Hx Hy. destruct (decide (x == y)), (decide (x' == y')); try done.
  - rewrite Hx, Hy in *. contradiction.
  - rewrite <- Hx, <- Hy in *. contradiction.
Qed.

Lemma decide_Qlt_proper {A} (x x' y y' : Q) (a b : A) :
  x == x' -> y == y' ->
  (if decide (x < y) then a else b) = (if decide (x' < y') then a else b).
Proof.
  intros Hx Hy. destruct (decide (x < y)), (decide (x' < y')); try done.
  - rewrite Hx, Hy in *. contradiction.
  - rewrite <- Hx, <- Hy in *. contradiction.
Qed.

Ltac num_cases :=
  repeat match goal with
  | a : num |- _ => destruct a
  end; simpl in *; try done.

Ltac decide_Q :=
  repeat match goal with
  | |- context [decide (?x == ?y)] => destruct (decide (x == y))
  | |- context [decide (?x < ?y)] => destruct (decide (x < y))
  | |- context [decide (?x <= ?y)] => destruct (decide (x <= y))
  end; simpl; try done; try lra.

#[export] Instance nneg_proper : Proper ((≡) ==> (≡)) nneg.
Proof.
  intros a b H. num_cases. unfold equiv, num_equiv_inst in *. simpl in *.
  by rewrite H.
Qed.

#[export] Instance nmul_proper : Proper ((≡) ==> (≡) ==> (≡)) nmul.
Proof.
  intros a a' Ha b b' Hb. unfold equiv, num_equiv_inst in *.
  destruct a, a', b, b'; simpl in *; try done;
    try (by rewrite Ha, Hb);
    try (rewrite (decide_Qeq_proper _ _ 0 0 _ _ Ha ltac:(reflexivity)),
                 (decide_Qlt_proper 0 0 _ _ _ _ ltac:(reflexivity) Ha);
         decide_Q);
    try (rewrite (decide_Qeq_proper _ _ 0 0 _ _ Hb ltac:(reflexivity)),
                 (decide_Qlt_proper 0 0 _ _ _ _ ltac:(reflexivity) Hb);
         decide_Q).
Qed.

#[export] Instance nsub_proper : Proper ((≡) ==> (≡) ==> (≡)) nsub.
Proof.
  intros a a' Ha b b' Hb. unfold equiv, num_equiv_inst in *.
  destruct a, a', b, b'; simpl in *; try done. by rewrite Ha, Hb.
Qed.

#[export] Instance ndiv_proper : Proper ((≡) ==> (≡) ==> (≡)) ndiv.
Proof.
  intros a a' Ha b b' Hb. unfold equiv, num_equiv_inst in *.
  destruct a, a', b, b'; simpl in *; try done.
  - rewrite (decide_Qeq_proper _ _ 0 0 _ _ Hb ltac:(reflexivity)),
            (decide_Qeq_proper _ _ 0 0 _ _ Ha ltac:(reflexivity)),
            (decide_Qlt_proper 0 0 _ _ _ _ ltac:(reflexivity) Ha).
    decide_Q. simpl. by rewrite Ha, Hb.
  - rewrite (decide_Qlt_proper _ _ 0 0 _ _ Hb ltac:(reflexivity)). decide_Q.
  - rewrite (decide_Qlt_proper _ _ 0 0 _ _ Hb ltac:(reflexivity)). decide_Q.
Qed.

#[export] Instance nlt_proper : Proper ((≡) ==> (≡) ==> (=)) nlt.
Proof.
  intros a a' Ha b b' Hb. unfold equiv, num_equiv_inst in *.
  destruct a, a', b, b'; simpl in *; try done.
  apply bool_decide_ext. by rewrite Ha, Hb.
Qed.

#[export] Instance nexp_proper `{ExpModel} : Proper ((≡) ==> (≡)) nexp.
Proof.
  intros a b Hab. unfold equiv, num_equiv_inst in *.
  destruct a, b; simpl in *; try done. by rewrite Hab.
Qed.

#[export] Instance Fin_proper : Proper (Qeq ==> (≡)) Fin.
Proof. by intros x y H. Qed.

(** ** Arithmetic on finite numbers *)

Lemma ndiv_Fin (x y : Q) : ~ y == 0 -> (Fin x / Fin y)%num = Fin (x / y).
Proof. intros. simpl. by rewrite decide_False. Qed.

(** The temperature enters as [kT / 10]. *)
Lemma tenth_zero (kT : Q) : kT == 0 <-> kT / 10 == 0.
Proof.
  split; intros Hz.
  - rewrite Hz. reflexivity.
  - assert (kT == kT / 10 * 10) as -> by field. rewrite Hz. ring.
Qed.

Lemma tenth_pos (kT : Q) : 0 < kT -> 0 < kT / 10.
Proof. intros. apply Qlt_shift_div_l; lra. Qed.

Lemma ndiv_pos_zero (x y : Q) : 0 < x -> y == 0 -> (Fin x / Fin y)%num = PInf.
Proof.
  intros. simpl. rewrite decide_True by done.
  rewrite decide_False by lra. by rewrite decide_True.
Qed.

Lemma ndiv_neg_zero (x y : Q) : x < 0 -> y == 0 -> (Fin x / Fin y)%num = NInf.
Proof.
  intros. simpl. rewrite decide_True by done.
  rewrite decide_False by lra. rewrite decide_False; [done | lra].
Qed.

Lemma ndiv_zero_zero (x y : Q) : x == 0 -> y == 0 -> (Fin x / Fin y)%num = NaN.
Proof. intros. simpl. by rewrite !decide_True. Qed.

Lemma nlt_Fin (x y : Q) : (Fin x <? Fin y)%num = true <-> x < y.
Proof. simpl. apply bool_decide_eq_true. Qed.

Lemma nlt_Fin_false (x y : Q) : (Fin x <? Fin y)%num = false <-> y <= x.
Proof. simpl. rewrite bool_decide_eq_false. lra. Qed.

Lemma nlt_NaN_r (a : num) : (a <? NaN)%num = false.
Proof. by destruct a. Qed.

Lemma nlt_irrefl (a : num) : (a <? a)%num = false.
Proof. destruct a; simpl; try done. rewrite bool_decide_eq_false. lra. Qed.

(** ** The rational exponential satisfies the laws *)

Lemma rational_exp_nonneg_arg (x : Q) :
  0 <= x -> rational_exp x = 1 + x + x * x * (1 # 2).
Proof. intros. unfold rational_exp. by rewrite decide_True. Qed.

Lemma rational_exp_neg_arg (x : Q) :
  x < 0 -> rational_exp x = 1 / (1 - x + x * x * (1 # 2)).
Proof. intros. unfold rational_exp. rewrite decide_False; [done | lra]. Qed.

Lemma rational_exp_denominator (x : Q) :
  x < 0 -> 1 < 1 - x + x * x * (1 # 2).
Proof. intros. nra. Qed.

Lemma rational_exp_proper : Proper (Qeq ==> Qeq) rational_exp.
Proof.
  intros x y Hxy. unfold rational_exp.
  destruct (decide (0 <= x)), (decide (0 <= y));
    first [by rewrite Hxy | rewrite Hxy in *; lra].
Qed.

Lemma Qinv_between_0_1 (d : Q) : 1 < d -> 0 < 1 / d < 1.
Proof.
  intros Hd. split.
  - apply Qlt_shift_div_l; lra.
  - apply Qlt_shift_div_r; lra.
Qed.

Lemma rational_exp_le_1 (x : Q) : x <= 0 -> rational_exp x <= 1.
Proof.
  intros Hx. destruct (Qlt_le_dec x 0) as [Hlt | Hge].
  - rewrite rational_exp_neg_arg by done.
    pose proof (Qinv_between_0_1 _ (rational_exp_denominator x Hlt)). lra.
  - rewrite rational_exp_nonneg_arg by done. nra.
Qed.

Lemma rational_exp_nonneg (x : Q) : 0 <= rational_exp x.
Proof.
  destruct (Qlt_le_dec x 0) as [Hlt | Hge].
  - rewrite rational_exp_neg_arg by done.
    pose proof (Qinv_between_0_1 _ (rational_exp_denominator x Hlt)). lra.
  - rewrite rational_exp_nonneg_arg by done. nra.
Qed.

Lemma rational_exp_ge_1 (x : Q) : 0 <= x -> 1 <= rational_exp x.
Proof. intros. rewrite rational_exp_nonneg_arg by done. nra. Qed.

#[export] Instance rational_exp_model : ExpModel := {|
  qexp := rational_exp;
  qexp_proper := rational_exp_proper;
  qexp_0 := ltac:(reflexivity);
  qexp_nonneg := rational_exp_nonneg;
  qexp_le_1 := rational_exp_le_1;
  qexp_ge_1 := rational_exp_ge_1;
|}.

(** ** The generator stays in [0, 1) *)

Lemma lcg_next_range (x : Z) : (0 <= lcg_next x < Z.pos lcg_modulus)%Z.
Proof. unfold lcg_next. apply Z.mod_pos_bound. done. Qed.

Lemma lcg_state_range (seed : Z) (k : nat) :
  (0 <= lcg_state seed k < Z.pos lcg_modulus)%Z.
Proof. unfold lcg_state. simpl. apply lcg_next_range. Qed.

Lemma lcg_draw_range (seed : Z) (k : nat) : 0 <= lcg_draw seed k < 1.
Proof.
  pose proof (lcg_state_range seed k). unfold lcg_draw, Qle, Qlt. simpl. lia.
Qed.

Definition lcg_random (seed : Z) : RandomSource := {|
  random := lcg_draw seed;
  random_range := lcg_draw_range seed;
|}.

(** The stream [R] cut after [n] draws: zero from then on. *)
Definition prefix_draw (R : RandomSource) (n k : nat) : Q :=
  if decide (k < n)%nat then @random R k else 0.

Lemma prefix_draw_range (R : RandomSource) (n k : nat) :
  0 <= prefix_draw R n k < 1.
Proof. unfold prefix_draw. case_decide; [apply random_range | lra]. Qed.

Definition prefix_random (R : RandomSource) (n : nat) : RandomSource := {|
  random := prefix_draw R n;
  random_range := prefix_draw_range R n;
|}.

Lemma prefix_random_agrees (R : RandomSource) (n k : nat) :
  (k < n)%nat -> @random (prefix_random R n) k = @random R k.
Proof. intros. simpl. unfold prefix_draw. by rewrite decide_True. Qed.

(** ** Random indices are in range *)

Section random_index.
Context `{RandomSource}.

Lemma randomIndex_range (n : Z) (k : nat) :
  (0 < n)%Z -> (0 <= randomIndex n k < n)%Z.
Proof.
  intros Hn. unfold randomIndex.
  destruct (random_range k) as [H0 H1].
  assert (0 < inject_Z n) as Hq by (rewrite <- (Zlt_Qlt 0); done).
  set (m := inject_Z n) in *.
  split.
  - rewrite <- (Qfloor_Z 0). apply Qfloor_resp_le.
    change (inject_Z 0) with 0. nra.
  - apply Z.lt_nge. intros Hge.
    pose proof (Qfloor_le (random k * m)) as Hfl.
    rewrite Zle_Qle in Hge. fold m in Hge. nra.
Qed.

(** The index depends on the drawn value only. *)
Lemma randomIndex_zero (n : Z) (k : nat) :
  random k == 0 -> randomIndex n k = 0%Z.
Proof.
  intros Hr. unfold randomIndex.
  rewrite (Qfloor_comp _ 0); [done | rewrite Hr; ring].
Qed.
End random_index.

(** ** Sums of rationals *)

Section sumQ_lemmas.
Context {A : Type}.
Implicit Types (f g : A -> Q) (l : list A).

Lemma sumQ_cons f x l : sumQ f (x :: l) = f x + sumQ f l.
Proof. done. Qed.

Lemma sumQ_ext f g l : (forall x, x ∈ l -> f x == g x) -> sumQ f l == sumQ g l.
Proof.
  induction l as [|x l IH]; intros Hfg; simpl; [reflexivity|].
  rewrite (Hfg x) by left. rewrite IH; [reflexivity|].
  intros y Hy. apply Hfg. by right.
Qed.

Lemma sumQ_add f g l : sumQ (fun x => f x + g x) l == sumQ f l + sumQ g l.
Proof. induction l as [|x l IH]; simpl; [ring | rewrite IH; ring]. Qed.

Lemma sumQ_scale (c : Q) f l : sumQ (fun x => c * f x) l == c * sumQ f l.
Proof. induction l as [|x l IH]; simpl; [ring | rewrite IH; ring]. Qed.

Lemma sumQ_inject_Z (u : A -> Z) l :
  sumQ (fun x => inject_Z (u x)) l == inject_Z (sumZ u l).
Proof.
  induction l as [|x l IH]; simpl; [reflexivity|].
  rewrite IH, inject_Z_plus. reflexivity.
Qed.

(** The accumulating loop [acc += f x] returns the sum, up to equality of
    rationals. *)
Lemma foldlM_sumQ (body : A -> Q -> res Q) f l (acc : Q) :
  (forall x a, x ∈ l -> returns_Q (body x a) (a + f x)) ->
  returns_Q (foldlM body l acc) (acc + sumQ f l).
Proof.
  revert acc. induction l as [|x l IH]; intros acc Hbody; simpl.
  - exists acc. split; [done | ring].
  - destruct (Hbody x acc) as (a' & -> & Ha'); [left|].
    destruct (IH a') as (r & -> & Hr).
    + intros y a Hy. apply Hbody. by right.
    + exists r. split; [done|]. rewrite Hr, Ha'. ring.
Qed.
End sumQ_lemmas.

Lemma returns_Q_proper (m : res Q) (p q : Q) :
  p == q -> returns_Q m p -> returns_Q m q.
Proof. intros Hpq (r & -> & Hr). exists r. split; [done|]. by rewrite Hr. Qed.

Lemma returns_Q_bind {B} (m : res Q) (q : Q) (k : Q -> res B) (P : res B -> Prop) :
  returns_Q m q -> (forall r, r == q -> P (k r)) -> P (m ≫= k).
Proof. intros (r & -> & Hr) Hk. simpl. by apply Hk. Qed.

Lemma returns_num_proper (m : res num) (a b : num) :
  a ≡ b -> returns_num m a -> returns_num m b.
Proof. intros Hab (r & -> & Hr). exists r. split; [done|]. by rewrite Hr. Qed.

Lemma sumQ_sites_ext (n : Z) (f g : Z -> Z -> Q) :
  (forall i j, (0 <= i < n)%Z -> (0 <= j < n)%Z -> f i j == g i j) ->
  sumQ_sites n f == sumQ_sites n g.
Proof.
  intros Hfg. unfold sumQ_sites. apply sumQ_ext. intros i Hi.
  apply sumQ_ext. intros j Hj.
  apply elem_of_seqZ in Hi, Hj. apply Hfg; lia.
Qed.

Lemma sumQ_sites_add (n : Z) (f g : Z -> Z -> Q) :
  sumQ_sites n (fun i j => f i j + g i j) == sumQ_sites n f + sumQ_sites n g.
Proof.
  unfold sumQ_sites. rewrite <- sumQ_add. apply sumQ_ext. intros i _.
  apply sumQ_add.
Qed.

Lemma sumQ_sites_scale (n : Z) (c : Q) (f : Z -> Z -> Q) :
  sumQ_sites n (fun i j => c * f i j) == c * sumQ_sites n f.
Proof.
  unfold sumQ_sites. rewrite <- sumQ_scale. apply sumQ_ext. intros i _.
  apply sumQ_scale.
Qed.

Lemma sumQ_sites_inject_Z (n : Z) (u : Z -> Z -> Z) :
  sumQ_sites n (fun i j => inject_Z (u i j)) == inject_Z (sum_sites n u).
Proof.
  unfold sumQ_sites, sum_sites. rewrite <- sumQ_inject_Z.
  apply sumQ_ext. intros i _. apply sumQ_inject_Z.
Qed.

(** A nested loop over the sites that accumulates a rational returns the sum
    over the sites. *)
Lemma forZ_sumQ_sites (n : Z) (body : Z -> Z -> Q -> res Q) (f : Z -> Z -> Q) (acc : Q) :
  (forall i j a, (0 <= i < n)%Z -> (0 <= j < n)%Z ->
     returns_Q (body i j a) (a + f i j)) ->
  returns_Q (forZ n (fun i => forZ n (body i)) acc) (acc + sumQ_sites n f).
Proof.
  intros Hbody. unfold forZ, sumQ_sites.
  apply foldlM_sumQ. intros i a Hi. apply elem_of_seqZ in Hi.
  apply foldlM_sumQ. intros j b Hj. apply elem_of_seqZ in Hj.
  apply Hbody; lia.
Qed.

(** Bounds on a sum from bounds on its terms. *)
Lemma sumQ_bounds {A} (lo hi : Q) (f : A -> Q) (l : list A) :
  (forall x, x ∈ l -> lo <= f x <= hi) ->
  lo * inject_Z (Z.of_nat (length l)) <= sumQ f l
    <= hi * inject_Z (Z.of_nat (length l)).
Proof.
  induction l as [|x l IH]; intros Hf.
  - change (sumQ f []) with 0. change (inject_Z (Z.of_nat (length (@nil A)))) with 0.
    lra.
  - pose proof (Hf x ltac:(left)) as Hx.
    assert (forall y, y ∈ l -> lo <= f y <= hi) as Hl
      by (intros y Hy; apply Hf; by right).
    specialize (IH Hl). change (sumQ f (x :: l)) with (f x + sumQ f l).
    replace (Z.of_nat (length (x :: l))) with (Z.of_nat (length l) + 1)%Z
      by (simpl; lia).
    rewrite inject_Z_plus. change (inject_Z 1) with 1. lra.
Qed.

Lemma sumQ_sites_bounds (n : Z) (lo hi : Q) (f : Z -> Z -> Q) :
  (0 <= n)%Z ->
  (forall i j, (0 <= i < n)%Z -> (0 <= j < n)%Z -> lo <= f i j <= hi) ->
  lo * inject_Z (n * n) <= sumQ_sites n f <= hi * inject_Z (n * n).
Proof.
  intros Hn Hf. unfold sumQ_sites.
  pose proof (sumQ_bounds (lo * inject_Z n) (hi * inject_Z n)
    (fun i => sumQ (fun j => f i j) (seqZ 0 n)) (seqZ 0 n)) as Hb.
  rewrite length_seqZ, Z2Nat.id in Hb by done.
  rewrite inject_Z_mult.
  assert (forall i, i ∈ seqZ 0 n ->
    lo * inject_Z n <= sumQ (fun j => f i j) (seqZ 0 n) <= hi * inject_Z n) as Hrow.
  { intros i Hi%elem_of_seqZ.
    pose proof (sumQ_bounds lo hi (fun j => f i j) (seqZ 0 n)) as Hr.
    rewrite length_seqZ, Z2Nat.id in Hr by done.
    apply Hr. intros j Hj%elem_of_seqZ. apply Hf; lia. }
  specialize (Hb Hrow). lra.
Qed.
