(* ===== verification/Lattice.v ===== *)
(** * The lattice: [spins], its reads, its writes and its indices

    [spins] is an array of [gridSize] rows of [gridSize] strings, ['up'] or
    ['down'].  The grid is a list of lists of [spin]; the value of the
    expression [spins[i][j]] is an [option spin], [None] being [undefined].
    Every comparison of the script has the form [x === 'up'], so [undefined]
    behaves as a down spin when read and becomes ['up'] when flipped; the
    definitions [spinToValue] and [flipped] carry that case. *)

From Stdlib Require Import ZArith Lia.
From stdpp Require Import base tactics option list list_numbers.
From S2P Require Import Prelude.

#[local] Open Scope Z_scope.

(** ** Data *)

Inductive spin : Type :=
| up
| down.

#[export] Instance spin_eq_dec : EqDecision spin.
Proof. solve_decision. Defined.

(** A site of the lattice: its row and its column. *)
Definition site : Type := Z * Z.

(** The constants of the script.  The simulation divides by [gridSize] and
    takes remainders modulo it, so it is positive. *)
Class Params : Type := {
  gridSize : Z;
  historySize : Z;
  gridSize_pos : 0 < gridSize;
}.

(** [const gridSize = 10;] *)
Definition source_gridSize : Z := 10.

(** [const historySize = 100;] *)
Definition source_historySize : Z := 100.

(** The constants as the script sets them. *)
Definition source_params : Params := {|
  gridSize := source_gridSize;
  historySize := source_historySize;
  gridSize_pos := eq_refl;
|}.

Abbreviation grid := (list (list spin)).

(** [spin === 'up' ? 1 : -1], also the function [spinToValue]. *)
Definition spinToValue (c : option spin) : Z :=
  match c with
  | Some up => 1
  | _ => -1
  end.

(** [spin === 'up' ? 'down' : 'up'] *)
Definition flipped (c : option spin) : spin :=
  match c with
  | Some up => down
  | _ => up
  end.

(** ** Reads and writes *)

(** [spins[i][j]]: throws when [spins[i]] is [undefined]. *)
Definition readSpin (g : grid) (i j : Z) : res (option spin) :=
  match zlookup g i with
  | None => Throw TypeError
  | Some row => Ok (zlookup row j)
  end.

(** [spins[i][j] = s]: throws when [spins[i]] is [undefined]; an index
    outside the row would add an element to it, which the grid cannot
    represent. *)
Definition writeSpin (g : grid) (i j : Z) (s : spin) : res grid :=
  match zlookup g i with
  | None => Throw TypeError
  | Some row =>
      if decide (0 <= j < Z.of_nat (length row))
      then Ok (<[Z.to_nat i := <[Z.to_nat j := s]> row]> g)
      else Throw OutOfGrid
  end.

(** [spins[i][j] = spins[i][j] === 'up' ? 'down' : 'up';] *)
Definition flipSpin (g : grid) (i j : Z) : res grid :=
  c ← readSpin g i j;
  writeSpin g i j (flipped c).

(** [toggleSpin(row, col)]: the flip; [updateGrid()] only redraws. *)
Definition toggleSpin (g : grid) (row col : Z) : res grid :=
  flipSpin g row col.

(** ** Indices *)

Section indices.
Context `{Params}.

(** [(x + d + gridSize) % gridSize], with JavaScript's remainder, which takes
    the sign of the dividend. *)
Definition wrap (x d : Z) : Z := Z.rem (x + d + gridSize) gridSize.

(** [(x + d) % gridSize] *)
Definition wrapForward (x d : Z) : Z := Z.rem (x + d) gridSize.

(** [[[0, 1], [1, 0], [0, -1], [-1, 0]]] *)
Definition directions : list (Z * Z) := [(0, 1); (1, 0); (0, -1); (-1, 0)].

(** The neighbour of [(row, col)] in direction [(di, dj)]. *)
Definition neighbour (row col : Z) (d : Z * Z) : Z * Z :=
  (wrap row d.1, wrap col d.2).

(** [Array.from({ length: gridSize }, () => Array(gridSize).fill('up'))] *)
Definition initialSpins : grid :=
  replicate (Z.to_nat gridSize) (replicate (Z.to_nat gridSize) up).

(** ** Well-formedness and the reference reading *)

(** The grid has [gridSize] rows of [gridSize] spins. *)
Definition wf_grid (g : grid) : Prop :=
  length g = Z.to_nat gridSize /\
  Forall (fun row => length row = Z.to_nat gridSize) g.

#[export] Instance wf_grid_dec (g : grid) : Decision (wf_grid g).
Proof. unfold wf_grid. apply _. Defined.

Definition in_grid (i j : Z) : Prop :=
  0 <= i < gridSize /\ 0 <= j < gridSize.

#[export] Instance in_grid_dec (i j : Z) : Decision (in_grid i j).
Proof. unfold in_grid. apply _. Defined.

(** All the sites of the lattice, row by row: the order of the nested loops
    [for i ... for j] of the script. *)
Definition allSites : list site :=
  i ← seqZ 0 gridSize; (fun j => (i, j)) <$> seqZ 0 gridSize.

End indices.

(** The cell at [(i, j)], without the exception: the reading that the
    reference sums use. *)
Definition cellAt (g : grid) (i j : Z) : option spin :=
  zlookup g i ≫= fun row => zlookup row j.

(** The numeric value of the spin at [(i, j)]. *)
Definition spinAt (g : grid) (i j : Z) : Z := spinToValue (cellAt g i j).

(** The grid with the cell [(i, j)] replaced. *)
Definition setCell (g : grid) (i j : Z) (s : spin) : grid :=
  match zlookup g i with
  | Some row => <[Z.to_nat i := <[Z.to_nat j := s]> row]> g
  | None => g
  end.

(** The grid with the spin at a site flipped. *)
Definition flipAt (g : grid) (p : Z * Z) : grid :=
  setCell g p.1 p.2 (flipped (cellAt g p.1 p.2)).

(** Every in-range cell of [g] holds the spin [s]. *)
Definition uniform `{Params} (s : spin) (g : grid) : Prop :=
  forall i j, in_grid i j -> cellAt g i j = Some s.

(** The sum of the spin values over the sites of the lattice. *)
Definition totalSpin `{Params} (g : grid) : Z := sum_sites gridSize (spinAt g).

(** ** Spin values *)

Lemma spinToValue_cases (c : option spin) :
  spinToValue c = 1 \/ spinToValue c = -1.
Proof. destruct c as [[]|]; auto. Qed.

Lemma spinToValue_bounds (c : option spin) : -1 <= spinToValue c <= 1.
Proof. destruct (spinToValue_cases c); lia. Qed.

Lemma spinToValue_square (c : option spin) : spinToValue c * spinToValue c = 1.
Proof. destruct (spinToValue_cases c) as [-> | ->]; lia. Qed.

Lemma spinToValue_flipped (c : option spin) :
  spinToValue (Some (flipped c)) = - spinToValue c.
Proof. by destruct c as [[]|]. Qed.

Lemma flipped_involutive (s : spin) : flipped (Some (flipped (Some s))) = s.
Proof. by destruct s. Qed.

Lemma flipped_neq (s : spin) : flipped (Some s) <> s.
Proof. by destruct s. Qed.

Lemma spinAt_bounds (g : grid) (i j : Z) : -1 <= spinAt g i j <= 1.
Proof. apply spinToValue_bounds. Qed.

Lemma spinAt_square (g : grid) (i j : Z) : spinAt g i j * spinAt g i j = 1.
Proof. apply spinToValue_square. Qed.

Lemma spinAt_product_bounds (g1 g2 : grid) (i j k l : Z) :
  -1 <= spinAt g1 i j * spinAt g2 k l <= 1.
Proof.
  unfold spinAt.
  destruct (spinToValue_cases (cellAt g1 i j)) as [-> | ->],
           (spinToValue_cases (cellAt g2 k l)) as [-> | ->]; lia.
Qed.

#[export] Hint Resolve spinToValue_bounds spinAt_bounds : heis.

(** ** Remainders and wrap-around *)

Section wrap_lemmas.
Context `{Params}.

Lemma gridSize_nonneg : 0 <= gridSize.
Proof. pose proof gridSize_pos. lia. Qed.

Lemma gridSize_to_nat : Z.of_nat (Z.to_nat gridSize) = gridSize.
Proof. pose proof gridSize_pos. lia. Qed.

Lemma rem_nonneg_range (a : Z) : 0 <= a -> 0 <= Z.rem a gridSize < gridSize.
Proof.
  intros Ha. pose proof gridSize_pos.
  rewrite Z.rem_mod_nonneg by lia. apply Z.mod_pos_bound. lia.
Qed.

(** The wrapped index is in range as long as the offset does not reach below
    [-gridSize]: the reason the script adds [gridSize] before [%]. *)
Lemma wrap_range (x d : Z) :
  0 <= x -> - gridSize <= d -> 0 <= wrap x d < gridSize.
Proof. intros. apply rem_nonneg_range. lia. Qed.

Lemma wrap_mod (x d : Z) :
  0 <= x -> - gridSize <= d -> wrap x d = (x + d) mod gridSize.
Proof.
  intros. pose proof gridSize_pos. unfold wrap.
  rewrite Z.rem_mod_nonneg by lia.
  rewrite <- (Z.mod_add (x + d) 1 gridSize) by lia. f_equal. lia.
Qed.

Lemma wrapForward_range (x d : Z) :
  0 <= x + d -> 0 <= wrapForward x d < gridSize.
Proof. intros. by apply rem_nonneg_range. Qed.

Lemma wrapForward_mod (x d : Z) :
  0 <= x + d -> wrapForward x d = (x + d) mod gridSize.
Proof.
  intros. pose proof gridSize_pos. unfold wrapForward.
  apply Z.rem_mod_nonneg; lia.
Qed.

Lemma elem_of_allSites (s : site) : s ∈ allSites <-> in_grid s.1 s.2.
Proof.
  destruct s as [i j]. unfold allSites, in_grid. simpl.
  rewrite list_elem_of_bind. split.
  - intros (i' & Hj & Hi). apply list_elem_of_fmap in Hj as (j' & [= -> ->] & Hj).
    apply elem_of_seqZ in Hi, Hj. lia.
  - intros [Hi Hj]. exists i. rewrite elem_of_seqZ. split; [|lia].
    apply list_elem_of_fmap. exists j. rewrite elem_of_seqZ. split; [done | lia].
Qed.

Lemma NoDup_allSites : NoDup allSites.
Proof.
  unfold allSites. apply NoDup_bind.
  - intros i1 i2 s _ _ (j1 & -> & _)%list_elem_of_fmap
      (j2 & [= -> _] & _)%list_elem_of_fmap. done.
  - intros i _. apply NoDup_fmap_2; [by intros j1 j2 [= ->] | apply NoDup_seqZ].
  - apply NoDup_seqZ.
Qed.

Lemma wrap_zero (x : Z) : 0 <= x < gridSize -> wrap x 0 = x.
Proof. intros. rewrite wrap_mod by lia. rewrite Z.add_0_r. apply Z.mod_small. lia. Qed.

(** Without the added [gridSize] the remainder of a negative sum is
    negative: [(0 - 1) % gridSize] is [-1]. *)
Lemma rem_negative_offset : 1 < gridSize -> Z.rem (0 + -1) gridSize = -1.
Proof. intros. apply Z.rem_small_iff; lia. Qed.

Lemma direction_bounds (d : Z * Z) :
  d ∈ directions -> -1 <= d.1 <= 1 /\ -1 <= d.2 <= 1.
Proof.
  unfold directions. rewrite !elem_of_cons, elem_of_nil.
  intros [-> | [-> | [-> | [-> | []]]]]; simpl; lia.
Qed.

Lemma neighbour_in_grid (row col : Z) (d : Z * Z) :
  in_grid row col -> d ∈ directions -> in_grid (neighbour row col d).1 (neighbour row col d).2.
Proof.
  intros [Hr Hc] Hd. apply direction_bounds in Hd as [H1 H2].
  pose proof gridSize_pos.
  split; simpl; apply wrap_range; lia.
Qed.

End wrap_lemmas.

(** ** Reads *)

Section read_lemmas.
Context `{Params}.
Implicit Types (g : grid) (i j : Z).

Lemma wf_grid_row g i :
  wf_grid g -> 0 <= i < gridSize ->
  exists row, zlookup g i = Some row /\ Z.of_nat (length row) = gridSize.
Proof.
  intros [Hlen Hrows] Hi.
  destruct (zlookup g i) as [row|] eqn:E.
  - exists row. split; [done|].
    rewrite zlookup_nonneg in E by lia.
    rewrite Forall_lookup in Hrows. rewrite (Hrows _ _ E). lia.
  - apply zlookup_None in E. lia.
Qed.

Lemma wf_grid_cell g i j :
  wf_grid g -> in_grid i j -> exists s, cellAt g i j = Some s.
Proof.
  intros Hwf [Hi Hj]. destruct (wf_grid_row g i Hwf Hi) as (row & Hrow & Hlen).
  unfold cellAt. rewrite Hrow. simpl.
  destruct (zlookup row j) as [s|] eqn:E; [eauto|].
  apply zlookup_None in E. lia.
Qed.

Lemma readSpin_cellAt g i j c :
  readSpin g i j = Ok c -> cellAt g i j = c.
Proof.
  unfold readSpin, cellAt. destruct (zlookup g i); [|done]. by intros [= <-].
Qed.

Lemma readSpin_row_missing g i j :
  readSpin g i j = Throw TypeError <-> (i < 0 \/ Z.of_nat (length g) <= i).
Proof.
  unfold readSpin. rewrite <- zlookup_None.
  destruct (zlookup g i); split; by try intros [=].
Qed.

Lemma readSpin_wf g i j :
  wf_grid g -> 0 <= i < gridSize -> readSpin g i j = Ok (cellAt g i j).
Proof.
  intros Hwf Hi. destruct (wf_grid_row g i Hwf Hi) as (row & Hrow & _).
  unfold readSpin, cellAt. by rewrite Hrow.
Qed.

End read_lemmas.

(** ** Writes *)

Section write_lemmas.
Context `{Params}.
Implicit Types (g : grid) (i j : Z) (s : spin).

Lemma writeSpin_wf g i j s :
  wf_grid g -> in_grid i j -> writeSpin g i j s = Ok (setCell g i j s).
Proof.
  intros Hwf [Hi Hj]. destruct (wf_grid_row g i Hwf Hi) as (row & Hrow & Hlen).
  unfold writeSpin, setCell. rewrite Hrow.
  rewrite decide_True by lia. done.
Qed.

Lemma writeSpin_row_missing g i j s :
  (i < 0 \/ Z.of_nat (length g) <= i) -> writeSpin g i j s = Throw TypeError.
Proof.
  intros Hi. apply zlookup_None in Hi. unfold writeSpin. by rewrite Hi.
Qed.

Lemma writeSpin_col_outside g i j s :
  wf_grid g -> 0 <= i < gridSize -> ~ 0 <= j < gridSize ->
  writeSpin g i j s = Throw OutOfGrid.
Proof.
  intros Hwf Hi Hj. destruct (wf_grid_row g i Hwf Hi) as (row & Hrow & Hlen).
  unfold writeSpin. rewrite Hrow. rewrite decide_False by lia. done.
Qed.

Lemma setCell_length g i j s : length (setCell g i j s) = length g.
Proof.
  unfold setCell. destruct (zlookup g i); [|done]. apply length_insert.
Qed.

Lemma setCell_wf g i j s : wf_grid g -> wf_grid (setCell g i j s).
Proof.
  intros [Hlen Hrows]. split; [by rewrite setCell_length|].
  unfold setCell. destruct (zlookup g i) as [row|] eqn:E; [|done].
  destruct (decide (0 <= i)) as [Hi|Hi]; [|by rewrite zlookup_neg in E by lia].
  rewrite zlookup_nonneg in E by done.
  apply Forall_insert; [done|]. rewrite length_insert.
  by rewrite Forall_lookup in Hrows; apply (Hrows _ _ E).
Qed.

Lemma cellAt_setCell_eq g i j s :
  wf_grid g -> in_grid i j -> cellAt (setCell g i j s) i j = Some s.
Proof.
  intros Hwf [Hi Hj]. destruct (wf_grid_row g i Hwf Hi) as (row & Hrow & Hlen).
  destruct Hwf as [Hg _].
  unfold cellAt, setCell. rewrite Hrow.
  rewrite zlookup_insert_eq by lia. simpl.
  apply zlookup_insert_eq. lia.
Qed.

Lemma cellAt_setCell_ne g i j k l s :
  0 <= i -> 0 <= j -> (k, l) <> (i, j) ->
  cellAt (setCell g i j s) k l = cellAt g k l.
Proof.
  intros Hi Hj Hne. unfold cellAt, setCell.
  destruct (zlookup g i) as [row|] eqn:E; [|done].
  destruct (decide (k = i)) as [->|Hk].
  - rewrite E. simpl.
    destruct (decide (0 <= i < Z.of_nat (length g))) as [Hin|Hout].
    + rewrite zlookup_insert_eq by done. simpl.
      apply zlookup_insert_ne; [done | congruence].
    + apply not_and_l in Hout as [?|?]; [lia|].
      assert (zlookup g i = None) as E' by (apply zlookup_None; lia).
      congruence.
  - by rewrite zlookup_insert_ne by done.
Qed.

Lemma spinAt_setCell_eq g i j s :
  wf_grid g -> in_grid i j -> spinAt (setCell g i j s) i j = spinToValue (Some s).
Proof. intros. unfold spinAt. by rewrite cellAt_setCell_eq. Qed.

Lemma spinAt_setCell_ne g i j k l s :
  0 <= i -> 0 <= j -> (k, l) <> (i, j) ->
  spinAt (setCell g i j s) k l = spinAt g k l.
Proof. intros. unfold spinAt. by rewrite cellAt_setCell_ne. Qed.

End write_lemmas.

(** ** The flip *)

Section flip_lemmas.
Context `{Params}.
Implicit Types (g : grid) (i j : Z) (s : spin).

Lemma setCell_setCell g i j s s' :
  wf_grid g -> in_grid i j ->
  setCell (setCell g i j s') i j s = setCell g i j s.
Proof.
  intros Hwf [Hi Hj]. destruct (wf_grid_row g i Hwf Hi) as (row & Hrow & Hlen).
  destruct Hwf as [Hg _]. unfold setCell. rewrite Hrow.
  rewrite zlookup_insert_eq by lia.
  by rewrite !list_insert_insert_eq.
Qed.

Lemma setCell_id g i j s :
  cellAt g i j = Some s -> setCell g i j s = g.
Proof.
  unfold cellAt, setCell. destruct (zlookup g i) as [row|] eqn:E; [|done].
  simpl. intros Hs. unfold zlookup in *. repeat case_decide; try done.
  apply list_insert_id. rewrite E. f_equal. symmetry. by apply list_insert_id.
Qed.

Lemma flipSpin_setCell g i j :
  wf_grid g -> in_grid i j ->
  flipSpin g i j = Ok (setCell g i j (flipped (cellAt g i j))).
Proof.
  intros Hwf Hij. unfold flipSpin.
  rewrite readSpin_wf by (done || apply Hij). simpl.
  by apply writeSpin_wf.
Qed.

Lemma flipAt_wf g p : wf_grid g -> wf_grid (flipAt g p).
Proof. apply setCell_wf. Qed.

Lemma flipSpin_flipAt g p :
  wf_grid g -> in_grid p.1 p.2 -> flipSpin g p.1 p.2 = Ok (flipAt g p).
Proof. intros. by apply flipSpin_setCell. Qed.

(** C16: on a well-formed grid, flipping an in-range cell does not throw,
    keeps the grid well formed, negates the value of that cell and leaves
    every other cell as it was. *)
Theorem flipSpin_spec g i j :
  wf_grid g -> in_grid i j ->
  exists g', flipSpin g i j = Ok g' /\ wf_grid g' /\
    spinAt g' i j = - spinAt g i j /\
    forall k l, (k, l) <> (i, j) -> cellAt g' k l = cellAt g k l.
Proof.
  intros Hwf Hij. eexists. split; [by apply flipSpin_setCell|].
  split; [by apply setCell_wf|]. split.
  - rewrite spinAt_setCell_eq by done. apply spinToValue_flipped.
  - intros k l Hne. destruct Hij as [? ?]. apply cellAt_setCell_ne; [lia..|done].
Qed.

(** Toggling the same cell twice restores the grid. *)
Theorem toggleSpin_twice g i j :
  wf_grid g -> in_grid i j ->
  toggleSpin g i j ≫= (fun g' => toggleSpin g' i j) = Ok g.
Proof.
  intros Hwf Hij. unfold toggleSpin.
  rewrite flipSpin_setCell by done. simpl.
  rewrite flipSpin_setCell by (done || by apply setCell_wf). f_equal.
  rewrite cellAt_setCell_eq, setCell_setCell by done.
  destruct (wf_grid_cell g i j Hwf Hij) as [s Hs]. rewrite Hs.
  rewrite flipped_involutive. by apply setCell_id.
Qed.

(** C39: [toggleSpin] throws [TypeError] exactly when the row index names no
    row, whatever the column. *)
Theorem toggleSpin_row_error g row col :
  toggleSpin g row col = Throw TypeError <->
  (row < 0 \/ Z.of_nat (length g) <= row).
Proof.
  unfold toggleSpin, flipSpin. split.
  - intros Hthrow. apply (readSpin_row_missing g row col).
    unfold readSpin, writeSpin in *. destruct (zlookup g row); [|done].
    simpl in Hthrow. by case_decide.
  - intros Hrow. apply (readSpin_row_missing g row col) in Hrow.
    by rewrite Hrow.
Qed.

(** On a well-formed grid a column index outside the row is the other way a
    toggle fails: the assignment would grow the row. *)
Lemma toggleSpin_col_error g row col :
  wf_grid g -> 0 <= row < gridSize -> ~ 0 <= col < gridSize ->
  toggleSpin g row col = Throw OutOfGrid.
Proof.
  intros Hwf Hr Hc. unfold toggleSpin, flipSpin.
  rewrite readSpin_wf by done. simpl. by apply writeSpin_col_outside.
Qed.

Lemma initialSpins_wf : wf_grid initialSpins.
Proof.
  unfold wf_grid, initialSpins. split; [apply length_replicate|].
  apply Forall_replicate, length_replicate.
Qed.

Lemma initialSpins_cell i j : in_grid i j -> cellAt initialSpins i j = Some up.
Proof.
  intros [Hi Hj]. unfold cellAt, initialSpins.
  rewrite zlookup_replicate by lia. simpl. apply zlookup_replicate. lia.
Qed.

Lemma initialSpins_spinAt i j : in_grid i j -> spinAt initialSpins i j = 1.
Proof. intros. unfold spinAt. by rewrite initialSpins_cell. Qed.

End flip_lemmas.

Lemma flipSpin_spec_witness :
  exists g', flipSpin (@initialSpins source_params) 3 4 = Ok g' /\
    @wf_grid source_params g' /\
    spinAt g' 3 4 = - spinAt (@initialSpins source_params) 3 4 /\
    forall k l, (k, l) <> (3, 4) ->
      cellAt g' k l = cellAt (@initialSpins source_params) k l.
Proof. apply (@flipSpin_spec source_params); solve_concrete. Defined.

Lemma toggleSpin_twice_witness :
  toggleSpin (@initialSpins source_params) 9 0
    ≫= (fun g' => toggleSpin g' 9 0) = Ok (@initialSpins source_params).
Proof. apply (@toggleSpin_twice source_params); solve_concrete. Defined.
