(* ===== verification/Energy.v ===== *)
(** * The energy model: [deltaEnergy] and [calculateEnergy]

    [deltaEnergy(row, col, J, h)] reads the spin at a site and its four
    neighbours on the torus and returns [2*J*s*(sum of neighbours) + 2*h*s];
    [calculateEnergy()] subtracts half of it for every site and divides by the
    number of sites.  The reference definitions are sums over the lattice:
    [neighbourSum], [pairSum], [bondSum] and the Hamiltonian
    [H = -J * (sum over bonds) - h * (sum over sites)]. *)

From Stdlib Require Import ZArith QArith Qabs Lqa Lia.
From stdpp Require Import base tactics option list list_numbers.
From S2P Require Import Prelude Numeric Lattice.

#[local] Open Scope Q_scope.

Section energy.
Context `{Params}.

(** ** The functions of the script *)

Definition deltaEnergy (g : grid) (row col : Z) (J h : Q) : res Q :=
  c ← readSpin g row col;
  let spin := inject_Z (spinToValue c) in
  dE ← foldlM (fun d dE =>
      let ni := wrap row d.1 in
      let nj := wrap col d.2 in
      n ← readSpin g ni nj;
      let neighborSpin := inject_Z (spinToValue n) in
      Ok (dE + 2 * J * spin * neighborSpin)) directions 0;
  Ok (dE + 2 * h * spin).

Definition calculateEnergy (g : grid) (J h : Q) : res num :=
  totalEnergy ← forZ gridSize (fun i => forZ gridSize (fun j totalEnergy =>
      dE ← deltaEnergy g i j J h;
      Ok (totalEnergy - dE / 2))) 0;
  Ok (Fin totalEnergy / Fin (inject_Z (gridSize * gridSize)))%num.

(** ** Reference definitions *)

(** The sum of the four neighbours' values. *)
Definition neighbourSum (g : grid) (i j : Z) : Z :=
  sumZ (fun d => spinAt g (wrap i d.1) (wrap j d.2)) directions.

(** The energy change of the site, in closed form. *)
Definition localEnergy (g : grid) (i j : Z) (J h : Q) : Q :=
  2 * J * inject_Z (spinAt g i j) * inject_Z (neighbourSum g i j)
  + 2 * h * inject_Z (spinAt g i j).

(** The sum over the sites of the site's value times its neighbours'. *)
Definition pairSum (g : grid) : Z :=
  sum_sites gridSize (fun i j => (spinAt g i j * neighbourSum g i j)%Z).

(** The sum over the bonds of the torus, each bond once: every site with its
    neighbour below and its neighbour to the right. *)
Definition bondSum (g : grid) : Z :=
  sum_sites gridSize (fun i j =>
    (spinAt g i j * spinAt g (wrapForward i 1) j
     + spinAt g i j * spinAt g i (wrapForward j 1))%Z).

(** The Hamiltonian of the nearest-neighbour model. *)
Definition hamiltonian (g : grid) (J h : Q) : Q :=
  - (J * inject_Z (bondSum g)) - h * inject_Z (totalSpin g).

(** The lattice whose site [(i, j)] is up exactly when [i + j] is even. *)
Definition checkerboard : grid :=
  (fun i => (fun j => if Z.even (i + j) then up else down) <$> seqZ 0 gridSize)
    <$> seqZ 0 gridSize.

(** Some site differs from its neighbour below or from its neighbour to the
    right. *)
Definition hasDomainWall (g : grid) : Prop :=
  exists i j, in_grid i j /\
    (spinAt g i j <> spinAt g (wrapForward i 1) j \/
     spinAt g i j <> spinAt g i (wrapForward j 1)).

End energy.

(** ** [deltaEnergy] in closed form *)

Section delta_lemmas.
Context `{Params}.
Implicit Types (g : grid) (i j row col : Z) (J h : Q).

Lemma neighbour_read g row col d :
  wf_grid g -> in_grid row col -> d ∈ directions ->
  readSpin g (wrap row d.1) (wrap col d.2)
  = Ok (cellAt g (wrap row d.1) (wrap col d.2)).
Proof.
  intros Hwf Hin Hd.
  apply readSpin_wf; [done|]. apply (neighbour_in_grid row col d Hin Hd).
Qed.

Lemma neighbour_loop g row col J (s : Q) :
  wf_grid g -> in_grid row col ->
  returns_Q
    (foldlM (fun d dE =>
       n ← readSpin g (wrap row d.1) (wrap col d.2);
       Ok (dE + 2 * J * s * inject_Z (spinToValue n))) directions 0)
    (2 * J * s * inject_Z (neighbourSum g row col)).
Proof.
  intros Hwf Hin.
  eapply returns_Q_proper; last first.
  - apply (foldlM_sumQ _
      (fun d => 2 * J * s * inject_Z (spinAt g (wrap row d.1) (wrap col d.2)))).
    intros d a Hd. rewrite neighbour_read by done. simpl.
    eexists. split; [done | reflexivity].
  - rewrite sumQ_scale, sumQ_inject_Z. unfold neighbourSum. ring.
Qed.

Lemma deltaEnergy_returns g row col J h :
  wf_grid g -> in_grid row col ->
  returns_Q (deltaEnergy g row col J h) (localEnergy g row col J h).
Proof.
  intros Hwf Hin. unfold deltaEnergy, localEnergy.
  rewrite readSpin_wf by (done || apply Hin). simpl.
  fold (spinAt g row col).
  apply (returns_Q_bind _ _ _ (fun m => returns_Q m _)
           (neighbour_loop g row col J _ Hwf Hin)).
  intros r Hr. eexists. split; [done|]. by rewrite Hr.
Qed.

(** Away from the grid [deltaEnergy] throws: the first read fails. *)
Lemma deltaEnergy_row_error g row col J h :
  (row < 0 \/ Z.of_nat (length g) <= row)%Z ->
  deltaEnergy g row col J h = Throw TypeError.
Proof.
  intros Hrow. apply (readSpin_row_missing g row col) in Hrow.
  unfold deltaEnergy. by rewrite Hrow.
Qed.

Lemma neighbourSum_bounds g i j : (-4 <= neighbourSum g i j <= 4)%Z.
Proof.
  pose proof (sumZ_bounds (-1) 1
    (fun d => spinAt g (wrap i d.1) (wrap j d.2)) directions) as Hb.
  simpl length in Hb. apply Hb. intros d _. apply spinAt_bounds.
Qed.

Lemma neighbourSum_unfold g i j :
  neighbourSum g i j
  = (spinAt g (wrap i 0) (wrap j 1) + spinAt g (wrap i 1) (wrap j 0)
     + spinAt g (wrap i 0) (wrap j (-1)) + spinAt g (wrap i (-1)) (wrap j 0))%Z.
Proof. unfold neighbourSum, directions. simpl. lia. Qed.

(** The neighbours of an in-range site, by their indices modulo the size. *)
Lemma neighbourSum_mod g i j :
  in_grid i j ->
  neighbourSum g i j
  = (spinAt g i ((j + 1) mod gridSize) + spinAt g ((i + 1) mod gridSize) j
     + spinAt g i ((j - 1) mod gridSize) + spinAt g ((i - 1) mod gridSize) j)%Z.
Proof.
  intros [Hi Hj]. pose proof gridSize_pos. rewrite neighbourSum_unfold.
  rewrite !wrap_zero by done. rewrite !wrap_mod by lia. done.
Qed.

Lemma localEnergy_bound g i j J h :
  Qabs (localEnergy g i j J h) <= 8 * Qabs J + 2 * Qabs h.
Proof.
  unfold localEnergy. apply Qabs_Qle_condition.
  pose proof (Qabs_bounds J) as [HJ1 HJ2].
  pose proof (Qabs_bounds h) as [Hh1 Hh2].
  destruct (inject_Z_bounds _ (-4) 4 (neighbourSum_bounds g i j)) as [Hn1 Hn2].
  change (inject_Z (-4)) with (-4) in Hn1. change (inject_Z 4) with 4 in Hn2.
  set (a := Qabs J) in *. set (b := Qabs h) in *.
  set (m := inject_Z (neighbourSum g i j)) in *.
  unfold spinAt. destruct (spinToValue_cases (cellAt g i j)) as [-> | ->].
  - change (inject_Z 1) with 1. split; nra.
  - change (inject_Z (-1)) with (-1). split; nra.
Qed.

(** on a well-formed grid [deltaEnergy] does not throw and returns
    [2*J*s*(sum of the four neighbours) + 2*h*s], where [s] is the value of
    the spin at the site and the neighbours are taken modulo the grid size;
    its magnitude is at most [8*|J| + 2*|h|]. *)
Theorem deltaEnergy_closed_form g row col J h :
  wf_grid g -> in_grid row col ->
  exists dE, deltaEnergy g row col J h = Ok dE /\
    dE == 2 * J * inject_Z (spinAt g row col)
            * inject_Z (spinAt g row ((col + 1) mod gridSize)
                        + spinAt g ((row + 1) mod gridSize) col
                        + spinAt g row ((col - 1) mod gridSize)
                        + spinAt g ((row - 1) mod gridSize) col)
          + 2 * h * inject_Z (spinAt g row col) /\
    Qabs dE <= 8 * Qabs J + 2 * Qabs h.
Proof.
  intros Hwf Hin.
  destruct (deltaEnergy_returns g row col J h Hwf Hin) as (dE & HdE & Heq).
  exists dE. split; [done|]. unfold localEnergy in Heq. split.
  - by rewrite Heq, neighbourSum_mod.
  - rewrite Heq. apply localEnergy_bound.
Qed.

End delta_lemmas.

(** ** The Hamiltonian under a flip

    Flipping the spin at [(i, j)] changes the four bonds of that site and the
    site's own field term; on a torus of size at least 2 a site is not its own
    neighbour, and the change of the Hamiltonian is the closed form of
    [deltaEnergy]. *)

Section flip_energy.
Context `{Params}.
Context (g : grid) (i j : Z).
Context (Hwf : wf_grid g) (Hin : in_grid i j) (Hbig : (1 < gridSize)%Z).

Let g' : grid := setCell g i j (flipped (cellAt g i j)).

Lemma spinAt_flip_site : spinAt g' i j = (- spinAt g i j)%Z.
Proof using Hwf Hin.
  unfold g'. rewrite spinAt_setCell_eq by done. apply spinToValue_flipped.
Qed.

Lemma spinAt_flip_other k l : (k, l) <> (i, j) -> spinAt g' k l = spinAt g k l.
Proof using Hin.
  intros. destruct Hin as [? ?]. apply spinAt_setCell_ne; [lia.. | done].
Qed.

Lemma totalSpin_flip : totalSpin g' = (totalSpin g - 2 * spinAt g i j)%Z.
Proof using Hwf Hin.
  unfold totalSpin.
  rewrite (sum_sites_update gridSize (spinAt g) (spinAt g') i j);
    [| apply Hin.. |].
  - rewrite spinAt_flip_site. lia.
  - intros k l _ _ Hne. by apply spinAt_flip_other.
Qed.

Lemma bondSum_mod (g0 : grid) :
  bondSum g0
  = (sum_sites gridSize (fun k l =>
       spinAt g0 k l * spinAt g0 ((k + 1) mod gridSize) l)
     + sum_sites gridSize (fun k l =>
       spinAt g0 k l * spinAt g0 k ((l + 1) mod gridSize)))%Z.
Proof.
  unfold bondSum. rewrite <- sum_sites_add. apply sum_sites_ext.
  intros k l Hk Hl. by rewrite !wrapForward_mod by lia.
Qed.

Lemma vertical_bonds_flip :
  sum_sites gridSize (fun k l =>
    spinAt g' k l * spinAt g' ((k + 1) mod gridSize) l)%Z
  = (sum_sites gridSize (fun k l =>
       spinAt g k l * spinAt g ((k + 1) mod gridSize) l)
     - 2 * (spinAt g i j * spinAt g ((i + 1) mod gridSize) j)
     - 2 * (spinAt g ((i - 1) mod gridSize) j * spinAt g i j))%Z.
Proof using All.
  destruct Hin as [Hi Hj].
  apply (bond_sum_flip gridSize (spinAt g) (spinAt g')
           (fun p => ((p.1 + 1) mod gridSize, p.2)%Z)
           (fun p => ((p.1 - 1) mod gridSize, p.2)%Z) i j); simpl.
  - done.
  - split; simpl; [mod_cases | done].
  - f_equal. by apply mod_succ_pred.
  - intros [k l] [Hk Hl] [= Hk' ->]. simpl in *. f_equal. by apply mod_succ_inj.
  - intros [= Hk]. by apply (mod_succ_ne gridSize i).
  - apply spinAt_flip_site.
  - apply spinAt_flip_other.
Qed.

Lemma horizontal_bonds_flip :
  sum_sites gridSize (fun k l =>
    spinAt g' k l * spinAt g' k ((l + 1) mod gridSize))%Z
  = (sum_sites gridSize (fun k l =>
       spinAt g k l * spinAt g k ((l + 1) mod gridSize))
     - 2 * (spinAt g i j * spinAt g i ((j + 1) mod gridSize))
     - 2 * (spinAt g i ((j - 1) mod gridSize) * spinAt g i j))%Z.
Proof using All.
  destruct Hin as [Hi Hj].
  apply (bond_sum_flip gridSize (spinAt g) (spinAt g')
           (fun p => (p.1, (p.2 + 1) mod gridSize)%Z)
           (fun p => (p.1, (p.2 - 1) mod gridSize)%Z) i j); simpl.
  - done.
  - split; simpl; [done | mod_cases].
  - f_equal. by apply mod_succ_pred.
  - intros [k l] [Hk Hl] [= -> Hl']. simpl in *. f_equal. by apply mod_succ_inj.
  - intros [= Hl]. by apply (mod_succ_ne gridSize j).
  - apply spinAt_flip_site.
  - apply spinAt_flip_other.
Qed.

Lemma bondSum_flip :
  bondSum g' = (bondSum g - 2 * (spinAt g i j * neighbourSum g i j))%Z.
Proof using All.
  rewrite !bondSum_mod, vertical_bonds_flip, horizontal_bonds_flip.
  rewrite neighbourSum_mod by done. lia.
Qed.

Lemma hamiltonian_flip J h :
  hamiltonian g' J h - hamiltonian g J h == localEnergy g i j J h.
Proof using All.
  unfold hamiltonian, localEnergy. rewrite bondSum_flip, totalSpin_flip.
  unfold Z.sub. rewrite !inject_Z_plus, !inject_Z_opp, !inject_Z_mult.
  change (inject_Z 2) with 2. ring.
Qed.

End flip_energy.

(** ** [calculateEnergy] in closed form *)

Section total_energy.
Context `{Params}.
Implicit Types (g : grid) (i j : Z) (J h : Q).

(** Every bond is seen from both of its ends: the sum over the sites of a
    spin times its upper neighbour is the sum of a spin times its lower one,
    and likewise for left and right. *)
Lemma up_bonds_rotate g :
  sum_sites gridSize (fun k l => spinAt g k l * spinAt g ((k - 1) mod gridSize) l)%Z
  = sum_sites gridSize (fun k l => spinAt g k l * spinAt g ((k + 1) mod gridSize) l)%Z.
Proof.
  pose proof gridSize_pos.
  rewrite <- (sum_sites_rotate_rows gridSize
    (fun k l => spinAt g k l * spinAt g ((k - 1) mod gridSize) l)%Z) by done.
  apply sum_sites_ext. intros k l Hk Hl.
  replace (((k + 1) mod gridSize - 1) mod gridSize)%Z with k by mod_cases. lia.
Qed.

Lemma left_bonds_rotate g :
  sum_sites gridSize (fun k l => spinAt g k l * spinAt g k ((l - 1) mod gridSize))%Z
  = sum_sites gridSize (fun k l => spinAt g k l * spinAt g k ((l + 1) mod gridSize))%Z.
Proof.
  pose proof gridSize_pos.
  rewrite <- (sum_sites_rotate_cols gridSize
    (fun k l => spinAt g k l * spinAt g k ((l - 1) mod gridSize))%Z) by done.
  apply sum_sites_ext. intros k l Hk Hl.
  replace (((l + 1) mod gridSize - 1) mod gridSize)%Z with l by mod_cases. lia.
Qed.

Lemma pairSum_double g : pairSum g = (2 * bondSum g)%Z.
Proof.
  rewrite bondSum_mod. unfold pairSum.
  rewrite (sum_sites_ext _ _ (fun k l =>
    (spinAt g k l * spinAt g k ((l + 1) mod gridSize)
     + spinAt g k l * spinAt g ((k + 1) mod gridSize) l)
    + (spinAt g k l * spinAt g k ((l - 1) mod gridSize)
       + spinAt g k l * spinAt g ((k - 1) mod gridSize) l))%Z).
  - rewrite !sum_sites_add, up_bonds_rotate, left_bonds_rotate. lia.
  - intros k l Hk Hl. rewrite neighbourSum_mod by done. lia.
Qed.

(** The sum the loop of [calculateEnergy] accumulates. *)
Lemma energy_sum g J h :
  sumQ_sites gridSize (fun i j => - (localEnergy g i j J h / 2))
  == - (J * inject_Z (pairSum g) + h * inject_Z (totalSpin g)).
Proof.
  rewrite (sumQ_sites_ext _ _ (fun i j =>
    (- J) * inject_Z (spinAt g i j * neighbourSum g i j)
    + (- h) * inject_Z (spinAt g i j))).
  - rewrite sumQ_sites_add, !sumQ_sites_scale, !sumQ_sites_inject_Z.
    unfold pairSum, totalSpin. ring.
  - intros i j _ _. unfold localEnergy. rewrite inject_Z_mult. field.
Qed.

Lemma energy_loop g J h :
  wf_grid g ->
  returns_Q
    (forZ gridSize (fun i => forZ gridSize (fun j totalEnergy =>
       dE ← deltaEnergy g i j J h; Ok (totalEnergy - dE / 2))) 0)
    (- (J * inject_Z (pairSum g) + h * inject_Z (totalSpin g))).
Proof.
  intros Hwf. eapply returns_Q_proper; last first.
  - apply (forZ_sumQ_sites gridSize _
             (fun i j => - (localEnergy g i j J h / 2))).
    intros i j a Hi Hj.
    destruct (deltaEnergy_returns g i j J h Hwf (conj Hi Hj)) as (r & -> & Hr).
    simpl. eexists. split; [done|]. rewrite Hr. ring.
  - rewrite energy_sum. ring.
Qed.

Lemma gridSize_square_nonzero : ~ inject_Z (gridSize * gridSize) == 0.
Proof. pose proof gridSize_pos. apply inject_Z_nonzero. nia. Qed.

Lemma calculateEnergy_returns g J h :
  wf_grid g ->
  returns_num (calculateEnergy g J h)
    (Fin (- (J * inject_Z (pairSum g) + h * inject_Z (totalSpin g))
          / inject_Z (gridSize * gridSize))).
Proof.
  intros Hwf. unfold calculateEnergy.
  destruct (energy_loop g J h Hwf) as (r & -> & Hr). simpl.
  eexists. split; [done|].
  rewrite decide_False by apply gridSize_square_nonzero.
  apply Fin_proper. by rewrite Hr.
Qed.

End total_energy.

Section energy_theorems.
Context `{Params}.
Implicit Types (g : grid) (i j : Z) (J h : Q).

(** C6: on a well-formed grid [calculateEnergy] does not throw and returns
    [(H - J * B) / gridSize^2], where [H] is the Hamiltonian and [B] the sum
    over the bonds: the coupling term is counted twice, once from each end of
    every bond. *)
Theorem calculateEnergy_double_counts g J h :
  wf_grid g ->
  returns_num (calculateEnergy g J h)
    (Fin ((hamiltonian g J h - J * inject_Z (bondSum g))
          / inject_Z (gridSize * gridSize))).
Proof.
  intros Hwf.
  eapply returns_num_proper; [| by apply calculateEnergy_returns].
  apply Fin_proper. unfold hamiltonian.
  rewrite pairSum_double, inject_Z_mult. change (inject_Z 2) with 2.
  apply Qmult_comp; [ring | reflexivity].
Qed.

(** On the all-up grid of the script every site has four aligned
    neighbours. *)
Lemma uniform_neighbourSum g s i j :
  uniform s g -> in_grid i j ->
  neighbourSum g i j = (4 * spinToValue (Some s))%Z.
Proof.
  intros Hu [Hi Hj]. pose proof gridSize_pos.
  rewrite neighbourSum_unfold. unfold spinAt.
  rewrite !Hu; [lia | ..]; split; apply wrap_range; lia.
Qed.

Lemma uniform_pairSum g s :
  uniform s g -> pairSum g = (4 * (gridSize * gridSize))%Z.
Proof.
  intros Hu. unfold pairSum. rewrite <- sum_sites_const by apply gridSize_nonneg.
  apply sum_sites_ext. intros i j Hi Hj.
  rewrite (uniform_neighbourSum g s) by done. unfold spinAt.
  rewrite Hu by done. pose proof (spinToValue_square (Some s)). lia.
Qed.

Lemma uniform_totalSpin g s :
  uniform s g -> totalSpin g = (spinToValue (Some s) * (gridSize * gridSize))%Z.
Proof.
  intros Hu. unfold totalSpin. rewrite <- sum_sites_const by apply gridSize_nonneg.
  apply sum_sites_ext. intros i j Hi Hj. unfold spinAt. by rewrite Hu.
Qed.

(** When every spin is the same, [calculateEnergy] returns
    [-(4*J + h*s)]: four units of coupling per site where the Hamiltonian has
    two. *)
Theorem calculateEnergy_uniform g s J h :
  wf_grid g -> uniform s g ->
  returns_num (calculateEnergy g J h)
    (Fin (- (4 * J + h * inject_Z (spinToValue (Some s))))).
Proof.
  intros Hwf Hu.
  eapply returns_num_proper; [| by apply calculateEnergy_returns].
  apply Fin_proper. rewrite (uniform_pairSum g s), (uniform_totalSpin g s) by done.
  rewrite !inject_Z_mult. change (inject_Z 4) with 4.
  pose proof gridSize_square_nonzero as Hnz. rewrite inject_Z_mult in Hnz.
  field. intros Hz. apply Hnz. rewrite Hz. ring.
Qed.

(** C1: on a torus of size at least 2, the value [deltaEnergy] returns for a
    site is the change of the Hamiltonian
    [H = -J * (sum over bonds) - h * (sum over sites)] when the spin at that
    site is flipped. *)
Theorem deltaEnergy_is_hamiltonian_change g i j J h g' :
  (1 < gridSize)%Z -> wf_grid g -> in_grid i j ->
  flipSpin g i j = Ok g' ->
  returns_Q (deltaEnergy g i j J h) (hamiltonian g' J h - hamiltonian g J h).
Proof.
  intros Hbig Hwf Hin Hflip.
  rewrite flipSpin_setCell in Hflip by done. injection Hflip as <-.
  eapply returns_Q_proper; [| by apply deltaEnergy_returns].
  symmetry. by apply hamiltonian_flip.
Qed.

End energy_theorems.

(** ** Alignment lowers the energy *)

Section alignment.
Context `{Params}.
Implicit Types (g : grid) (i j : Z) (J h : Q).

Lemma spinAt_differ g1 g2 i j k l :
  spinAt g1 i j <> spinAt g2 k l -> (spinAt g1 i j * spinAt g2 k l = -1)%Z.
Proof.
  unfold spinAt.
  destruct (spinToValue_cases (cellAt g1 i j)) as [-> | ->],
           (spinToValue_cases (cellAt g2 k l)) as [-> | ->]; lia.
Qed.

Lemma bondSum_wall g :
  hasDomainWall g -> (bondSum g <= 2 * (gridSize * gridSize) - 2)%Z.
Proof.
  intros (i & j & [Hi Hj] & Hwall). unfold bondSum.
  apply (sum_sites_deficit gridSize 2 2 _ i j Hi Hj).
  - intros k l _ _.
    pose proof (spinAt_product_bounds g g k l (wrapForward k 1) l).
    pose proof (spinAt_product_bounds g g k l k (wrapForward l 1)). lia.
  - pose proof (spinAt_product_bounds g g i j (wrapForward i 1) j).
    pose proof (spinAt_product_bounds g g i j i (wrapForward j 1)).
    destruct Hwall as [Hw%spinAt_differ | Hw%spinAt_differ]; lia.
Qed.

Lemma uniform_bondSum g s :
  uniform s g -> bondSum g = (2 * (gridSize * gridSize))%Z.
Proof.
  intros Hu. pose proof (uniform_pairSum g s Hu) as Hp.
  rewrite pairSum_double in Hp. lia.
Qed.

(** The value of [calculateEnergy] without a field, by the sum over the
    bonds. *)
Lemma calculateEnergy_bondSum g J :
  wf_grid g ->
  exists e, calculateEnergy g J 0 = Ok (Fin e) /\
    e * inject_Z (gridSize * gridSize) == - (2 * J * inject_Z (bondSum g)).
Proof.
  intros Hwf. destruct (calculateEnergy_returns g J 0 Hwf) as (r & E & Hr).
  symmetry in Hr. apply num_equiv_Fin_l in Hr as (e & -> & He).
  exists e. split; [done|]. rewrite <- He, pairSum_double, inject_Z_mult.
  change (inject_Z 2) with 2. field. apply gridSize_square_nonzero.
Qed.

Lemma checkerboard_wf : wf_grid checkerboard.
Proof.
  unfold wf_grid, checkerboard. split; [by rewrite length_fmap, length_seqZ|].
  apply Forall_fmap, Forall_forall. intros i _. simpl.
  by rewrite length_fmap, length_seqZ.
Qed.

Lemma checkerboard_cell i j :
  in_grid i j ->
  cellAt checkerboard i j = Some (if Z.even (i + j) then up else down).
Proof.
  intros [Hi Hj]. unfold cellAt, checkerboard.
  rewrite zlookup_fmap_seqZ by done. simpl. by rewrite zlookup_fmap_seqZ.
Qed.

Lemma checkerboard_wall : (1 < gridSize)%Z -> hasDomainWall checkerboard.
Proof.
  intros Hbig. exists 0%Z, 0%Z. split; [split; lia|]. right.
  assert (wrapForward 0 1 = 1%Z) as ->
    by (unfold wrapForward; apply Z.rem_small; lia).
  unfold spinAt. rewrite !checkerboard_cell by (split; lia). done.
Qed.

(** C25: with a positive coupling and no field, [calculateEnergy] is
    strictly lower on a lattice whose spins are all equal than on any
    well-formed lattice in which two neighbours differ, for instance the
    checkerboard on a torus of size at least 2. *)
Theorem calculateEnergy_alignment g g' s J :
  0 < J -> wf_grid g -> uniform s g -> wf_grid g' -> hasDomainWall g' ->
  exists a b,
    calculateEnergy g J 0 = Ok (Fin a) /\
    calculateEnergy g' J 0 = Ok (Fin b) /\ a < b.
Proof.
  intros HJ Hwf Hu Hwf' Hwall.
  destruct (calculateEnergy_bondSum g J Hwf) as (a & Ea & Ha).
  destruct (calculateEnergy_bondSum g' J Hwf') as (b & Eb & Hb).
  exists a, b. do 2 (split; [done|]).
  rewrite (uniform_bondSum g s Hu) in Ha. apply bondSum_wall in Hwall.
  pose proof gridSize_pos.
  assert (0 < inject_Z (gridSize * gridSize)) as Hpos
    by (change 0 with (inject_Z 0); rewrite <- Zlt_Qlt; nia).
  apply (Qmult_lt_r _ _ _ Hpos). rewrite Ha, Hb.
  assert (inject_Z (bondSum g' + 2) <= inject_Z (2 * (gridSize * gridSize))) as Hle
    by (rewrite <- Zle_Qle; lia).
  rewrite inject_Z_plus in Hle. change (inject_Z 2) with 2 in Hle. nra.
Qed.

End alignment.

(** ** The theorems at the script's parameters *)

Lemma deltaEnergy_closed_form_witness :
  exists dE,
    @deltaEnergy source_params (@initialSpins source_params) 2 9 1 (1 # 2)
    = Ok dE /\
    dE == 2 * 1 * inject_Z (spinAt (@initialSpins source_params) 2 9)
            * inject_Z (spinAt (@initialSpins source_params) 2 ((9 + 1) mod 10)
                        + spinAt (@initialSpins source_params) ((2 + 1) mod 10) 9
                        + spinAt (@initialSpins source_params) 2 ((9 - 1) mod 10)
                        + spinAt (@initialSpins source_params) ((2 - 1) mod 10) 9)
          + 2 * (1 # 2) * inject_Z (spinAt (@initialSpins source_params) 2 9) /\
    Qabs dE <= 8 * Qabs 1 + 2 * Qabs (1 # 2).
Proof.
  apply (@deltaEnergy_closed_form source_params); solve_concrete.
Defined.

Lemma deltaEnergy_is_hamiltonian_change_witness :
  returns_Q
    (@deltaEnergy source_params (@initialSpins source_params) 0 0 1 (1 # 2))
    (@hamiltonian source_params
       (setCell (@initialSpins source_params) 0 0 down) 1 (1 # 2)
     - @hamiltonian source_params (@initialSpins source_params) 1 (1 # 2)).
Proof.
  apply (@deltaEnergy_is_hamiltonian_change source_params); solve_concrete.
Defined.

Lemma calculateEnergy_double_counts_witness :
  returns_num
    (@calculateEnergy source_params (@initialSpins source_params) 1 0)
    (Fin ((@hamiltonian source_params (@initialSpins source_params) 1 0
           - 1 * inject_Z (@bondSum source_params (@initialSpins source_params)))
          / inject_Z (10 * 10))).
Proof.
  apply (@calculateEnergy_double_counts source_params); solve_concrete.
Defined.

Lemma calculateEnergy_uniform_witness :
  returns_num
    (@calculateEnergy source_params (@initialSpins source_params) 1 0)
    (Fin (- (4 * 1 + 0 * inject_Z (spinToValue (Some up))))).
Proof.
  apply (@calculateEnergy_uniform source_params);
    [solve_concrete | intros i j; apply initialSpins_cell].
Defined.

Lemma calculateEnergy_alignment_witness :
  exists a b,
    @calculateEnergy source_params (@initialSpins source_params) 1 0 = Ok (Fin a) /\
    @calculateEnergy source_params (@checkerboard source_params) 1 0 = Ok (Fin b) /\
    a < b.
Proof.
  apply (@calculateEnergy_alignment source_params _ _ up).
  - reflexivity.
  - apply initialSpins_wf.
  - intros i j. apply initialSpins_cell.
  - apply checkerboard_wf.
  - apply checkerboard_wall. reflexivity.
Defined.
