(* ===== verification/Metropolis.v ===== *)
(** * The Metropolis-Hastings update: [runMetropolisHastings]

    One call runs 100 trials.  A trial draws a row and a column, computes
    [deltaEnergy] there and flips the spin if the energy decreases or,
    otherwise, if a third draw falls below [exp(-dE * beta)].  JavaScript's
    [||] does not evaluate its right operand when the left one is true, so a
    downhill trial consumes two draws and every other trial three.

    The state threaded through the trials is the grid and the number of draws
    made so far. *)

From Stdlib Require Import ZArith QArith Qabs Lqa Lia.
From stdpp Require Import base tactics option list list_numbers.
From S2P Require Import Prelude Numeric Lattice Energy.

#[local] Open Scope Q_scope.

Section metropolis.
Context `{Params, RandomSource, ExpModel}.

(** [const beta = 1 / (kT / 10);] *)
Definition inverseTemperature (kT : Q) : num := (Fin 1 / (Fin kT / Fin 10))%num.

(** [Math.random() < Math.exp(-dE * beta)], for the drawn value [u]. *)
Definition accepts (u dE : Q) (beta : num) : bool :=
  (Fin u <? nexp (- Fin dE * beta))%num.

(** The body of the loop. *)
Definition metropolisTrial (J h : Q) (beta : num) (st : grid * nat)
  : res (grid * nat) :=
  let '(g, k) := st in
  let i := randomIndex gridSize k in
  let j := randomIndex gridSize (k + 1) in
  dE ← deltaEnergy g i j J h;
  if decide (dE < 0) then
    g' ← flipSpin g i j; mret (g', (k + 2)%nat)
  else if accepts (random (k + 2)) dE beta then
    g' ← flipSpin g i j; mret (g', (k + 3)%nat)
  else mret (g, (k + 3)%nat).

Definition runMetropolisHastings (kT J h : Q) (st : grid * nat)
  : res (grid * nat) :=
  let beta := inverseTemperature kT in
  iterM 100 (metropolisTrial J h beta) st.

(** ** Reference definitions *)

(** The site a trial that starts at draw [k] selects. *)
Definition trialSite (k : nat) : Z * Z :=
  (randomIndex gridSize k, randomIndex gridSize (k + 1)).

(** The decision of a trial, on the closed form of the energy change. *)
Definition trialFlips (g : grid) (k : nat) (J h : Q) (beta : num) : bool :=
  let dE := localEnergy g (trialSite k).1 (trialSite k).2 J h in
  if decide (dE < 0) then true else accepts (random (k + 2)) dE beta.

End metropolis.

(** ** The inverse temperature and the acceptance test *)

Section acceptance.
Context `{ExpModel}.
Implicit Types (u dE kT b : Q).

Lemma inverseTemperature_nonzero kT :
  ~ kT == 0 -> inverseTemperature kT = Fin (1 / (kT / 10)).
Proof.
  intros Hnz. unfold inverseTemperature. simpl.
  rewrite decide_False; [done | by rewrite <- tenth_zero].
Qed.

Lemma inverseTemperature_zero kT : kT == 0 -> inverseTemperature kT = PInf.
Proof.
  intros Hz. unfold inverseTemperature. simpl.
  rewrite decide_True by (by rewrite <- tenth_zero). done.
Qed.

Lemma inverseTemperature_sign kT :
  0 < kT -> exists b, inverseTemperature kT = Fin b /\ 0 < b.
Proof.
  intros Hpos. exists (1 / (kT / 10)). split.
  - apply inverseTemperature_nonzero. lra.
  - apply Qlt_shift_div_l; [apply Qlt_shift_div_l; lra | lra].
Qed.

Instance accepts_proper : Proper (Qeq ==> Qeq ==> (≡) ==> (=)) accepts.
Proof.
  intros u u' Hu dE dE' HdE b b' Hb. unfold accepts.
  apply nlt_proper; [by apply Fin_proper|].
  apply nexp_proper, nmul_proper; [|done].
  apply nneg_proper. by apply Fin_proper.
Qed.

(** At an infinite inverse temperature no move that does not lower the
    energy is accepted: [-0 * Infinity] is NaN and [exp(-Infinity)] is 0. *)
Lemma accepts_infinite_beta u dE :
  0 <= u -> 0 <= dE -> accepts u dE PInf = false.
Proof.
  intros Hu HdE. unfold accepts. simpl.
  destruct (decide (- dE == 0)) as [Hz | Hnz]; [done|].
  rewrite decide_False by lra. simpl. apply bool_decide_eq_false. lra.
Qed.

(** A move that leaves the energy unchanged is accepted at every finite
    inverse temperature: [exp(0)] is 1 and a draw is below 1. *)
Lemma accepts_zero_energy u dE b :
  u < 1 -> dE == 0 -> accepts u dE (Fin b) = true.
Proof.
  intros Hu HdE. unfold accepts. simpl. apply bool_decide_eq_true.
  rewrite (qexp_proper (- dE * b) 0) by (rewrite HdE; ring).
  by rewrite qexp_0.
Qed.

(** With a negative inverse temperature every uphill move is accepted. *)
Lemma accepts_negative_beta u dE b :
  u < 1 -> 0 <= dE -> b <= 0 -> accepts u dE (Fin b) = true.
Proof.
  intros Hu HdE Hb. unfold accepts. simpl. apply bool_decide_eq_true.
  eapply Qlt_le_trans; [exact Hu|]. apply qexp_ge_1. nra.
Qed.

(** The acceptance probability of an uphill move is at most 1. *)
Lemma acceptance_probability_bounds dE b :
  0 <= dE -> 0 <= b -> 0 <= qexp (- dE * b) <= 1.
Proof.
  intros HdE Hb. split; [apply qexp_nonneg|]. apply qexp_le_1. nra.
Qed.

End acceptance.

(** ** One trial *)

Section trial.
Context `{Params, RandomSource, ExpModel}.
Implicit Types (g : grid) (k : nat) (J h : Q) (beta : num).

Lemma trialSite_in_grid k : in_grid (trialSite k).1 (trialSite k).2.
Proof.
  pose proof gridSize_pos. split; simpl; by apply randomIndex_range.
Qed.

(** On a well-formed grid a trial does not throw; it flips the selected site
    exactly when [trialFlips] says so, and it has made two draws if the energy
    decreases and three otherwise. *)
Lemma metropolisTrial_returns g k J h beta :
  wf_grid g ->
  metropolisTrial J h beta (g, k)
  = Ok (if trialFlips g k J h beta then flipAt g (trialSite k) else g,
        if decide (localEnergy g (trialSite k).1 (trialSite k).2 J h < 0)
        then (k + 2)%nat else (k + 3)%nat).
Proof.
  intros Hwf. pose proof (trialSite_in_grid k) as Hin.
  unfold metropolisTrial, trialFlips, flipAt, trialSite in *.
  simpl fst in *. simpl snd in *.
  set (i := randomIndex gridSize k) in *.
  set (j := randomIndex gridSize (k + 1)) in *.
  destruct (deltaEnergy_returns g i j J h Hwf Hin) as (dE & -> & HdE). simpl.
  rewrite <- !(decide_Qlt_proper _ _ _ _ _ _ HdE (Qeq_refl 0)).
  rewrite <- (accepts_proper _ _ (Qeq_refl _) _ _ HdE beta beta) by done.
  rewrite flipSpin_setCell by done.
  destruct (decide (dE < 0)) as [Hlt | Hge]; [done|].
  by destruct (accepts _ _ _).
Qed.

Lemma metropolisTrial_wf g k J h beta :
  wf_grid g ->
  exists g' k', metropolisTrial J h beta (g, k) = Ok (g', k') /\
    wf_grid g' /\ (k + 2 <= k' <= k + 3)%nat.
Proof.
  intros Hwf. rewrite metropolisTrial_returns by done.
  eexists _, _. split; [done|]. split.
  - destruct (trialFlips _ _ _ _ _); [by apply flipAt_wf | done].
  - case_decide; lia.
Qed.

(** Any number of trials in a row: the grid stays well formed and every
    trial makes two or three draws. *)
Lemma trials_invariant (n : nat) g k J h beta :
  wf_grid g ->
  exists g' k', iterM n (metropolisTrial J h beta) (g, k) = Ok (g', k') /\
    wf_grid g' /\ (k + 2 * n <= k' <= k + 3 * n)%nat.
Proof.
  intros Hwf.
  destruct (iterM_invariant
    (fun m st => wf_grid st.1 /\ (k + 2 * m <= st.2 <= k + 3 * m)%nat)
    (metropolisTrial J h beta) n (g, k))
    as ([g' k'] & Hrun & Hwf' & Hk'); [simpl; split; [done | lia] | |].
  - intros m [g0 k0] _ [Hwf0 Hk0]. cbn [fst snd] in *.
    destruct (metropolisTrial_wf g0 k0 J h beta Hwf0)
      as (g1 & k1 & -> & Hwf1 & Hk1).
    exists (g1, k1). cbn [fst snd]. split; [done|]. split; [done | lia].
  - exists g', k'. cbn [fst snd] in *. by eauto.
Qed.

Lemma runMetropolisHastings_wf g k kT J h :
  wf_grid g ->
  exists g' k', runMetropolisHastings kT J h (g, k) = Ok (g', k') /\ wf_grid g'.
Proof.
  intros Hwf.
  destruct (trials_invariant 100 g k J h (inverseTemperature kT) Hwf)
    as (g' & k' & E & Hwf' & _). by exists g', k'.
Qed.

Lemma metropolisTrial_cursor g k J h beta g' k' :
  metropolisTrial J h beta (g, k) = Ok (g', k') -> (k + 2 <= k' <= k + 3)%nat.
Proof.
  unfold metropolisTrial.
  destruct (deltaEnergy _ _ _ _ _) as [dE|]; simpl; [|done].
  destruct (decide (dE < 0)); [|destruct (accepts _ _ _)];
    try destruct (flipSpin _ _ _); simpl; intros [= <- <-]; lia.
Qed.

(** At temperature zero the decision is the sign of the energy change. *)
Lemma trialFlips_zero_temperature g k J h kT :
  kT == 0 ->
  trialFlips g k J h (inverseTemperature kT)
  = bool_decide (localEnergy g (trialSite k).1 (trialSite k).2 J h < 0).
Proof.
  intros Hz. unfold trialFlips. rewrite inverseTemperature_zero by done.
  destruct (decide (_ < 0)) as [Hlt | Hge].
  - by rewrite bool_decide_eq_true_2.
  - rewrite bool_decide_eq_false_2 by done.
    apply accepts_infinite_beta; [apply random_range | lra].
Qed.

Lemma trialFlips_downhill g k J h beta :
  localEnergy g (trialSite k).1 (trialSite k).2 J h < 0 ->
  trialFlips g k J h beta = true.
Proof. intros Hlt. unfold trialFlips. by rewrite decide_True. Qed.

Lemma trialFlips_zero_energy g k J h kT :
  ~ kT == 0 ->
  localEnergy g (trialSite k).1 (trialSite k).2 J h == 0 ->
  trialFlips g k J h (inverseTemperature kT) = true.
Proof.
  intros Hnz HdE. unfold trialFlips. rewrite inverseTemperature_nonzero by done.
  case_decide; [done|]. apply accepts_zero_energy; [apply random_range | done].
Qed.

End trial.

(** ** The energy along a trial *)

Section trial_energy.
Context `{Params, RandomSource, ExpModel}.
Implicit Types (g : grid) (k : nat) (J h : Q) (beta : num).

Lemma hamiltonian_flipAt g p J h :
  (1 < gridSize)%Z -> wf_grid g -> in_grid p.1 p.2 ->
  hamiltonian (flipAt g p) J h == hamiltonian g J h + localEnergy g p.1 p.2 J h.
Proof.
  intros Hbig Hwf Hin. unfold flipAt.
  rewrite <- (hamiltonian_flip g p.1 p.2 Hwf Hin Hbig J h). ring.
Qed.

(** A trial at temperature zero does not raise the Hamiltonian. *)
Lemma zero_temperature_trial_energy g k J h kT :
  (1 < gridSize)%Z -> wf_grid g -> kT == 0 ->
  exists g' k', metropolisTrial J h (inverseTemperature kT) (g, k) = Ok (g', k')
    /\ wf_grid g' /\ hamiltonian g' J h <= hamiltonian g J h.
Proof.
  intros Hbig Hwf Hz. rewrite metropolisTrial_returns by done.
  rewrite trialFlips_zero_temperature by done.
  eexists _, _. split; [done|]. case_bool_decide as Hlt.
  - split; [by apply flipAt_wf|].
    rewrite hamiltonian_flipAt by (done || apply trialSite_in_grid). lra.
  - split; [done | lra].
Qed.

End trial_energy.

(** ** The sweep *)

Section sweep.
Context `{Params, RandomSource, ExpModel}.
Implicit Types (g : grid) (k : nat) (kT J h : Q) (beta : num).

(** C2: on a well-formed grid, whatever the temperature, the coupling and
    the field, a call of [runMetropolisHastings] does not throw, returns a
    well-formed grid and consumes between 200 and 300 random draws. *)
Theorem runMetropolisHastings_safe g k kT J h :
  wf_grid g ->
  exists g' k', runMetropolisHastings kT J h (g, k) = Ok (g', k') /\
    wf_grid g' /\ (k + 200 <= k' <= k + 300)%nat.
Proof.
  intros Hwf. unfold runMetropolisHastings.
  destruct (trials_invariant 100 g k J h (inverseTemperature kT) Hwf)
    as (g' & k' & E & Hwf' & Hk').
  exists g', k'. split; [done|]. split; [done | lia].
Qed.

(** A trial whose site would lose energy by flipping flips it, after two
    draws and without a third, at every temperature. *)
Theorem metropolisTrial_downhill g k J h beta :
  wf_grid g ->
  localEnergy g (trialSite k).1 (trialSite k).2 J h < 0 ->
  metropolisTrial J h beta (g, k) = Ok (flipAt g (trialSite k), (k + 2)%nat).
Proof.
  intros Hwf Hlt. rewrite metropolisTrial_returns by done.
  rewrite trialFlips_downhill by done. by rewrite decide_True.
Qed.

(** C13: at temperature zero [beta] is infinite and a trial flips its site
    exactly when the energy strictly decreases: the division by zero and the
    NaN of [-0 * Infinity] make the script reject every other move. *)
Theorem metropolisTrial_zero_temperature g k J h kT :
  wf_grid g -> kT == 0 ->
  metropolisTrial J h (inverseTemperature kT) (g, k)
  = Ok (if decide (localEnergy g (trialSite k).1 (trialSite k).2 J h < 0)
        then (flipAt g (trialSite k), (k + 2)%nat) else (g, (k + 3)%nat)).
Proof.
  intros Hwf Hz. rewrite metropolisTrial_returns by done.
  rewrite trialFlips_zero_temperature by done.
  by destruct (decide (_ < 0)) as [Hlt | Hge];
    [rewrite bool_decide_eq_true_2 | rewrite bool_decide_eq_false_2].
Qed.

(** At a non-zero temperature a trial whose flip leaves the energy
    unchanged is always accepted, after three draws. *)
Theorem metropolisTrial_unchanged_energy g k J h kT :
  wf_grid g -> ~ kT == 0 ->
  localEnergy g (trialSite k).1 (trialSite k).2 J h == 0 ->
  metropolisTrial J h (inverseTemperature kT) (g, k)
  = Ok (flipAt g (trialSite k), (k + 3)%nat).
Proof.
  intros Hwf Hnz HdE. rewrite metropolisTrial_returns by done.
  rewrite trialFlips_zero_energy by done.
  rewrite decide_False; [done | lra].
Qed.

(** C21: at temperature zero, on a torus of size at least 2, a sweep never
    raises the Hamiltonian. *)
Theorem zero_temperature_sweep_energy g k J h kT :
  (1 < gridSize)%Z -> wf_grid g -> kT == 0 ->
  exists g' k', runMetropolisHastings kT J h (g, k) = Ok (g', k') /\
    hamiltonian g' J h <= hamiltonian g J h.
Proof.
  intros Hbig Hwf Hz. unfold runMetropolisHastings.
  destruct (iterM_invariant
    (fun _ st => wf_grid st.1 /\ hamiltonian st.1 J h <= hamiltonian g J h)
    (metropolisTrial J h (inverseTemperature kT)) 100 (g, k))
    as ([g' k'] & Hrun & _ & Hle); [simpl; split; [done | lra] | |].
  - intros m [g0 k0] _ [Hwf0 Hle0]. cbn [fst snd] in *.
    destruct (zero_temperature_trial_energy g0 k0 J h kT Hbig Hwf0 Hz)
      as (g1 & k1 & -> & Hwf1 & Hle1).
    exists (g1, k1). cbn [fst snd]. split; [done|]. split; [done | lra].
  - by exists g', k'.
Qed.

End sweep.

(** ** Dependence on the random stream *)

Section determinism.
Context `{Params, ExpModel}.
Context (R1 R2 : RandomSource).
Implicit Types (g : grid) (k : nat) (J h : Q) (beta : num).

Lemma metropolisTrial_agree g k J h beta :
  (forall n, (k <= n < k + 3)%nat -> @random R1 n = @random R2 n) ->
  @metropolisTrial _ R1 _ J h beta (g, k)
  = @metropolisTrial _ R2 _ J h beta (g, k).
Proof.
  intros Hagree. unfold metropolisTrial, randomIndex.
  by rewrite (Hagree k), (Hagree (k + 1)%nat), (Hagree (k + 2)%nat) by lia.
Qed.

(** C32: the result of a sweep depends on the 300 draws that follow the
    cursor and on nothing else of the random stream: two streams that agree
    there give the same grid and the same cursor. *)
Theorem runMetropolisHastings_deterministic g k kT J h :
  (forall n, (k <= n < k + 300)%nat -> @random R1 n = @random R2 n) ->
  @runMetropolisHastings _ R1 _ kT J h (g, k)
  = @runMetropolisHastings _ R2 _ kT J h (g, k).
Proof.
  intros Hagree. unfold runMetropolisHastings.
  apply (iterM_agree_from
    (fun m st => (k + 2 * m <= st.2 <= k + 3 * m)%nat) _ _ 100 0 (g, k));
    [simpl; lia|].
  intros m [g0 k0] Hm Hk0. cbn [fst snd] in *. split.
  - apply metropolisTrial_agree. intros n Hn. apply Hagree. lia.
  - intros [g1 k1] Hstep. apply metropolisTrial_cursor in Hstep.
    cbn [fst snd]. lia.
Qed.

End determinism.

(** ** The theorems at the script's parameters

    The grid is the script's initial one, the stream the generator of
    [Numeric] seeded with 42, the exponential [rational_exp]. *)

Section witnesses.
#[local] Existing Instance source_params.
#[local] Instance witness_random : RandomSource := lcg_random 42.

Lemma runMetropolisHastings_safe_witness :
  exists g' k', runMetropolisHastings 50 1 0 (initialSpins, 0%nat) = Ok (g', k') /\
    wf_grid g' /\ (0 + 200 <= k' <= 0 + 300)%nat.
Proof. apply runMetropolisHastings_safe. solve_concrete. Defined.

Lemma metropolisTrial_downhill_witness :
  metropolisTrial (-1) 0 (Fin 1) (initialSpins, 0%nat)
  = Ok (flipAt initialSpins (trialSite 0), (0 + 2)%nat).
Proof. apply metropolisTrial_downhill; solve_concrete. Defined.

Lemma metropolisTrial_zero_temperature_witness :
  metropolisTrial 1 0 (inverseTemperature 0) (initialSpins, 0%nat)
  = Ok (if decide (localEnergy initialSpins (trialSite 0).1 (trialSite 0).2 1 0 < 0)
        then (flipAt initialSpins (trialSite 0), (0 + 2)%nat)
        else (initialSpins, (0 + 3)%nat)).
Proof. apply metropolisTrial_zero_temperature; solve_concrete. Defined.

Lemma metropolisTrial_unchanged_energy_witness :
  metropolisTrial 0 0 (inverseTemperature 50) (initialSpins, 0%nat)
  = Ok (flipAt initialSpins (trialSite 0), (0 + 3)%nat).
Proof. apply metropolisTrial_unchanged_energy; solve_concrete. Defined.

Lemma zero_temperature_sweep_energy_witness :
  exists g' k', runMetropolisHastings 0 1 0 (initialSpins, 0%nat) = Ok (g', k') /\
    hamiltonian g' 1 0 <= hamiltonian initialSpins 1 0.
Proof. apply zero_temperature_sweep_energy; solve_concrete. Defined.

Lemma runMetropolisHastings_deterministic_witness :
  @runMetropolisHastings _ witness_random _ 50 1 0 (initialSpins, 0%nat)
  = @runMetropolisHastings _ (prefix_random witness_random 300) _ 50 1 0
      (initialSpins, 0%nat).
Proof.
  apply runMetropolisHastings_deterministic.
  intros n Hn. symmetry. apply prefix_random_agrees. lia.
Defined.

End witnesses.

