(* ===== verification/Wolff.v ===== *)
(** * The Wolff cluster update: [runWolffCluster]

    The function draws a seed site, grows a cluster from it with a stack, and
    flips every site of the cluster.  The stack is a list whose head is the
    top ([push] is a cons, [pop] takes the head); the cluster is a list in the
    order of [cluster.push].  The [while] loop is a fixpoint on fuel:
    [wolffFuel], which is [4 * gridSize^2 + 1], is proved to be enough on
    every well-formed grid.

    A draw of [Math.random()] happens only when the two tests before it in
    the [&&] chain of line 84 hold, so the cursor of the random stream
    advances once per neighbour that has the seed's spin and is not in the
    cluster. *)

From Stdlib Require Import ZArith QArith Lqa Lia.
From stdpp Require Import base tactics option list list_numbers.
From S2P Require Import Prelude Numeric Lattice Energy.

#[local] Open Scope Z_scope.

(** The state of the [while] loop: [stack], [cluster] and the number of draws
    made so far. *)
Record wolffState : Type := WolffState {
  stack : list site;
  cluster : list site;
  draws : nat;
}.

(** [cluster.some(([r, c]) => r === row && c === col)] *)
Definition inCluster (cluster : list site) (row col : Z) : bool :=
  existsb (fun rc => (rc.1 =? row) && (rc.2 =? col)) cluster.

Section wolff.
Context `{Params, RandomSource, ExpModel}.

(** [1 - Math.exp(-2 * J / (kT / 10))] *)
Definition bondProbability (kT J : Q) : num :=
  (Fin 1 - nexp (Fin (-2) * Fin J / (Fin kT / Fin 10)))%num.

(** The body of the [forEach] over the four directions. *)
Definition tryNeighbour (g : grid) (initialSpin : option spin) (kT J : Q)
    (cluster : list site) (row col : Z) (d : Z * Z) (st : list site * nat)
  : res (list site * nat) :=
  let '(stack, k) := st in
  let ni := wrap row d.1 in
  let nj := wrap col d.2 in
  n ← readSpin g ni nj;
  if bool_decide (n = initialSpin) && negb (inCluster cluster ni nj) then
    if (Fin (random k) <? bondProbability kT J)%num
    then Ok ((ni, nj) :: stack, Datatypes.S k)
    else Ok (stack, Datatypes.S k)
  else Ok (stack, k).

(** The body of the [while] loop, entered with a non-empty stack. *)
Definition wolffStep (g : grid) (initialSpin : option spin) (kT J : Q)
    (st : wolffState) : res wolffState :=
  match stack st with
  | [] => Ok st
  | (row, col) :: stack' =>
      if inCluster (cluster st) row col
      then Ok (WolffState stack' (cluster st) (draws st))
      else
        let cluster' := cluster st ++ [(row, col)] in
        sk ← foldlM (tryNeighbour g initialSpin kT J cluster' row col)
               directions (stack', draws st);
        Ok (WolffState sk.1 cluster' sk.2)
  end.

(** [while (stack.length > 0) { ... }] *)
Fixpoint wolffLoop (fuel : nat) (g : grid) (initialSpin : option spin)
    (kT J : Q) (st : wolffState) : res wolffState :=
  match stack st with
  | [] => Ok st
  | _ :: _ =>
      match fuel with
      | O => Throw OutOfFuel
      | Datatypes.S fuel' =>
          st' ← wolffStep g initialSpin kT J st;
          wolffLoop fuel' g initialSpin kT J st'
      end
  end.

(** The number of iterations given to the loop. *)
Definition wolffFuel : nat := Z.to_nat (4 * gridSize * gridSize + 1).

(** [cluster.forEach(([row, col]) => { spins[row][col] = ... })] *)
Definition flipCluster (g : grid) (cluster : list site) : res grid :=
  foldlM (fun rc g => flipSpin g rc.1 rc.2) cluster g.

(** The cluster the function builds, with the number of draws it has made. *)
Definition growCluster (kT J : Q) (g : grid) (k : nat) : res wolffState :=
  let startRow := randomIndex gridSize k in
  let startCol := randomIndex gridSize (k + 1) in
  initialSpin ← readSpin g startRow startCol;
  wolffLoop wolffFuel g initialSpin kT J
    (WolffState [(startRow, startCol)] [] (k + 2)).

(** [h] and [beta] are read and computed by the function and never used. *)
Definition runWolffCluster (kT J h : Q) (st : grid * nat) : res (grid * nat) :=
  let '(g, k) := st in
  final ← growCluster kT J g k;
  g' ← flipCluster g (cluster final);
  Ok (g', draws final).

(** ** Reference definitions *)

(** The seed a call that starts at draw [k] selects. *)
Definition seedSite (k : nat) : site :=
  (randomIndex gridSize k, randomIndex gridSize (k + 1)).

(** [b] is one of the four neighbours of [a] on the torus. *)
Definition adjacent (a b : site) : Prop :=
  exists d, d ∈ directions /\ b = neighbour a.1 a.2 d.

(** A list of sites grown from [seed]: it starts with the seed and every
    later site is adjacent to one before it. *)
Inductive grownFrom (seed : site) : list site -> Prop :=
| grown_seed : grownFrom seed [seed]
| grown_next l a b :
    grownFrom seed l -> a ∈ l -> adjacent a b -> grownFrom seed (l ++ [b]).

(** The grid with every site of the list flipped, in order. *)
Definition flipAll (g : grid) (l : list site) : grid := foldl flipAt g l.

(** The number of sites of the lattice. *)
Definition siteCount : nat := Z.to_nat (gridSize * gridSize).

(** ** The invariant of the loop *)

(** A site of the grid that holds the seed's spin. *)
Definition siteOk (g : grid) (initialSpin : option spin) (s : site) : Prop :=
  in_grid s.1 s.2 /\ cellAt g s.1 s.2 = initialSpin.

(** What the tests of the site [(row, col)] push: neighbours of the site that
    hold the seed's spin and are outside the cluster. *)
Definition pushed (g : grid) (initialSpin : option spin) (cl : list site)
    (row col : Z) (s : site) : Prop :=
  siteOk g initialSpin s /\ adjacent (row, col) s /\ s ∉ cl.

(** A neighbour of a site of the cluster. *)
Definition linked (cluster : list site) (s : site) : Prop :=
  exists a, a ∈ cluster /\ adjacent a s.

(** The invariant of the loop, for a call that picked [seed] and had made
    [k0] draws when the loop began: the cluster has no duplicates, the cluster
    and the stack hold sites of the grid with the seed's spin, and either
    nothing has happened yet or the cluster is grown from the seed and every
    site on the stack is a neighbour of the cluster. *)
Record wolffInv (g : grid) (initialSpin : option spin) (seed : site)
    (k0 : nat) (st : wolffState) : Prop := {
  inv_nodup : NoDup (cluster st);
  inv_cluster : Forall (siteOk g initialSpin) (cluster st);
  inv_stack : Forall (siteOk g initialSpin) (stack st);
  inv_shape :
    (cluster st = [] /\ stack st = [seed]) \/
    (grownFrom seed (cluster st) /\ Forall (linked (cluster st)) (stack st));
  inv_draws : (k0 <= draws st <= k0 + 4 * length (cluster st))%nat;
}.

(** The number of iterations the loop can still make: every iteration pops a
    site, and only an iteration that adds a site to the cluster pushes, at
    most four times. *)
Definition remaining (st : wolffState) : nat :=
  4 * (siteCount - length (cluster st)) + length (stack st).

(** Every neighbour of a site of [cl] that holds the seed's spin is in [cl]
    or in [pending]. *)
Definition closedUnder (g : grid) (initialSpin : option spin)
    (cl pending : list site) : Prop :=
  forall a b, a ∈ cl -> adjacent a b -> cellAt g b.1 b.2 = initialSpin ->
    b ∈ cl \/ b ∈ pending.

End wolff.

#[global] Arguments bondProbability : simpl never.

(** ** Membership in the cluster and the size of the lattice *)

Section cluster_lemmas.
Context `{Params}.
Implicit Types (g : grid) (s a b : site) (l : list site).

Lemma inCluster_spec l row col : inCluster l row col = true <-> (row, col) ∈ l.
Proof.
  unfold inCluster. rewrite existsb_exists. split.
  - intros ([r c] & Hin & Heq). apply andb_true_iff in Heq as [Hr Hc].
    apply Z.eqb_eq in Hr, Hc. simpl in *. subst. by apply list_elem_of_In.
  - intros Hin. exists (row, col). split; [by apply list_elem_of_In|].
    simpl. by rewrite !Z.eqb_refl.
Qed.

Lemma inCluster_false l row col : inCluster l row col = false <-> (row, col) ∉ l.
Proof. rewrite <- inCluster_spec. by destruct (inCluster l row col). Qed.

Lemma length_allSites : length allSites = siteCount.
Proof.
  unfold allSites, siteCount. pose proof gridSize_pos.
  assert (forall l : list Z, length (i ← l; (fun j => (i, j)) <$> seqZ 0 gridSize)
            = (length l * Z.to_nat gridSize)%nat) as Hl.
  { induction l as [|i l IH]; [done|].
    rewrite bind_cons, length_app, length_fmap, length_seqZ, IH. simpl. lia. }
  rewrite Hl, length_seqZ. nia.
Qed.

(** A list of distinct sites of the grid is no longer than the lattice. *)
Lemma cluster_size_bound l :
  NoDup l -> Forall (fun s => in_grid s.1 s.2) l -> (length l <= siteCount)%nat.
Proof.
  intros Hnd Hin. rewrite <- length_allSites.
  apply submseteq_length, NoDup_submseteq; [done|].
  intros s Hs. apply elem_of_allSites. rewrite Forall_forall in Hin. by apply Hin.
Qed.

Lemma neighbour_in_grid_site row col d :
  in_grid row col -> d ∈ directions -> in_grid (wrap row d.1) (wrap col d.2).
Proof.
  intros [Hr Hc] Hd. apply direction_bounds in Hd as [? ?]. pose proof gridSize_pos.
  split; apply wrap_range; lia.
Qed.

Lemma grownFrom_nonempty seed l : grownFrom seed l -> l <> [].
Proof. intros [|l' a b _ _ _]; [done|]. by destruct l'. Qed.

Lemma grownFrom_head seed l : grownFrom seed l -> head l = Some seed.
Proof.
  induction 1 as [|l a b Hl IH _ _]; [done|].
  destruct l; [by apply grownFrom_nonempty in Hl | done].
Qed.

End cluster_lemmas.

(** ** The loop *)

Section loop_lemmas.
Context `{Params, RandomSource, ExpModel}.
Context (g : grid) (initialSpin : option spin) (kT J : Q) (Hwf : wf_grid g).
Implicit Types (s a b seed : site) (cl stk news : list site) (k : nat).

Lemma tryNeighbour_spec cl row col d stk k :
  in_grid row col -> d ∈ directions ->
  exists news k',
    tryNeighbour g initialSpin kT J cl row col d (stk, k) = Ok (news ++ stk, k') /\
    Forall (pushed g initialSpin cl row col) news /\
    (length news <= 1)%nat /\ (k <= k' <= k + 1)%nat.
Proof using Hwf.
  intros Hin Hd. pose proof (neighbour_in_grid_site row col d Hin Hd) as Hn.
  unfold tryNeighbour. rewrite readSpin_wf by (done || apply Hn). simpl.
  destruct (bool_decide _) eqn:E1; simpl;
    [|exists [], k; repeat split; (done || simpl; lia)].
  destruct (inCluster _ _ _) eqn:E2; simpl;
    [exists [], k; repeat split; (done || simpl; lia)|].
  apply bool_decide_eq_true in E1. apply inCluster_false in E2.
  match goal with |- context [if ?b then _ else _] => destruct b end.
  - exists [(wrap row d.1, wrap col d.2)], (Datatypes.S k).
    split; [done|]. split; [|simpl; lia].
    apply Forall_singleton. split; [by split | split; [by exists d | done]].
  - exists [], (Datatypes.S k). split; [done|]. split; [constructor | simpl; lia].
Qed.

Lemma tryNeighbours_spec cl row col ds stk k :
  in_grid row col -> (forall d, d ∈ ds -> d ∈ directions) ->
  exists news k',
    foldlM (tryNeighbour g initialSpin kT J cl row col) ds (stk, k)
    = Ok (news ++ stk, k') /\
    Forall (pushed g initialSpin cl row col) news /\
    (length news <= length ds)%nat /\ (k <= k' <= k + length ds)%nat.
Proof using Hwf.
  intros Hin. revert stk k. induction ds as [|d ds IH]; intros stk k Hds.
  - exists [], k. repeat split; (done || simpl; lia).
  - destruct (tryNeighbour_spec cl row col d stk k Hin) as (n1 & k1 & E1 & P1 & L1 & K1);
      [apply Hds; left|].
    destruct (IH (n1 ++ stk) k1) as (n2 & k2 & E2 & P2 & L2 & K2);
      [intros; apply Hds; by right|].
    exists (n2 ++ n1), k2.
    rewrite foldlM_cons, (bind_Ok _ _ _ E1), E2, <- app_assoc. simpl length.
    repeat split; [by apply Forall_app | rewrite length_app; lia | lia | lia].
Qed.

Lemma cluster_in_grid cl :
  Forall (siteOk g initialSpin) cl -> Forall (fun s => in_grid s.1 s.2) cl.
Proof. intros Hcl. eapply Forall_impl; [exact Hcl|]. by intros s [? _]. Qed.

(** An iteration that pops a site of the cluster only drops it. *)
Lemma wolffInv_skip seed k0 st s rest :
  wolffInv g initialSpin seed k0 st -> stack st = s :: rest -> s ∈ cluster st ->
  wolffInv g initialSpin seed k0 (WolffState rest (cluster st) (draws st)).
Proof.
  intros [Hnd Hcl Hstk Hshape Hk] Hs Hin. rewrite Hs in *.
  split; simpl; try done.
  - by apply Forall_cons in Hstk as [_ ?].
  - right. destruct Hshape as [[Hnil _] | [Hg Hl]];
      [rewrite Hnil in Hin; by apply elem_of_nil in Hin|].
    split; [done|]. by apply Forall_cons in Hl as [_ ?].
Qed.

(** An iteration that pops a site outside the cluster adds it and pushes
    some of its neighbours. *)
Lemma wolffInv_grow seed k0 st row col rest news k' :
  wolffInv g initialSpin seed k0 st -> stack st = (row, col) :: rest ->
  (row, col) ∉ cluster st ->
  Forall (pushed g initialSpin (cluster st ++ [(row, col)]) row col) news ->
  (draws st <= k' <= draws st + 4)%nat ->
  wolffInv g initialSpin seed k0
    (WolffState (news ++ rest) (cluster st ++ [(row, col)]) k').
Proof.
  intros [Hnd Hcl Hstk Hshape Hk] Hs Hnotin Hnews Hk'. rewrite Hs in *.
  apply Forall_cons in Hstk as [Hok Hrest].
  assert (grownFrom seed (cluster st ++ [(row, col)])) as Hgrown.
  { destruct Hshape as [[-> [= -> _]] | [Hg Hl]]; [apply grown_seed|].
    apply Forall_cons in Hl as [(a & Ha & Hadj) _]. by eapply grown_next. }
  split; simpl.
  - apply NoDup_app. split; [done|]. split; [|apply NoDup_singleton].
    intros x Hx ->%list_elem_of_singleton. done.
  - apply Forall_app. split; [done | by apply Forall_singleton].
  - apply Forall_app. split; [|done]. eapply Forall_impl; [exact Hnews|].
    by intros x [? _].
  - right. split; [done|]. apply Forall_app. split.
    + eapply Forall_impl; [exact Hnews|]. intros x (_ & Hadj & _).
      exists (row, col). split; [apply elem_of_app; right; by left | done].
    + destruct Hshape as [[_ [= _ ->]] | [_ Hl]]; [constructor|].
      apply Forall_cons in Hl as [_ Hl]. eapply Forall_impl; [exact Hl|].
      intros x (a & Ha & Hadj). exists a. split; [apply elem_of_app; by left | done].
  - rewrite length_app. simpl. lia.
Qed.

(** One iteration keeps the invariant and uses up some of what remains. *)
Lemma wolffStep_spec seed k0 st s rest :
  wolffInv g initialSpin seed k0 st -> stack st = s :: rest ->
  exists st', wolffStep g initialSpin kT J st = Ok st' /\
    wolffInv g initialSpin seed k0 st' /\ (remaining st' < remaining st)%nat.
Proof using Hwf.
  intros Hinv Hs. destruct s as [row col]. unfold wolffStep. rewrite Hs.
  destruct (inCluster (cluster st) row col) eqn:E.
  - apply inCluster_spec in E. eexists. split; [done|].
    split; [by eapply wolffInv_skip|].
    unfold remaining. rewrite Hs. simpl. lia.
  - apply inCluster_false in E.
    assert (in_grid row col) as Hin.
    { destruct Hinv as [_ _ Hstk _ _]. rewrite Hs in Hstk.
      by apply Forall_cons in Hstk as [[? _] _]. }
    destruct (tryNeighbours_spec (cluster st ++ [(row, col)]) row col
                directions rest (draws st) Hin)
      as (news & k' & -> & Hnews & Hlen & Hk); [done|].
    simpl in Hlen, Hk. eexists. split; [done|].
    pose proof (wolffInv_grow seed k0 st row col rest news k' Hinv Hs E Hnews Hk)
      as Hinv'.
    split; [done|]. destruct Hinv' as [Hnd' Hcl' _ _ _].
    pose proof (cluster_size_bound _ Hnd' (cluster_in_grid _ Hcl')) as Hb.
    unfold remaining in *. simpl in *. rewrite Hs, !length_app in *. simpl in *. lia.
Qed.

(** Termination: from a state that satisfies the invariant, the fuel that
    [remaining] counts is enough for the loop to end. *)
Lemma wolffLoop_invariant (P : wolffState -> Prop) seed k0 fuel st :
  (forall st0 s rest st1,
     wolffInv g initialSpin seed k0 st0 -> P st0 -> stack st0 = s :: rest ->
     wolffStep g initialSpin kT J st0 = Ok st1 -> P st1) ->
  wolffInv g initialSpin seed k0 st -> P st -> (remaining st <= fuel)%nat ->
  exists st', wolffLoop fuel g initialSpin kT J st = Ok st' /\
    wolffInv g initialSpin seed k0 st' /\ P st' /\ stack st' = [].
Proof using Hwf.
  intros HP. revert st. induction fuel as [|fuel IH]; intros st Hinv Hst Hfuel;
    destruct (stack st) as [|s rest] eqn:Hs.
  - exists st. simpl. by rewrite Hs.
  - unfold remaining in Hfuel. rewrite Hs in Hfuel. simpl in Hfuel. lia.
  - exists st. simpl. by rewrite Hs.
  - destruct (wolffStep_spec seed k0 st s rest Hinv Hs) as (st1 & E & Hinv1 & Hlt).
    destruct (IH st1 Hinv1) as (st' & E' & ?);
      [exact (HP st s rest st1 Hinv Hst Hs E) | lia |].
    exists st'. simpl. by rewrite Hs, E.
Qed.

Lemma wolffLoop_spec seed k0 fuel st :
  wolffInv g initialSpin seed k0 st -> (remaining st <= fuel)%nat ->
  exists st', wolffLoop fuel g initialSpin kT J st = Ok st' /\
    wolffInv g initialSpin seed k0 st' /\ stack st' = [].
Proof using Hwf.
  intros Hinv Hfuel.
  destruct (wolffLoop_invariant (fun _ => True) seed k0 fuel st)
    as (st' & ? & ? & _ & ?); by eauto.
Qed.

End loop_lemmas.

(** ** The flip of the cluster *)

Section flip_lemmas.
Context `{Params}.
Implicit Types (g : grid) (s : site) (l : list site).

Lemma flipAll_wf g l : wf_grid g -> wf_grid (flipAll g l).
Proof.
  revert g. induction l as [|s l IH]; intros g Hwf; [done|].
  apply IH. by apply flipAt_wf.
Qed.

Lemma flipCluster_flipAll g l :
  wf_grid g -> Forall (fun s => in_grid s.1 s.2) l ->
  flipCluster g l = Ok (flipAll g l).
Proof.
  revert g. induction l as [|s l IH]; intros g Hwf Hl; [done|].
  apply Forall_cons in Hl as [Hs Hl]. unfold flipCluster.
  rewrite foldlM_cons, (bind_Ok _ _ _ (flipSpin_flipAt g s Hwf Hs)).
  apply IH; [by apply flipAt_wf | done].
Qed.

Lemma cellAt_flipAt g s i j :
  wf_grid g -> in_grid s.1 s.2 ->
  cellAt (flipAt g s) i j
  = if decide ((i, j) = s) then Some (flipped (cellAt g i j)) else cellAt g i j.
Proof.
  intros Hwf Hs. unfold flipAt. case_decide as Heq.
  - subst s. by apply cellAt_setCell_eq.
  - destruct Hs as [? ?]. apply cellAt_setCell_ne; [lia..|].
    by destruct s; intros [= -> ->].
Qed.

(** The cells of the grid after the flips: a site of the list holds the
    opposite of what it held, every other site what it held. *)
Lemma cellAt_flipAll g l i j :
  wf_grid g -> NoDup l -> Forall (fun s => in_grid s.1 s.2) l ->
  cellAt (flipAll g l) i j
  = if decide ((i, j) ∈ l) then Some (flipped (cellAt g i j)) else cellAt g i j.
Proof.
  revert g. induction l as [|s l IH]; intros g Hwf Hnd Hl.
  - rewrite decide_False; [done | apply not_elem_of_nil].
  - apply NoDup_cons in Hnd as [Hs Hnd]. apply Forall_cons in Hl as [Hin Hl].
    simpl. rewrite IH by (done || by apply flipAt_wf).
    rewrite !cellAt_flipAt by done.
    destruct (decide ((i, j) = s)) as [<- | Hne].
    + rewrite (decide_False _ _ Hs), decide_True; [done | left].
    + destruct (decide ((i, j) ∈ l)) as [Hil | Hil].
      * rewrite decide_True; [done | by right].
      * rewrite decide_False; [done|]. by intros [?|?]%elem_of_cons.
Qed.

(** The total spin after the flips. *)
Lemma totalSpin_flipAll g l :
  wf_grid g -> NoDup l -> Forall (fun s => in_grid s.1 s.2) l ->
  totalSpin (flipAll g l) = totalSpin g - 2 * sumZ (fun s => spinAt g s.1 s.2) l.
Proof.
  revert g. induction l as [|s l IH]; intros g Hwf Hnd Hl; [simpl; lia|].
  apply NoDup_cons in Hnd as [Hs Hnd]. apply Forall_cons in Hl as [Hin Hl].
  simpl. rewrite IH by (done || by apply flipAt_wf).
  unfold flipAt at 1. rewrite totalSpin_flip by done.
  rewrite (sumZ_ext (fun s0 => spinAt (flipAt g s) s0.1 s0.2)
             (fun s0 => spinAt g s0.1 s0.2)); [lia|].
  intros [i j] Hij. unfold spinAt. simpl. rewrite cellAt_flipAt by done.
  rewrite decide_False; [done|]. by intros <-.
Qed.

Lemma sumZ_constant_on {A} (f : A -> Z) (c : Z) (l : list A) :
  Forall (fun x => f x = c) l -> sumZ f l = c * Z.of_nat (length l).
Proof.
  intros Hl. rewrite <- sumZ_const. apply sumZ_ext.
  intros x Hx. rewrite Forall_forall in Hl. by apply Hl.
Qed.

End flip_lemmas.

(** ** The whole call *)

Section call_lemmas.
Context `{Params, RandomSource, ExpModel}.
Implicit Types (g : grid) (k : nat) (kT J h : Q).

Lemma seedSite_in_grid k : in_grid (seedSite k).1 (seedSite k).2.
Proof. pose proof gridSize_pos. split; simpl; by apply randomIndex_range. Qed.

Lemma wolffFuel_enough : (4 * siteCount + 1 <= wolffFuel)%nat.
Proof. unfold siteCount, wolffFuel. pose proof gridSize_pos. nia. Qed.

(** The invariant holds when the loop begins. *)
Lemma wolffInv_initial g k :
  wolffInv g (cellAt g (seedSite k).1 (seedSite k).2) (seedSite k) (k + 2)
    (WolffState [seedSite k] [] (k + 2)).
Proof.
  pose proof (seedSite_in_grid k) as Hseed.
  split; simpl; [constructor | constructor | | by left | lia].
  by apply Forall_singleton.
Qed.

(** The loop ends, with an empty stack and a cluster that satisfies the
    invariant, and every property that the iterations preserve. *)
Lemma growCluster_invariant (P : wolffState -> Prop) kT J g k :
  let initialSpin := cellAt g (seedSite k).1 (seedSite k).2 in
  wf_grid g ->
  (forall st0 s rest st1,
     wolffInv g initialSpin (seedSite k) (k + 2) st0 -> P st0 ->
     stack st0 = s :: rest ->
     wolffStep g initialSpin kT J st0 = Ok st1 -> P st1) ->
  P (WolffState [seedSite k] [] (k + 2)) ->
  exists st, growCluster kT J g k = Ok st /\
    wolffInv g initialSpin (seedSite k) (k + 2) st /\ P st /\
    stack st = [] /\ grownFrom (seedSite k) (cluster st).
Proof.
  intros initialSpin Hwf HP Hinit. pose proof (seedSite_in_grid k) as Hseed.
  unfold growCluster. rewrite readSpin_wf by (done || apply Hseed). simpl.
  destruct (wolffLoop_invariant g initialSpin kT J Hwf P (seedSite k) (k + 2)
              wolffFuel (WolffState [seedSite k] [] (k + 2)) HP)
    as (st & E & Hinv & Hst & Hstack); [| done | |].
  - apply wolffInv_initial.
  - pose proof wolffFuel_enough. unfold remaining. simpl. lia.
  - exists st. split; [exact E|]. do 3 (split; [done|]).
    destruct Hinv as [_ _ _ [[_ Hs] | [Hg _]] _]; [|done].
    by rewrite Hstack in Hs.
Qed.

Lemma growCluster_returns kT J g k :
  wf_grid g ->
  exists st, growCluster kT J g k = Ok st /\
    wolffInv g (cellAt g (seedSite k).1 (seedSite k).2) (seedSite k) (k + 2) st /\
    stack st = [] /\ grownFrom (seedSite k) (cluster st).
Proof.
  intros Hwf.
  destruct (growCluster_invariant (fun _ => True) kT J g k Hwf)
    as (st & ? & ? & _ & ? & ?); by eauto.
Qed.

(** The bond test never passes when the coupling is not positive and the
    temperature is: the probability is zero or negative. *)
Lemma bondProbability_nonpositive kT J u :
  (0 < kT)%Q -> (J <= 0)%Q -> (0 <= u)%Q ->
  (Fin u <? bondProbability kT J)%num = false.
Proof.
  intros HkT HJ Hu. unfold bondProbability.
  pose proof (tenth_pos kT HkT) as Hpos.
  rewrite (ndiv_Fin kT 10) by lra. simpl nmul.
  rewrite ndiv_Fin by lra. simpl. apply bool_decide_eq_false.
  assert (0 <= -2 * J / (kT / 10))%Q as Hx
    by (apply Qle_shift_div_l; [done | lra]).
  pose proof (qexp_ge_1 _ Hx). lra.
Qed.

(** The bond probability is never above 1. *)
Lemma bondProbability_le_1 kT J u :
  (1 <= u)%Q -> (Fin u <? bondProbability kT J)%num = false.
Proof.
  intros Hu. unfold bondProbability.
  destruct (Fin (-2) * Fin J / (Fin kT / Fin 10))%num as [x | | |]; simpl; try done.
  - apply bool_decide_eq_false. pose proof (qexp_nonneg x). lra.
  - apply bool_decide_eq_false. lra.
Qed.

Lemma wolffLoop_S fuel g initialSpin kT J st s rest :
  stack st = s :: rest ->
  wolffLoop (Datatypes.S fuel) g initialSpin kT J st
  = wolffStep g initialSpin kT J st ≫= wolffLoop fuel g initialSpin kT J.
Proof. intros Hs. simpl. by rewrite Hs. Qed.

Lemma wolffLoop_done fuel g initialSpin kT J st :
  stack st = [] -> wolffLoop fuel g initialSpin kT J st = Ok st.
Proof. intros Hs. destruct fuel; simpl; by rewrite Hs. Qed.

(** When no bond test passes, the tests of a site push nothing. *)
Lemma tryNeighbour_no_push g initialSpin kT J cl row col d stk k :
  wf_grid g -> in_grid row col -> d ∈ directions ->
  (forall n, (Fin (random n) <? bondProbability kT J)%num = false) ->
  exists k',
    tryNeighbour g initialSpin kT J cl row col d (stk, k) = Ok (stk, k') /\
    (k <= k' <= k + 1)%nat.
Proof.
  intros Hwf Hin Hd Hno.
  pose proof (neighbour_in_grid_site row col d Hin Hd) as Hn.
  unfold tryNeighbour.
  rewrite (bind_Ok _ _ _ (readSpin_wf g _ _ Hwf (proj1 Hn))). cbv beta.
  rewrite Hno. destruct (_ && _); eexists; (split; [done | lia]).
Qed.

Lemma tryNeighbours_no_push g initialSpin kT J cl row col ds stk k :
  wf_grid g -> in_grid row col -> (forall d, d ∈ ds -> d ∈ directions) ->
  (forall n, (Fin (random n) <? bondProbability kT J)%num = false) ->
  exists k',
    foldlM (tryNeighbour g initialSpin kT J cl row col) ds (stk, k) = Ok (stk, k') /\
    (k <= k' <= k + length ds)%nat.
Proof.
  intros Hwf Hin Hds Hno. revert k. induction ds as [|d ds IH]; intros k.
  - exists k. split; [done | simpl; lia].
  - destruct (tryNeighbour_no_push g initialSpin kT J cl row col d stk k)
      as (k1 & E1 & K1); [done | done | apply Hds; left | done |].
    destruct (IH ltac:(intros; apply Hds; by right) k1) as (k2 & E2 & K2).
    exists k2. rewrite foldlM_cons, (bind_Ok _ _ _ E1). split; [done | simpl; lia].
Qed.

(** With no bond test passing, the loop ends after one iteration with the
    seed alone in the cluster. *)
Lemma growCluster_seed_only kT J g k :
  wf_grid g ->
  (forall n, (Fin (random n) <? bondProbability kT J)%num = false) ->
  exists k', growCluster kT J g k = Ok (WolffState [] [seedSite k] k') /\
    (k + 2 <= k' <= k + 6)%nat.
Proof.
  intros Hwf Hno. pose proof (seedSite_in_grid k) as Hseed.
  unfold growCluster, seedSite in *. cbv zeta. cbn [fst snd] in Hseed.
  set (r := randomIndex gridSize k) in *.
  set (c := randomIndex gridSize (k + 1)) in *.
  destruct (tryNeighbours_no_push g (cellAt g r c) kT J [(r, c)] r c directions []
              (k + 2)%nat Hwf Hseed ltac:(done) Hno) as (k' & E & Hk).
  exists k'. split; [|simpl in Hk; lia].
  rewrite (bind_Ok _ _ _ (readSpin_wf g r c Hwf (proj1 Hseed))).
  pose proof wolffFuel_enough as Hfuel.
  destruct wolffFuel as [|fuel]; [lia|].
  rewrite (wolffLoop_S _ _ _ _ _ _ (r, c) []) by done.
  unfold wolffStep. cbn [stack cluster draws inCluster existsb app].
  rewrite (bind_Ok _ _ _ E). cbn [mbind res_bind fst snd].
  by apply wolffLoop_done.
Qed.

End call_lemmas.

(** ** When every bond test passes *)

Section all_pass.
Context `{Params, RandomSource, ExpModel}.
Context (g : grid) (initialSpin : option spin) (kT J : Q).
Context (Hwf : wf_grid g).
Context (Hpass : forall n, (Fin (random n) <? bondProbability kT J)%num = true).
Implicit Types (s a b : site) (cl stk news : list site) (k : nat).

Lemma tryNeighbour_all_pass cl row col d stk k :
  in_grid row col -> d ∈ directions ->
  exists news k',
    tryNeighbour g initialSpin kT J cl row col d (stk, k) = Ok (news ++ stk, k') /\
    (cellAt g (wrap row d.1) (wrap col d.2) = initialSpin ->
     (wrap row d.1, wrap col d.2) ∈ cl \/ (wrap row d.1, wrap col d.2) ∈ news).
Proof using Hwf Hpass.
  intros Hin Hd. pose proof (neighbour_in_grid_site row col d Hin Hd) as Hn.
  unfold tryNeighbour.
  rewrite (bind_Ok _ _ _ (readSpin_wf g _ _ Hwf (proj1 Hn))). cbv beta.
  rewrite Hpass.
  destruct (bool_decide _) eqn:E1; simpl;
    [|exists [], k; split; [done|]; by apply bool_decide_eq_false in E1].
  destruct (inCluster _ _ _) eqn:E2; simpl.
  - exists [], k. split; [done|]. left. by apply inCluster_spec.
  - exists [(wrap row d.1, wrap col d.2)], (Datatypes.S k).
    split; [done|]. right. by left.
Qed.

Lemma tryNeighbours_all_pass cl row col ds stk k :
  in_grid row col -> (forall d, d ∈ ds -> d ∈ directions) ->
  exists news k',
    foldlM (tryNeighbour g initialSpin kT J cl row col) ds (stk, k)
    = Ok (news ++ stk, k') /\
    forall d, d ∈ ds -> cellAt g (wrap row d.1) (wrap col d.2) = initialSpin ->
      (wrap row d.1, wrap col d.2) ∈ cl \/ (wrap row d.1, wrap col d.2) ∈ news.
Proof using Hwf Hpass.
  intros Hin. revert stk k. induction ds as [|d ds IH]; intros stk k Hds.
  - exists [], k. split; [done|]. by intros d ?%elem_of_nil.
  - destruct (tryNeighbour_all_pass cl row col d stk k Hin) as (n1 & k1 & E1 & C1);
      [apply Hds; left|].
    destruct (IH (n1 ++ stk) k1) as (n2 & k2 & E2 & C2);
      [intros; apply Hds; by right|].
    exists (n2 ++ n1), k2.
    rewrite foldlM_cons, (bind_Ok _ _ _ E1), E2, <- app_assoc. split; [done|].
    intros d' [-> | Hd']%elem_of_cons Hspin.
    + destruct (C1 Hspin); [by left | right; apply elem_of_app; by right].
    + destruct (C2 d' Hd' Hspin); [by left | right; apply elem_of_app; by left].
Qed.

(** An iteration keeps the cluster closed, the stack holding what is still
    to be visited. *)
Lemma wolffStep_closed st s rest st1 :
  Forall (siteOk g initialSpin) (stack st) ->
  closedUnder g initialSpin (cluster st) (stack st) ->
  stack st = s :: rest ->
  wolffStep g initialSpin kT J st = Ok st1 ->
  closedUnder g initialSpin (cluster st1) (stack st1).
Proof using Hwf Hpass.
  intros Hstk Hclosed Hs. destruct s as [row col]. unfold wolffStep.
  rewrite Hs in *. apply Forall_cons in Hstk as [[Hin _] _].
  destruct (inCluster (cluster st) row col) eqn:E.
  - apply inCluster_spec in E. intros [= <-]. simpl. intros a b Ha Hab Hb.
    destruct (Hclosed a b Ha Hab Hb) as [? | [-> | ?]%elem_of_cons]; auto.
  - destruct (tryNeighbours_all_pass (cluster st ++ [(row, col)]) row col
                directions rest (draws st) Hin) as (news & k' & -> & Hcover);
      [done|].
    intros [= <-]. simpl. intros a b [Ha | ->%list_elem_of_singleton]%elem_of_app Hab Hb.
    + destruct (Hclosed a b Ha Hab Hb) as [? | [-> | ?]%elem_of_cons].
      * left. apply elem_of_app. by left.
      * left. apply elem_of_app. right. by left.
      * right. apply elem_of_app. by right.
    + destruct Hab as (d & Hd & ->).
      destruct (Hcover d Hd Hb); [by left | right; apply elem_of_app; by left].
Qed.

End all_pass.

Section closure.
Context `{Params, RandomSource, ExpModel}.
Implicit Types (g : grid) (k : nat) (kT J h : Q) (cl : list site).

(** At temperature zero with a positive coupling the bond probability is 1:
    [-2 * J / 0] is [-Infinity] and its exponential is 0. *)
Lemma bondProbability_zero_temperature kT J u :
  (kT == 0)%Q -> (0 < J)%Q -> (u < 1)%Q ->
  (Fin u <? bondProbability kT J)%num = true.
Proof.
  intros HkT HJ Hu. unfold bondProbability.
  rewrite (ndiv_Fin kT 10) by lra. simpl nmul.
  rewrite ndiv_neg_zero by (lra || exact (proj1 (tenth_zero kT) HkT)).
  simpl. apply bool_decide_eq_true. lra.
Qed.

(** When every bond test passes, the cluster is closed: a neighbour of one of
    its sites that holds the seed's spin is one of its sites. *)
Lemma growCluster_closed kT J g k :
  wf_grid g ->
  (forall n, (Fin (random n) <? bondProbability kT J)%num = true) ->
  exists st, growCluster kT J g k = Ok st /\
    wolffInv g (cellAt g (seedSite k).1 (seedSite k).2) (seedSite k) (k + 2) st /\
    closedUnder g (cellAt g (seedSite k).1 (seedSite k).2) (cluster st) [] /\
    grownFrom (seedSite k) (cluster st).
Proof.
  intros Hwf Hpass.
  destruct (growCluster_invariant
              (fun st => closedUnder g (cellAt g (seedSite k).1 (seedSite k).2)
                           (cluster st) (stack st)) kT J g k Hwf)
    as (st & E & Hinv & Hclosed & Hstack & Hgrown).
  - intros st0 s rest st1 [_ _ Hstk _ _] Hc Hs Hstep.
    by eapply wolffStep_closed.
  - intros a b Ha. simpl in Ha. by apply elem_of_nil in Ha.
  - exists st. rewrite Hstack in Hclosed. by eauto.
Qed.

(** On the torus every site is reached from any other by steps down and to
    the right, so a closed set of sites that all qualify is the lattice. *)
Lemma closed_rows cl i j (n : nat) :
  (forall a b, a ∈ cl -> adjacent a b -> b ∈ cl) ->
  in_grid i j -> (i, j) ∈ cl -> ((i + Z.of_nat n) mod gridSize, j) ∈ cl.
Proof.
  intros Hclosed [Hi Hj] Hin. pose proof gridSize_pos.
  induction n as [|n IH].
  - rewrite Z.add_0_r, Z.mod_small by lia. done.
  - apply (Hclosed _ _ IH). exists (1, 0). split; [right; left|].
    unfold neighbour. simpl.
    assert (0 <= (i + Z.of_nat n) mod gridSize < gridSize)
      by (apply Z.mod_pos_bound; lia).
    rewrite wrap_zero by lia. rewrite wrap_mod by lia.
    rewrite Zplus_mod_idemp_l. f_equal. f_equal. lia.
Qed.

Lemma closed_cols cl i j (n : nat) :
  (forall a b, a ∈ cl -> adjacent a b -> b ∈ cl) ->
  in_grid i j -> (i, j) ∈ cl -> (i, (j + Z.of_nat n) mod gridSize) ∈ cl.
Proof.
  intros Hclosed [Hi Hj] Hin. pose proof gridSize_pos.
  induction n as [|n IH].
  - rewrite Z.add_0_r, Z.mod_small by lia. done.
  - apply (Hclosed _ _ IH). exists (0, 1). split; [left|].
    unfold neighbour. simpl.
    assert (0 <= (j + Z.of_nat n) mod gridSize < gridSize)
      by (apply Z.mod_pos_bound; lia).
    rewrite wrap_zero by lia. rewrite wrap_mod by lia.
    rewrite Zplus_mod_idemp_l. f_equal. f_equal. lia.
Qed.

Lemma closed_covers cl i j i' j' :
  (forall a b, a ∈ cl -> adjacent a b -> b ∈ cl) ->
  in_grid i j -> in_grid i' j' -> (i, j) ∈ cl -> (i', j') ∈ cl.
Proof.
  intros Hclosed Hij [Hi' Hj'] Hin. pose proof gridSize_pos.
  assert (0 <= (i' - i) mod gridSize < gridSize) by (apply Z.mod_pos_bound; lia).
  assert (0 <= (j' - j) mod gridSize < gridSize) by (apply Z.mod_pos_bound; lia).
  pose proof (closed_rows cl i j (Z.to_nat ((i' - i) mod gridSize)) Hclosed Hij Hin)
    as Hrow.
  rewrite Z2Nat.id, Zplus_mod_idemp_r in Hrow by lia.
  replace (i + (i' - i)) with i' in Hrow by lia.
  rewrite Z.mod_small in Hrow by lia.
  pose proof (closed_cols cl i' j (Z.to_nat ((j' - j) mod gridSize)) Hclosed
                ltac:(split; [lia | apply Hij]) Hrow) as Hcol.
  rewrite Z2Nat.id, Zplus_mod_idemp_r in Hcol by lia.
  replace (j + (j' - j)) with j' in Hcol by lia.
  by rewrite Z.mod_small in Hcol by lia.
Qed.

(** A call returns the grid with the sites of a cluster flipped, for every
    cluster that the loop can return. *)
Lemma runWolffCluster_flipAll g k kT J h st :
  wf_grid g -> growCluster kT J g k = Ok st ->
  Forall (fun s => in_grid s.1 s.2) (cluster st) ->
  runWolffCluster kT J h (g, k) = Ok (flipAll g (cluster st), draws st).
Proof.
  intros Hwf E Hin. unfold runWolffCluster.
  by rewrite (bind_Ok _ _ _ E), (bind_Ok _ _ _ (flipCluster_flipAll g _ Hwf Hin)).
Qed.

Lemma runWolffCluster_returns g k kT J h :
  wf_grid g ->
  exists st,
    growCluster kT J g k = Ok st /\
    wolffInv g (cellAt g (seedSite k).1 (seedSite k).2) (seedSite k) (k + 2) st /\
    Forall (fun s => in_grid s.1 s.2) (cluster st) /\
    runWolffCluster kT J h (g, k) = Ok (flipAll g (cluster st), draws st).
Proof.
  intros Hwf.
  destruct (growCluster_returns kT J g k Hwf) as (st & E & Hinv & _ & _).
  pose proof (cluster_in_grid _ _ _ (inv_cluster _ _ _ _ _ Hinv)) as Hin.
  exists st. do 3 (split; [done|]). by apply runWolffCluster_flipAll.
Qed.

Lemma runWolffCluster_wf g k kT J h :
  wf_grid g ->
  exists g' k', runWolffCluster kT J h (g, k) = Ok (g', k') /\ wf_grid g'.
Proof.
  intros Hwf.
  destruct (runWolffCluster_returns g k kT J h Hwf) as (st & _ & _ & _ & E).
  eexists _, _. split; [exact E | by apply flipAll_wf].
Qed.

End closure.

(** ** Theorems *)

Section wolff_theorems.
Context `{Params, RandomSource, ExpModel}.
Implicit Types (g : grid) (k : nat) (kT J h : Q).

(** C3: on a well-formed grid [runWolffCluster] ends within the
    [4 * gridSize^2 + 1] iterations of [wolffFuel], does not throw, returns a
    well-formed grid and makes between 2 and [2 + 4 * gridSize^2] draws. *)
Theorem runWolffCluster_terminates g k kT J h :
  wf_grid g ->
  exists g' k', runWolffCluster kT J h (g, k) = Ok (g', k') /\
    wf_grid g' /\ (k + 2 <= k' <= k + 2 + 4 * siteCount)%nat.
Proof.
  intros Hwf.
  destruct (runWolffCluster_returns g k kT J h Hwf)
    as (st & _ & [Hnd _ _ _ Hk] & Hin & E).
  pose proof (cluster_size_bound _ Hnd Hin).
  exists (flipAll g (cluster st)), (draws st).
  split; [done|]. split; [by apply flipAll_wf | lia].
Qed.

(** C14: the cluster that the loop builds has no duplicates, starts with
    the seed, holds only sites of the grid whose spin is the seed's, and is
    connected: every site after the seed is a neighbour on the torus of a
    site that joined before it. *)
Theorem growCluster_connected g k kT J :
  wf_grid g ->
  exists st, growCluster kT J g k = Ok st /\
    stack st = [] /\ NoDup (cluster st) /\
    grownFrom (seedSite k) (cluster st) /\
    Forall (siteOk g (cellAt g (seedSite k).1 (seedSite k).2)) (cluster st).
Proof.
  intros Hwf.
  destruct (growCluster_returns kT J g k Hwf) as (st & E & Hinv & Hs & Hg).
  destruct Hinv as [Hnd Hcl _ _ _]. by exists st.
Qed.

(** C7: the grid that [runWolffCluster] returns differs from the grid it
    was given exactly on the cluster, where every site now holds the opposite
    of the seed's spin. *)
Theorem runWolffCluster_flips_cluster g k kT J h :
  wf_grid g ->
  exists st g',
    growCluster kT J g k = Ok st /\
    runWolffCluster kT J h (g, k) = Ok (g', draws st) /\
    forall i j, cellAt g' i j
      = if decide ((i, j) ∈ cluster st)
        then Some (flipped (cellAt g (seedSite k).1 (seedSite k).2))
        else cellAt g i j.
Proof.
  intros Hwf.
  destruct (runWolffCluster_returns g k kT J h Hwf)
    as (st & Eg & [Hnd Hcl _ _ _] & Hin & E).
  exists st, (flipAll g (cluster st)). do 2 (split; [done|]).
  intros i j. rewrite cellAt_flipAll by done.
  case_decide as Hij; [|done]. rewrite Forall_forall in Hcl.
  destruct (Hcl _ Hij) as [_ Hs]. simpl in Hs. by rewrite Hs.
Qed.

(** A call changes the total spin by twice the size of the cluster,
    against the seed's spin. *)
Theorem runWolffCluster_magnetization g k kT J h :
  wf_grid g ->
  exists st g',
    growCluster kT J g k = Ok st /\
    runWolffCluster kT J h (g, k) = Ok (g', draws st) /\
    totalSpin g'
    = totalSpin g
      - 2 * spinAt g (seedSite k).1 (seedSite k).2 * Z.of_nat (length (cluster st)).
Proof.
  intros Hwf.
  destruct (runWolffCluster_returns g k kT J h Hwf)
    as (st & Eg & [Hnd Hcl _ _ _] & Hin & E).
  exists st, (flipAll g (cluster st)). do 2 (split; [done|]).
  rewrite totalSpin_flipAll by done.
  rewrite (sumZ_constant_on _ (spinAt g (seedSite k).1 (seedSite k).2)); [lia|].
  eapply Forall_impl; [exact Hcl|]. intros s [_ Hs]. unfold spinAt. by rewrite Hs.
Qed.

(** C29: with a positive temperature and a coupling that is zero or
    negative the bond probability is not positive, no neighbour ever joins,
    and the call flips the seed and nothing else, whatever the energy. *)
Theorem runWolffCluster_single_flip g k kT J h :
  wf_grid g -> (0 < kT)%Q -> (J <= 0)%Q ->
  exists k', runWolffCluster kT J h (g, k) = Ok (flipAt g (seedSite k), k') /\
    (k + 2 <= k' <= k + 6)%nat.
Proof.
  intros Hwf HkT HJ.
  destruct (growCluster_seed_only kT J g k Hwf) as (k' & E & Hk).
  { intros n. apply bondProbability_nonpositive; [done..|apply random_range]. }
  exists k'. split; [|done]. unfold runWolffCluster.
  rewrite (bind_Ok _ _ _ E). cbn [cluster draws].
  rewrite flipCluster_flipAll; [done | done |].
  apply Forall_singleton, seedSite_in_grid.
Qed.

(** C30: at temperature zero with a positive coupling every bond test
    passes, and the cluster is the whole domain of the seed: it is grown from
    the seed through neighbours, and every neighbour of one of its sites that
    holds the seed's spin belongs to it. *)
Theorem growCluster_zero_temperature_domain g k kT J :
  wf_grid g -> (kT == 0)%Q -> (0 < J)%Q ->
  exists st, growCluster kT J g k = Ok st /\
    grownFrom (seedSite k) (cluster st) /\
    forall a b, a ∈ cluster st -> adjacent a b ->
      cellAt g b.1 b.2 = cellAt g (seedSite k).1 (seedSite k).2 ->
      b ∈ cluster st.
Proof.
  intros Hwf HkT HJ.
  destruct (growCluster_closed kT J g k Hwf) as (st & E & _ & Hclosed & Hgrown).
  { intros n. apply bondProbability_zero_temperature; [done..|apply random_range]. }
  exists st. split; [done|]. split; [done|]. intros a b Ha Hab Hb.
  destruct (Hclosed a b Ha Hab Hb) as [? | ?%elem_of_nil]; done.
Qed.

(** At temperature zero with a positive coupling, a call on a lattice
    whose spins are all equal flips the whole lattice. *)
Theorem runWolffCluster_zero_temperature_uniform g k kT J h s :
  wf_grid g -> uniform s g -> (kT == 0)%Q -> (0 < J)%Q ->
  exists g' k', runWolffCluster kT J h (g, k) = Ok (g', k') /\
    uniform (flipped (Some s)) g'.
Proof.
  intros Hwf Hu HkT HJ. pose proof (seedSite_in_grid k) as Hseed.
  destruct (growCluster_closed kT J g k Hwf) as (st & E & Hinv & Hclosed & Hgrown).
  { intros n. apply bondProbability_zero_temperature; [done..|apply random_range]. }
  destruct Hinv as [Hnd Hcl _ _ _].
  pose proof (cluster_in_grid _ _ _ Hcl) as Hin.
  exists (flipAll g (cluster st)), (draws st). unfold runWolffCluster.
  rewrite (bind_Ok _ _ _ E), (bind_Ok _ _ _ (flipCluster_flipAll g _ Hwf Hin)).
  split; [done|]. intros i j Hij. rewrite cellAt_flipAll by done.
  rewrite decide_True; [by rewrite Hu|].
  apply (closed_covers _ (seedSite k).1 (seedSite k).2); [|done|done|].
  - intros a b Ha [d [Hd ->]].
    assert (in_grid (neighbour a.1 a.2 d).1 (neighbour a.1 a.2 d).2) as Hb.
    { apply neighbour_in_grid; [|done]. rewrite Forall_forall in Hin. by apply Hin. }
    destruct (Hclosed a (neighbour a.1 a.2 d) Ha) as [? | ?%elem_of_nil];
      [by exists d | by rewrite !Hu | done | done].
  - apply grownFrom_head in Hgrown. destruct (cluster st) as [|s0 l]; [done|].
    simpl in Hgrown. injection Hgrown as ->. destruct (seedSite k). left.
Qed.

End wolff_theorems.

(** ** The random stream *)

Section determinism.
Context `{Params, ExpModel}.
Context (R1 R2 : RandomSource).
Implicit Types (g : grid) (k : nat) (kT J h : Q) (st : wolffState).

Lemma tryNeighbour_agree g initialSpin kT J cl row col d stk k :
  @random R1 k = @random R2 k ->
  @tryNeighbour _ R1 _ g initialSpin kT J cl row col d (stk, k)
  = @tryNeighbour _ R2 _ g initialSpin kT J cl row col d (stk, k).
Proof. intros E. unfold tryNeighbour. by rewrite E. Qed.

(** A bond test makes at most one draw. *)
Lemma tryNeighbour_cursor (R : RandomSource) g initialSpin kT J cl row col d
    stk k stk' k' :
  @tryNeighbour _ R _ g initialSpin kT J cl row col d (stk, k) = Ok (stk', k') ->
  (k <= k' <= k + 1)%nat.
Proof.
  unfold tryNeighbour. intros E. apply bind_Ok_inv in E as (n & _ & E).
  repeat match type of E with
         | context [if ?b then _ else _] => destruct b
         end; injection E as _ <-; lia.
Qed.

Lemma tryNeighbours_agree g initialSpin kT J cl row col ds stk k :
  (forall n, (k <= n < k + length ds)%nat -> @random R1 n = @random R2 n) ->
  foldlM (@tryNeighbour _ R1 _ g initialSpin kT J cl row col) ds (stk, k)
  = foldlM (@tryNeighbour _ R2 _ g initialSpin kT J cl row col) ds (stk, k).
Proof.
  revert stk k. induction ds as [|d ds IH]; intros stk k Hagree; [done|].
  rewrite !foldlM_cons, tryNeighbour_agree by (apply Hagree; simpl; lia).
  destruct (@tryNeighbour _ R2 _ g initialSpin kT J cl row col d (stk, k))
    as [[stk' k']|e] eqn:E; [|done].
  apply tryNeighbour_cursor in E. cbn [mbind res_bind]. apply IH.
  intros n Hn. apply Hagree. simpl. lia.
Qed.

(** An iteration draws only when it adds the popped site to the cluster,
    and then at most four times. *)
Lemma wolffStep_agree g initialSpin kT J st :
  (forall row col rest,
     stack st = (row, col) :: rest -> (row, col) ∉ cluster st ->
     forall n, (draws st <= n < draws st + 4)%nat ->
       @random R1 n = @random R2 n) ->
  @wolffStep _ R1 _ g initialSpin kT J st
  = @wolffStep _ R2 _ g initialSpin kT J st.
Proof.
  intros Hagree. unfold wolffStep.
  destruct (stack st) as [|[row col] rest] eqn:Hs; [done|].
  destruct (inCluster _ _ _) eqn:E; [done|]. apply inCluster_false in E.
  rewrite (tryNeighbours_agree _ _ _ _ _ _ _ directions); [done|].
  intros n Hn. by apply (Hagree row col rest).
Qed.

Lemma wolffLoop_agree g initialSpin kT J seed k0 fuel st :
  wf_grid g ->
  (forall n, (k0 <= n < k0 + 4 * siteCount)%nat -> @random R1 n = @random R2 n) ->
  wolffInv g initialSpin seed k0 st ->
  @wolffLoop _ R1 _ fuel g initialSpin kT J st
  = @wolffLoop _ R2 _ fuel g initialSpin kT J st.
Proof.
  intros Hwf Hagree. revert st.
  induction fuel as [|fuel IH]; intros st Hinv; [done|].
  simpl. destruct (stack st) as [|s rest] eqn:Hs; [done|].
  rewrite <- (wolffStep_agree g initialSpin kT J st).
  - destruct (@wolffStep_spec _ R1 _ g initialSpin kT J Hwf seed k0 st s rest
                Hinv Hs) as (st1 & -> & Hinv1 & _).
    cbn [mbind res_bind]. by apply IH.
  - intros row col rest' Hs' Hnotin n Hn. apply Hagree.
    destruct (wolffInv_grow g initialSpin seed k0 st row col rest' []
                (draws st) Hinv Hs' Hnotin) as [Hnd Hcl _ _ _];
      [constructor | lia |].
    pose proof (cluster_size_bound _ Hnd (cluster_in_grid _ _ _ Hcl)) as Hb.
    cbn [cluster] in Hb. rewrite length_app in Hb. simpl in Hb.
    destruct Hinv as [_ _ _ _ Hk]. lia.
Qed.

(** on a well-formed grid the result of [runWolffCluster] depends on
    the [2 + 4 * gridSize^2] draws that follow the cursor and on nothing else
    of the random stream: two streams that agree there give the same grid and
    the same cursor. *)
Theorem runWolffCluster_deterministic g k kT J h :
  wf_grid g ->
  (forall n, (k <= n < k + 2 + 4 * siteCount)%nat ->
     @random R1 n = @random R2 n) ->
  @runWolffCluster _ R1 _ kT J h (g, k) = @runWolffCluster _ R2 _ kT J h (g, k).
Proof.
  intros Hwf Hagree. unfold runWolffCluster, growCluster, randomIndex.
  rewrite <- (Hagree k), <- (Hagree (k + 1)%nat) by lia.
  destruct (readSpin _ _ _) as [initialSpin|e] eqn:Er; [|done].
  cbn [mbind res_bind].
  rewrite (wolffLoop_agree g initialSpin kT J (@seedSite _ R1 k) (k + 2));
    [done | done | intros n Hn; apply Hagree; lia |].
  pose proof (@wolffInv_initial _ R1 g k) as Hinv.
  pose proof (@seedSite_in_grid _ R1 k) as Hseed.
  unfold seedSite, randomIndex in *. cbn [fst snd] in *.
  rewrite readSpin_wf in Er by (done || apply Hseed). by injection Er as <-.
Qed.

End determinism.

(** ** The theorems at the script's parameters *)

Section witnesses.
#[local] Existing Instance source_params.
#[local] Instance witness_stream : RandomSource := lcg_random 7.

Lemma runWolffCluster_terminates_witness :
  exists g' k', runWolffCluster 50 1 0 (initialSpins, 0%nat) = Ok (g', k') /\
    wf_grid g' /\ (0 + 2 <= k' <= 0 + 2 + 4 * siteCount)%nat.
Proof. apply runWolffCluster_terminates, initialSpins_wf. Defined.

Lemma growCluster_connected_witness :
  exists st, growCluster 50 1 initialSpins 0 = Ok st /\
    stack st = [] /\ NoDup (cluster st) /\
    grownFrom (seedSite 0) (cluster st) /\
    Forall (siteOk initialSpins (cellAt initialSpins (seedSite 0).1 (seedSite 0).2))
      (cluster st).
Proof. apply growCluster_connected, initialSpins_wf. Defined.

Lemma runWolffCluster_flips_cluster_witness :
  exists st g',
    growCluster 50 1 initialSpins 0 = Ok st /\
    runWolffCluster 50 1 0 (initialSpins, 0%nat) = Ok (g', draws st) /\
    forall i j, cellAt g' i j
      = if decide ((i, j) ∈ cluster st)
        then Some (flipped (cellAt initialSpins (seedSite 0).1 (seedSite 0).2))
        else cellAt initialSpins i j.
Proof. apply runWolffCluster_flips_cluster, initialSpins_wf. Defined.

Lemma runWolffCluster_magnetization_witness :
  exists st g',
    growCluster 50 1 initialSpins 0 = Ok st /\
    runWolffCluster 50 1 0 (initialSpins, 0%nat) = Ok (g', draws st) /\
    totalSpin g'
    = totalSpin initialSpins
      - 2 * spinAt initialSpins (seedSite 0).1 (seedSite 0).2
        * Z.of_nat (length (cluster st)).
Proof. apply runWolffCluster_magnetization, initialSpins_wf. Defined.

Lemma runWolffCluster_single_flip_witness :
  exists k',
    runWolffCluster 50 (-1) 0 (initialSpins, 0%nat)
    = Ok (flipAt initialSpins (seedSite 0), k') /\
    (0 + 2 <= k' <= 0 + 6)%nat.
Proof. apply runWolffCluster_single_flip; [apply initialSpins_wf | done | done]. Defined.

Lemma growCluster_zero_temperature_domain_witness :
  exists st, growCluster 0 1 initialSpins 0 = Ok st /\
    grownFrom (seedSite 0) (cluster st) /\
    forall a b, a ∈ cluster st -> adjacent a b ->
      cellAt initialSpins b.1 b.2
      = cellAt initialSpins (seedSite 0).1 (seedSite 0).2 ->
      b ∈ cluster st.
Proof.
  apply growCluster_zero_temperature_domain; [apply initialSpins_wf | done | done].
Defined.

Lemma runWolffCluster_zero_temperature_uniform_witness :
  exists g' k', runWolffCluster 0 1 0 (initialSpins, 0%nat) = Ok (g', k') /\
    uniform (flipped (Some up)) g'.
Proof.
  apply runWolffCluster_zero_temperature_uniform;
    [apply initialSpins_wf | | done | done].
  intros i j Hij. by apply initialSpins_cell.
Defined.

Lemma runWolffCluster_deterministic_witness :
  @runWolffCluster _ witness_stream _ 50 1 0 (initialSpins, 0%nat)
  = @runWolffCluster _ (prefix_random witness_stream 402) _ 50 1 0
      (initialSpins, 0%nat).
Proof.
  apply runWolffCluster_deterministic; [apply initialSpins_wf|].
  intros n Hn. symmetry. apply prefix_random_agrees.
  change siteCount with 100%nat in Hn. lia.
Defined.

End witnesses.
