(* ===== verification/History.v ===== *)
(** * The history buffer: [spinHistory]

    After every update [runSimulation] appends a deep copy of the grid,
    [JSON.parse(JSON.stringify(spins))], and removes the oldest entry when the
    length has passed [historySize].  A deep copy of an array of arrays of
    strings is the same value held in fresh arrays; values have no identity
    here, so the copy is the grid itself and later writes to [spins] cannot
    reach it. *)

From Stdlib Require Import ZArith Lia.
From stdpp Require Import base tactics option list list_numbers.
From S2P Require Import Prelude Lattice.

#[local] Open Scope Z_scope.

Section history.
Context `{Params}.

(** [spinHistory.push(copy); if (spinHistory.length > historySize)
    spinHistory.shift();] *)
Definition pushHistory (spinHistory : list grid) (g : grid) : list grid :=
  let pushed := spinHistory ++ [g] in
  if decide (historySize < Z.of_nat (length pushed)) then drop 1 pushed
  else pushed.

(** The history after the snapshots [gs] have been pushed in order. *)
Definition pushAll (spinHistory : list grid) (gs : list grid) : list grid :=
  foldl pushHistory spinHistory gs.

(** ** Invariant *)

(** The history holds at most [historySize] snapshots, all well formed. *)
Definition wf_history (spinHistory : list grid) : Prop :=
  Z.of_nat (length spinHistory) <= historySize /\ Forall wf_grid spinHistory.

#[export] Instance wf_history_dec (spinHistory : list grid) :
  Decision (wf_history spinHistory).
Proof. unfold wf_history. apply _. Defined.

(** The capacity as a count of elements. *)
Definition capacity : nat := Z.to_nat historySize.

End history.

Section history_lemmas.
Context `{Params}.
Implicit Types (hist gs : list grid) (g : grid).

Lemma pushHistory_below hist g :
  Z.of_nat (length hist) < historySize -> pushHistory hist g = hist ++ [g].
Proof.
  intros Hlen. unfold pushHistory. rewrite decide_False; [done|].
  rewrite length_app. simpl. lia.
Qed.

Lemma pushHistory_full hist g :
  historySize <= Z.of_nat (length hist) ->
  pushHistory hist g = drop 1 (hist ++ [g]).
Proof.
  intros Hlen. unfold pushHistory. rewrite decide_True; [done|].
  rewrite length_app. simpl. lia.
Qed.

Lemma pushHistory_length hist g :
  length (pushHistory hist g)
  = if decide (Z.of_nat (length hist) < historySize)
    then Datatypes.S (length hist) else length hist.
Proof.
  case_decide.
  - rewrite pushHistory_below by done. rewrite length_app. simpl. lia.
  - rewrite pushHistory_full by lia. rewrite length_drop, length_app. simpl. lia.
Qed.

(** One push, as the suffix of the extended list that fits the capacity. *)
Lemma pushHistory_drop hist g :
  0 <= historySize -> Z.of_nat (length hist) <= historySize ->
  pushHistory hist g = drop (length (hist ++ [g]) - capacity) (hist ++ [g]).
Proof.
  intros Hcap Hlen. unfold capacity. rewrite length_app. simpl.
  destruct (decide (Z.of_nat (length hist) < historySize)).
  - rewrite pushHistory_below by done.
    replace (length hist + 1 - Z.to_nat historySize)%nat with 0%nat by lia. done.
  - rewrite pushHistory_full by lia.
    by replace (length hist + 1 - Z.to_nat historySize)%nat with 1%nat by lia.
Qed.

Lemma pushHistory_elem hist g x :
  x ∈ pushHistory hist g -> x ∈ hist \/ x = g.
Proof.
  unfold pushHistory. intros Hx.
  assert (x ∈ hist ++ [g]) as Hin.
  { case_decide; [by eapply subseteq_drop | done]. }
  apply elem_of_app in Hin as [? | Hin]; [by left | right].
  by apply list_elem_of_singleton in Hin.
Qed.

Lemma pushHistory_last hist g :
  0 < historySize -> last (pushHistory hist g) = Some g.
Proof.
  intros Hcap. unfold pushHistory. rewrite length_app. simpl.
  case_decide; [rewrite last_drop_lt|]; rewrite ?last_snoc, ?length_app; simpl;
    [done | lia | done].
Qed.

Lemma pushHistory_wf hist g :
  0 <= historySize -> wf_history hist -> wf_grid g ->
  wf_history (pushHistory hist g).
Proof.
  intros Hcap [Hlen Hall] Hg. split.
  - rewrite pushHistory_length. case_decide; lia.
  - apply Forall_forall. intros x Hx.
    apply pushHistory_elem in Hx as [Hx | ->]; [|done].
    by rewrite Forall_forall in Hall; apply Hall.
Qed.

Lemma pushAll_snoc hist gs g :
  pushAll hist (gs ++ [g]) = pushHistory (pushAll hist gs) g.
Proof. unfold pushAll. by rewrite foldl_app. Qed.

Lemma pushAll_length_bound hist gs :
  0 <= historySize -> Z.of_nat (length hist) <= historySize ->
  Z.of_nat (length (pushAll hist gs)) <= historySize.
Proof.
  intros Hcap. revert hist. induction gs as [|g gs IH]; intros hist Hlen; [done|].
  simpl. apply IH. rewrite pushHistory_length. case_decide; lia.
Qed.

Lemma pushAll_drop hist gs :
  0 <= historySize -> Z.of_nat (length hist) <= historySize ->
  pushAll hist gs = drop (length (hist ++ gs) - capacity) (hist ++ gs).
Proof.
  intros Hcap. induction gs as [|g gs IH] using rev_ind; intros Hlen.
  - rewrite app_nil_r. unfold capacity. simpl.
    by replace (length hist - Z.to_nat historySize)%nat with 0%nat by lia.
  - rewrite pushAll_snoc, pushHistory_drop;
      [| done | by apply pushAll_length_bound].
    rewrite IH by done. rewrite app_assoc.
    set (l := hist ++ gs). unfold capacity.
    rewrite !length_app, length_drop. simpl.
    destruct (decide (length l <= Z.to_nat historySize)%nat) as [Hle | Hgt].
    + replace (length l - Z.to_nat historySize)%nat with 0%nat by lia.
      rewrite !drop_0. f_equal. lia.
    + rewrite <- drop_app_le by lia. rewrite drop_drop. f_equal. lia.
Qed.

End history_lemmas.

Section history_theorems.
Context `{Params}.
Implicit Types (hist gs : list grid) (g : grid).

(** C20: the push keeps the history within [historySize] entries, all of them
    well-formed grids, and its last entry is the grid just pushed. *)
Theorem pushHistory_invariant hist g :
  0 < historySize -> wf_history hist -> wf_grid g ->
  wf_history (pushHistory hist g) /\ last (pushHistory hist g) = Some g.
Proof.
  intros Hcap Hwf Hg. split; [apply pushHistory_wf; [lia | done..]|].
  by apply pushHistory_last.
Qed.

(** C4: first in, first out.  After any sequence of pushes into an empty
    history, the history is the last [historySize] grids pushed, in the order
    in which they were pushed. *)
Theorem pushAll_fifo gs :
  0 <= historySize ->
  pushAll [] gs = drop (length gs - capacity) gs.
Proof. intros Hcap. rewrite pushAll_drop by (simpl; lia). done. Qed.

(** Once more than [historySize] grids have been pushed the history
    holds exactly [historySize] entries. *)
Theorem pushAll_saturates gs :
  0 <= historySize -> historySize <= Z.of_nat (length gs) ->
  Z.of_nat (length (pushAll [] gs)) = historySize.
Proof.
  intros Hcap Hlen. rewrite pushAll_drop by (simpl; lia). simpl.
  rewrite length_drop. unfold capacity. lia.
Qed.

End history_theorems.

(** ** The theorems at the script's parameters *)

Section witnesses.
#[local] Existing Instance source_params.

Lemma pushHistory_invariant_witness :
  wf_history (pushHistory [initialSpins] initialSpins) /\
  last (pushHistory [initialSpins] initialSpins) = Some initialSpins.
Proof. apply pushHistory_invariant; solve_concrete. Defined.

Lemma pushAll_fifo_witness :
  pushAll [] (replicate 101 initialSpins)
  = drop (length (replicate 101 initialSpins) - capacity)
      (replicate 101 initialSpins).
Proof. apply pushAll_fifo. solve_concrete. Defined.

Lemma pushAll_saturates_witness :
  Z.of_nat (length (pushAll [] (replicate 101 initialSpins))) = historySize.
Proof. apply pushAll_saturates; solve_concrete. Defined.

End witnesses.
