(* ===== verification/Observables.v ===== *)
(** * The observables

    [calculateMagnetization], [calculateCorrelation],
    [calculateTwoPointCorrelation], [calculatePairCorrelation] and
    [calculateTemporalCorrelation] read [spins] (and [spinHistory]) and return
    a number.  The sums of products of spin values are integers, far below
    2^53, so the accumulators are exact; the final division is the division
    of [Numeric.num].

    The loops of [calculateTwoPointCorrelation] and of
    [calculatePairCorrelation] are the same text in the script; they are one
    definition here, [diagonalCorrelation]. *)

From Stdlib Require Import ZArith QArith Qabs Lqa Lia.
From stdpp Require Import base tactics option list list_numbers.
From S2P Require Import Prelude Numeric Lattice Energy History.

#[local] Open Scope Z_scope.

Section observables.
Context `{Params}.

(** ** The functions of the script *)

(** [spins.forEach(row => row.forEach(spin => total += ...))]: the loop runs
    over the rows and the cells that exist, whatever [gridSize] says. *)
Definition calculateMagnetization (g : grid) : num :=
  let totalMagnetization :=
    foldl (fun total row =>
      foldl (fun total spin => total + spinToValue (Some spin)) total row)
      0 g in
  (Fin (inject_Z totalMagnetization) / Fin (inject_Z (gridSize * gridSize)))%num.

Definition calculateCorrelation (g : grid) : res num :=
  correlationSum ← forZ gridSize (fun i => forZ gridSize (fun j correlationSum =>
    c ← readSpin g i j;
    let currentSpin := spinToValue c in
    below ← readSpin g (wrapForward i 1) j;
    right ← readSpin g i (wrapForward j 1);
    let neighborSpins := [below; right] in
    Ok (foldl (fun sum neighborSpin => sum + currentSpin * spinToValue neighborSpin)
          correlationSum neighborSpins))) 0;
  Ok (Fin (inject_Z correlationSum)
      / Fin (inject_Z (2 * gridSize * gridSize)))%num.

(** The loops shared by the two functions below: the sum of the products of
    every spin with the spin [distance] rows down and [distance] columns to
    the right, and the number of sites visited. *)
Definition diagonalCorrelation (g : grid) (distance : Z) : res num :=
  sc ← forZ gridSize (fun i => forZ gridSize (fun j (sc : Z * Z) =>
    c ← readSpin g i j;
    let currentSpin := spinToValue c in
    let ni := wrapForward i distance in
    let nj := wrapForward j distance in
    n ← readSpin g ni nj;
    let neighborSpin := spinToValue n in
    Ok (sc.1 + currentSpin * neighborSpin, sc.2 + 1))) (0, 0);
  Ok (Fin (inject_Z sc.1) / Fin (inject_Z sc.2))%num.

Definition calculateTwoPointCorrelation (spinHistory : list grid) (g : grid)
    (distance : Z) : res num :=
  if decide (Z.of_nat (length spinHistory) <= 1) then Ok (Fin 0)
  else diagonalCorrelation g distance.

Definition calculatePairCorrelation (g : grid) : res (list (Z * num)) :=
  foldlM (fun distance correlation =>
      c ← diagonalCorrelation g distance;
      Ok (correlation ++ [(distance, c)]))
    (seqZ 1 (gridSize / 2)) [].

Definition calculateTemporalCorrelation (spinHistory : list grid) (g : grid)
    (lag : Z) : res num :=
  if decide (Z.of_nat (length spinHistory) <= lag) then Ok (Fin 0)
  else
    sc ← forZ gridSize (fun i => forZ gridSize (fun j (sc : Z * Z) =>
      c ← readSpin g i j;
      let currentSpin := spinToValue c in
      past ← from_option_res TypeError
               (zlookup spinHistory (Z.of_nat (length spinHistory) - lag - 1));
      p ← readSpin past i j;
      let pastSpin := spinToValue p in
      Ok (sc.1 + currentSpin * pastSpin, sc.2 + 1))) (0, 0);
    Ok (Fin (inject_Z sc.1) / Fin (inject_Z sc.2))%num.

(** ** Reference definitions *)

(** The sum of the products of every spin with the one at the diagonal
    offset [d]. *)
Definition diagonalSum (g : grid) (d : Z) : Z :=
  sum_sites gridSize (fun i j =>
    spinAt g i j * spinAt g ((i + d) mod gridSize) ((j + d) mod gridSize)).

(** The sum of the products of the spins of two grids, site by site. *)
Definition overlap (g g' : grid) : Z :=
  sum_sites gridSize (fun i j => spinAt g i j * spinAt g' i j).

(** An integer divided by the number of sites. *)
Definition perSite (x : Z) : Q :=
  (inject_Z x / inject_Z (gridSize * gridSize))%Q.

End observables.

(** ** Ratios per site *)

Section per_site.
Context `{Params}.

Lemma perSite_bounds (x : Z) :
  - (gridSize * gridSize) <= x <= gridSize * gridSize ->
  (-1 <= perSite x <= 1)%Q.
Proof.
  intros Hx. pose proof gridSize_pos.
  assert (0 < inject_Z (gridSize * gridSize))%Q as Hpos
    by (apply inject_Z_pos; nia).
  apply inject_Z_bounds in Hx. rewrite inject_Z_opp in Hx. unfold perSite.
  split; [apply Qle_shift_div_l | apply Qle_shift_div_r]; try done; lra.
Qed.

Lemma perSite_all (c : Z) : (perSite (c * (gridSize * gridSize)) == inject_Z c)%Q.
Proof.
  unfold perSite. rewrite inject_Z_mult.
  field. apply gridSize_square_nonzero.
Qed.

Lemma perSite_sub (x y : Z) : (perSite (x - y) == perSite x - perSite y)%Q.
Proof.
  unfold perSite, Z.sub. rewrite inject_Z_plus, inject_Z_opp.
  field. apply gridSize_square_nonzero.
Qed.

Lemma ndiv_perSite (x : Z) :
  (Fin (inject_Z x) / Fin (inject_Z (gridSize * gridSize)))%num = Fin (perSite x).
Proof. apply ndiv_Fin, gridSize_square_nonzero. Qed.

Lemma sum_sites_product_bounds (f : Z -> Z -> Z) :
  (forall i j, -1 <= f i j <= 1) ->
  - (gridSize * gridSize) <= sum_sites gridSize f <= gridSize * gridSize.
Proof.
  intros Hf.
  pose proof (sum_sites_bounds gridSize (-1) 1 f gridSize_nonneg
                (fun i j _ _ => Hf i j)). lia.
Qed.

End per_site.

(** ** Magnetization *)

Section magnetization.
Context `{Params}.
Implicit Types (g : grid).

Lemma row_sum_spinAt g i row :
  zlookup g i = Some row -> Z.of_nat (length row) = gridSize ->
  sumZ (fun s => spinToValue (Some s)) row = sumZ (spinAt g i) (seqZ 0 gridSize).
Proof.
  intros Hrow Hlen. rewrite (sumZ_zlookup _ 0), Hlen.
  apply sumZ_ext. intros j Hj. apply elem_of_seqZ in Hj.
  unfold spinAt, cellAt. rewrite Hrow. simpl.
  destruct (zlookup row j) eqn:E; [done|]. apply zlookup_None in E. lia.
Qed.

Lemma magnetization_loop g :
  wf_grid g ->
  foldl (fun total row =>
    foldl (fun total spin => total + spinToValue (Some spin)) total row) 0 g
  = totalSpin g.
Proof.
  intros Hwf. rewrite foldl_foldl_sumZ, (sumZ_zlookup _ 0).
  replace (Z.of_nat (length g)) with gridSize
    by (destruct Hwf as [-> _]; symmetry; apply gridSize_to_nat).
  simpl. apply sumZ_ext. intros i Hi. apply elem_of_seqZ in Hi.
  destruct (wf_grid_row g i Hwf) as (row & Hrow & Hlen); [lia|].
  rewrite Hrow. simpl. by apply row_sum_spinAt.
Qed.

Lemma calculateMagnetization_totalSpin g :
  wf_grid g -> calculateMagnetization g = Fin (perSite (totalSpin g)).
Proof.
  intros Hwf. unfold calculateMagnetization.
  rewrite magnetization_loop by done. apply ndiv_perSite.
Qed.

Lemma totalSpin_bounds g :
  - (gridSize * gridSize) <= totalSpin g <= gridSize * gridSize.
Proof. apply sum_sites_product_bounds. intros. apply spinAt_bounds. Qed.

End magnetization.

(** ** The loops of the correlation functions *)

Section correlation_loops.
Context `{Params}.
Implicit Types (g past : grid) (hist : list grid).

Lemma correlation_loop g :
  wf_grid g ->
  forZ gridSize (fun i => forZ gridSize (fun j correlationSum =>
    c ← readSpin g i j;
    below ← readSpin g (wrapForward i 1) j;
    right ← readSpin g i (wrapForward j 1);
    Ok (foldl (fun sum neighborSpin => sum + spinToValue c * spinToValue neighborSpin)
          correlationSum [below; right]))) 0
  = Ok (bondSum g).
Proof.
  intros Hwf. unfold bondSum.
  erewrite forZ_sum_sites; [done|]. intros i j a Hi Hj. simpl.
  rewrite !readSpin_wf by (done || apply wrapForward_range; lia). simpl.
  f_equal. unfold spinAt. lia.
Qed.

Lemma two_sites_nonzero : ~ (inject_Z (2 * gridSize * gridSize) == 0)%Q.
Proof. pose proof gridSize_pos. apply inject_Z_nonzero. nia. Qed.

Lemma bondSum_bounds g :
  - (2 * gridSize * gridSize) <= bondSum g <= 2 * gridSize * gridSize.
Proof.
  pose proof (sum_sites_bounds gridSize (-2) 2
    (fun i j => spinAt g i j * spinAt g (wrapForward i 1) j
                + spinAt g i j * spinAt g i (wrapForward j 1)) gridSize_nonneg) as Hb.
  unfold bondSum. enough (forall i j, -2 <=
    spinAt g i j * spinAt g (wrapForward i 1) j
    + spinAt g i j * spinAt g i (wrapForward j 1) <= 2) as Hs
    by (specialize (Hb (fun i j _ _ => Hs i j)); lia).
  intros i j.
  pose proof (spinAt_product_bounds g g i j (wrapForward i 1) j).
  pose proof (spinAt_product_bounds g g i j i (wrapForward j 1)). lia.
Qed.

Lemma diagonal_loop g d :
  wf_grid g -> 0 <= d ->
  forZ gridSize (fun i => forZ gridSize (fun j (sc : Z * Z) =>
    c ← readSpin g i j;
    n ← readSpin g (wrapForward i d) (wrapForward j d);
    Ok (sc.1 + spinToValue c * spinToValue n, sc.2 + 1))) (0, 0)
  = Ok (diagonalSum g d, gridSize * gridSize).
Proof.
  intros Hwf Hd. unfold diagonalSum.
  erewrite forZ_sum_count; [done | apply gridSize_nonneg |].
  intros i j a Hi Hj. simpl.
  rewrite !readSpin_wf by (done || apply wrapForward_range; lia). simpl.
  by rewrite !wrapForward_mod by lia.
Qed.

Lemma diagonalCorrelation_returns g d :
  wf_grid g -> 0 <= d ->
  diagonalCorrelation g d = Ok (Fin (perSite (diagonalSum g d))).
Proof.
  intros Hwf Hd. unfold diagonalCorrelation.
  rewrite (bind_Ok _ _ _ (diagonal_loop g d Hwf Hd)). cbn [fst snd].
  by rewrite ndiv_perSite.
Qed.

Lemma temporal_loop hist g past lag :
  wf_grid g -> wf_grid past ->
  zlookup hist (Z.of_nat (length hist) - lag - 1) = Some past ->
  forZ gridSize (fun i => forZ gridSize (fun j (sc : Z * Z) =>
    c ← readSpin g i j;
    past ← from_option_res TypeError
             (zlookup hist (Z.of_nat (length hist) - lag - 1));
    p ← readSpin past i j;
    Ok (sc.1 + spinToValue c * spinToValue p, sc.2 + 1))) (0, 0)
  = Ok (overlap g past, gridSize * gridSize).
Proof.
  intros Hwf Hpast Hlook. unfold overlap.
  erewrite forZ_sum_count; [done | apply gridSize_nonneg |].
  intros i j a Hi Hj. simpl.
  rewrite Hlook. simpl. by rewrite !readSpin_wf by done.
Qed.

Lemma overlap_self g : overlap g g = gridSize * gridSize.
Proof.
  unfold overlap. rewrite <- (Z.mul_1_l (gridSize * gridSize)).
  rewrite <- sum_sites_const by apply gridSize_nonneg.
  apply sum_sites_ext. intros. apply spinAt_square.
Qed.

End correlation_loops.

(** ** The observables as values *)

Section observable_returns.
Context `{Params}.
Implicit Types (g past : grid) (hist : list grid).

Lemma calculatePairCorrelation_returns g :
  wf_grid g ->
  calculatePairCorrelation g
  = Ok ((fun d => (d, Fin (perSite (diagonalSum g d)))) <$> seqZ 1 (gridSize / 2)).
Proof.
  intros Hwf. unfold calculatePairCorrelation.
  enough (forall l acc, (forall d, d ∈ l -> 0 <= d) ->
    foldlM (fun distance correlation =>
        c ← diagonalCorrelation g distance; Ok (correlation ++ [(distance, c)]))
      l acc
    = Ok (acc ++ ((fun d => (d, Fin (perSite (diagonalSum g d)))) <$> l))) as Hloop.
  { rewrite Hloop; [done|]. intros d Hd. apply elem_of_seqZ in Hd. lia. }
  induction l as [|d l IH]; intros acc Hl; simpl.
  - by rewrite app_nil_r.
  - rewrite diagonalCorrelation_returns by (done || apply Hl; left). simpl.
    rewrite IH by (intros; apply Hl; by right). by rewrite <- app_assoc.
Qed.

Lemma calculateCorrelation_returns g :
  wf_grid g ->
  calculateCorrelation g
  = Ok (Fin (inject_Z (bondSum g) / inject_Z (2 * gridSize * gridSize))).
Proof.
  intros Hwf. unfold calculateCorrelation.
  rewrite (bind_Ok _ _ _ (correlation_loop g Hwf)).
  by rewrite ndiv_Fin by apply two_sites_nonzero.
Qed.

Lemma calculateTwoPointCorrelation_finite hist g d :
  wf_grid g -> 0 <= d ->
  exists a, calculateTwoPointCorrelation hist g d = Ok a /\ is_finite a.
Proof.
  intros Hwf Hd. unfold calculateTwoPointCorrelation.
  case_decide; [by eexists|].
  rewrite diagonalCorrelation_returns by done. by eexists.
Qed.

Lemma calculateTwoPointCorrelation_Ok hist g d :
  wf_grid g -> 0 <= d -> is_Ok (calculateTwoPointCorrelation hist g d).
Proof.
  intros Hwf Hd.
  destruct (calculateTwoPointCorrelation_finite hist g d Hwf Hd) as (a & -> & _).
  apply is_Ok_Ok.
Qed.

End observable_returns.

(** ** Reads that throw *)

Section throwing_reads.
Context `{Params}.
Implicit Types (g : grid).

Lemma readSpin_Ok_or_TypeError g i j :
  is_Ok (readSpin g i j) \/ readSpin g i j = Throw TypeError.
Proof. unfold readSpin. destruct (zlookup g i); [left; apply is_Ok_Ok | by right]. Qed.

Lemma readSpin_negative_row g i j : i < 0 -> readSpin g i j = Throw TypeError.
Proof. intros. apply readSpin_row_missing. by left. Qed.

(** A negative offset sends row 0 or row 1 to a negative index: JavaScript's
    [%] keeps the sign of the dividend. *)
Lemma negative_offset_row (d : Z) :
  d < 0 -> 1 < gridSize -> exists i, 0 <= i < gridSize /\ wrapForward i d < 0.
Proof.
  intros Hd Hbig. unfold wrapForward.
  destruct (decide (Z.rem d gridSize = 0)) as [Hz | Hnz].
  - exists 1. split; [lia|]. apply Z.rem_divide in Hz; [|lia].
    destruct Hz as [q ->]. set (n := gridSize) in *.
    assert (q <= -1) by nia. assert (1 + q * n < 0) as Hneg by nia.
    pose proof (Z.rem_bound_pos_neg (1 + q * n) n ltac:(lia) ltac:(lia)).
    enough (Z.rem (1 + q * n) n <> 0) by lia.
    intros Hr. apply Z.rem_divide in Hr as [q' Hq']; [|lia].
    assert (n | 1)%Z as Hdiv by (exists (q' - q); lia).
    apply Z.divide_1_r_nonneg in Hdiv; lia.
  - exists 0. split; [lia|].
    assert (Z.rem d gridSize <= 0) by (apply Z.rem_bound_pos_neg; lia).
    rewrite Z.add_0_l. lia.
Qed.

End throwing_reads.

(** ** Theorems: magnetization and nearest-neighbour correlation *)

Section observable_theorems.
Context `{Params}.
Implicit Types (g : grid) (hist : list grid).

(** C19: on a well-formed grid [calculateMagnetization] returns a finite
    number between -1 and 1, the sum of the spin values divided by the number
    of sites. *)
Theorem calculateMagnetization_bounds g :
  wf_grid g ->
  exists m, calculateMagnetization g = Fin m /\
    (m == inject_Z (totalSpin g) / inject_Z (gridSize * gridSize))%Q /\
    (-1 <= m <= 1)%Q.
Proof.
  intros Hwf. exists (perSite (totalSpin g)).
  split; [by apply calculateMagnetization_totalSpin|].
  split; [done | apply perSite_bounds, totalSpin_bounds].
Qed.

(** When every spin is the same, [calculateMagnetization] returns the
    value of that spin: 1 for all up, -1 for all down. *)
Theorem calculateMagnetization_uniform g s :
  wf_grid g -> uniform s g ->
  calculateMagnetization g ≡ Fin (inject_Z (spinToValue (Some s))).
Proof.
  intros Hwf Hu. rewrite calculateMagnetization_totalSpin by done.
  apply Fin_proper. rewrite (uniform_totalSpin g s) by done. apply perSite_all.
Qed.

(** [toggleSpin] on a cell of the grid changes the magnetization by
    twice the old value of the cell over the number of sites, downwards for an
    up spin and upwards for a down spin. *)
Theorem calculateMagnetization_toggle g i j :
  wf_grid g -> in_grid i j ->
  exists g' m m',
    toggleSpin g i j = Ok g' /\
    calculateMagnetization g = Fin m /\ calculateMagnetization g' = Fin m' /\
    (m' == m - 2 * inject_Z (spinAt g i j) / inject_Z (gridSize * gridSize))%Q.
Proof.
  intros Hwf Hin. do 3 eexists.
  split; [by apply flipSpin_setCell|].
  split; [by apply calculateMagnetization_totalSpin|].
  split; [by apply calculateMagnetization_totalSpin, setCell_wf|].
  rewrite totalSpin_flip, perSite_sub by done.
  unfold perSite. rewrite inject_Z_mult. apply Qeq_refl.
Qed.

(** on a well-formed grid [calculateCorrelation] returns the sum over
    the bonds of the torus (each site with the site below and the site to its
    right) divided by [2 * gridSize^2], a number between -1 and 1. *)
Theorem calculateCorrelation_bondSum g :
  wf_grid g ->
  exists c, calculateCorrelation g = Ok (Fin c) /\
    (c == inject_Z (bondSum g) / inject_Z (2 * gridSize * gridSize))%Q /\
    (-1 <= c <= 1)%Q.
Proof.
  intros Hwf. eexists. split; [by apply calculateCorrelation_returns|].
  split; [done|].
  pose proof gridSize_pos. pose proof (bondSum_bounds g) as Hb.
  assert (0 < inject_Z (2 * gridSize * gridSize))%Q by (apply inject_Z_pos; nia).
  apply inject_Z_bounds in Hb. rewrite inject_Z_opp in Hb.
  split; [apply Qle_shift_div_l | apply Qle_shift_div_r]; try done; lra.
Qed.

(** C15: the energy per site that [calculateEnergy] returns is determined by
    the two other observables: it is [-4 * J] times the nearest-neighbour
    correlation minus [h] times the magnetization. *)
Theorem calculateEnergy_from_observables g J h :
  wf_grid g ->
  exists e c m,
    calculateEnergy g J h = Ok (Fin e) /\
    calculateCorrelation g = Ok (Fin c) /\
    calculateMagnetization g = Fin m /\
    (e == -4 * J * c - h * m)%Q.
Proof.
  intros Hwf.
  destruct (calculateEnergy_returns g J h Hwf) as (r & He & Hr).
  symmetry in Hr. apply num_equiv_Fin_l in Hr as (e & -> & Hr).
  do 3 eexists. split; [done|].
  split; [by apply calculateCorrelation_returns|].
  split; [by apply calculateMagnetization_totalSpin|].
  rewrite <- Hr, pairSum_double. unfold perSite.
  rewrite !inject_Z_mult. change (inject_Z 2) with 2%Q.
  pose proof gridSize_square_nonzero as Hnz. rewrite inject_Z_mult in Hnz.
  field. intros Hz. apply Hnz. rewrite Hz. ring.
Qed.

End observable_theorems.

(** ** Theorems: correlations at a distance and in time *)

Section distance_theorems.
Context `{Params}.
Implicit Types (g past : grid) (hist : list grid).

Lemma diagonalSum_bounds g d :
  - (gridSize * gridSize) <= diagonalSum g d <= gridSize * gridSize.
Proof. apply sum_sites_product_bounds. intros. apply spinAt_product_bounds. Qed.

Lemma diagonal_body_throws g i d (sc : Z * Z) :
  wf_grid g -> 0 <= i < gridSize -> wrapForward i d < 0 ->
  forZ gridSize (fun j (sc : Z * Z) =>
    c ← readSpin g i j;
    n ← readSpin g (wrapForward i d) (wrapForward j d);
    Ok (sc.1 + spinToValue c * spinToValue n, sc.2 + 1)) sc
  = Throw TypeError.
Proof.
  intros Hwf Hi Hneg. pose proof gridSize_pos.
  assert (forall j s0, (c ← readSpin g i j;
            n ← readSpin g (wrapForward i d) (wrapForward j d);
            Ok (s0.1 + spinToValue c * spinToValue n, s0.2 + 1))
          = Throw TypeError) as Hbody.
  { intros j s0. rewrite (readSpin_wf g i j) by done. simpl.
    by rewrite readSpin_negative_row. }
  apply (forZ_throws _ _ _ 0); [lia | intros; right; apply Hbody | apply Hbody].
Qed.

Lemma diagonal_body_Ok_or_throws g i d (sc : Z * Z) :
  let m := forZ gridSize (fun j (sc : Z * Z) =>
    c ← readSpin g i j;
    n ← readSpin g (wrapForward i d) (wrapForward j d);
    Ok (sc.1 + spinToValue c * spinToValue n, sc.2 + 1)) sc in
  is_Ok m \/ m = Throw TypeError.
Proof.
  apply foldlM_Ok_or_throws. intros j s0 _.
  destruct (readSpin_Ok_or_TypeError g i j) as [[c ->] | ->]; [|by right].
  destruct (readSpin_Ok_or_TypeError g (wrapForward i d) (wrapForward j d))
    as [[n ->] | ->]; [left; apply is_Ok_Ok | by right].
Qed.

Lemma diagonalCorrelation_negative g d :
  wf_grid g -> 1 < gridSize -> d < 0 ->
  diagonalCorrelation g d = Throw TypeError.
Proof.
  intros Hwf Hbig Hd. unfold diagonalCorrelation. apply bind_Throw.
  destruct (negative_offset_row d Hd Hbig) as (i & Hi & Hneg).
  apply (forZ_throws _ _ _ i); [done | |].
  - intros k s0 _. apply diagonal_body_Ok_or_throws.
  - intros s0. by apply diagonal_body_throws.
Qed.

(** C36: while the history holds at most one snapshot
    [calculateTwoPointCorrelation] returns 0 whatever the grid and the
    distance are, although the history is not read by the computation it
    guards. *)
Theorem calculateTwoPointCorrelation_sentinel hist g distance :
  (length hist <= 1)%nat ->
  calculateTwoPointCorrelation hist g distance = Ok (Fin 0).
Proof.
  intros Hlen. unfold calculateTwoPointCorrelation.
  rewrite decide_True; [done | lia].
Qed.

(** With two or more snapshots in the history and a distance that is
    not negative, [calculateTwoPointCorrelation] returns the mean over the
    sites of the product of a spin with the spin [distance] rows below and
    [distance] columns to the right on the torus, a number between -1 and 1. *)
Theorem calculateTwoPointCorrelation_value hist g distance :
  (1 < length hist)%nat -> wf_grid g -> 0 <= distance ->
  exists c, calculateTwoPointCorrelation hist g distance = Ok (Fin c) /\
    (c == inject_Z (diagonalSum g distance) / inject_Z (gridSize * gridSize))%Q /\
    (-1 <= c <= 1)%Q.
Proof.
  intros Hlen Hwf Hd. exists (perSite (diagonalSum g distance)).
  unfold calculateTwoPointCorrelation. rewrite decide_False by lia.
  split; [by apply diagonalCorrelation_returns|].
  split; [done | apply perSite_bounds, diagonalSum_bounds].
Qed.

(** C37: a negative distance makes [calculateTwoPointCorrelation] throw a
    [TypeError] on a grid of more than one row: the remainder [%] keeps the
    sign of [i + distance], so a row with a negative index is read. *)
Theorem calculateTwoPointCorrelation_negative_distance hist g distance :
  (1 < length hist)%nat -> wf_grid g -> 1 < gridSize -> distance < 0 ->
  calculateTwoPointCorrelation hist g distance = Throw TypeError.
Proof.
  intros Hlen Hwf Hbig Hd. unfold calculateTwoPointCorrelation.
  rewrite decide_False by lia. by apply diagonalCorrelation_negative.
Qed.

(** [calculatePairCorrelation] returns one entry for each distance
    [1 .. floor(gridSize / 2)], in increasing order, each holding the mean
    diagonal product at that distance. *)
Theorem calculatePairCorrelation_series g :
  wf_grid g ->
  exists series, calculatePairCorrelation g = Ok series /\
    series.*1 = seqZ 1 (gridSize / 2) /\
    Forall (fun dc => exists c, dc.2 = Fin c /\
              (c == inject_Z (diagonalSum g dc.1) / inject_Z (gridSize * gridSize))%Q /\
              (-1 <= c <= 1)%Q) series.
Proof.
  intros Hwf. eexists. split; [by apply calculatePairCorrelation_returns|].
  split.
  - rewrite <- list_fmap_compose. apply list_fmap_id.
  - apply Forall_fmap, Forall_forall. intros d _. simpl.
    exists (perSite (diagonalSum g d)). split; [done|]. split; [done|].
    apply perSite_bounds, diagonalSum_bounds.
Qed.

End distance_theorems.

Section temporal_theorems.
Context `{Params}.
Implicit Types (g past : grid) (hist : list grid).

Lemma overlap_bounds g past :
  - (gridSize * gridSize) <= overlap g past <= gridSize * gridSize.
Proof. apply sum_sites_product_bounds. intros. apply spinAt_product_bounds. Qed.

Lemma calculateTemporalCorrelation_returns hist g past lag :
  wf_grid g -> wf_grid past -> Z.of_nat (length hist) > lag ->
  zlookup hist (Z.of_nat (length hist) - lag - 1) = Some past ->
  calculateTemporalCorrelation hist g lag = Ok (Fin (perSite (overlap g past))).
Proof.
  intros Hwf Hpast Hlen Hlook. unfold calculateTemporalCorrelation.
  rewrite decide_False by lia.
  rewrite (bind_Ok _ _ _ (temporal_loop hist g past lag Hwf Hpast Hlook)).
  cbn [fst snd]. by rewrite ndiv_perSite.
Qed.

Lemma history_entry_wf hist lag :
  Forall wf_grid hist -> 0 <= lag < Z.of_nat (length hist) ->
  exists past, zlookup hist (Z.of_nat (length hist) - lag - 1) = Some past /\
    wf_grid past.
Proof.
  intros Hhist Hlag.
  destruct (zlookup hist (Z.of_nat (length hist) - lag - 1)) as [past|] eqn:E;
    [|apply zlookup_None in E; lia].
  exists past. split; [done|]. rewrite Forall_forall in Hhist. apply Hhist.
  rewrite zlookup_nonneg in E by lia. by eapply list_elem_of_lookup_2.
Qed.

Lemma calculateTemporalCorrelation_finite hist g lag :
  wf_grid g -> Forall wf_grid hist -> 0 <= lag ->
  exists a, calculateTemporalCorrelation hist g lag = Ok a /\ is_finite a.
Proof.
  intros Hwf Hhist Hlag.
  destruct (decide (Z.of_nat (length hist) <= lag)) as [Hle | Hgt].
  - unfold calculateTemporalCorrelation. rewrite decide_True by done.
    by eexists.
  - destruct (history_entry_wf hist lag Hhist) as (past & Hlook & Hpast); [lia|].
    rewrite (calculateTemporalCorrelation_returns hist g past lag) by (done || lia).
    by eexists.
Qed.

Lemma calculateTemporalCorrelation_Ok hist g lag :
  wf_grid g -> Forall wf_grid hist -> 0 <= lag ->
  is_Ok (calculateTemporalCorrelation hist g lag).
Proof.
  intros Hwf Hhist Hlag.
  destruct (calculateTemporalCorrelation_finite hist g lag Hwf Hhist Hlag)
    as (a & -> & _).
  apply is_Ok_Ok.
Qed.

(** [calculateTemporalCorrelation] returns 0 when the history holds
    [lag] snapshots or fewer. *)
Theorem calculateTemporalCorrelation_sentinel hist g lag :
  Z.of_nat (length hist) <= lag ->
  calculateTemporalCorrelation hist g lag = Ok (Fin 0).
Proof.
  intros Hlen. unfold calculateTemporalCorrelation. by rewrite decide_True.
Qed.

(** With more than [lag] well-formed snapshots in the history,
    [calculateTemporalCorrelation] returns the mean over the sites of the
    product of the current spin with the spin of the snapshot [lag] places
    before the newest, a number between -1 and 1. *)
Theorem calculateTemporalCorrelation_value hist g lag :
  wf_grid g -> Forall wf_grid hist -> 0 <= lag < Z.of_nat (length hist) ->
  exists past c,
    zlookup hist (Z.of_nat (length hist) - lag - 1) = Some past /\
    calculateTemporalCorrelation hist g lag = Ok (Fin c) /\
    (c == inject_Z (overlap g past) / inject_Z (gridSize * gridSize))%Q /\
    (-1 <= c <= 1)%Q.
Proof.
  intros Hwf Hhist Hlag.
  destruct (history_entry_wf hist lag Hhist Hlag) as (past & E & Hpast).
  exists past, (perSite (overlap g past)). split; [done|].
  split; [apply calculateTemporalCorrelation_returns; (done || lia)|].
  split; [done | apply perSite_bounds, overlap_bounds].
Qed.

(** Right after [runSimulation] has pushed the grid on the history, the
    temporal correlation at lag 0 is 1: the newest snapshot is the grid
    itself. *)
Theorem calculateTemporalCorrelation_after_push hist g :
  0 < historySize -> wf_grid g ->
  returns_num (calculateTemporalCorrelation (pushHistory hist g) g 0) (Fin 1).
Proof.
  intros Hcap Hwf. eexists. split.
  - apply (calculateTemporalCorrelation_returns _ g g 0); try done.
    + pose proof (pushHistory_length hist g). case_decide; lia.
    + rewrite Z.sub_0_r. by apply zlookup_last, pushHistory_last.
  - apply Fin_proper. rewrite overlap_self.
    rewrite <- (Z.mul_1_l (gridSize * gridSize)). apply perSite_all.
Qed.

(** C38: a negative lag makes [calculateTemporalCorrelation] throw a
    [TypeError]: the index [length - lag - 1] lies beyond the newest
    snapshot. *)
Theorem calculateTemporalCorrelation_negative_lag hist g lag :
  lag < 0 -> calculateTemporalCorrelation hist g lag = Throw TypeError.
Proof.
  intros Hlag. unfold calculateTemporalCorrelation.
  rewrite decide_False by lia. apply bind_Throw.
  assert (zlookup hist (Z.of_nat (length hist) - lag - 1) = None) as Hnone
    by (apply zlookup_None; lia).
  pose proof gridSize_pos.
  assert (forall i j (s0 : Z * Z), (c ← readSpin g i j;
      past ← from_option_res TypeError
               (zlookup hist (Z.of_nat (length hist) - lag - 1));
      p ← readSpin past i j;
      Ok (s0.1 + spinToValue c * spinToValue p, s0.2 + 1))
    = Throw TypeError) as Hbody.
  { intros i j s0. rewrite Hnone.
    by destruct (readSpin_Ok_or_TypeError g i j) as [[c ->] | ->]. }
  apply (forZ_throws _ _ _ 0); [lia | right | intros s0];
    (apply (forZ_throws _ _ _ 0); [lia | intros; right | intros]; apply Hbody).
Qed.

End temporal_theorems.

(** ** The theorems on a 4 x 4 lattice *)

Section witnesses.
#[local] Instance scenario_params : Params :=
  {| gridSize := 4; historySize := 100; gridSize_pos := eq_refl |}.

Lemma calculateMagnetization_bounds_witness :
  exists m, calculateMagnetization initialSpins = Fin m /\
    (m == inject_Z (totalSpin initialSpins) / inject_Z (gridSize * gridSize))%Q /\
    (-1 <= m <= 1)%Q.
Proof. apply calculateMagnetization_bounds, initialSpins_wf. Defined.

Lemma calculateMagnetization_uniform_witness :
  calculateMagnetization initialSpins ≡ Fin (inject_Z (spinToValue (Some up))).
Proof.
  apply calculateMagnetization_uniform; [apply initialSpins_wf|].
  intros i j Hij. by apply initialSpins_cell.
Defined.

Lemma calculateMagnetization_toggle_witness :
  exists g' m m',
    toggleSpin initialSpins 0 0 = Ok g' /\
    calculateMagnetization initialSpins = Fin m /\
    calculateMagnetization g' = Fin m' /\
    (m' == m - 2 * inject_Z (spinAt initialSpins 0 0)
                 / inject_Z (gridSize * gridSize))%Q.
Proof. apply calculateMagnetization_toggle; solve_concrete. Defined.

Lemma calculateCorrelation_bondSum_witness :
  exists c, calculateCorrelation initialSpins = Ok (Fin c) /\
    (c == inject_Z (bondSum initialSpins) / inject_Z (2 * gridSize * gridSize))%Q /\
    (-1 <= c <= 1)%Q.
Proof. apply calculateCorrelation_bondSum, initialSpins_wf. Defined.

Lemma calculateEnergy_from_observables_witness :
  exists e c m,
    calculateEnergy initialSpins 1 0 = Ok (Fin e) /\
    calculateCorrelation initialSpins = Ok (Fin c) /\
    calculateMagnetization initialSpins = Fin m /\
    (e == -4 * 1 * c - 0 * m)%Q.
Proof. apply calculateEnergy_from_observables, initialSpins_wf. Defined.

Lemma calculateTwoPointCorrelation_sentinel_witness :
  calculateTwoPointCorrelation [initialSpins] initialSpins 1 = Ok (Fin 0).
Proof. apply calculateTwoPointCorrelation_sentinel. solve_concrete. Defined.

Lemma calculateTwoPointCorrelation_value_witness :
  exists c,
    calculateTwoPointCorrelation [initialSpins; initialSpins] initialSpins 1
    = Ok (Fin c) /\
    (c == inject_Z (diagonalSum initialSpins 1) / inject_Z (gridSize * gridSize))%Q /\
    (-1 <= c <= 1)%Q.
Proof. apply calculateTwoPointCorrelation_value; solve_concrete. Defined.

Lemma calculateTwoPointCorrelation_negative_distance_witness :
  calculateTwoPointCorrelation [initialSpins; initialSpins] initialSpins (-1)
  = Throw TypeError.
Proof. apply calculateTwoPointCorrelation_negative_distance; solve_concrete. Defined.

Lemma calculatePairCorrelation_series_witness :
  exists series, calculatePairCorrelation initialSpins = Ok series /\
    series.*1 = seqZ 1 (gridSize / 2) /\
    Forall (fun dc => exists c, dc.2 = Fin c /\
              (c == inject_Z (diagonalSum initialSpins dc.1)
                    / inject_Z (gridSize * gridSize))%Q /\
              (-1 <= c <= 1)%Q) series.
Proof. apply calculatePairCorrelation_series, initialSpins_wf. Defined.

Lemma calculateTemporalCorrelation_sentinel_witness :
  calculateTemporalCorrelation [initialSpins] initialSpins 10 = Ok (Fin 0).
Proof. apply calculateTemporalCorrelation_sentinel. solve_concrete. Defined.

Lemma calculateTemporalCorrelation_value_witness :
  exists past c,
    zlookup [initialSpins; initialSpins]
      (Z.of_nat (length [initialSpins; initialSpins]) - 1 - 1) = Some past /\
    calculateTemporalCorrelation [initialSpins; initialSpins] initialSpins 1
    = Ok (Fin c) /\
    (c == inject_Z (overlap initialSpins past) / inject_Z (gridSize * gridSize))%Q /\
    (-1 <= c <= 1)%Q.
Proof. apply calculateTemporalCorrelation_value; solve_concrete. Defined.

Lemma calculateTemporalCorrelation_after_push_witness :
  returns_num
    (calculateTemporalCorrelation (pushHistory [] initialSpins) initialSpins 0)
    (Fin 1).
Proof. apply calculateTemporalCorrelation_after_push; solve_concrete. Defined.

Lemma calculateTemporalCorrelation_negative_lag_witness :
  calculateTemporalCorrelation [initialSpins] initialSpins (-1) = Throw TypeError.
Proof. apply calculateTemporalCorrelation_negative_lag. solve_concrete. Defined.

(** The run of section 8 of the specification: all spins up on a 4 x 4
    lattice, then one toggle at (0, 0). *)
Example scenario_all_up :
  calculateMagnetization initialSpins ≡ Fin 1 /\
  returns_num (calculateCorrelation initialSpins) (Fin 1) /\
  returns_num (diagonalCorrelation initialSpins 1) (Fin 1) /\
  returns_num (diagonalCorrelation initialSpins 2) (Fin 1).
Proof.
  vm_compute.
  repeat split; eexists; (split; [reflexivity|]); vm_compute; reflexivity.
Qed.

Example scenario_toggle :
  exists g', toggleSpin initialSpins 0 0 = Ok g' /\
    calculateMagnetization g' ≡ Fin (7 # 8).
Proof. eexists. split; [reflexivity | solve_concrete]. Qed.

End witnesses.
