(* ===== verification/StructureFactor.v ===== *)
(** * The structure factor: [calculateStructureFactor]

    For every wave vector [(qx, qy)] the function sums
    [spin * Math.cos(angle) - spin * Math.sin(angle)] over the sites, with
    [angle = -2 * Math.PI * ((qx * x + qy * y) / N)], and stores
    [Math.sqrt(sum * sum)] in a matrix that it has filled with zeros.

    [Math.cos], [Math.sin], [Math.sqrt] and [Math.PI] are the interface
    [TrigModel]: functions on the rationals with the laws the theorems use
    (the values at 0, the bounds, and [sqrt(x * x) = |x|]).  An executable
    instance is given, so the model runs; it is a stand-in for the real
    functions and nothing is proved from its particular values. *)

From Stdlib Require Import ZArith QArith Qabs Lqa Lia.
From stdpp Require Import base tactics option list list_numbers.
From S2P Require Import Prelude Numeric Lattice Energy.

#[local] Open Scope Q_scope.

(** ** The functions of [Math] that the computation calls *)

Class TrigModel : Type := {
  mathPI : Q;
  qcos : Q -> Q;
  qsin : Q -> Q;
  qsqrt : Q -> Q;
  qcos_proper : Proper (Qeq ==> Qeq) qcos;
  qsin_proper : Proper (Qeq ==> Qeq) qsin;
  qcos_0 : qcos 0 == 1;
  qsin_0 : qsin 0 == 0;
  qcos_bounds : forall x, -1 <= qcos x <= 1;
  qsin_bounds : forall x, -1 <= qsin x <= 1;
  qsqrt_square : forall x, qsqrt (x * x) == Qabs x;
}.

#[export] Existing Instance qcos_proper.
#[export] Existing Instance qsin_proper.

(** The double nearest to pi. *)
Definition double_pi : Q := 884279719003555 # 281474976710656.

(** Rational functions with the laws of [TrigModel]: the half-angle
    parametrisation of the circle with [x / 2] in place of the tangent, and
    the integer square roots of numerator and denominator. *)
Definition rational_cos (x : Q) : Q :=
  let t := x * (1 # 2) in (1 - t * t) / (1 + t * t).

Definition rational_sin (x : Q) : Q :=
  let t := x * (1 # 2) in 2 * t / (1 + t * t).

Definition rational_sqrt (x : Q) : Q := Z.sqrt (Qnum x) # Pos.sqrt (Qden x).

(** A matrix read at a pair of indices. *)
Definition entryAt (sf : list (list Q)) (qx qy : Z) : option Q :=
  zlookup sf qx ≫= fun row => zlookup row qy.

(** The matrix whose entry [(i, j)] is [f i j], for [0 <= i, j < n]. *)
Definition tabulate2 (n : Z) (f : Z -> Z -> Q) : list (list Q) :=
  (fun i => (fun j => f i j) <$> seqZ 0 n) <$> seqZ 0 n.

(** [structureFactor[qx][qy] = v]: throws when the row is [undefined]; a
    column outside the row would extend it. *)
Definition writeEntry (sf : list (list Q)) (qx qy : Z) (v : Q)
  : res (list (list Q)) :=
  match zlookup sf qx with
  | None => Throw TypeError
  | Some row =>
      if decide (0 <= qy < Z.of_nat (length row))%Z
      then Ok (<[Z.to_nat qx := <[Z.to_nat qy := v]> row]> sf)
      else Throw OutOfGrid
  end.

Section structure_factor.
Context `{Params, TrigModel}.

(** The loops over [x] and [y] for one wave vector. *)
Definition structureSum (g : grid) (qx qy : Z) : res Q :=
  forZ gridSize (fun x => forZ gridSize (fun y sum =>
    c ← readSpin g x y;
    let spin := inject_Z (spinToValue c) in
    let angle :=
      -2 * mathPI * (inject_Z (qx * x + qy * y) / inject_Z gridSize) in
    Ok (sum + (spin * qcos angle - spin * qsin angle)))) 0.

Definition calculateStructureFactor (g : grid) : res (list (list Q)) :=
  let N := gridSize in
  let structureFactor :=
    replicate (Z.to_nat N) (replicate (Z.to_nat N) 0) in
  forZ N (fun qx => forZ N (fun qy structureFactor =>
    sum ← structureSum g qx qy;
    writeEntry structureFactor qx qy (qsqrt (sum * sum)))) structureFactor.

(** ** Reference definitions *)

Definition angleOf (qx qy x y : Z) : Q :=
  -2 * mathPI * (inject_Z (qx * x + qy * y) / inject_Z gridSize).

(** The sum over the sites of [s * (cos - sin)] at the wave vector. *)
Definition fourierSum (g : grid) (qx qy : Z) : Q :=
  sumQ_sites gridSize (fun x y =>
    inject_Z (spinAt g x y)
    * (qcos (angleOf qx qy x y) - qsin (angleOf qx qy x y))).

(** The number the function stores at [(qx, qy)]. *)
Definition entryValue (g : grid) (qx qy : Z) : Q :=
  match structureSum g qx qy with
  | Ok sum => qsqrt (sum * sum)
  | Throw _ => 0
  end.

End structure_factor.

(** ** The executable instance *)

Lemma rational_cos_bounds (x : Q) : -1 <= rational_cos x <= 1.
Proof.
  unfold rational_cos. cbv zeta. generalize (x * (1 # 2)). intros t.
  assert (0 < 1 + t * t) by nra.
  split; [apply Qle_shift_div_l | apply Qle_shift_div_r]; try done; nra.
Qed.

Lemma rational_sin_bounds (x : Q) : -1 <= rational_sin x <= 1.
Proof.
  unfold rational_sin. cbv zeta. generalize (x * (1 # 2)). intros t.
  assert (0 < 1 + t * t) by nra.
  assert (0 <= (1 + t) * (1 + t)) by (destruct (Qlt_le_dec (1 + t) 0); nra).
  assert (0 <= (1 - t) * (1 - t)) by (destruct (Qlt_le_dec (1 - t) 0); nra).
  split; [apply Qle_shift_div_l | apply Qle_shift_div_r]; try done; nra.
Qed.

Lemma rational_sqrt_square (x : Q) : rational_sqrt (x * x) == Qabs x.
Proof.
  destruct x as [n d]. unfold rational_sqrt, Qabs, Qmult. simpl.
  rewrite <- Z.abs_square, Z.sqrt_square by apply Z.abs_nonneg.
  assert (Pos.sqrt (d * d) = d) as ->; [|reflexivity].
  apply Pos2Z.inj. rewrite Pos2Z.inj_sqrt, Pos2Z.inj_mul.
  by apply Z.sqrt_square.
Qed.

#[export] Instance rational_cos_proper : Proper (Qeq ==> Qeq) rational_cos.
Proof. intros x y Hxy. unfold rational_cos. by rewrite Hxy. Qed.

#[export] Instance rational_sin_proper : Proper (Qeq ==> Qeq) rational_sin.
Proof. intros x y Hxy. unfold rational_sin. by rewrite Hxy. Qed.

#[export] Instance rational_trig_model : TrigModel := {|
  mathPI := double_pi;
  qcos := rational_cos;
  qsin := rational_sin;
  qsqrt := rational_sqrt;
  qcos_proper := rational_cos_proper;
  qsin_proper := rational_sin_proper;
  qcos_0 := ltac:(reflexivity);
  qsin_0 := ltac:(reflexivity);
  qcos_bounds := rational_cos_bounds;
  qsin_bounds := rational_sin_bounds;
  qsqrt_square := rational_sqrt_square;
|}.

(** ** Matrices *)

Section matrix_lemmas.
Implicit Types (sf : list (list Q)) (row : list Q).

Lemma writeEntry_row sf (i k : nat) row v :
  (i < length sf)%nat -> (k < length row)%nat ->
  writeEntry (<[i := row]> sf) (Z.of_nat i) (Z.of_nat k) v
  = Ok (<[i := <[k := v]> row]> sf).
Proof.
  intros Hi Hk. unfold writeEntry.
  rewrite zlookup_of_nat, list_lookup_insert, decide_True by done.
  rewrite decide_True by lia. rewrite !Nat2Z.id, list_insert_insert.
  by rewrite decide_True.
Qed.

Lemma entryAt_tabulate2 (n : Z) (f : Z -> Z -> Q) (i j : Z) :
  (0 <= i < n)%Z -> (0 <= j < n)%Z -> entryAt (tabulate2 n f) i j = Some (f i j).
Proof.
  intros Hi Hj. unfold entryAt, tabulate2.
  rewrite !zlookup_nonneg by lia.
  rewrite list_lookup_fmap, (lookup_seqZ_lt 0 n (Z.to_nat i)) by lia. simpl.
  rewrite zlookup_nonneg by lia.
  rewrite list_lookup_fmap, (lookup_seqZ_lt 0 n (Z.to_nat j)) by lia. simpl.
  do 2 f_equal; lia.
Qed.

Lemma tabulate2_shape (n : Z) (f : Z -> Z -> Q) :
  length (tabulate2 n f) = Z.to_nat n /\
  Forall (fun row => length row = Z.to_nat n) (tabulate2 n f).
Proof.
  unfold tabulate2. split; [by rewrite length_fmap, length_seqZ|].
  apply Forall_fmap, Forall_forall. intros i _. simpl.
  by rewrite length_fmap, length_seqZ.
Qed.

End matrix_lemmas.

(** ** The sum at one wave vector *)

Section sum_lemmas.
Context `{Params, TrigModel}.
Implicit Types (g : grid) (qx qy : Z).

Lemma structureSum_returns g qx qy :
  wf_grid g -> returns_Q (structureSum g qx qy) (fourierSum g qx qy).
Proof.
  intros Hwf. unfold structureSum, fourierSum.
  eapply returns_Q_proper; [apply Qplus_0_l|].
  apply forZ_sumQ_sites. intros x y a Hx Hy.
  rewrite readSpin_wf by done. simpl. eexists. split; [done|].
  unfold spinAt, angleOf. ring.
Qed.

Lemma entryValue_sum g qx qy :
  wf_grid g ->
  exists sum, structureSum g qx qy = Ok sum /\ sum == fourierSum g qx qy /\
    entryValue g qx qy = qsqrt (sum * sum).
Proof.
  intros Hwf. destruct (structureSum_returns g qx qy Hwf) as (sum & E & Hsum).
  exists sum. unfold entryValue. by rewrite E.
Qed.

(** The entry is the absolute value of the sum. *)
Lemma entryValue_abs g qx qy :
  wf_grid g -> entryValue g qx qy == Qabs (fourierSum g qx qy).
Proof.
  intros Hwf. destruct (entryValue_sum g qx qy Hwf) as (sum & _ & Hsum & ->).
  by rewrite qsqrt_square, Hsum.
Qed.

Lemma angleOf_origin x y : angleOf 0 0 x y == 0.
Proof.
  unfold angleOf. rewrite !Z.mul_0_l, Z.add_0_l.
  unfold Qdiv. change (inject_Z 0) with 0. ring.
Qed.

(** At the wave vector (0, 0) every term is the spin itself. *)
Lemma fourierSum_origin g : fourierSum g 0 0 == inject_Z (totalSpin g).
Proof.
  unfold fourierSum, totalSpin. rewrite <- sumQ_sites_inject_Z.
  apply sumQ_sites_ext. intros x y _ _.
  rewrite angleOf_origin, qcos_0, qsin_0. ring.
Qed.

Lemma term_bounds (s : Z) (c d : Q) :
  (-1 <= s <= 1)%Z -> -1 <= c <= 1 -> -1 <= d <= 1 ->
  -2 <= inject_Z s * (c - d) <= 2.
Proof.
  intros Hs Hc Hd. apply inject_Z_bounds in Hs.
  change (inject_Z (-1)) with (-1) in Hs. change (inject_Z 1) with 1 in Hs.
  set (t := inject_Z s) in *. clearbody t. nra.
Qed.

End sum_lemmas.

(** ** The loops over the wave vectors *)

Section fill_lemmas.
Context `{Params, TrigModel}.
Implicit Types (g : grid) (sf : list (list Q)).

(** The loop over [qy] fills row [qx]. *)
Lemma structureFactor_row g sf (i : nat) row0 :
  wf_grid g -> sf !! i = Some row0 -> length row0 = Z.to_nat gridSize ->
  forZ gridSize (fun qy structureFactor =>
    sum ← structureSum g (Z.of_nat i) qy;
    writeEntry structureFactor (Z.of_nat i) qy (qsqrt (sum * sum))) sf
  = Ok (<[i := entryValue g (Z.of_nat i) <$> seqZ 0 gridSize]> sf).
Proof.
  intros Hwf Hrow Hlen. rewrite <- gridSize_to_nat.
  apply (forZ_fill_row _ _ (entryValue g (Z.of_nat i)) _ _ row0); [done..|].
  intros k row Hk Hrowlen.
  destruct (entryValue_sum g (Z.of_nat i) (Z.of_nat k) Hwf) as (sum & -> & _ & ->).
  simpl. apply writeEntry_row; [by eapply lookup_lt_Some | lia].
Qed.

(** The function returns the matrix of the entries. *)
Lemma calculateStructureFactor_returns g :
  wf_grid g ->
  calculateStructureFactor g = Ok (tabulate2 gridSize (entryValue g)).
Proof.
  intros Hwf. unfold calculateStructureFactor, tabulate2. cbv zeta.
  rewrite <- gridSize_to_nat at 1 4.
  apply (forZ_fill (fun row => length row = Z.to_nat gridSize) _ _
           (fun i => entryValue g i <$> seqZ 0 gridSize)).
  - apply length_replicate.
  - apply Forall_replicate, length_replicate.
  - intros k _. by rewrite length_fmap, length_seqZ.
  - intros k sf Hk Hsf Hrows.
    destruct (lookup_lt_is_Some_2 sf k) as [row Hrow]; [lia|].
    apply (structureFactor_row g sf k row); [done..|].
    rewrite Forall_forall in Hrows. by eapply Hrows, list_elem_of_lookup_2.
Qed.

Lemma fourierSum_bounds g qx qy :
  Qabs (fourierSum g qx qy) <= 2 * inject_Z (gridSize * gridSize).
Proof.
  apply Qabs_Qle_condition. unfold fourierSum.
  pose proof (sumQ_sites_bounds gridSize (-2) 2
    (fun x y => inject_Z (spinAt g x y)
                * (qcos (angleOf qx qy x y) - qsin (angleOf qx qy x y)))
    gridSize_nonneg) as Hb.
  assert (- (2 * inject_Z (gridSize * gridSize))
          == -2 * inject_Z (gridSize * gridSize)) as -> by ring.
  apply Hb. intros x y _ _.
  apply term_bounds; [apply spinAt_bounds | apply qcos_bounds | apply qsin_bounds].
Qed.

End fill_lemmas.

(** ** Theorems *)

Section structure_theorems.
Context `{Params, TrigModel}.
Implicit Types (g : grid).

(** C18: on a well-formed grid [calculateStructureFactor] does not throw
    and returns a [gridSize] by [gridSize] matrix whose entry [(qx, qy)] is
    the absolute value of the sum over the sites of
    [s * (cos(angle) - sin(angle))], a number between 0 and
    [2 * gridSize^2]. *)
Theorem calculateStructureFactor_entries g :
  wf_grid g ->
  exists sf, calculateStructureFactor g = Ok sf /\
    length sf = Z.to_nat gridSize /\
    Forall (fun row => length row = Z.to_nat gridSize) sf /\
    forall qx qy, in_grid qx qy ->
      exists v, entryAt sf qx qy = Some v /\
        v == Qabs (fourierSum g qx qy) /\
        0 <= v <= 2 * inject_Z (gridSize * gridSize).
Proof.
  intros Hwf. exists (tabulate2 gridSize (entryValue g)).
  split; [by apply calculateStructureFactor_returns|].
  destruct (tabulate2_shape gridSize (entryValue g)) as [Hlen Hrows].
  do 2 (split; [done|]). intros qx qy [Hqx Hqy].
  exists (entryValue g qx qy). split; [by apply entryAt_tabulate2|].
  pose proof (entryValue_abs g qx qy Hwf) as Habs. split; [done|].
  rewrite Habs. split; [apply Qabs_nonneg | apply fourierSum_bounds].
Qed.

(** The entry at the wave vector (0, 0) is the absolute value of the
    total spin, that is [gridSize^2] times the absolute magnetization; on a
    lattice whose spins are all equal it is [gridSize^2]. *)
Theorem calculateStructureFactor_origin g :
  wf_grid g ->
  exists sf v, calculateStructureFactor g = Ok sf /\
    entryAt sf 0 0 = Some v /\
    v == Qabs (inject_Z (totalSpin g)) /\
    forall s, uniform s g -> v == inject_Z (gridSize * gridSize).
Proof.
  intros Hwf. pose proof gridSize_pos.
  exists (tabulate2 gridSize (entryValue g)), (entryValue g 0 0).
  split; [by apply calculateStructureFactor_returns|].
  split; [apply entryAt_tabulate2; lia|].
  assert (entryValue g 0 0 == Qabs (inject_Z (totalSpin g))) as Hv
    by (by rewrite entryValue_abs, fourierSum_origin).
  split; [done|]. intros s Hu. rewrite Hv, (uniform_totalSpin g s Hu).
  destruct s; simpl spinToValue.
  - rewrite Z.mul_1_l. apply Qabs_pos. apply (inject_Z_bounds _ 0 _). nia.
  - rewrite inject_Z_mult, Qabs_Qmult. change (Qabs (inject_Z (-1))) with 1.
    rewrite Qmult_1_l. apply Qabs_pos. apply (inject_Z_bounds _ 0 _). nia.
Qed.

End structure_theorems.

(** ** The theorems on a 4 x 4 lattice *)

Section witnesses.
#[local] Instance small_params : Params :=
  {| gridSize := 4; historySize := 100; gridSize_pos := eq_refl |}.

Lemma calculateStructureFactor_entries_witness :
  exists sf, calculateStructureFactor initialSpins = Ok sf /\
    length sf = Z.to_nat gridSize /\
    Forall (fun row => length row = Z.to_nat gridSize) sf /\
    forall qx qy, in_grid qx qy ->
      exists v, entryAt sf qx qy = Some v /\
        v == Qabs (fourierSum initialSpins qx qy) /\
        0 <= v <= 2 * inject_Z (gridSize * gridSize).
Proof. apply calculateStructureFactor_entries, initialSpins_wf. Defined.

Lemma calculateStructureFactor_origin_witness :
  exists sf v, calculateStructureFactor initialSpins = Ok sf /\
    entryAt sf 0 0 = Some v /\
    v == Qabs (inject_Z (totalSpin initialSpins)) /\
    forall s, uniform s initialSpins -> v == inject_Z (gridSize * gridSize).
Proof. apply calculateStructureFactor_origin, initialSpins_wf. Defined.

End witnesses.
