(* ===== verification/Text.v ===== *)
(** * Text written to the page: [sanitizeText], integers as strings

    The listeners of the three sliders show the new value through
    [sanitizeText], which replaces every [<] by [&lt;] and then every [>] by
    [&gt;].  A string is a sequence of characters; [replaceAll] is
    [String.prototype.replace] with a global pattern of one character, which
    visits the text from left to right and never rescans what it has
    inserted.  The reference is [escape], the replacement done character by
    character in one pass.

    The script also turns integers into strings, in template literals and
    when it stores the coordinates of a cell in [cell.dataset], and reads
    such a string back as an array index in [spins[row][col]].
    [integerToString] is the decimal text of an integer; [indexOfKey] is the
    test the language makes on a property key: a key is an array index when
    it is the decimal text of an integer below [2^32 - 1]. *)

From Stdlib Require Import Ascii ZArith DecimalString DecimalZ DecimalN DecimalFacts Lia.
From stdpp Require Import base tactics strings.

#[local] Open Scope string_scope.

(** [text.replace(/c/g, replacement)] for a pattern of one character. *)
Fixpoint replaceAll (c : ascii) (replacement : string) (text : string) : string :=
  match text with
  | EmptyString => EmptyString
  | String a rest =>
      if decide (a = c) then replacement +:+ replaceAll c replacement rest
      else String a (replaceAll c replacement rest)
  end.

Definition sanitizeText (text : string) : string :=
  replaceAll ">" "&gt;" (replaceAll "<" "&lt;" text).

(** [String(z)], [`${z}`] and the conversion that [cell.dataset.row = z]
    makes, for an integer [z].  The integers that the script turns into
    text are indices and distances of the grid, far below [10^21], where
    the language would change to the notation with an exponent. *)
Definition integerToString (z : Z) : string :=
  NilZero.string_of_int (Z.to_int z).

(** The largest length of an array; indices stay below it. *)
Definition maxIndex : Z := 2 ^ 32 - 1.

(** The array index that a property key names: the key is the decimal text
    of an integer from 0 to [2^32 - 2]. *)
Definition indexOfKey (key : string) : option Z :=
  match NilZero.uint_of_string key with
  | Some d =>
      let z := Z.of_N (N.of_uint d) in
      if decide (integerToString z = key) then
        if decide (z < maxIndex)%Z then Some z else None
      else None
  | None => None
  end.

(** [array[key]] for a key that is a string: the element when the key is an
    index within the array, [undefined] otherwise.  This is what the
    language does for every key that is an array index, in the array or
    beyond its end, and these are the keys that [createGrid] stores in the
    datasets.  A key that is not an index names another property of the
    array ([length], what it inherits); the model has none of them and
    reads [undefined] there, so the theorems use [keyLookup] on array
    indices only. *)
Definition keyLookup {A} (l : list A) (key : string) : option A :=
  match indexOfKey key with
  | Some i => l !! Z.to_nat i
  | None => None
  end.

(** ** Reference definitions *)

Definition escapeChar (a : ascii) : string :=
  if decide (a = "<"%char) then "&lt;"
  else if decide (a = ">"%char) then "&gt;"
  else String a EmptyString.

Fixpoint escape (text : string) : string :=
  match text with
  | EmptyString => EmptyString
  | String a rest => escapeChar a +:+ escape rest
  end.

(** The character [c] occurs in the text. *)
Fixpoint occurs (c : ascii) (text : string) : bool :=
  match text with
  | EmptyString => false
  | String a rest => bool_decide (a = c) || occurs c rest
  end.

(** ** Lemmas *)

Lemma append_cons a s t : String a s +:+ t = String a (s +:+ t).
Proof. done. Qed.

Lemma append_assoc s t u : (s +:+ t) +:+ u = s +:+ (t +:+ u).
Proof. induction s as [|a s IH]; [done|]. by rewrite !append_cons, IH. Qed.

Lemma append_empty_r s : s +:+ "" = s.
Proof. induction s as [|a s IH]; [done|]. by rewrite append_cons, IH. Qed.

Lemma replaceAll_app c r s t :
  replaceAll c r (s +:+ t) = replaceAll c r s +:+ replaceAll c r t.
Proof.
  induction s as [|a s IH]; [done|]. rewrite append_cons. cbn [replaceAll].
  case_decide; rewrite IH; [|done].
  by rewrite append_assoc.
Qed.

Lemma replaceAll_absent c r s : occurs c s = false -> replaceAll c r s = s.
Proof.
  induction s as [|a s IH]; [done|]. cbn [occurs replaceAll].
  intros [Ha Hs]%orb_false_iff. apply bool_decide_eq_false in Ha.
  rewrite decide_False by done. by rewrite IH.
Qed.

Lemma occurs_app c s t : occurs c (s +:+ t) = occurs c s || occurs c t.
Proof.
  induction s as [|a s IH]; [done|]. rewrite append_cons. cbn [occurs].
  by rewrite IH, orb_assoc.
Qed.

Lemma sanitizeText_app s t :
  sanitizeText (s +:+ t) = sanitizeText s +:+ sanitizeText t.
Proof. unfold sanitizeText. by rewrite !replaceAll_app. Qed.

Lemma sanitizeText_char a : sanitizeText (String a EmptyString) = escapeChar a.
Proof.
  destruct (decide (a = "<"%char)) as [-> | Hlt]; [reflexivity|].
  destruct (decide (a = ">"%char)) as [-> | Hgt]; [reflexivity|].
  unfold sanitizeText, escapeChar. cbn [replaceAll].
  rewrite (decide_False (P := a = "<"%char)) by done. cbn [replaceAll].
  by rewrite !decide_False.
Qed.

Lemma occurs_escapeChar c a :
  c = "<"%char \/ c = ">"%char -> occurs c (escapeChar a) = false.
Proof.
  intros Hc. unfold escapeChar. repeat case_decide.
  - by destruct Hc as [-> | ->].
  - by destruct Hc as [-> | ->].
  - cbn [occurs]. rewrite bool_decide_eq_false_2; [done|].
    by destruct Hc as [-> | ->].
Qed.

Lemma sanitizeText_one_pass text : sanitizeText text = escape text.
Proof.
  induction text as [|a s IH]; [done|].
  change (String a s) with (String a EmptyString +:+ s).
  by rewrite sanitizeText_app, sanitizeText_char, IH.
Qed.

Lemma occurs_escape c text :
  c = "<"%char \/ c = ">"%char -> occurs c (escape text) = false.
Proof.
  intros Hc. induction text as [|a s IH]; [done|]. cbn [escape].
  by rewrite occurs_app, IH, occurs_escapeChar.
Qed.

(** ** Integers as strings *)

Lemma to_int_nonneg (z : Z) :
  (0 <= z)%Z -> Z.to_int z = Decimal.Pos (N.to_uint (Z.to_N z)).
Proof. destruct z; [done | done | lia]. Qed.

Lemma to_uint_nonnil (n : N) : N.to_uint n <> Decimal.Nil.
Proof.
  rewrite <- (DecimalN.Unsigned.of_to n) at 1.
  rewrite DecimalN.Unsigned.to_of. apply unorm_nonnil.
Qed.

Lemma integerToString_nonneg (z : Z) :
  (0 <= z)%Z ->
  integerToString z = NilZero.string_of_uint (N.to_uint (Z.to_N z)).
Proof. intros Hz. unfold integerToString. by rewrite to_int_nonneg. Qed.

(** The digits of a number are not angle brackets. *)
Lemma digits_plain c d :
  c = "<"%char \/ c = ">"%char ->
  occurs c (NilEmpty.string_of_uint d) = false.
Proof.
  intros Hc. induction d as [|d IH|d IH|d IH|d IH|d IH|d IH|d IH|d IH|d IH|d IH];
    [done | cbn [NilEmpty.string_of_uint occurs]; rewrite IH;
            by destruct Hc as [-> | ->] ..].
Qed.

Lemma integerToString_plain c z :
  c = "<"%char \/ c = ">"%char -> occurs c (integerToString z) = false.
Proof.
  intros Hc. unfold integerToString, NilZero.string_of_int, NilZero.string_of_uint.
  destruct (Z.to_int z) as [d | d]; destruct d;
    try (by destruct Hc as [-> | ->]);
    try (by apply digits_plain);
    cbn [occurs]; rewrite (digits_plain c) by done; by destruct Hc as [-> | ->].
Qed.

Lemma indexOfKey_print z :
  (0 <= z < maxIndex)%Z -> indexOfKey (integerToString z) = Some z.
Proof.
  intros Hz. unfold indexOfKey. rewrite integerToString_nonneg by lia.
  rewrite NilZero.usu by apply to_uint_nonnil.
  cbv zeta. rewrite DecimalN.Unsigned.of_to, Z2N.id by lia.
  rewrite decide_True by (by rewrite integerToString_nonneg by lia).
  by rewrite decide_True by lia.
Qed.

Lemma indexOfKey_Some key z :
  indexOfKey key = Some z -> key = integerToString z /\ (0 <= z < maxIndex)%Z.
Proof.
  unfold indexOfKey. destruct (NilZero.uint_of_string key) as [d|]; [|done].
  cbv zeta. repeat case_decide; try done. intros [= <-]. split; [done | lia].
Qed.

Lemma keyLookup_print {A} (l : list A) z :
  (0 <= z < maxIndex)%Z -> keyLookup l (integerToString z) = l !! Z.to_nat z.
Proof. intros Hz. unfold keyLookup. by rewrite indexOfKey_print. Qed.

(** An index beyond the end of the array reads [undefined]. *)
Lemma keyLookup_index {A} (l : list A) key z :
  indexOfKey key = Some z ->
  keyLookup l key = None <-> (Z.of_nat (length l) <= z)%Z.
Proof.
  intros E. destruct (indexOfKey_Some key z E) as [_ Hz]. unfold keyLookup.
  rewrite E, lookup_ge_None. lia.
Qed.

(** ** Theorems *)

(** C40: the two replacements of [sanitizeText], made one after the other
    over the whole text, give what one pass gives that replaces each [<] by
    [&lt;] and each [>] by [&gt;]; the result holds no angle bracket. *)
Theorem sanitizeText_escape text :
  sanitizeText text = escape text /\
  occurs "<" (sanitizeText text) = false /\
  occurs ">" (sanitizeText text) = false.
Proof.
  rewrite sanitizeText_one_pass. split; [done|].
  split; apply occurs_escape; auto.
Qed.

(** A text without angle brackets, such as the text of a number, is shown as
    it is. *)
Theorem sanitizeText_plain text :
  occurs "<" text = false -> occurs ">" text = false -> sanitizeText text = text.
Proof.
  intros Hlt Hgt. unfold sanitizeText.
  rewrite (replaceAll_absent "<") by done. by apply replaceAll_absent.
Qed.

(** Sanitizing twice is sanitizing once. *)
Theorem sanitizeText_idempotent text :
  sanitizeText (sanitizeText text) = sanitizeText text.
Proof.
  apply sanitizeText_plain; rewrite sanitizeText_one_pass; apply occurs_escape; auto.
Qed.

(** The ampersand is not replaced, so two texts can have the same image. *)
Example sanitizeText_not_injective :
  sanitizeText "<b>" = sanitizeText "&lt;b&gt;".
Proof. reflexivity. Qed.

Lemma sanitizeText_plain_witness : sanitizeText "-0.5" = "-0.5".
Proof. apply sanitizeText_plain; reflexivity. Defined.
