(* ===== verification/Page.v ===== *)
(** * The page: the grid of cells, the texts, the listeners

    What the script does to the document: [createGrid] fills the element
    [grid] with one [div] per site, [updateGrid] gives every cell the class of
    its spin, [adjustGridSize] makes the grid as high as it is wide, the
    second half of [updateResults] writes the seven results into their
    elements, the listeners of the sliders write the value of the slider, and
    the statements at the top level register the listeners of the controls.

    The document is the record [document]: the text of every element that has
    an identifier ([contents], a finite map; [document.getElementById] of an
    identifier outside it is [null], and the access to a property of the
    result throws [TypeError]), the children of [grid] in document order
    ([cells]), the width the layout has given to the grid ([clientWidth]), the
    height the script has set ([styleHeight]), the listeners that have been
    registered ([listeners]) and the files that have been offered for
    download ([downloads]).  A cell carries its class, the two entries of its
    [dataset], which are strings, and the site that the closure of its click
    listener has captured.

    [updateGrid] reads [cell.dataset.row] and [cell.dataset.col] back and
    uses these strings as keys of [spins] ([readSpinKey], built on
    [Text.keyLookup]).  The cells are the elements of the class [cell]: the
    document is taken to have no other element of that class.

    What the browser supplies is the class [Browser]: the text of a number
    ([Number.prototype.toString], [math.format] with two digits of
    precision), with the laws the theorems use, and the document in which the
    script is loaded.  [decimal_browser] is an instance that runs. *)

From Stdlib Require Import Ascii ZArith QArith Lia.
From Stdlib Require Qcanon.
From stdpp Require Import base tactics option list list_numbers strings gmap.
From S2P Require Import Prelude Numeric Lattice Text.

#[local] Open Scope string_scope.
#[local] Open Scope list_scope.
#[local] Open Scope Z_scope.

(** ** Data *)

(** The values that [updateResults] shows and [exportData] writes. *)
Record results : Type := Results {
  magnetization : num;
  energy : num;
  correlation : num;
  twoPointCorrelation : num;
  pairCorrelation : list (Z * num);
  temporalCorrelation : num;
  structureFactor : list (list Q);
}.

(** The results are numbers: none of them is [NaN] or infinite. *)
Definition finiteResults (r : results) : Prop :=
  is_finite (magnetization r) /\ is_finite (energy r) /\
  is_finite (correlation r) /\ is_finite (twoPointCorrelation r) /\
  Forall (fun p => is_finite p.2) (pairCorrelation r) /\
  is_finite (temporalCorrelation r).

(** The functions that the script registers as listeners of the controls:
    the four anonymous listeners of the sliders and of the selector,
    [startSimulation], [stopSimulation], [exportData], [adjustGridSize]. *)
Inductive callback : Type :=
| OnTemperature
| OnMagneticField
| OnInteractionStrength
| OnAlgorithm
| OnStart
| OnStop
| OnExport
| OnResize.

#[export] Instance callback_eq_dec : EqDecision callback.
Proof. solve_decision. Defined.

(** A registration: the identifier of the target ([None] is [window]), the
    type of the event, and the callback. *)
Record listener : Type := Listener {
  listenerTarget : option string;
  listenerType : string;
  listenerCallback : callback;
}.

#[export] Instance listener_eq_dec : EqDecision listener.
Proof. solve_decision. Defined.

(** A [div] of the grid. *)
Record cell : Type := Cell {
  className : string;
  datasetRow : string;
  datasetCol : string;
  clickListener : site;
}.

#[export] Instance cell_eq_dec : EqDecision cell.
Proof. solve_decision. Defined.

(** A file offered for download: the name, the type of the blob, the text. *)
Record download : Type := Download {
  fileName : string;
  fileType : string;
  fileText : string;
}.

#[export] Instance download_eq_dec : EqDecision download.
Proof. solve_decision. Defined.

Record document : Type := Document {
  contents : gmap string string;
  cells : list cell;
  clientWidth : Z;
  styleHeight : string;
  listeners : list listener;
  downloads : list download;
}.

(** ** Assignments to the document *)

Definition set_contents (d : document) (m : gmap string string) : document :=
  Document m (cells d) (clientWidth d) (styleHeight d) (listeners d) (downloads d).

Definition set_cells (d : document) (cs : list cell) : document :=
  Document (contents d) cs (clientWidth d) (styleHeight d) (listeners d) (downloads d).

Definition set_clientWidth (d : document) (w : Z) : document :=
  Document (contents d) (cells d) w (styleHeight d) (listeners d) (downloads d).

Definition set_styleHeight (d : document) (h : string) : document :=
  Document (contents d) (cells d) (clientWidth d) h (listeners d) (downloads d).

Definition set_listeners (d : document) (ls : list listener) : document :=
  Document (contents d) (cells d) (clientWidth d) (styleHeight d) ls (downloads d).

Definition set_downloads (d : document) (fs : list download) : document :=
  Document (contents d) (cells d) (clientWidth d) (styleHeight d) (listeners d) fs.

(** [grid.appendChild(cell)], for several cells. *)
Definition appendCells (d : document) (cs : list cell) : document :=
  set_cells d (cells d ++ cs).

(** ** Elements *)

(** [document.getElementById(id)], followed by the access to a property of
    the result: the text of the element, or the exception when there is no
    such element. *)
Definition getElementById (id : string) (d : document) : res string :=
  from_option_res TypeError (contents d !! id).

(** [document.getElementById(id).textContent = text], and the same for
    [innerHTML]. *)
Definition setContent (id text : string) (d : document) : res document :=
  _ ← getElementById id d;
  Ok (set_contents d (<[id := text]> (contents d))).

(** [element.innerHTML += text] *)
Definition appendContent (id text : string) (d : document) : res document :=
  old ← getElementById id d;
  Ok (set_contents d (<[id := old +:+ text]> (contents d))).

(** [document.getElementById(id).addEventListener(type, callback)] *)
Definition addEventListener (id type : string) (c : callback) (d : document)
    : res document :=
  _ ← getElementById id d;
  Ok (set_listeners d (listeners d ++ [Listener (Some id) type c])).

(** [window.addEventListener(type, callback)] *)
Definition addWindowListener (type : string) (c : callback) (d : document)
    : document :=
  set_listeners d (listeners d ++ [Listener None type c]).

(** [link.download = name; link.click()] on a link to a blob. *)
Definition offerDownload (name type text : string) (d : document) : document :=
  set_downloads d (downloads d ++ [Download name type text]).

(** The elements that the script looks up by identifier. *)
Definition elementIds : list string :=
  [ "grid"; "temperature"; "temperatureValue"; "magneticField";
    "magneticFieldValue"; "interactionStrength"; "interactionStrengthValue";
    "algorithm"; "startButton"; "stopButton"; "exportButton";
    "magnetization"; "energy"; "correlation"; "twoPointCorrelation";
    "pairCorrelation"; "temporalCorrelation"; "structureFactor" ].

(** The document has the elements that the script looks up. *)
Definition present (m : gmap string string) : Prop :=
  Forall (fun id => is_Some (m !! id)) elementIds.

Definition hasElements (d : document) : Prop := present (contents d).

#[export] Instance present_dec (m : gmap string string) : Decision (present m).
Proof. unfold present. apply _. Defined.

#[export] Instance hasElements_dec (d : document) : Decision (hasElements d).
Proof. unfold hasElements. apply _. Defined.

(** ** What the browser supplies *)

Class Browser : Type := {
  (** [x.toString()] for a finite number *)
  numberToString : Q -> string;
  (** [math.format(x, { precision: 2 })] *)
  formatNumber : num -> string;
  (** the document in which the script is loaded *)
  loadedDocument : document;
  numberToString_proper :: Proper (Qeq ==> eq) numberToString;
  formatNumber_proper :: Proper (equiv ==> eq) formatNumber;
  (** an integer below [10^21] is written without exponent *)
  numberToString_integer (z : Z) :
    Z.abs z < 10 ^ 21 -> numberToString (inject_Z z) = integerToString z;
  (** the text of a number holds no angle bracket *)
  numberToString_plain (c : ascii) (q : Q) :
    c = "<"%char \/ c = ">"%char -> occurs c (numberToString q) = false;
  loadedDocument_elements : hasElements loadedDocument;
  loadedDocument_listeners : listeners loadedDocument = [];
  loadedDocument_width : 0 <= clientWidth loadedDocument;
}.

(** ** The text of a spin and of a number *)

(** The string that ['cell ' + spins[i][j]] appends: the spin, or the text
    of [undefined]. *)
Definition spinText (c : option spin) : string :=
  match c with
  | Some up => "up"
  | Some down => "down"
  | None => "undefined"
  end.

(** The texts of a list, one after the other. *)
Definition joined (l : list string) : string := foldr String.append "" l.

(** The decimal digits of [r / d], for [0 <= r < d]: all of them when the
    expansion ends, and the first [k] otherwise. *)
Fixpoint fractionDigits (k : nat) (r d : Z) : string :=
  match k with
  | O => ""
  | S k' =>
      if decide (r = 0) then ""
      else integerToString (10 * r / d) +:+ fractionDigits k' ((10 * r) mod d) d
  end.

(** A rational in decimal notation: an integer as [integerToString] writes
    it, any other number with at most [k] digits after the point. *)
Definition decimalText (k : nat) (q : Q) : string :=
  let n := Qnum (Qred q) in
  let d := Z.pos (Qden (Qred q)) in
  if decide (d = 1) then integerToString n
  else (if decide (n < 0) then "-" else "")
       +:+ integerToString (Z.abs n / d) +:+ "."
       +:+ fractionDigits k (Z.abs n mod d) d.

Definition decimalFormat (x : num) : string :=
  match x with
  | Fin q => decimalText 2 q
  | PInf => "Infinity"
  | NInf => "-Infinity"
  | NaN => "NaN"
  end.

(** A document that has the elements of [elementIds], all of them empty, and
    a grid of the given width. *)
Definition blankDocument (width : Z) : document :=
  Document (list_to_map ((fun id => (id, "")) <$> elementIds)) [] width "" [] [].

(** ** The operations of the script on the document *)

Section page.
Context `{Params, Browser}.

(** [adjustGridSize()] *)
Definition adjustGridSize (d : document) : res document :=
  _ ← getElementById "grid" d;
  let gridWidth := clientWidth d in
  Ok (set_styleHeight d (integerToString gridWidth +:+ "px")).

(** The body of the inner loop of [createGrid]. *)
Definition createCell (g : grid) (i j : Z) (d : document) : res document :=
  c ← readSpin g i j;
  let cell := Cell ("cell " +:+ spinText c) (integerToString i)
                (integerToString j) (i, j) in
  Ok (appendCells d [cell]).

(** [createGrid()] *)
Definition createGrid (g : grid) (d : document) : res document :=
  d ← setContent "grid" "" d;
  let d := set_cells d [] in
  d ← forZ gridSize (fun i => forZ gridSize (fun j => createCell g i j)) d;
  adjustGridSize d.

(** [spins[row][col]] for keys that are strings. *)
Definition readSpinKey (g : grid) (row col : string) : res (option spin) :=
  match keyLookup g row with
  | None => Throw TypeError
  | Some r => Ok (keyLookup r col)
  end.

(** The callback of [cells.forEach] in [updateGrid]. *)
Definition updateCell (g : grid) (c : cell) : res cell :=
  let row := datasetRow c in
  let col := datasetCol c in
  s ← readSpinKey g row col;
  Ok (Cell ("cell " +:+ spinText s) (datasetRow c) (datasetCol c) (clickListener c)).

(** [updateGrid()] *)
Definition updateGrid (g : grid) (d : document) : res document :=
  cs ← forEachM (updateCell g) (cells d);
  Ok (set_cells d cs).

(** One line of the pair correlation. *)
Definition pairLine (p : Z * num) : string :=
  "Distance " +:+ integerToString p.1 +:+ ": " +:+ formatNumber p.2 +:+ "<br>".

(** One line of the structure factor. *)
Definition structureLine (qx qy : Z) (value : Q) : string :=
  "q=(" +:+ integerToString qx +:+ "," +:+ integerToString qy +:+ "): "
  +:+ formatNumber (Fin value) +:+ "<br>".

(** The second half of [updateResults]: the seven results go to their
    elements. *)
Definition showResults (r : results) (d : document) : res document :=
  d ← setContent "magnetization"
        ("Magnetization: " +:+ formatNumber (magnetization r)) d;
  d ← setContent "energy" ("Energy: " +:+ formatNumber (energy r)) d;
  d ← setContent "correlation"
        ("Correlation Function: " +:+ formatNumber (correlation r)) d;
  d ← setContent "twoPointCorrelation"
        ("Two-Point Correlation (distance 1): "
         +:+ formatNumber (twoPointCorrelation r)) d;
  d ← setContent "pairCorrelation" "Pair Correlation:<br>" d;
  d ← foldlM (fun p d => appendContent "pairCorrelation" (pairLine p) d)
        (pairCorrelation r) d;
  d ← setContent "temporalCorrelation"
        ("Temporal Correlation (lag 10): "
         +:+ formatNumber (temporalCorrelation r)) d;
  d ← setContent "structureFactor" "Structure Factor:<br>" d;
  foldlM (fun row d =>
      foldlM (fun value d =>
          appendContent "structureFactor" (structureLine row.1 value.1 value.2) d)
        (indexed row.2) d)
    (indexed (structureFactor r)) d.

(** [document.getElementById(id).textContent = sanitizeText(v.toString())],
    the second statement of the listener of a slider. *)
Definition showValue (id : string) (v : Q) (d : document) : res document :=
  setContent id (sanitizeText (numberToString v)) d.

(** The registrations of lines 275 to 289: the sliders and the selector. *)
Definition wireInputs (d : document) : res document :=
  d ← addEventListener "temperature" "input" OnTemperature d;
  d ← addEventListener "magneticField" "input" OnMagneticField d;
  d ← addEventListener "interactionStrength" "input" OnInteractionStrength d;
  addEventListener "algorithm" "change" OnAlgorithm d.

(** The statements at the top level of the script that act on the document,
    in their order. *)
Definition loadPage (g : grid) (d : document) : res document :=
  d ← wireInputs d;
  d ← createGrid g d;
  let d := addWindowListener "resize" OnResize d in
  d ← adjustGridSize d;
  d ← addEventListener "startButton" "click" OnStart d;
  d ← addEventListener "stopButton" "click" OnStop d;
  addEventListener "exportButton" "click" OnExport d.

(** ** Reference definitions *)

(** The cell that shows the site [s] of the grid [g]. *)
Definition renderCell (g : grid) (s : site) : cell :=
  Cell ("cell " +:+ spinText (cellAt g s.1 s.2)) (integerToString s.1)
    (integerToString s.2) s.

(** The cells that show the grid, row by row. *)
Definition renderGrid (g : grid) : list cell := renderCell g <$> allSites.

(** The document whose grid has lost the text it held. *)
Definition cleared (d : document) : document :=
  set_contents d (<["grid" := ""]> (contents d)).

(** The document with a grid as high as wide. *)
Definition squared (d : document) : document :=
  set_styleHeight d (integerToString (clientWidth d) +:+ "px").

(** The listeners of the page, in the order of their registration. *)
Definition wiring : list listener :=
  [ Listener (Some "temperature") "input" OnTemperature;
    Listener (Some "magneticField") "input" OnMagneticField;
    Listener (Some "interactionStrength") "input" OnInteractionStrength;
    Listener (Some "algorithm") "change" OnAlgorithm;
    Listener None "resize" OnResize;
    Listener (Some "startButton") "click" OnStart;
    Listener (Some "stopButton") "click" OnStop;
    Listener (Some "exportButton") "click" OnExport ].

(** The markup of the pair correlation and of the structure factor. *)
Definition pairHTML (r : results) : string :=
  "Pair Correlation:<br>" +:+ joined (pairLine <$> pairCorrelation r).

Definition structureHTML (r : results) : string :=
  "Structure Factor:<br>"
  +:+ joined ((fun row =>
         joined ((fun value => structureLine row.1 value.1 value.2)
                   <$> indexed row.2))
       <$> indexed (structureFactor r)).

(** The elements that [updateResults] writes. *)
Definition resultIds : list string :=
  ["magnetization"; "energy"; "correlation"; "twoPointCorrelation";
   "pairCorrelation"; "temporalCorrelation"; "structureFactor"].

(** The contents of the elements after [updateResults]. *)
Definition shownContents (r : results) (m : gmap string string)
    : gmap string string :=
  <["structureFactor" := structureHTML r]>
  (<["temporalCorrelation" :=
       "Temporal Correlation (lag 10): " +:+ formatNumber (temporalCorrelation r)]>
  (<["pairCorrelation" := pairHTML r]>
  (<["twoPointCorrelation" :=
       "Two-Point Correlation (distance 1): "
       +:+ formatNumber (twoPointCorrelation r)]>
  (<["correlation" := "Correlation Function: " +:+ formatNumber (correlation r)]>
  (<["energy" := "Energy: " +:+ formatNumber (energy r)]>
  (<["magnetization" := "Magnetization: " +:+ formatNumber (magnetization r)]>
   m)))))).

(** The document after the script has been loaded in [d]. *)
Definition loadedPage (g : grid) (d : document) : document :=
  set_listeners (squared (set_cells (cleared d) (renderGrid g))) wiring.

(** The page shows the grid [g]: it has the elements of the script, the
    cells show the spins, the grid is as high as wide, and the listeners are
    those of the script, each registered once. *)
Record wf_page (g : grid) (d : document) : Prop := {
  page_elements : hasElements d;
  page_cells : cells d = renderGrid g;
  page_listeners : listeners d = wiring;
  page_height : styleHeight d = integerToString (clientWidth d) +:+ "px";
  page_width : 0 <= clientWidth d;
}.

(** The results have the shape that the lattice gives them: finite numbers,
    one pair correlation for each distance from 1 to [gridSize / 2], and a
    structure factor of [gridSize] rows of [gridSize] entries. *)
Record wf_results (r : results) : Prop := {
  results_finite : finiteResults r;
  results_distances : (pairCorrelation r).*1 = seqZ 1 (gridSize / 2);
  results_rows : length (structureFactor r) = Z.to_nat gridSize;
  results_columns :
    Forall (fun row => length row = Z.to_nat gridSize) (structureFactor r);
}.

End page.

(** ** Lemmas: elements and their text *)

(** Membership of an identifier in [elementIds], by evaluation. *)
Ltac solve_element := by (apply (bool_decide_unpack _); vm_compute).

Lemma joined_cons (s : string) (l : list string) : joined (s :: l) = s +:+ joined l.
Proof. done. Qed.

Lemma joined_app (l1 l2 : list string) : joined (l1 ++ l2) = joined l1 +:+ joined l2.
Proof.
  induction l1 as [|s l1 IH]; [done|]. simpl. by rewrite IH, append_assoc.
Qed.

Section document_lemmas.
Implicit Types (d : document) (id text : string).

Lemma getElementById_Some d id text :
  contents d !! id = Some text -> getElementById id d = Ok text.
Proof. unfold getElementById. by intros ->. Qed.

Lemma getElementById_None d id :
  contents d !! id = None -> getElementById id d = Throw TypeError.
Proof. unfold getElementById. by intros ->. Qed.

Lemma setContent_Ok d id text :
  is_Some (contents d !! id) ->
  setContent id text d = Ok (set_contents d (<[id := text]> (contents d))).
Proof.
  intros [old E]. unfold setContent. by rewrite (getElementById_Some _ _ _ E).
Qed.

Lemma appendContent_Ok d id old text :
  contents d !! id = Some old ->
  appendContent id text d
  = Ok (set_contents d (<[id := old +:+ text]> (contents d))).
Proof. intros E. unfold appendContent. by rewrite (getElementById_Some _ _ _ E). Qed.

Lemma addEventListener_Ok d id type c :
  is_Some (contents d !! id) ->
  addEventListener id type c d
  = Ok (set_listeners d (listeners d ++ [Listener (Some id) type c])).
Proof.
  intros [old E]. unfold addEventListener. by rewrite (getElementById_Some _ _ _ E).
Qed.

Lemma present_lookup (m : gmap string string) id :
  present m -> id ∈ elementIds -> is_Some (m !! id).
Proof. unfold present. rewrite Forall_forall. auto. Qed.

Lemma present_insert (m : gmap string string) id text :
  present m -> present (<[id := text]> m).
Proof.
  unfold present. intros Hm. eapply Forall_impl; [exact Hm|].
  intros id' Hid. rewrite lookup_insert_is_Some'. by right.
Qed.

Lemma hasElements_lookup d id :
  hasElements d -> id ∈ elementIds -> is_Some (contents d !! id).
Proof. apply present_lookup. Qed.

(** A loop that appends a line to the element [id] at every iteration
    leaves the lines after what the element held. *)
Lemma foldlM_appendContent {A} id (line : A -> string)
    (body : A -> document -> res document) (l : list A) d old :
  (forall x d0 old0, x ∈ l -> contents d0 !! id = Some old0 ->
     body x d0 = Ok (set_contents d0 (<[id := old0 +:+ line x]> (contents d0)))) ->
  contents d !! id = Some old ->
  foldlM body l d
  = Ok (set_contents d (<[id := old +:+ joined (line <$> l)]> (contents d))).
Proof.
  revert d old. induction l as [|x l IH]; intros d old Hb Hd; simpl.
  - rewrite append_empty_r, insert_id by done. by destruct d.
  - rewrite (Hb x d old) by (done || left).
    rewrite (IH _ (old +:+ line x)).
    + cbn [contents set_contents]. by rewrite insert_insert_eq, append_assoc.
    + intros y d0 old0 Hy. apply Hb. by right.
    + apply lookup_insert_eq.
Qed.

End document_lemmas.

(** ** Lemmas: the grid of cells *)

Lemma fmap_sites {B} (f : site -> B) (l1 l2 : list Z) :
  f <$> (i ← l1; (fun j => (i, j)) <$> l2)
  = l1 ≫= fun i => l2 ≫= fun j => [f (i, j)].
Proof.
  induction l1 as [|i l1 IH]; [done|]. rewrite !bind_cons, fmap_app, IH.
  f_equal. clear IH. induction l2 as [|j l2 IH2]; [done|]. cbn. by f_equal.
Qed.

Lemma appendCells_nil d : appendCells d [] = d.
Proof. unfold appendCells. rewrite app_nil_r. by destruct d. Qed.

Lemma appendCells_app d k1 k2 :
  appendCells (appendCells d k1) k2 = appendCells d (k1 ++ k2).
Proof. unfold appendCells, set_cells. cbn. by rewrite app_assoc. Qed.

Lemma keyLookup_nil {A} (key : string) : keyLookup (@nil A) key = None.
Proof. unfold keyLookup. by destruct (indexOfKey key). Qed.

Section grid_lemmas.
Context `{Params, Browser}.
Implicit Types (g : grid) (d : document) (c : cell).

Lemma createCell_Ok g i j d :
  wf_grid g -> 0 <= i < gridSize ->
  createCell g i j d = Ok (appendCells d [renderCell g (i, j)]).
Proof. intros Hwf Hi. unfold createCell. by rewrite readSpin_wf. Qed.

(** The two loops of [createGrid] append the cells of the grid, row by
    row. *)
Lemma createGrid_cells g d :
  wf_grid g ->
  forZ gridSize (fun i => forZ gridSize (fun j => createCell g i j)) d
  = Ok (appendCells d (renderGrid g)).
Proof.
  intros Hwf. unfold forZ, renderGrid, allSites. rewrite fmap_sites.
  apply (foldlM_log appendCells _ (fun _ => True));
    [apply appendCells_nil | apply appendCells_app | done | done |].
  intros i d0 Hi%elem_of_seqZ _.
  apply (foldlM_log appendCells (fun j => [renderCell g (i, j)]) (fun _ => True));
    [apply appendCells_nil | apply appendCells_app | done | done |].
  intros j d1 _ _. apply createCell_Ok; [done | lia].
Qed.

(** The listeners of the cells are the sites, row by row. *)
Lemma renderGrid_listeners g : clickListener <$> renderGrid g = allSites.
Proof. unfold renderGrid. rewrite <- list_fmap_compose. apply list_fmap_id. Qed.

Lemma adjustGridSize_Ok d :
  is_Some (contents d !! "grid") -> adjustGridSize d = Ok (squared d).
Proof.
  intros [old E]. unfold adjustGridSize. by rewrite (getElementById_Some _ _ _ E).
Qed.

Lemma createGrid_returns g d :
  wf_grid g -> is_Some (contents d !! "grid") ->
  createGrid g d = Ok (squared (set_cells (cleared d) (renderGrid g))).
Proof.
  intros Hwf Hgrid. unfold createGrid.
  rewrite setContent_Ok by done. cbn [mbind res_bind].
  rewrite createGrid_cells by done. cbn [mbind res_bind].
  rewrite adjustGridSize_Ok; [done|]. cbn [contents appendCells set_cells set_contents].
  by rewrite lookup_insert_eq.
Qed.

(** The keys that [createGrid] has stored in the [dataset] of a cell name
    the site of the cell. *)
Lemma readSpinKey_print g i j :
  gridSize <= maxIndex -> wf_grid g -> in_grid i j ->
  readSpinKey g (integerToString i) (integerToString j) = Ok (cellAt g i j).
Proof.
  intros Hsize Hwf [Hi Hj].
  destruct (wf_grid_row g i Hwf Hi) as (row & Hrow & Hlen).
  unfold readSpinKey, cellAt. rewrite Hrow. rewrite zlookup_nonneg in Hrow by lia.
  rewrite keyLookup_print, Hrow by lia. cbn.
  by rewrite keyLookup_print, zlookup_nonneg by lia.
Qed.

Lemma updateCell_render g g0 (s : site) :
  gridSize <= maxIndex -> wf_grid g -> s ∈ allSites ->
  updateCell g (renderCell g0 s) = Ok (renderCell g s).
Proof.
  intros Hsize Hwf Hs%elem_of_allSites. unfold updateCell, renderCell.
  cbn [datasetRow datasetCol clickListener]. by rewrite readSpinKey_print.
Qed.

Lemma updateGrid_returns g g0 d :
  gridSize <= maxIndex -> wf_grid g -> cells d = renderGrid g0 ->
  updateGrid g d = Ok (set_cells d (renderGrid g)).
Proof.
  intros Hsize Hwf Hcells. unfold updateGrid. rewrite Hcells. unfold renderGrid.
  rewrite (forEachM_Ok _ (fun c => renderCell g (clickListener c))).
  - cbn [mbind res_bind]. by rewrite <- list_fmap_compose.
  - intros c (s & -> & Hs)%list_elem_of_fmap. by apply updateCell_render.
Qed.

(** A cell is redrawn unless its row key names no row. *)
Lemma updateCell_cases g c :
  (keyLookup g (datasetRow c) = None /\ updateCell g c = Throw TypeError) \/
  (is_Some (keyLookup g (datasetRow c)) /\ is_Ok (updateCell g c)).
Proof.
  unfold updateCell, readSpinKey. cbv zeta.
  destruct (keyLookup g (datasetRow c)) as [row|]; [right | left]; [|done].
  split; [done | apply is_Ok_Ok].
Qed.

Lemma forEachM_updateCell g (cs : list cell) :
  (Exists (fun c => keyLookup g (datasetRow c) = None) cs /\
   forEachM (updateCell g) cs = Throw TypeError) \/
  (Forall (fun c => is_Some (keyLookup g (datasetRow c))) cs /\
   is_Ok (forEachM (updateCell g) cs)).
Proof.
  induction cs as [|c cs IH]; [right; split; [constructor | apply is_Ok_Ok]|].
  simpl. destruct (updateCell_cases g c) as [[Hc ->] | [Hc [c' ->]]].
  - left. split; [by left | done].
  - destruct IH as [[Hcs ->] | [Hcs [cs' ->]]].
    + left. split; [by right | done].
    + right. split; [by constructor | apply is_Ok_Ok].
Qed.

End grid_lemmas.

(** ** Lemmas: the results and the values of the sliders *)

Lemma setContent_set d m id text :
  is_Some (m !! id) ->
  setContent id text (set_contents d m) = Ok (set_contents d (<[id := text]> m)).
Proof. intros Hm. by rewrite setContent_Ok. Qed.

Lemma appendLines {A} id (line : A -> string) (l : list A) d old :
  contents d !! id = Some old ->
  foldlM (fun x d => appendContent id (line x) d) l d
  = Ok (set_contents d (<[id := old +:+ joined (line <$> l)]> (contents d))).
Proof.
  apply (foldlM_appendContent id line). intros x d0 old0 _. apply appendContent_Ok.
Qed.

(** The element [id] is present in the contents [m], with inserted texts
    on top, of a document that has the elements of the script. *)
(** The document after a sequence of updates, field by field. *)
Ltac normal_document :=
  cbn [mbind res_bind app contents cells clientWidth styleHeight listeners
       downloads set_contents set_cells set_clientWidth set_styleHeight
       set_listeners set_downloads addWindowListener squared cleared].

Ltac solve_lookup :=
  first [ apply present_lookup; [assumption | solve_element]
        | rewrite lookup_insert_is_Some'; first [by left | right; solve_lookup] ].

Ltac solve_present :=
  cbn [contents set_contents set_cells set_clientWidth set_styleHeight
       set_listeners set_downloads addWindowListener squared cleared];
  solve_lookup.

Section result_lemmas.
Context `{Params, Browser}.
Implicit Types (g : grid) (d : document) (r : results).

Lemma showResults_set r d m :
  present m ->
  showResults r (set_contents d m) = Ok (set_contents d (shownContents r m)).
Proof.
  intros Hm. unfold showResults, shownContents, pairHTML, structureHTML.
  do 5 (rewrite setContent_set by solve_present; cbn [mbind res_bind]).
  rewrite (appendLines _ pairLine _ _ "Pair Correlation:<br>")
    by apply lookup_insert_eq.
  cbn [mbind res_bind contents set_contents]. rewrite insert_insert_eq.
  do 2 (rewrite setContent_set by solve_present; cbn [mbind res_bind]).
  rewrite (foldlM_appendContent "structureFactor"
             (fun row => joined ((fun value => structureLine row.1 value.1 value.2)
                                   <$> indexed row.2))
             _ _ _ "Structure Factor:<br>"); cbn [contents set_contents].
  - by rewrite insert_insert_eq.
  - intros row d0 old0 _ Hd0. by apply appendLines.
  - apply lookup_insert_eq.
Qed.

(** The texts of the single results after [updateResults], and an element
    that it leaves alone. *)
Lemma shownContents_lookup r (m : gmap string string) :
  shownContents r m !! "magnetization"
    = Some ("Magnetization: " +:+ formatNumber (magnetization r)) /\
  shownContents r m !! "energy" = Some ("Energy: " +:+ formatNumber (energy r)) /\
  shownContents r m !! "correlation"
    = Some ("Correlation Function: " +:+ formatNumber (correlation r)) /\
  shownContents r m !! "twoPointCorrelation"
    = Some ("Two-Point Correlation (distance 1): "
            +:+ formatNumber (twoPointCorrelation r)) /\
  shownContents r m !! "pairCorrelation" = Some (pairHTML r) /\
  shownContents r m !! "temporalCorrelation"
    = Some ("Temporal Correlation (lag 10): "
            +:+ formatNumber (temporalCorrelation r)) /\
  shownContents r m !! "structureFactor" = Some (structureHTML r) /\
  shownContents r m !! "temperatureValue" = m !! "temperatureValue".
Proof.
  unfold shownContents.
  repeat split;
    by repeat first [rewrite lookup_insert_eq | rewrite lookup_insert_ne by done].
Qed.

(** [updateResults] leaves every other element as it is. *)
Lemma shownContents_other r (m : gmap string string) id :
  id ∉ resultIds -> shownContents r m !! id = m !! id.
Proof.
  intros Hid. unfold shownContents.
  rewrite !lookup_insert_ne; [done | intros <-; apply Hid; solve_element ..].
Qed.

(** What it writes does not depend on what the elements held. *)
Lemma shownContents_result r (m m' : gmap string string) id :
  id ∈ resultIds -> shownContents r m !! id = shownContents r m' !! id.
Proof.
  unfold resultIds. rewrite !elem_of_cons, elem_of_nil. unfold shownContents.
  intros Hid. repeat (destruct Hid as [-> | Hid]); [..|done];
    by repeat first [rewrite lookup_insert_eq | rewrite lookup_insert_ne by done].
Qed.

Lemma shownContents_idemp r (m : gmap string string) :
  shownContents r (shownContents r m) = shownContents r m.
Proof.
  apply map_eq. intros id. destruct (decide (id ∈ resultIds)) as [Hid | Hid].
  - by apply shownContents_result.
  - by rewrite shownContents_other.
Qed.

Lemma present_shown r (m : gmap string string) :
  present m -> present (shownContents r m).
Proof. intros Hm. unfold shownContents. by do 7 apply present_insert. Qed.

Lemma showResults_returns r d :
  hasElements d ->
  showResults r d = Ok (set_contents d (shownContents r (contents d))).
Proof.
  intros Hd. rewrite <- showResults_set by done. by destruct d.
Qed.

(** The text of a number passes [sanitizeText] unchanged. *)
Lemma sanitizeText_number (v : Q) :
  sanitizeText (numberToString v) = numberToString v.
Proof. apply sanitizeText_plain; apply numberToString_plain; auto. Qed.

Lemma showValue_returns id v d :
  hasElements d -> id ∈ elementIds ->
  showValue id v d
  = Ok (set_contents d (<[id := numberToString v]> (contents d))).
Proof.
  intros Hd Hid. unfold showValue. rewrite sanitizeText_number.
  apply setContent_Ok. by apply hasElements_lookup.
Qed.

(** ** Lemmas: every operation keeps the page well formed *)

Lemma wf_page_contents g d m :
  present m -> wf_page g d -> wf_page g (set_contents d m).
Proof. intros Hm [Hd Hc Hl Hh Hw]. by split. Qed.

Lemma wf_page_insert g d id text :
  wf_page g d -> wf_page g (set_contents d (<[id := text]> (contents d))).
Proof.
  intros Hp. apply wf_page_contents; [|done]. apply present_insert, Hp.
Qed.

Lemma wf_page_shown g d r :
  wf_page g d -> wf_page g (set_contents d (shownContents r (contents d))).
Proof.
  intros Hp. apply wf_page_contents; [|done]. apply present_shown, Hp.
Qed.

Lemma wf_page_cells g g0 d :
  wf_page g0 d -> wf_page g (set_cells d (renderGrid g)).
Proof. intros [Hd Hc Hl Hh Hw]. by split. Qed.

Lemma wf_page_resized g d w :
  wf_page g d -> 0 <= w -> wf_page g (squared (set_clientWidth d w)).
Proof. intros [Hd Hc Hl Hh Hw] Hpos. by split. Qed.

Lemma wf_page_download g d name type text :
  wf_page g d -> wf_page g (offerDownload name type text d).
Proof. intros [Hd Hc Hl Hh Hw]. by split. Qed.

(** The registrations of the sliders and of the selector. *)
Lemma wireInputs_returns d :
  hasElements d ->
  wireInputs d = Ok (set_listeners d (listeners d ++ take 4 wiring)).
Proof.
  intros Hd. destruct d as [m cs w h ls fs]. unfold wireInputs.
  do 4 (rewrite addEventListener_Ok by solve_present; normal_document).
  by rewrite <- !(assoc_L (++)).
Qed.

(** The statements at the top level leave the page of [loadedPage]. *)
Lemma loadPage_returns g d :
  wf_grid g -> hasElements d -> listeners d = [] ->
  loadPage g d = Ok (loadedPage g d).
Proof.
  intros Hwf Hd Hl. unfold loadPage. rewrite wireInputs_returns by done.
  destruct d as [m cs w h ls fs]. cbn [listeners] in Hl. subst ls. normal_document.
  rewrite createGrid_returns by (done || solve_present). normal_document.
  rewrite adjustGridSize_Ok by solve_present. normal_document.
  do 3 (rewrite addEventListener_Ok by solve_present; normal_document).
  reflexivity.
Qed.

Lemma loadedPage_wf g d :
  hasElements d -> 0 <= clientWidth d -> wf_page g (loadedPage g d).
Proof. intros Hd Hw. split; try done. by apply present_insert. Qed.

End result_lemmas.

(** ** The decimal instance of the browser *)

Lemma decimalText_proper (k : nat) : Proper (Qeq ==> eq) (decimalText k).
Proof. intros q q' Hq. unfold decimalText. by rewrite (Qred_complete q q' Hq). Qed.

Lemma decimalFormat_proper : Proper (equiv ==> eq) decimalFormat.
Proof.
  intros [q| | |] [q'| | |] Hx; try (by destruct Hx); try reflexivity.
  by apply decimalText_proper.
Qed.

Lemma decimalText_integer (k : nat) (z : Z) :
  decimalText k (inject_Z z) = integerToString z.
Proof.
  unfold decimalText. rewrite Qcanon.Qred_identity by apply Z.gcd_1_r.
  cbn [Qnum Qden inject_Z]. by rewrite decide_True.
Qed.

Lemma fractionDigits_plain c (k : nat) (r d : Z) :
  c = "<"%char \/ c = ">"%char -> occurs c (fractionDigits k r d) = false.
Proof.
  intros Hc. revert r. induction k as [|k IH]; intros r; [done|].
  cbn [fractionDigits]. case_decide; [done|].
  by rewrite occurs_app, integerToString_plain, IH.
Qed.

Lemma decimalText_plain (k : nat) c (q : Q) :
  c = "<"%char \/ c = ">"%char -> occurs c (decimalText k q) = false.
Proof.
  intros Hc. unfold decimalText. cbv zeta.
  case_decide; [by apply integerToString_plain|].
  rewrite !occurs_app, integerToString_plain, fractionDigits_plain by done.
  case_decide; by destruct Hc as [-> | ->].
Qed.

Lemma blankDocument_elements (width : Z) : hasElements (blankDocument width).
Proof. apply (bool_decide_unpack _). by vm_compute. Qed.

Definition decimal_browser (width : N) : Browser := {|
  numberToString := decimalText 16;
  formatNumber := decimalFormat;
  loadedDocument := blankDocument (Z.of_N width);
  numberToString_proper := decimalText_proper 16;
  formatNumber_proper := decimalFormat_proper;
  numberToString_integer z _ := decimalText_integer 16 z;
  numberToString_plain := decimalText_plain 16;
  loadedDocument_elements := blankDocument_elements _;
  loadedDocument_listeners := eq_refl;
  loadedDocument_width := N2Z.is_nonneg width;
|}.

(** ** Theorems *)

Section page_theorems.
Context `{Params, Browser}.
Implicit Types (g : grid) (d : document) (r : results).

(** C24: [createGrid] removes the text and the cells the grid had and fills
    it with one cell per site, row by row; the cell of the site [(i, j)] has the class of
    the spin at [(i, j)], the decimal texts of [i] and [j] in its dataset,
    and a listener that toggles [(i, j)].  The grid is then made as high as
    it is wide. *)
Theorem createGrid_renders g d :
  wf_grid g -> is_Some (contents d !! "grid") ->
  createGrid g d = Ok (squared (set_cells (cleared d) (renderGrid g))) /\
  clickListener <$> renderGrid g = allSites /\
  forall c, c ∈ renderGrid g <->
    exists i j, in_grid i j /\
      c = Cell ("cell " +:+ spinText (cellAt g i j)) (integerToString i)
            (integerToString j) (i, j).
Proof.
  intros Hwf Hgrid. split; [by apply createGrid_returns|].
  split; [apply renderGrid_listeners|].
  intros c. unfold renderGrid. rewrite list_elem_of_fmap. split.
  - intros ([i j] & -> & Hs%elem_of_allSites). by exists i, j.
  - intros (i & j & Hin & ->). exists (i, j). by rewrite elem_of_allSites.
Qed.

(** C17: [updateGrid] gives every cell the class of the spin at the site
    that its dataset names: after it the cells show the grid, whatever grid
    they showed before.  The keys it reads from the dataset are strings; they
    name the rows and columns as long as [gridSize] is an array length. *)
Theorem updateGrid_redraws g g0 d :
  gridSize <= maxIndex -> wf_grid g -> cells d = renderGrid g0 ->
  updateGrid g d = Ok (set_cells d (renderGrid g)).
Proof. apply updateGrid_returns. Qed.

(** While the datasets hold array indices, [updateGrid] throws exactly when
    some cell names a row beyond the end of [spins], and then the exception
    is a [TypeError]; a column beyond the end of the row does not make it
    throw. *)
Theorem updateGrid_throws g d :
  Forall (fun c => is_Some (indexOfKey (datasetRow c))) (cells d) ->
  (updateGrid g d = Throw TypeError <->
   exists c z, c ∈ cells d /\ indexOfKey (datasetRow c) = Some z /\
     Z.of_nat (length g) <= z) /\
  (is_Ok (updateGrid g d) <->
   forall c z, c ∈ cells d -> indexOfKey (datasetRow c) = Some z ->
     z < Z.of_nat (length g)).
Proof.
  intros Hkeys. rewrite Forall_forall in Hkeys. unfold updateGrid.
  destruct (forEachM_updateCell g (cells d)) as [[He ->] | [Hf [cs ->]]];
    cbn [mbind res_bind].
  - apply Exists_exists in He as (c & Hc & Hnone).
    destruct (Hkeys c Hc) as [z Hz]. apply (keyLookup_index g _ z Hz) in Hnone.
    split; [split; [by exists c, z | done]|].
    split; [by intros [? [=]]|]. intros Hall. specialize (Hall c z Hc Hz). lia.
  - rewrite Forall_forall in Hf.
    assert (forall c z, c ∈ cells d -> indexOfKey (datasetRow c) = Some z ->
              z < Z.of_nat (length g)) as Hall.
    { intros c z Hc Hz. destruct (Hf c Hc) as [row Hrow].
      destruct (decide (z < Z.of_nat (length g))) as [|Hge]; [done|].
      rewrite (proj2 (keyLookup_index g _ z Hz)) in Hrow by lia. done. }
    split; [|split; [done | intros; apply is_Ok_Ok]].
    split; [done|]. intros (c & z & Hc & Hz & Hge). specialize (Hall c z Hc Hz). lia.
Qed.

(** C33: [updateResults] writes each of the seven results into its element:
    a label and the formatted number, or a heading followed by one line per
    entry in the order of the list or of the matrix, row by row.  Nothing
    else of the document changes, and what an element held before does not
    matter: the two elements that are filled with [innerHTML +=] are reset
    first, so a second call with the same results leaves the page as it
    is. *)
Theorem showResults_contents r d :
  hasElements d ->
  exists d', showResults r d = Ok d' /\
    contents d' !! "magnetization"
      = Some ("Magnetization: " +:+ formatNumber (magnetization r)) /\
    contents d' !! "energy" = Some ("Energy: " +:+ formatNumber (energy r)) /\
    contents d' !! "correlation"
      = Some ("Correlation Function: " +:+ formatNumber (correlation r)) /\
    contents d' !! "twoPointCorrelation"
      = Some ("Two-Point Correlation (distance 1): "
              +:+ formatNumber (twoPointCorrelation r)) /\
    contents d' !! "pairCorrelation"
      = Some ("Pair Correlation:<br>" +:+ joined (pairLine <$> pairCorrelation r)) /\
    contents d' !! "temporalCorrelation"
      = Some ("Temporal Correlation (lag 10): "
              +:+ formatNumber (temporalCorrelation r)) /\
    contents d' !! "structureFactor"
      = Some ("Structure Factor:<br>"
              +:+ joined ((fun row =>
                     joined ((fun value => structureLine row.1 value.1 value.2)
                               <$> indexed row.2))
                   <$> indexed (structureFactor r))) /\
    (forall id, id ∉ resultIds -> contents d' !! id = contents d !! id) /\
    set_contents d' (contents d) = d /\
    showResults r d' = Ok d'.
Proof.
  intros Hd. exists (set_contents d (shownContents r (contents d))).
  split; [by apply showResults_returns|]. cbn [contents set_contents].
  destruct (shownContents_lookup r (contents d))
    as (-> & -> & -> & -> & -> & -> & -> & _).
  do 7 (split; [done|]). split; [apply shownContents_other|].
  split; [by destruct d|]. rewrite showResults_returns by by apply present_shown.
  cbn [contents set_contents]. rewrite shownContents_idemp. by destruct d.
Qed.

(** C35: the statements at the top level of the script register one
    listener for each of the eight controls, in the order of the script, and
    leave a page that shows the grid; the text of the elements other than
    the grid is not touched. *)
Theorem loadPage_wires g d :
  wf_grid g -> hasElements d -> listeners d = [] -> 0 <= clientWidth d ->
  exists d', loadPage g d = Ok d' /\ wf_page g d' /\
    contents d' = <["grid" := ""]> (contents d) /\ NoDup (listeners d') /\
    listenerCallback <$> listeners d'
    = [OnTemperature; OnMagneticField; OnInteractionStrength; OnAlgorithm;
       OnResize; OnStart; OnStop; OnExport].
Proof.
  intros Hwf Hd Hl Hw. exists (loadedPage g d).
  split; [by apply loadPage_returns|]. split; [by apply loadedPage_wf|].
  split; [done|]. split; [|done]. cbn [listeners loadedPage set_listeners].
  apply (bool_decide_unpack _). by vm_compute.
Qed.

(** When the document has no element [grid] the script stops with a
    [TypeError] while it loads. *)
Theorem loadPage_without_grid g d :
  contents d !! "grid" = None -> loadPage g d = Throw TypeError.
Proof.
  intros Hgrid. unfold loadPage, wireInputs, addEventListener, getElementById.
  repeat (match goal with
          | |- context [from_option_res TypeError (contents ?d0 !! ?id)] =>
              destruct (contents d0 !! id) eqn:?; cbn - [createGrid]; try done
          end).
  unfold createGrid, setContent, getElementById. cbn [contents set_listeners].
  by rewrite Hgrid.
Qed.

End page_theorems.

(** ** Witnesses *)

Section witnesses.
#[local] Existing Instance source_params.
#[local] Instance source_browser : Browser := decimal_browser 400.

Lemma source_size : gridSize <= maxIndex.
Proof. by vm_compute. Defined.

Lemma createGrid_renders_witness :
  createGrid initialSpins loadedDocument
  = Ok (squared (set_cells (cleared loadedDocument) (renderGrid initialSpins))) /\
  clickListener <$> renderGrid initialSpins = allSites /\
  forall c, c ∈ renderGrid initialSpins <->
    exists i j, in_grid i j /\
      c = Cell ("cell " +:+ spinText (cellAt initialSpins i j)) (integerToString i)
            (integerToString j) (i, j).
Proof.
  apply createGrid_renders; [apply initialSpins_wf | by exists ""].
Defined.

Lemma updateGrid_redraws_witness :
  updateGrid (flipAt initialSpins (2, 3)) (loadedPage initialSpins loadedDocument)
  = Ok (set_cells (loadedPage initialSpins loadedDocument)
          (renderGrid (flipAt initialSpins (2, 3)))).
Proof.
  apply (updateGrid_redraws _ initialSpins); [apply source_size | | reflexivity].
  apply (bool_decide_unpack _). by vm_compute.
Defined.

Lemma showResults_contents_witness :
  exists d',
    showResults (Results (Fin 1) (Fin (-2)) (Fin 1) (Fin 0) [(1, Fin 1)] (Fin 0) [[4%Q]])
      loadedDocument = Ok d' /\
    contents d' !! "energy" = Some "Energy: -2" /\
    contents d' !! "pairCorrelation" = Some "Pair Correlation:<br>Distance 1: 1<br>" /\
    contents d' !! "structureFactor" = Some "Structure Factor:<br>q=(0,0): 4<br>" /\
    contents d' !! "temperatureValue" = contents loadedDocument !! "temperatureValue".
Proof.
  destruct (showResults_contents
              (Results (Fin 1) (Fin (-2)) (Fin 1) (Fin 0) [(1, Fin 1)] (Fin 0) [[4%Q]])
              loadedDocument loadedDocument_elements)
    as (d' & E & _ & He & _ & _ & Hp & _ & Hs & Ho & _).
  exists d'. split; [exact E|]. split; [exact He|]. split; [exact Hp|].
  split; [exact Hs|]. apply Ho. apply (bool_decide_unpack _). by vm_compute.
Defined.

Lemma loadPage_wires_witness :
  exists d', loadPage initialSpins loadedDocument = Ok d' /\
    wf_page initialSpins d' /\
    contents d' = <["grid" := ""]> (contents loadedDocument) /\
    NoDup (listeners d') /\
    listenerCallback <$> listeners d'
    = [OnTemperature; OnMagneticField; OnInteractionStrength; OnAlgorithm;
       OnResize; OnStart; OnStop; OnExport].
Proof.
  apply loadPage_wires;
    [apply initialSpins_wf | apply loadedDocument_elements | reflexivity
    | by vm_compute].
Defined.

Lemma loadPage_without_grid_witness :
  loadPage initialSpins (set_contents loadedDocument ∅) = Throw TypeError.
Proof. by apply loadPage_without_grid. Defined.

(** With [spins] empty, the first cell already names a row that is not
    there. *)
Example updateGrid_empty_spins :
  updateGrid [] (loadedPage initialSpins loadedDocument) = Throw TypeError.
Proof. by vm_compute. Qed.

End witnesses.
