(* ===== verification/Export.v ===== *)
(** * The export: the object of [exportData] and its JSON text

    [exportData] builds an object that holds the grid, the three parameters
    and the seven results, the results a second time under
    [simulationResults], and hands [JSON.stringify(data, null, 2)] to the
    browser as a file.  A value that [JSON.stringify] visits is a tree
    ([json]): a number, a string, an array, or an object, whose members are
    kept in the order of the object literal.  [serialize] is the
    serialisation of the language with its two parameters, the gap and the
    current indentation; [stringify] is the entry point.

    A number that is not finite is written [null], so the text does not
    always determine the tree.  [decodeData] reads the tree of [dataObject]
    back; it is the reference against which the object is checked. *)

From Stdlib Require Import Ascii ZArith QArith Lia.
From stdpp Require Import base tactics option list list_numbers strings.
From S2P Require Import Prelude Numeric Lattice Text Page.

#[local] Open Scope string_scope.
#[local] Open Scope list_scope.
#[local] Open Scope Z_scope.

(** ** Values *)

#[local] Unset Elimination Schemes.

Inductive json : Type :=
| JNumber (x : num)
| JString (s : string)
| JArray (items : list json)
| JObject (members : list (string * json)).

#[local] Set Elimination Schemes.

(** ** The object of [exportData] *)

Definition spinJson (s : spin) : json := JString (spinText (Some s)).

Definition gridJson (g : grid) : json :=
  JArray ((fun row => JArray (spinJson <$> row)) <$> g).

(** An element of [pairCorrelation]: [{ distance, correlation }]. *)
Definition pairJson (p : Z * num) : json :=
  JObject [("distance", JNumber (Fin (inject_Z p.1))); ("correlation", JNumber p.2)].

Definition matrixJson (m : list (list Q)) : json :=
  JArray ((fun row => JArray ((fun value => JNumber (Fin value)) <$> row)) <$> m).

(** The seven members that hold the results. *)
Definition resultMembers (r : results) : list (string * json) :=
  [ ("magnetization", JNumber (magnetization r));
    ("energy", JNumber (energy r));
    ("correlation", JNumber (correlation r));
    ("twoPointCorrelation", JNumber (twoPointCorrelation r));
    ("pairCorrelation", JArray (pairJson <$> pairCorrelation r));
    ("temporalCorrelation", JNumber (temporalCorrelation r));
    ("structureFactor", matrixJson (structureFactor r)) ].

(** [const data = { spins: spins, ..., simulationResults: { ... } }] *)
Definition dataObject (g : grid) (temperature magneticField interactionStrength : Q)
    (top nested : results) : json :=
  JObject
    ([ ("spins", gridJson g);
       ("temperature", JNumber (Fin temperature));
       ("magneticField", JNumber (Fin magneticField));
       ("interactionStrength", JNumber (Fin interactionStrength)) ]
     ++ resultMembers top
     ++ [ ("simulationResults", JObject (resultMembers nested)) ]).

(** ** [JSON.stringify] *)

Definition quoteChar : ascii := ascii_of_nat 34.
Definition backslash : ascii := ascii_of_nat 92.
Definition newline : string := String (ascii_of_nat 10) "".

(** The hexadecimal digit of [n < 16], in lower case. *)
Definition hexDigit (n : nat) : ascii :=
  if decide (n < 10)%nat then ascii_of_nat (48 + n) else ascii_of_nat (87 + n).

(** The text of one character inside a quoted string. *)
Definition escapeJSONChar (a : ascii) : string :=
  let n := nat_of_ascii a in
  if decide (n = 34)%nat then String backslash (String quoteChar "")
  else if decide (n = 92)%nat then String backslash (String backslash "")
  else if decide (n = 8)%nat then String backslash "b"
  else if decide (n = 9)%nat then String backslash "t"
  else if decide (n = 10)%nat then String backslash "n"
  else if decide (n = 12)%nat then String backslash "f"
  else if decide (n = 13)%nat then String backslash "r"
  else if decide (n < 32)%nat then
    String backslash "u00"
    +:+ String (hexDigit (n / 16)) (String (hexDigit (n mod 16)) "")
  else String a "".

Fixpoint escapeJSONString (s : string) : string :=
  match s with
  | EmptyString => ""
  | String a rest => escapeJSONChar a +:+ escapeJSONString rest
  end.

Definition quoteJSONString (s : string) : string :=
  String quoteChar (escapeJSONString s) +:+ String quoteChar "".

(** [partial.join(separator)] *)
Fixpoint joinWith (separator : string) (partial : list string) : string :=
  match partial with
  | [] => ""
  | [s] => s
  | s :: rest => s +:+ separator +:+ joinWith separator rest
  end.

(** The text of an array or of an object from the texts of its parts:
    on one line when there is no gap, and otherwise one part per line,
    indented by one gap more than the line that opens it. *)
Definition enclose (gap stepback opening closing : string) (partial : list string)
    : string :=
  match partial with
  | [] => opening +:+ closing
  | _ =>
      if decide (gap = "") then opening +:+ joinWith "," partial +:+ closing
      else
        let indent := stepback +:+ gap in
        opening +:+ newline +:+ indent
        +:+ joinWith ("," +:+ newline +:+ indent) partial
        +:+ newline +:+ stepback +:+ closing
  end.

Section stringify.
Context `{Browser}.

(** A finite number as [toString] writes it, any other as [null]. *)
Definition serializeNumber (x : num) : string :=
  match x with
  | Fin q => numberToString q
  | _ => "null"
  end.

Fixpoint serialize (gap indent : string) (value : json) : string :=
  match value with
  | JNumber x => serializeNumber x
  | JString s => quoteJSONString s
  | JArray items =>
      enclose gap indent "[" "]" (serialize gap (indent +:+ gap) <$> items)
  | JObject members =>
      enclose gap indent "{" "}"
        ((fun member =>
            quoteJSONString member.1 +:+ ":" +:+ (if decide (gap = "") then "" else " ")
            +:+ serialize gap (indent +:+ gap) member.2) <$> members)
  end.

(** The gap that a numeric third argument stands for: that many spaces, at
    most ten. *)
Definition gapOf (space : Z) : string :=
  Nat.iter (Z.to_nat (Z.min 10 space)) (String " "%char) "".

(** [JSON.stringify(value, null, space)] *)
Definition stringify (value : json) (space : Z) : string :=
  serialize (gapOf space) "" value.

End stringify.

(** ** Reading the object back *)

Definition decodeSpin (v : json) : option spin :=
  match v with
  | JString s =>
      if decide (s = "up") then Some up
      else if decide (s = "down") then Some down else None
  | _ => None
  end.

Definition decodeNumber (v : json) : option num :=
  match v with JNumber x => Some x | _ => None end.

Definition decodeFinite (v : json) : option Q :=
  match v with JNumber (Fin q) => Some q | _ => None end.

Definition decodeArray {A} (f : json -> option A) (v : json) : option (list A) :=
  match v with JArray items => mapM f items | _ => None end.

(** The member of an object with a given key. *)
Definition member (key : string) (v : json) : option json :=
  match v with
  | JObject members =>
      (fun found => found.2.2) <$> list_find (fun m => m.1 = key) members
  | _ => None
  end.

Definition decodePair (v : json) : option (Z * num) :=
  d ← member "distance" v ≫= decodeFinite;
  c ← member "correlation" v ≫= decodeNumber;
  if decide (Qden d = 1%positive) then Some (Qnum d, c) else None.

Definition decodeResults (v : json) : option results :=
  magnetization ← member "magnetization" v ≫= decodeNumber;
  energy ← member "energy" v ≫= decodeNumber;
  correlation ← member "correlation" v ≫= decodeNumber;
  twoPoint ← member "twoPointCorrelation" v ≫= decodeNumber;
  pairs ← member "pairCorrelation" v ≫= decodeArray decodePair;
  temporal ← member "temporalCorrelation" v ≫= decodeNumber;
  factor ← member "structureFactor" v ≫= decodeArray (decodeArray decodeFinite);
  Some (Results magnetization energy correlation twoPoint pairs temporal factor).

(** The grid, the three parameters and the two copies of the results. *)
Definition decodeData (v : json) : option (grid * Q * Q * Q * results * results) :=
  g ← member "spins" v ≫= decodeArray (decodeArray decodeSpin);
  temperature ← member "temperature" v ≫= decodeFinite;
  magneticField ← member "magneticField" v ≫= decodeFinite;
  interactionStrength ← member "interactionStrength" v ≫= decodeFinite;
  top ← decodeResults v;
  nested ← member "simulationResults" v ≫= decodeResults;
  Some (g, temperature, magneticField, interactionStrength, top, nested).

(** Every number of the tree is finite, so none is written as [null]. *)
Fixpoint finiteJson (v : json) : Prop :=
  match v with
  | JNumber x => is_finite x
  | JString _ => True
  | JArray items => foldr (fun item P => finiteJson item /\ P) True items
  | JObject members => foldr (fun member P => finiteJson member.2 /\ P) True members
  end.

(** ** Lemmas *)

Lemma member_here key v members :
  member key (JObject ((key, v) :: members)) = Some v.
Proof. cbn. by rewrite decide_True. Qed.

Lemma member_skip key key' v members :
  key' <> key ->
  member key (JObject ((key', v) :: members)) = member key (JObject members).
Proof.
  intros Hne. cbn. rewrite decide_False by done.
  by destruct (list_find _ members) as [[? ?]|].
Qed.

(** Looks a member up in an object whose keys are literals. *)
Ltac find_member :=
  repeat first [rewrite member_here | rewrite member_skip by done].

Lemma decodeSpin_spinJson (s : spin) : decodeSpin (spinJson s) = Some s.
Proof. by destruct s. Qed.

Lemma decodeGrid_gridJson (g : grid) :
  decodeArray (decodeArray decodeSpin) (gridJson g) = Some g.
Proof.
  unfold gridJson, decodeArray. apply mapM_fmap_Some. intros row.
  apply mapM_fmap_Some, decodeSpin_spinJson.
Qed.

Lemma decodePair_pairJson (p : Z * num) : decodePair (pairJson p) = Some p.
Proof. destruct p as [d c]. unfold decodePair, pairJson. by find_member. Qed.

Lemma decodeMatrix_matrixJson (m : list (list Q)) :
  decodeArray (decodeArray decodeFinite) (matrixJson m) = Some m.
Proof.
  unfold matrixJson, decodeArray. apply mapM_fmap_Some. intros row.
  by apply mapM_fmap_Some.
Qed.

Lemma decodeResults_members r members :
  decodeResults (JObject (resultMembers r ++ members)) = Some r.
Proof.
  unfold decodeResults, resultMembers. cbn [app]. find_member. cbn [mbind option_bind decodeNumber].
  rewrite decodeMatrix_matrixJson. unfold decodeArray.
  rewrite (mapM_fmap_Some _ _ _ decodePair_pairJson). cbn. by destruct r.
Qed.

Lemma decodeResults_resultMembers r :
  decodeResults (JObject (resultMembers r)) = Some r.
Proof. by rewrite <- (app_nil_r (resultMembers r)), decodeResults_members. Qed.

(** A member whose key is none of the seven keys of the results is passed
    over. *)
Lemma decodeResults_skip key v members :
  key ∉ (resultMembers (Results NaN NaN NaN NaN [] NaN [])).*1 ->
  decodeResults (JObject ((key, v) :: members)) = decodeResults (JObject members).
Proof.
  intros Hkey. unfold decodeResults.
  by rewrite !(member_skip _ key) by (intros ->; apply Hkey; solve_element).
Qed.

Lemma finiteJson_array (items : list json) :
  finiteJson (JArray items) <-> Forall finiteJson items.
Proof.
  cbn. induction items as [|v items IH]; cbn; [by split|].
  rewrite Forall_cons. by rewrite IH.
Qed.

Lemma finiteJson_object (members : list (string * json)) :
  finiteJson (JObject members) <-> Forall (fun m => finiteJson m.2) members.
Proof.
  cbn. induction members as [|m members IH]; cbn; [by split|].
  rewrite Forall_cons. by rewrite IH.
Qed.

Lemma gridJson_finite (g : grid) : finiteJson (gridJson g).
Proof.
  apply finiteJson_array, Forall_fmap, Forall_true. intros row.
  apply finiteJson_array, Forall_fmap, Forall_true. by intros [].
Qed.

Lemma matrixJson_finite (m : list (list Q)) : finiteJson (matrixJson m).
Proof.
  apply finiteJson_array, Forall_fmap, Forall_true. intros row.
  by apply finiteJson_array, Forall_fmap, Forall_true.
Qed.

Lemma resultMembers_finite r :
  finiteResults r -> Forall (fun m => finiteJson m.2) (resultMembers r).
Proof.
  intros (Hm & He & Hc & Ht & Hp & Hl). unfold resultMembers.
  repeat (apply Forall_cons; split); try done.
  - apply finiteJson_array, Forall_fmap. eapply Forall_impl; [exact Hp|].
    by intros [d c] Hfin.
  - apply matrixJson_finite.
Qed.

Lemma resultMembers_finite_inv r :
  Forall (fun m => finiteJson m.2) (resultMembers r) -> finiteResults r.
Proof.
  unfold resultMembers. rewrite !Forall_cons. cbn [snd].
  intros (Hm & He & Hc & Ht & Hp & Hl & _). repeat split; try done.
  apply finiteJson_array in Hp. rewrite Forall_fmap in Hp.
  eapply Forall_impl; [exact Hp|].
  intros [d c] Hfin. apply Hfin.
Qed.

Lemma decodeData_returns (g : grid) (temperature magneticField interactionStrength : Q)
    (top nested : results) :
  decodeData (dataObject g temperature magneticField interactionStrength top nested)
  = Some (g, temperature, magneticField, interactionStrength, top, nested).
Proof.
  unfold decodeData, dataObject. cbn [app].
  rewrite !decodeResults_skip by solve_element. rewrite decodeResults_members.
  set (inner := JObject (resultMembers nested)).
  unfold resultMembers. cbn [app]. find_member. subst inner.
  cbn [mbind option_bind decodeFinite].
  by rewrite decodeGrid_gridJson, decodeResults_resultMembers.
Qed.

Lemma dataObject_finiteJson (g : grid) (temperature magneticField interactionStrength : Q)
    (top nested : results) :
  finiteResults top -> finiteResults nested ->
  finiteJson (dataObject g temperature magneticField interactionStrength top nested).
Proof.
  intros Htop Hnested. apply finiteJson_object. rewrite !Forall_app.
  split; [|split; [by apply resultMembers_finite|]].
  - repeat (apply Forall_cons; split); try done. apply gridJson_finite.
  - apply Forall_singleton. by apply finiteJson_object, resultMembers_finite.
Qed.

(** ** Theorems *)

(** C23: the object that [exportData] builds determines what it was built
    from: the grid, the three parameters and both copies of the results are
    read back from its members, each under its own key, so two states with
    the same object agree on all of them. *)
Theorem decodeData_dataObject (g g' : grid) (T h J T' h' J' : Q)
    (top nested top' nested' : results) :
  decodeData (dataObject g T h J top nested) = Some (g, T, h, J, top, nested) /\
  (dataObject g T h J top nested = dataObject g' T' h' J' top' nested' ->
   (g, T, h, J, top, nested) = (g', T', h', J', top', nested')).
Proof.
  split; [apply decodeData_returns|]. intros Heq.
  pose proof (decodeData_returns g T h J top nested) as E.
  rewrite Heq, decodeData_returns in E. by injection E as <- <- <- <- <- <-.
Qed.

(** Every number of the exported object is finite, so that the text
    holds the value of each of them and [null] nowhere, exactly when both
    copies of the results are finite. *)
Theorem dataObject_finite (g : grid) (T h J : Q) (top nested : results) :
  finiteJson (dataObject g T h J top nested) <->
  finiteResults top /\ finiteResults nested.
Proof.
  split; [|intros [Htop Hnested]; by apply dataObject_finiteJson].
  intros Hfin. apply finiteJson_object in Hfin. rewrite !Forall_app in Hfin.
  destruct Hfin as (_ & Htop & Hnested). rewrite Forall_singleton in Hnested.
  split; apply resultMembers_finite_inv; [done|]. by apply finiteJson_object.
Qed.

(** ** Witnesses *)

Section witnesses.
#[local] Existing Instance source_params.
#[local] Existing Instance source_browser.

(** Results as they are at the first tick on the uniform grid, without the
    table of the structure factor. *)
Definition sampleResults : results :=
  Results (Fin 1) (Fin (-2)) (Fin 1) (Fin 0) [(1, Fin 1); (2, Fin 1)] (Fin 0) [].

Lemma sampleResults_finite : finiteResults sampleResults.
Proof. unfold finiteResults, sampleResults. cbn. by repeat constructor. Defined.

Lemma dataObject_finite_witness :
  finiteJson (dataObject initialSpins 50 0 1 sampleResults sampleResults).
Proof. apply dataObject_finite; split; apply sampleResults_finite. Defined.

(** The text of a small object, with an apostrophe for the quote and a bar
    for the end of a line: members and elements one per line, indented by
    two spaces per level; an empty array on one line; [NaN] as [null]. *)
Example stringify_sample :
  stringify
    (JObject [ ("spins", JArray [JArray [JString "up"; JString "down"]]);
               ("temperature", JNumber (Fin 50));
               ("energy", JNumber NaN);
               ("pairCorrelation", JArray []) ]) 2
  = replaceAll "|" newline (replaceAll "'" (String quoteChar "")
      "{|  'spins': [|    [|      'up',|      'down'|    ]|  ],|  'temperature': 50,|  'energy': null,|  'pairCorrelation': []|}").
Proof. by vm_compute. Qed.

(** Without a gap the text is on one line. *)
Example stringify_compact :
  stringify (JObject [("distance", JNumber (Fin 1)); ("correlation", JNumber (Fin (1 # 2)))]) 0
  = replaceAll "'" (String quoteChar "") "{'distance':1,'correlation':0.5}".
Proof. by vm_compute. Qed.

End witnesses.
