(* ===== verification/Core.v ===== *)
(** * The simulation core of the specification, and the update engines

    The specification describes the program as a core with two mutation
    entry points, [step(algorithm, params)] and [toggle(i, j)], over a lattice
    and a history, and leaves the random numbers to an injected source.  This
    file states that contract without the random numbers:

    - [metropolisSpec] and [wolffSpec] relate the lattice before an update to
      the lattices the update may produce: at most 100 single flips of sites
      of the grid, and the flip of one duplicate-free cluster grown from a
      seed through neighbours that hold the seed's spin;
    - [UpdateEngine] is the interface between an update and its caller: a
      function on the grid and the cursor of the random stream, the relation
      it refines, and the two laws the caller relies on.  The instances are
      [runMetropolisHastings], [runWolffCluster] and the update that does
      nothing;
    - [coreStep] is the transition relation of the core, labelled by the
      entry point that is called ([action]): [Step u] runs the update [u]
      and pushes the new lattice on the history, [Toggle i j] flips the site
      [(i, j)]; a transition without label leaves the core as it is.

    The file [Simulation] proves that the page refines [coreStep] label by
    label: a click on a cell is the toggle of that cell, a tick is a step of
    the algorithm that is selected, every other event is silent. *)

From Stdlib Require Import ZArith QArith Lia.
From stdpp Require Import base tactics option list list_numbers.
From S2P Require Import Prelude Numeric Lattice Energy Metropolis Wolff History.

#[local] Open Scope Z_scope.

(** ** Specifications of the updates *)

Section specifications.
Context `{Params}.

(** At most 100 flips of sites of the grid, one after the other. *)
Definition metropolisSpec (g g' : grid) : Prop :=
  exists sites : list site,
    (length sites <= 100)%nat /\
    Forall (fun s => in_grid s.1 s.2) sites /\
    g' = flipAll g sites.

(** The flip of one cluster: a list of sites without duplicates, grown from
    a seed through neighbours, all holding the spin of the seed. *)
Definition wolffSpec (g g' : grid) : Prop :=
  exists (seed : site) (cl : list site),
    NoDup cl /\ grownFrom seed cl /\
    Forall (siteOk g (cellAt g seed.1 seed.2)) cl /\
    g' = flipAll g cl.

(** The algorithms a step can name; any other name selects no update. *)
Inductive update : Type :=
| UseMetropolis
| UseWolff
| UseNone.

Definition updateSpec (u : update) : grid -> grid -> Prop :=
  match u with
  | UseMetropolis => metropolisSpec
  | UseWolff => wolffSpec
  | UseNone => eq
  end.

(** ** The core *)

Record core : Type := Core {
  lattice : grid;
  history : list grid;
}.

(** The mutation entry points of the core: [step(algorithm, params)] and
    [toggle(i, j)]. *)
Inductive action : Type :=
| Step (u : update)
| Toggle (i j : Z).

(** The transitions of the core; the label [None] marks a transition in
    which no entry point is called. *)
Inductive coreStep : core -> option action -> core -> Prop :=
| core_step u c g' :
    updateSpec u (lattice c) g' ->
    coreStep c (Some (Step u)) (Core g' (pushHistory (history c) g'))
| core_toggle c i j :
    in_grid i j ->
    coreStep c (Some (Toggle i j)) (Core (flipAt (lattice c) (i, j)) (history c))
| core_silent c :
    coreStep c None c.

Definition wf_core (c : core) : Prop :=
  wf_grid (lattice c) /\ wf_history (history c).

End specifications.

(** ** The interface of an update *)

Class UpdateEngine `{Params, RandomSource, ExpModel} : Type := {
  engineRun : Q -> Q -> Q -> grid * nat -> res (grid * nat);
  engineSpec : grid -> grid -> Prop;
  engine_refines kT J h g k :
    wf_grid g ->
    exists g' k', engineRun kT J h (g, k) = Ok (g', k') /\
      engineSpec g g' /\ (k <= k')%nat;
  engineSpec_wf g g' : wf_grid g -> engineSpec g g' -> wf_grid g';
}.

(** ** What a caller gets from the interface *)

Section clients.
Context `{UpdateEngine}.

(** An update never throws on a well-formed grid, returns a well-formed
    grid, and only advances the random stream. *)
Lemma engine_safe kT J h g k :
  wf_grid g ->
  exists g' k', engineRun kT J h (g, k) = Ok (g', k') /\
    wf_grid g' /\ (k <= k')%nat.
Proof.
  intros Hwf. destruct (engine_refines kT J h g k Hwf) as (g' & k' & E & Hs & Hk).
  exists g', k'. split; [done|]. split; [by eapply engineSpec_wf | done].
Qed.

End clients.

(** ** The updates of the script implement the interface *)

Section engines.
Context `{Params, RandomSource, ExpModel}.

Lemma flipAll_snoc g l s : flipAll g (l ++ [s]) = flipAt (flipAll g l) s.
Proof. unfold flipAll. by rewrite foldl_app. Qed.

Lemma metropolisSpec_wf g g' : wf_grid g -> metropolisSpec g g' -> wf_grid g'.
Proof. intros Hwf (sites & _ & _ & ->). by apply flipAll_wf. Qed.

Lemma wolffSpec_wf g g' : wf_grid g -> wolffSpec g g' -> wf_grid g'.
Proof. intros Hwf (seed & cl & _ & _ & _ & ->). by apply flipAll_wf. Qed.

Lemma updateSpec_wf u g g' : wf_grid g -> updateSpec u g g' -> wf_grid g'.
Proof.
  destruct u; simpl; [apply metropolisSpec_wf | apply wolffSpec_wf | by intros ? <-].
Qed.

(** [n] trials flip at most [n] sites, one after the other. *)
Lemma trials_flips (n : nat) g k J h beta :
  wf_grid g ->
  exists g' k' sites,
    iterM n (metropolisTrial J h beta) (g, k) = Ok (g', k') /\
    (k <= k')%nat /\ (length sites <= n)%nat /\
    Forall (fun s => in_grid s.1 s.2) sites /\ g' = flipAll g sites.
Proof.
  intros Hwf.
  destruct (iterM_invariant
    (fun m st => (k <= st.2)%nat /\ exists sites,
       (length sites <= m)%nat /\ Forall (fun s => in_grid s.1 s.2) sites /\
       st.1 = flipAll g sites)
    (metropolisTrial J h beta) n (g, k))
    as ([g' k'] & Hrun & Hk & sites & Hlen & Hin & Hg).
  - split; [done|]. by exists [].
  - intros m [g0 k0] _ (Hk0 & sites & Hlen & Hin & Hg). cbn [fst snd] in *.
    subst g0. rewrite metropolisTrial_returns by by apply flipAll_wf.
    eexists. split; [done|]. cbn [fst snd]. split; [case_decide; lia|].
    destruct (trialFlips _ _ _ _ _).
    + exists (sites ++ [trialSite k0]). rewrite length_app, flipAll_snoc. simpl.
      split; [lia|]. split; [|done].
      apply Forall_app. split; [done|]. apply Forall_singleton, trialSite_in_grid.
    + exists sites. split; [lia | done].
  - by exists g', k', sites.
Qed.

Lemma runMetropolisHastings_refines kT J h g k :
  wf_grid g ->
  exists g' k', runMetropolisHastings kT J h (g, k) = Ok (g', k') /\
    metropolisSpec g g' /\ (k <= k')%nat.
Proof.
  intros Hwf.
  destruct (trials_flips 100 g k J h (inverseTemperature kT) Hwf)
    as (g' & k' & sites & E & Hk & Hlen & Hin & Hg).
  exists g', k'. split; [done|]. split; [by exists sites | done].
Qed.

Lemma runWolffCluster_refines kT J h g k :
  wf_grid g ->
  exists g' k', runWolffCluster kT J h (g, k) = Ok (g', k') /\
    wolffSpec g g' /\ (k <= k')%nat.
Proof.
  intros Hwf.
  destruct (runWolffCluster_returns g k kT J h Hwf) as (st & Eg & Hinv & _ & E).
  destruct (growCluster_returns kT J g k Hwf) as (st' & Eg' & _ & _ & Hgrown).
  assert (st' = st) as -> by congruence.
  destruct Hinv as [Hnd Hcl _ _ Hk].
  exists (flipAll g (cluster st)), (draws st). split; [done|].
  split; [by exists (seedSite k), (cluster st) | lia].
Qed.

#[export] Instance metropolis_engine : UpdateEngine := {|
  engineRun := runMetropolisHastings;
  engineSpec := metropolisSpec;
  engine_refines := runMetropolisHastings_refines;
  engineSpec_wf := metropolisSpec_wf;
|}.

#[export] Instance wolff_engine : UpdateEngine := {|
  engineRun := runWolffCluster;
  engineSpec := wolffSpec;
  engine_refines := runWolffCluster_refines;
  engineSpec_wf := wolffSpec_wf;
|}.

Lemma idle_refines (kT J h : Q) (g : grid) (k : nat) :
  wf_grid g ->
  exists g' k', Ok (g, k) = Ok (g', k') /\ g = g' /\ (k <= k')%nat.
Proof. intros _. by exists g, k. Qed.

Lemma idle_wf (g g' : grid) : wf_grid g -> g = g' -> wf_grid g'.
Proof. by intros ? <-. Qed.

(** No update: what [runSimulation] does for any other [algorithm]. *)
#[export] Instance idle_engine : UpdateEngine := {|
  engineRun := fun _ _ _ st => Ok st;
  engineSpec := eq;
  engine_refines := idle_refines;
  engineSpec_wf := idle_wf;
|}.

Definition engineOf (u : update) : UpdateEngine :=
  match u with
  | UseMetropolis => metropolis_engine
  | UseWolff => wolff_engine
  | UseNone => idle_engine
  end.

Lemma engineOf_spec u : @engineSpec _ _ _ (engineOf u) = updateSpec u.
Proof. by destruct u. Qed.

(** C8: whatever the random stream, the temperature, the coupling and the
    field, each update of the script, run on a well-formed grid, returns, and
    the grid it returns is one its specification allows: at most 100 single
    flips for Metropolis-Hastings, the flip of one connected cluster of the
    seed's spin for Wolff, the same grid when no algorithm is selected. *)
Theorem updates_refine_specification u kT J h g k :
  wf_grid g ->
  exists g' k',
    @engineRun _ _ _ (engineOf u) kT J h (g, k) = Ok (g', k') /\
    updateSpec u g g' /\ wf_grid g' /\ (k <= k')%nat.
Proof.
  intros Hwf.
  destruct (@engine_refines _ _ _ (engineOf u) kT J h g k Hwf)
    as (g' & k' & E & Hs & Hk).
  exists g', k'. split; [done|]. rewrite <- engineOf_spec.
  split; [done|]. split; [exact (engineSpec_wf _ _ Hwf Hs) | done].
Qed.

(** ** The core keeps its state well formed *)

Lemma coreStep_wf c a c' :
  0 <= historySize -> wf_core c -> coreStep c a c' -> wf_core c'.
Proof.
  intros Hcap [Hg Hh] Hstep.
  destruct Hstep as [u c g' Hspec | c i j Hin | c]; split; cbn [lattice history];
    try done.
  - exact (updateSpec_wf u _ _ Hg Hspec).
  - apply pushHistory_wf; [done..|]. exact (updateSpec_wf u _ _ Hg Hspec).
  - by apply flipAt_wf.
Qed.

(** What a transition with a given label does: the label determines the
    entry point, its arguments, and the state it leaves. *)
Lemma coreStep_label c a c' :
  coreStep c a c' <->
  match a with
  | Some (Step u) =>
      exists g', updateSpec u (lattice c) g' /\
        c' = Core g' (pushHistory (history c) g')
  | Some (Toggle i j) =>
      in_grid i j /\ c' = Core (flipAt (lattice c) (i, j)) (history c)
  | None => c' = c
  end.
Proof.
  split.
  - intros [u c0 g' Hs | c0 i j Hin | c0]; [by exists g' | done | done].
  - destruct a as [[u | i j]|].
    + intros (g' & Hs & ->). by constructor.
    + intros [Hin ->]. by constructor.
    + intros ->. constructor.
Qed.

End engines.

(** ** The theorem at the script's parameters *)

Section witnesses.
#[local] Existing Instance source_params.
#[local] Instance core_stream : RandomSource := lcg_random 11.

Lemma updates_refine_specification_witness :
  exists g' k',
    runWolffCluster 50 1 0 (initialSpins, 0%nat) = Ok (g', k') /\
    wolffSpec initialSpins g' /\ wf_grid g' /\ (0 <= k')%nat.
Proof.
  apply (updates_refine_specification UseWolff 50 1 0 initialSpins 0).
  apply initialSpins_wf.
Defined.

End witnesses.
