(* ===== verification/Simulation.v ===== *)
(** * The simulation as a whole: the global state, the handlers, the timer

    The script keeps its state in global variables and changes it from event
    handlers: the click on a cell ([toggleSpin]), the three sliders, the
    algorithm selector, the start, stop and export buttons, the resize of the
    window, and the interval timer that calls [runSimulation] every 100 ms.
    Here the globals are the fields of [simState], each handler is a function
    on it, and the page is a step relation whose labels are the events of the
    browser.

    Besides the globals the state holds what the script reaches through the
    browser: the number of [Math.random()] draws made so far ([cursor]), the
    interval timers that are active ([timers]) with the identifier that
    [setInterval] returns next ([nextTimer], never 0), and the document
    ([page], see [Page]).

    [loadScript] is the run of the statements at the top level; the state it
    leaves is [initialState].  An event can happen when the browser has a
    listener for it: a click on a cell runs the listener of that cell, an
    event of a control runs the callback registered for it, a timer fires
    while it is active.  A handler that throws leaves no next state; the
    theorems show that in a reachable state no handler throws.

    The sliders deliver finite numbers, so [temperature], [magneticField] and
    [interactionStrength] are rationals.  A resize carries the width that the
    layout has given to the grid.

    The page is compared with the core of the specification ([Core]) through
    [abstraction], which keeps the lattice and the history, and [labelOf],
    which names the entry point of the core that an event calls: the toggle
    of the clicked cell, the step of the algorithm that [algorithm] names, or
    none.  [steps] relates a state to the states that a sequence of events
    leads to. *)

From Stdlib Require Import ZArith QArith Lia Lqa.
From stdpp Require Import base tactics option list list_numbers strings gmap.
From S2P Require Import Prelude Numeric Lattice Energy Metropolis Wolff.
From S2P Require Import History Observables StructureFactor Text Page Export Core.

#[local] Open Scope string_scope.
#[local] Open Scope list_scope.
#[local] Open Scope Z_scope.

(** ** State *)

Record simState : Type := SimState {
  spins : grid;
  temperature : Q;
  magneticField : Q;
  interactionStrength : Q;
  simulationInterval : option nat;
  algorithm : string;
  spinHistory : list grid;
  cursor : nat;
  timers : list nat;
  nextTimer : nat;
  page : document;
}.

(** The events of the page. *)
Inductive event : Type :=
| CellClick (row col : Z)
| TemperatureInput (value : Q)
| MagneticFieldInput (value : Q)
| InteractionStrengthInput (value : Q)
| AlgorithmChange (value : string)
| StartClick
| StopClick
| ExportClick
| Resize (width : Z)
| TimerFires (id : nat).

(** ** Assignments to the globals *)

Definition set_spins (st : simState) (g : grid) : simState :=
  SimState g (temperature st) (magneticField st) (interactionStrength st)
    (simulationInterval st) (algorithm st) (spinHistory st) (cursor st)
    (timers st) (nextTimer st) (page st).

Definition set_temperature (st : simState) (v : Q) : simState :=
  SimState (spins st) v (magneticField st) (interactionStrength st)
    (simulationInterval st) (algorithm st) (spinHistory st) (cursor st)
    (timers st) (nextTimer st) (page st).

Definition set_magneticField (st : simState) (v : Q) : simState :=
  SimState (spins st) (temperature st) v (interactionStrength st)
    (simulationInterval st) (algorithm st) (spinHistory st) (cursor st)
    (timers st) (nextTimer st) (page st).

Definition set_interactionStrength (st : simState) (v : Q) : simState :=
  SimState (spins st) (temperature st) (magneticField st) v
    (simulationInterval st) (algorithm st) (spinHistory st) (cursor st)
    (timers st) (nextTimer st) (page st).

Definition set_algorithm (st : simState) (a : string) : simState :=
  SimState (spins st) (temperature st) (magneticField st) (interactionStrength st)
    (simulationInterval st) a (spinHistory st) (cursor st)
    (timers st) (nextTimer st) (page st).

Definition set_spinHistory (st : simState) (h : list grid) : simState :=
  SimState (spins st) (temperature st) (magneticField st) (interactionStrength st)
    (simulationInterval st) (algorithm st) h (cursor st)
    (timers st) (nextTimer st) (page st).

Definition set_cursor (st : simState) (k : nat) : simState :=
  SimState (spins st) (temperature st) (magneticField st) (interactionStrength st)
    (simulationInterval st) (algorithm st) (spinHistory st) k
    (timers st) (nextTimer st) (page st).

Definition set_page (st : simState) (d : document) : simState :=
  SimState (spins st) (temperature st) (magneticField st) (interactionStrength st)
    (simulationInterval st) (algorithm st) (spinHistory st) (cursor st)
    (timers st) (nextTimer st) d.

(** ** The timer of the browser *)

(** [if (simulationInterval)]: [undefined] and 0 are falsy. *)
Definition truthy (v : option nat) : bool :=
  match v with
  | Some id => negb (Nat.eqb id 0)
  | None => false
  end.

(** [clearInterval(id)]: the timer [id] stops; an identifier that names no
    active timer is ignored. *)
Definition clearInterval (st : simState) (v : option nat) : simState :=
  SimState (spins st) (temperature st) (magneticField st) (interactionStrength st)
    (simulationInterval st) (algorithm st) (spinHistory st) (cursor st)
    (filter (fun id => Some id <> v) (timers st)) (nextTimer st) (page st).

(** [simulationInterval = setInterval(runSimulation, 100)] *)
Definition setInterval (st : simState) : simState :=
  SimState (spins st) (temperature st) (magneticField st) (interactionStrength st)
    (Some (nextTimer st)) (algorithm st) (spinHistory st) (cursor st)
    (timers st ++ [nextTimer st]) (Datatypes.S (nextTimer st)) (page st).

Definition startSimulation (st : simState) : simState :=
  let st := if truthy (simulationInterval st)
            then clearInterval st (simulationInterval st) else st in
  setInterval st.

Definition stopSimulation (st : simState) : simState :=
  if truthy (simulationInterval st)
  then clearInterval st (simulationInterval st) else st.

(** The browser has the listener [c] for events of the type [type] at the
    target [target]. *)
Definition registered (target : option string) (type : string) (c : callback)
    (st : simState) : Prop :=
  Listener target type c ∈ listeners (page st).

Section simulation.
Context `{Params, RandomSource, ExpModel, TrigModel, Browser}.

(** [let spins = ...; let temperature = 50; ...], in the document as the
    browser has parsed it. *)
Definition globals : simState := {|
  spins := initialSpins;
  temperature := 50;
  magneticField := 0;
  interactionStrength := 1;
  simulationInterval := None;
  algorithm := "metropolis";
  spinHistory := [];
  cursor := 0;
  timers := [];
  nextTimer := 1;
  page := loadedDocument;
|}.

(** The run of the script: the declarations, then the statements at the top
    level. *)
Definition loadScript : res simState :=
  let st := globals in
  d ← loadPage (spins st) (page st);
  Ok (set_page st d).

(** The state after the script has run. *)
Definition initialState : simState :=
  set_page globals (loadedPage initialSpins loadedDocument).

(** ** The handlers *)

(** The seven calls with which [updateResults] and [exportData] begin. *)
Definition computeResults (st : simState) : res results :=
  let magnetization := calculateMagnetization (spins st) in
  energy ← calculateEnergy (spins st) (interactionStrength st) (magneticField st);
  correlation ← calculateCorrelation (spins st);
  twoPointCorrelation ← calculateTwoPointCorrelation (spinHistory st) (spins st) 1;
  pairCorrelation ← calculatePairCorrelation (spins st);
  temporalCorrelation ← calculateTemporalCorrelation (spinHistory st) (spins st) 10;
  structureFactor ← calculateStructureFactor (spins st);
  Ok (Results magnetization energy correlation twoPointCorrelation
        pairCorrelation temporalCorrelation structureFactor).

(** [updateResults()]: the results are computed and written to the page. *)
Definition updateResults (st : simState) : res simState :=
  r ← computeResults st;
  d ← showResults r (page st);
  Ok (set_page st d).

(** The update that the selector chose; any other value of [algorithm]
    selects none. *)
Definition runAlgorithm (st : simState) : res (grid * nat) :=
  if decide (algorithm st = "metropolis") then
    runMetropolisHastings (temperature st) (interactionStrength st)
      (magneticField st) (spins st, cursor st)
  else if decide (algorithm st = "wolff") then
    runWolffCluster (temperature st) (interactionStrength st)
      (magneticField st) (spins st, cursor st)
  else Ok (spins st, cursor st).

Definition runSimulation (st : simState) : res simState :=
  gk ← runAlgorithm st;
  let st := set_cursor (set_spins st gk.1) gk.2 in
  let st := set_spinHistory st (pushHistory (spinHistory st) (spins st)) in
  d ← updateGrid (spins st) (page st);
  updateResults (set_page st d).

(** The click listener of the cell [(row, col)]: [toggleSpin(row, col)],
    the flip and the call of [updateGrid]. *)
Definition cellClick (st : simState) (row col : Z) : res simState :=
  g ← toggleSpin (spins st) row col;
  let st := set_spins st g in
  d ← updateGrid (spins st) (page st);
  Ok (set_page st d).

(** The listeners of the three sliders. *)
Definition temperatureInput (st : simState) (value : Q) : res simState :=
  let st := set_temperature st value in
  d ← showValue "temperatureValue" (temperature st) (page st);
  Ok (set_page st d).

Definition magneticFieldInput (st : simState) (value : Q) : res simState :=
  let st := set_magneticField st value in
  d ← showValue "magneticFieldValue" (magneticField st) (page st);
  Ok (set_page st d).

Definition interactionStrengthInput (st : simState) (value : Q) : res simState :=
  let st := set_interactionStrength st value in
  d ← showValue "interactionStrengthValue" (interactionStrength st) (page st);
  Ok (set_page st d).

(** [exportData()]: the fourteen calls of the object literal, the text, and
    the download. *)
Definition exportData (st : simState) : res simState :=
  top ← computeResults st;
  nested ← computeResults st;
  let data := dataObject (spins st) (temperature st) (magneticField st)
                (interactionStrength st) top nested in
  let jsonData := stringify data 2 in
  Ok (set_page st
        (offerDownload "simulation_data.json" "application/json" jsonData (page st))).

(** The listener of the resize of the window: [adjustGridSize], when the
    layout has given the grid the width [width]. *)
Definition resize (st : simState) (width : Z) : res simState :=
  d ← adjustGridSize (set_clientWidth (page st) width);
  Ok (set_page st d).

(** The handler that the browser runs for an event. *)
Definition handle (e : event) (st : simState) : res simState :=
  match e with
  | CellClick row col => cellClick st row col
  | TemperatureInput v => temperatureInput st v
  | MagneticFieldInput v => magneticFieldInput st v
  | InteractionStrengthInput v => interactionStrengthInput st v
  | AlgorithmChange a => Ok (set_algorithm st a)
  | StartClick => Ok (startSimulation st)
  | StopClick => Ok (stopSimulation st)
  | ExportClick => exportData st
  | Resize width => resize st width
  | TimerFires _ => runSimulation st
  end.

(** ** The page as a transition system *)

(** The events that can happen in a state: a click lands on a cell that has
    a listener, a control has the listener that the script registers for it,
    and only an active timer fires. *)
Definition enabled (e : event) (st : simState) : Prop :=
  match e with
  | CellClick row col => (row, col) ∈ clickListener <$> cells (page st)
  | TemperatureInput _ => registered (Some "temperature") "input" OnTemperature st
  | MagneticFieldInput _ =>
      registered (Some "magneticField") "input" OnMagneticField st
  | InteractionStrengthInput _ =>
      registered (Some "interactionStrength") "input" OnInteractionStrength st
  | AlgorithmChange _ => registered (Some "algorithm") "change" OnAlgorithm st
  | StartClick => registered (Some "startButton") "click" OnStart st
  | StopClick => registered (Some "stopButton") "click" OnStop st
  | ExportClick => registered (Some "exportButton") "click" OnExport st
  | Resize width => 0 <= width /\ registered None "resize" OnResize st
  | TimerFires id => id ∈ timers st
  end.

#[export] Instance enabled_dec (e : event) (st : simState) : Decision (enabled e st).
Proof. destruct e; unfold enabled, registered; apply _. Defined.

Inductive step : simState -> event -> simState -> Prop :=
| step_handle st e st' :
    enabled e st -> handle e st = Ok st' -> step st e st'.

Inductive reachable : simState -> Prop :=
| reachable_initial : reachable initialState
| reachable_step st e st' : reachable st -> step st e st' -> reachable st'.

(** Several steps of the page, with the events they handle in order. *)
Inductive steps : simState -> list event -> simState -> Prop :=
| steps_nil st : steps st [] st
| steps_cons st e st' es st'' :
    step st e st' -> steps st' es st'' -> steps st (e :: es) st''.

(** The handlers run one after the other for a list of events. *)
Definition runEvents (es : list event) (st : simState) : res simState :=
  foldlM handle es st.

(** ** Invariant *)

(** The grid and the history are well formed, at most one timer is active,
    and it is the one [simulationInterval] names; the page shows the grid. *)
Record simInv (st : simState) : Prop := {
  inv_grid : wf_grid (spins st);
  inv_history : wf_history (spinHistory st);
  inv_timers :
    timers st = [] \/
    exists id, timers st = [id] /\ simulationInterval st = Some id /\ id <> O;
  inv_next : nextTimer st <> O;
  inv_page : wf_page (spins st) (page st);
}.

(** ** The page and the core of the specification *)

(** The update that a value of [algorithm] names. *)
Definition selectedUpdate (a : string) : update :=
  if decide (a = "metropolis") then UseMetropolis
  else if decide (a = "wolff") then UseWolff
  else UseNone.

(** The state of the core that a state of the page represents. *)
Definition abstraction (st : simState) : core :=
  Core (spins st) (spinHistory st).

(** The entry point of the core that an event of the page calls: a click on
    a cell toggles that cell, a tick steps the algorithm that [algorithm]
    names, and no other event reaches the core. *)
Definition labelOf (st : simState) (e : event) : option action :=
  match e with
  | CellClick row col => Some (Toggle row col)
  | TimerFires _ => Some (Step (selectedUpdate (algorithm st)))
  | _ => None
  end.

(** The state in which [runSimulation] calls [updateGrid]. *)
Definition afterUpdate (st : simState) (g : grid) (k : nat) : simState :=
  set_spinHistory (set_cursor (set_spins st g) k) (pushHistory (spinHistory st) g).

(** The document with the cells that show [g]. *)
Definition redrawn (g : grid) (d : document) : document :=
  set_cells d (renderGrid g).

(** The document with the results [r] in their elements. *)
Definition shown (r : results) (d : document) : document :=
  set_contents d (shownContents r (contents d)).

(** The state that a tick leaves: the grid [g] that the update has
    returned with the cursor [k], pushed, drawn, and its results [r]
    shown. *)
Definition afterTick (st : simState) (g : grid) (k : nat) (r : results) : simState :=
  set_page (afterUpdate st g k) (shown r (redrawn g (page st))).

(** The state that a click on the cell of the site [s] leaves. *)
Definition afterClick (st : simState) (s : site) : simState :=
  set_page (set_spins st (flipAt (spins st) s))
    (redrawn (flipAt (spins st) s) (page st)).

(** The state that a click on the export button leaves, when the results
    are [r]. *)
Definition afterExport (st : simState) (r : results) : simState :=
  set_page st
    (offerDownload "simulation_data.json" "application/json"
       (stringify (dataObject (spins st) (temperature st) (magneticField st)
                     (interactionStrength st) r r) 2)
       (page st)).

(** The state with the text [text] in the element [id]. *)
Definition withText (st : simState) (id text : string) : simState :=
  set_page st (set_contents (page st) (<[id := text]> (contents (page st)))).

(** ** The timer *)

Lemma truthy_Some id : id <> O -> truthy (Some id) = true.
Proof. by destruct id. Qed.

Lemma clearInterval_active st id :
  timers st = [id] -> timers (clearInterval st (Some id)) = [].
Proof.
  intros E. unfold clearInterval. cbn [timers]. rewrite E.
  rewrite filter_cons, decide_False by (intros Hne; by apply Hne). done.
Qed.

Lemma clearInterval_idle st v :
  timers st = [] -> timers (clearInterval st v) = [].
Proof. intros E. unfold clearInterval. cbn [timers]. by rewrite E. Qed.

Lemma stopSimulation_timers st : simInv st -> timers (stopSimulation st) = [].
Proof.
  intros [_ _ [E | (id & E & Hid & Hne)] _ _]; unfold stopSimulation.
  - destruct (truthy _); [by apply clearInterval_idle | done].
  - rewrite Hid, truthy_Some by done. by apply clearInterval_active.
Qed.

Lemma startSimulation_timers st :
  simInv st ->
  timers (startSimulation st) = [nextTimer st] /\
  simulationInterval (startSimulation st) = Some (nextTimer st) /\
  nextTimer (startSimulation st) = Datatypes.S (nextTimer st).
Proof.
  intros Hinv. pose proof (stopSimulation_timers st Hinv) as E.
  unfold startSimulation, stopSimulation, setInterval in *. cbn [timers simulationInterval nextTimer].
  destruct (truthy _); by rewrite E.
Qed.

Lemma startSimulation_data st :
  spins (startSimulation st) = spins st /\
  spinHistory (startSimulation st) = spinHistory st /\
  cursor (startSimulation st) = cursor st /\
  page (startSimulation st) = page st.
Proof. unfold startSimulation. by destruct (truthy _). Qed.

Lemma stopSimulation_data st :
  spins (stopSimulation st) = spins st /\
  spinHistory (stopSimulation st) = spinHistory st /\
  simulationInterval (stopSimulation st) = simulationInterval st /\
  nextTimer (stopSimulation st) = nextTimer st /\
  page (stopSimulation st) = page st.
Proof. unfold stopSimulation. by destruct (truthy _). Qed.

(** ** The script loads *)

Lemma loadScript_returns : loadScript = Ok initialState.
Proof.
  unfold loadScript. cbv zeta. cbn [spins page globals].
  rewrite loadPage_returns;
    [done | apply initialSpins_wf | apply loadedDocument_elements
    | apply loadedDocument_listeners].
Qed.

(** ** The results *)

Lemma is_finite_equiv (a : num) (q : Q) : a ≡ Fin q -> is_finite a.
Proof. by destruct a. Qed.

(** A mean over the sites changes when one spin changes its sign. *)
Lemma toggle_changes_mean (s : Z) (m m' : Q) :
  s = 1 \/ s = -1 ->
  (m' == m - 2 * inject_Z s / inject_Z (gridSize * gridSize))%Q ->
  ~ (m' == m)%Q.
Proof.
  intros Hs Hm Heq. pose proof gridSize_pos as Hpos.
  assert (~ inject_Z (gridSize * gridSize) == 0)%Q as Hn
    by (unfold Qeq; simpl; nia).
  rewrite Heq in Hm.
  assert (2 * inject_Z s / inject_Z (gridSize * gridSize) == 0)%Q as Hz
    by (set (x := (2 * inject_Z s / inject_Z (gridSize * gridSize))%Q) in *; lra).
  apply (Qmult_inj_r _ _ (inject_Z (gridSize * gridSize)) Hn) in Hz.
  rewrite Qmult_0_l in Hz. unfold Qdiv in Hz.
  rewrite <- Qmult_assoc, (Qmult_comm (/ _)), Qmult_inv_r, Qmult_1_r in Hz by done.
  destruct Hs as [-> | ->]; by vm_compute in Hz.
Qed.

(** On a well-formed grid with a well-formed history the seven functions
    return, and what they return has the shape of results. *)
Lemma computeResults_wf st :
  wf_grid (spins st) -> Forall wf_grid (spinHistory st) ->
  exists r, computeResults st = Ok r /\ wf_results r.
Proof.
  intros Hwf Hhist. unfold computeResults. cbv zeta.
  rewrite calculateMagnetization_totalSpin by done.
  destruct (calculateEnergy_returns (spins st) (interactionStrength st)
              (magneticField st) Hwf) as (e & -> & He).
  rewrite calculateCorrelation_returns by done.
  destruct (calculateTwoPointCorrelation_finite (spinHistory st) (spins st) 1 Hwf
              ltac:(lia)) as (t & -> & Ht).
  rewrite calculatePairCorrelation_returns by done.
  destruct (calculateTemporalCorrelation_finite (spinHistory st) (spins st) 10 Hwf
              Hhist ltac:(lia)) as (c & -> & Hc).
  rewrite calculateStructureFactor_returns by done.
  eexists. split; [done|]. destruct (tabulate2_shape gridSize (entryValue (spins st))).
  split; cbn [pairCorrelation structureFactor]; try done.
  - unfold finiteResults.
    cbn [magnetization energy correlation twoPointCorrelation pairCorrelation
         temporalCorrelation].
    rewrite Forall_fmap.
    repeat split; try done; [by eapply is_finite_equiv | by apply Forall_true].
  - rewrite <- list_fmap_compose. apply list_fmap_id.
Qed.

Lemma computeResults_Ok st :
  wf_grid (spins st) -> Forall wf_grid (spinHistory st) ->
  is_Ok (computeResults st).
Proof.
  intros Hwf Hhist. destruct (computeResults_wf st Hwf Hhist) as (r & -> & _).
  apply is_Ok_Ok.
Qed.

(** What [updateResults] shows is what the seven functions return. *)
Lemma computeResults_inv st r :
  computeResults st = Ok r ->
  magnetization r = calculateMagnetization (spins st) /\
  calculateEnergy (spins st) (interactionStrength st) (magneticField st)
    = Ok (energy r) /\
  calculateCorrelation (spins st) = Ok (correlation r) /\
  calculateTwoPointCorrelation (spinHistory st) (spins st) 1
    = Ok (twoPointCorrelation r) /\
  calculatePairCorrelation (spins st) = Ok (pairCorrelation r) /\
  calculateTemporalCorrelation (spinHistory st) (spins st) 10
    = Ok (temporalCorrelation r) /\
  calculateStructureFactor (spins st) = Ok (structureFactor r).
Proof.
  unfold computeResults. cbv zeta. intros E.
  repeat (apply bind_Ok_inv in E as (? & ? & E)).
  injection E as <-. by cbn.
Qed.

Lemma updateResults_returns st r :
  computeResults st = Ok r -> hasElements (page st) ->
  updateResults st = Ok (set_page st (shown r (page st))).
Proof.
  intros Er Hd. unfold updateResults. rewrite Er. cbn [mbind res_bind].
  by rewrite showResults_returns.
Qed.

(** ** The update *)

(** The dispatch of [runSimulation] runs the engine that [algorithm]
    names. *)
Lemma runAlgorithm_engine st :
  runAlgorithm st
  = @engineRun _ _ _ (engineOf (selectedUpdate (algorithm st)))
      (temperature st) (interactionStrength st) (magneticField st)
      (spins st, cursor st).
Proof. unfold runAlgorithm, selectedUpdate. by repeat case_decide. Qed.

Lemma runAlgorithm_refines st :
  wf_grid (spins st) ->
  exists g k, runAlgorithm st = Ok (g, k) /\
    updateSpec (selectedUpdate (algorithm st)) (spins st) g /\ wf_grid g.
Proof.
  intros Hwf. rewrite runAlgorithm_engine.
  destruct (@engine_refines _ _ _ (engineOf (selectedUpdate (algorithm st)))
              (temperature st) (interactionStrength st) (magneticField st)
              (spins st) (cursor st) Hwf) as (g & k & E & Hs & _).
  exists g, k. split; [done|]. rewrite <- engineOf_spec.
  split; [done | exact (engineSpec_wf _ _ Hwf Hs)].
Qed.

Lemma runAlgorithm_wf st :
  wf_grid (spins st) ->
  exists g k, runAlgorithm st = Ok (g, k) /\ wf_grid g.
Proof.
  intros Hwf. destruct (runAlgorithm_refines st Hwf) as (g & k & E & _ & Hg).
  by exists g, k.
Qed.

(** ** Every handler keeps the invariant *)

Section invariant.
Context (Hcap : 0 <= historySize) (Hsize : gridSize <= maxIndex).

Lemma simInv_initial : simInv initialState.
Proof.
  split; cbn [spins spinHistory timers nextTimer page initialState set_page globals];
    [apply initialSpins_wf | | by left | done |].
  - split; [simpl; lia | constructor].
  - apply loadedPage_wf; [apply loadedDocument_elements | apply loadedDocument_width].
Qed.

(** A change of the page alone keeps the invariant when the new page shows
    the grid. *)
Lemma simInv_page st d :
  simInv st -> wf_page (spins st) d -> simInv (set_page st d).
Proof. intros [Hg Hh Ht Hn _] Hd. by split. Qed.

Lemma simInv_parameters st (v : Q) (a : string) :
  simInv st ->
  simInv (set_temperature st v) /\ simInv (set_magneticField st v) /\
  simInv (set_interactionStrength st v) /\ simInv (set_algorithm st a).
Proof. intros [Hg Hh Ht Hn Hp]. split_and!; by split. Qed.

Lemma startSimulation_simInv st : simInv st -> simInv (startSimulation st).
Proof.
  intros Hinv. destruct (startSimulation_timers st Hinv) as (Et & Ei & En).
  destruct (startSimulation_data st) as (Es & Eh & _ & Ep).
  destruct Hinv as [Hg Hh _ Hn Hp]. split; rewrite ?Es, ?Eh, ?En, ?Ep; try done.
  right. by exists (nextTimer st).
Qed.

Lemma stopSimulation_simInv st : simInv st -> simInv (stopSimulation st).
Proof.
  intros Hinv. pose proof (stopSimulation_timers st Hinv) as Et.
  destruct (stopSimulation_data st) as (Es & Eh & _ & En & Ep).
  destruct Hinv as [Hg Hh _ Hn Hp]. split; rewrite ?Es, ?Eh, ?En, ?Ep; try done.
  by left.
Qed.

(** The cells that have a listener are those of the sites of the grid. *)
Lemma enabled_cell st row col :
  simInv st -> enabled (CellClick row col) st <-> in_grid row col.
Proof.
  intros Hinv. cbn [enabled]. rewrite (page_cells _ _ (inv_page st Hinv)).
  rewrite renderGrid_listeners. apply (elem_of_allSites (row, col)).
Qed.

Lemma cellClick_simInv st row col :
  simInv st -> in_grid row col ->
  cellClick st row col = Ok (afterClick st (row, col)) /\
  simInv (afterClick st (row, col)).
Proof.
  intros [Hg Hh Ht Hn Hp] Hin. unfold cellClick, toggleSpin.
  pose proof (flipSpin_flipAt (spins st) (row, col) Hg Hin) as E.
  cbn [fst snd] in E. rewrite E. cbn [mbind res_bind]. cbv zeta.
  cbn [spins page set_spins].
  pose proof (flipAt_wf (spins st) (row, col) Hg) as Hg'.
  rewrite (updateGrid_returns _ (spins st)) by (done || apply Hp).
  split; [done|]. split; try done. by eapply wf_page_cells.
Qed.

(** The second statement of the listener of a slider. *)
Lemma showValue_simInv st id (v : Q) :
  simInv st -> id ∈ elementIds ->
  (d ← showValue id v (page st); Ok (set_page st d))
  = Ok (withText st id (numberToString v)) /\
  simInv (withText st id (numberToString v)).
Proof.
  intros Hinv Hid. rewrite showValue_returns by (done || apply Hinv).
  split; [done|]. apply simInv_page; [done|]. apply wf_page_insert, Hinv.
Qed.

Lemma temperatureInput_returns st (v : Q) :
  simInv st ->
  temperatureInput st v
  = Ok (withText (set_temperature st v) "temperatureValue" (numberToString v)).
Proof.
  intros Hinv%(simInv_parameters st v "").
  apply (showValue_simInv (set_temperature st v)); [apply Hinv | solve_element].
Qed.

Lemma magneticFieldInput_returns st (v : Q) :
  simInv st ->
  magneticFieldInput st v
  = Ok (withText (set_magneticField st v) "magneticFieldValue" (numberToString v)).
Proof.
  intros Hinv%(simInv_parameters st v "").
  apply (showValue_simInv (set_magneticField st v)); [apply Hinv | solve_element].
Qed.

Lemma interactionStrengthInput_returns st (v : Q) :
  simInv st ->
  interactionStrengthInput st v
  = Ok (withText (set_interactionStrength st v) "interactionStrengthValue"
          (numberToString v)).
Proof.
  intros Hinv%(simInv_parameters st v "").
  apply (showValue_simInv (set_interactionStrength st v));
    [apply Hinv | solve_element].
Qed.

Lemma exportData_simInv st :
  simInv st ->
  exists r, computeResults st = Ok r /\ wf_results r /\
    exportData st = Ok (afterExport st r) /\ simInv (afterExport st r).
Proof.
  intros Hinv. destruct Hinv as [Hg Hh Ht Hn Hp].
  destruct (computeResults_wf st Hg (proj2 Hh)) as (r & Er & Hr).
  exists r. do 2 (split; [done|]). unfold exportData. rewrite Er.
  split; [done|]. split; try done. by apply wf_page_download.
Qed.

Lemma resize_simInv st width :
  simInv st -> 0 <= width ->
  resize st width = Ok (set_page st (squared (set_clientWidth (page st) width))) /\
  simInv (set_page st (squared (set_clientWidth (page st) width))).
Proof.
  intros Hinv Hw. unfold resize.
  rewrite adjustGridSize_Ok
    by (apply (hasElements_lookup (page st)); [apply Hinv | solve_element]).
  split; [done|]. apply simInv_page; [done|].
  apply wf_page_resized; [apply Hinv | done].
Qed.

Lemma runSimulation_simInv st :
  simInv st ->
  exists g k r,
    runAlgorithm st = Ok (g, k) /\
    computeResults (afterUpdate st g k) = Ok r /\ wf_results r /\
    runSimulation st = Ok (afterTick st g k r) /\
    simInv (afterTick st g k r).
Proof.
  intros [Hg Hh Ht Hn Hp].
  destruct (runAlgorithm_wf st Hg) as (g & k & E & Hg').
  pose proof (pushHistory_wf _ g Hcap Hh Hg') as Hpush.
  destruct (computeResults_wf (afterUpdate st g k) Hg' (proj2 Hpush))
    as (r & Er & Hr).
  pose proof (wf_page_cells g _ _ Hp) as Hp'.
  exists g, k, r. do 3 (split; [done|]). split.
  - unfold runSimulation. rewrite E. cbn [mbind res_bind fst snd]. cbv zeta.
    cbn [spins page set_spinHistory set_cursor set_spins].
    rewrite (updateGrid_returns _ (spins st)) by (done || apply Hp).
    cbn [mbind res_bind].
    erewrite updateResults_returns; [reflexivity | exact Er | apply Hp'].
  - split; try done. by apply wf_page_shown.
Qed.

Lemma handle_simInv e st :
  simInv st -> enabled e st -> exists st', handle e st = Ok st' /\ simInv st'.
Proof.
  intros Hinv Hen.
  destruct e as [row col | v | v | v | a | | | | width | id]; cbn [handle].
  - eexists. apply cellClick_simInv; [done | by apply (enabled_cell st)].
  - eexists. apply showValue_simInv; [by apply (simInv_parameters st v "") | solve_element].
  - eexists. apply showValue_simInv; [by apply (simInv_parameters st v "") | solve_element].
  - eexists. apply showValue_simInv; [by apply (simInv_parameters st v "") | solve_element].
  - eexists. split; [done|]. by apply (simInv_parameters st 0 a).
  - eexists. split; [done|]. by apply startSimulation_simInv.
  - eexists. split; [done|]. by apply stopSimulation_simInv.
  - destruct (exportData_simInv st Hinv) as (r & _ & _ & E & Hinv'). by eexists.
  - eexists. apply resize_simInv; [done | apply Hen].
  - destruct (runSimulation_simInv st Hinv) as (g & k & r & _ & _ & _ & E & Hinv').
    by eexists.
Qed.

Lemma reachable_inv st : reachable st -> simInv st.
Proof.
  induction 1 as [| st e st' _ IH Hstep]; [apply simInv_initial|].
  destruct Hstep as [st e st' Hen Hh].
  destruct (handle_simInv e st IH Hen) as (st'' & E & Hinv). congruence.
Qed.

(** In a state that keeps the invariant every control has its listener: an
    event can happen unless it is a click outside the grid, a resize to a
    negative width, or a tick of a timer that is not active. *)
Lemma enabled_simInv st e :
  simInv st ->
  enabled e st <->
  match e with
  | CellClick row col => in_grid row col
  | Resize width => 0 <= width
  | TimerFires id => id ∈ timers st
  | _ => True
  end.
Proof.
  intros Hinv. destruct e; try (by apply enabled_cell); try done;
    unfold enabled, registered; rewrite (page_listeners _ _ (inv_page st Hinv));
    (split; [tauto|]); intros; try split; try done; solve_element.
Qed.

(** ** The state after a handler *)

(** The state that the handler of an event leaves, event by event. *)
Lemma handle_inv e st st' :
  simInv st -> enabled e st -> handle e st = Ok st' ->
  match e with
  | CellClick row col => st' = afterClick st (row, col)
  | TemperatureInput v =>
      st' = withText (set_temperature st v) "temperatureValue" (numberToString v)
  | MagneticFieldInput v =>
      st' = withText (set_magneticField st v) "magneticFieldValue" (numberToString v)
  | InteractionStrengthInput v =>
      st' = withText (set_interactionStrength st v) "interactionStrengthValue"
              (numberToString v)
  | AlgorithmChange a => st' = set_algorithm st a
  | StartClick => st' = startSimulation st
  | StopClick => st' = stopSimulation st
  | ExportClick =>
      exists r, computeResults st = Ok r /\ wf_results r /\ st' = afterExport st r
  | Resize width => st' = set_page st (squared (set_clientWidth (page st) width))
  | TimerFires _ =>
      exists g k r, runAlgorithm st = Ok (g, k) /\
        updateSpec (selectedUpdate (algorithm st)) (spins st) g /\
        computeResults (afterUpdate st g k) = Ok r /\ wf_results r /\
        st' = afterTick st g k r
  end.
Proof.
  intros Hinv Hen Hh.
  destruct e as [row col | v | v | v | a | | | | width | id]; cbn [handle] in Hh;
    try (by injection Hh as <-).
  - apply enabled_cell in Hen; [|done].
    destruct (cellClick_simInv st row col Hinv Hen) as [E _]. congruence.
  - rewrite temperatureInput_returns in Hh by done. congruence.
  - rewrite magneticFieldInput_returns in Hh by done. congruence.
  - rewrite interactionStrengthInput_returns in Hh by done. congruence.
  - destruct (exportData_simInv st Hinv) as (r & Er & Hr & E & _).
    exists r. do 2 (split; [done|]). congruence.
  - destruct (resize_simInv st width Hinv (proj1 Hen)) as [E _]. congruence.
  - destruct (runSimulation_simInv st Hinv) as (g & k & r & Ea & Er & Hr & E & _).
    destruct (runAlgorithm_refines st (inv_grid st Hinv)) as (g' & k' & Ea' & Hs & _).
    assert (g' = g) as -> by congruence.
    exists g, k, r. do 4 (split; [done|]). congruence.
Qed.

(** ** What a step does to the lattice and to the history *)

(** Only a click on a cell and a tick change the lattice, and only a tick
    changes the history. *)
Lemma handle_data e st st' :
  simInv st -> enabled e st -> handle e st = Ok st' ->
  match e with
  | CellClick row col =>
      spins st' = flipAt (spins st) (row, col) /\ spinHistory st' = spinHistory st
  | TimerFires _ =>
      updateSpec (selectedUpdate (algorithm st)) (spins st) (spins st') /\
      spinHistory st' = pushHistory (spinHistory st) (spins st')
  | _ => spins st' = spins st /\ spinHistory st' = spinHistory st
  end.
Proof.
  intros Hinv Hen Hh. pose proof (handle_inv e st st' Hinv Hen Hh) as Hnext.
  destruct e; try (by subst st').
  - subst st'. by destruct (startSimulation_data st) as (-> & -> & _).
  - subst st'. by destruct (stopSimulation_data st) as (-> & -> & _).
  - by destruct Hnext as (r & _ & _ & ->).
  - by destruct Hnext as (g & k & r & _ & Hs & _ & _ & ->).
Qed.

(** Only a tick draws random numbers, and the lattice and the cursor that
    a tick leaves are those that the update has returned. *)
Lemma handle_draws e st st' :
  simInv st -> enabled e st -> handle e st = Ok st' ->
  match e with
  | TimerFires _ => runAlgorithm st = Ok (spins st', cursor st')
  | _ => cursor st' = cursor st
  end.
Proof.
  intros Hinv Hen Hh. pose proof (handle_inv e st st' Hinv Hen Hh) as Hnext.
  destruct e; try (by subst st').
  - subst st'. unfold startSimulation. by destruct (truthy _).
  - subst st'. unfold stopSimulation. by destruct (truthy _).
  - by destruct Hnext as (r & _ & _ & ->).
  - by destruct Hnext as (g & k & r & Ea & _ & _ & _ & ->).
Qed.

(** The update that [runAlgorithm] runs, name by name. *)
Lemma runAlgorithm_cases st gk :
  runAlgorithm st = Ok gk ->
  (algorithm st = "metropolis" ->
   runMetropolisHastings (temperature st) (interactionStrength st)
     (magneticField st) (spins st, cursor st) = Ok gk) /\
  (algorithm st = "wolff" ->
   runWolffCluster (temperature st) (interactionStrength st)
     (magneticField st) (spins st, cursor st) = Ok gk) /\
  (algorithm st <> "metropolis" -> algorithm st <> "wolff" ->
   gk = (spins st, cursor st)).
Proof.
  unfold runAlgorithm. intros E. split_and!.
  - intros Ha. by rewrite decide_True in E.
  - intros Ha. rewrite decide_False, decide_True in E; [done | done | by rewrite Ha].
  - intros Hm Hw. rewrite !decide_False in E by done. by injection E.
Qed.

(** Only the start and the stop button change the timers. *)
Lemma handle_timers e st st' :
  simInv st -> enabled e st -> handle e st = Ok st' ->
  e <> StartClick -> e <> StopClick -> timers st' = timers st.
Proof.
  intros Hinv Hen Hh Hstart Hstop.
  pose proof (handle_inv e st st' Hinv Hen Hh) as Hnext.
  destruct e; try done; try (by subst st').
  - by destruct Hnext as (r & _ & _ & ->).
  - by destruct Hnext as (g & k & r & _ & _ & _ & _ & ->).
Qed.

(** ** Runs of the timer *)

Lemma runEvents_cons e es st : runEvents (e :: es) st = handle e st ≫= runEvents es.
Proof. apply foldlM_cons. Qed.

(** [n] ticks of the timer [id]: no tick throws, and the history grows by one
    snapshot per tick until it holds [historySize] of them. *)
Lemma runEvents_ticks n id st :
  simInv st ->
  exists st',
    runEvents (replicate n (TimerFires id)) st = Ok st' /\ simInv st' /\
    timers st' = timers st /\
    Z.of_nat (length (spinHistory st'))
    = Z.min (Z.of_nat (length (spinHistory st)) + Z.of_nat n) historySize.
Proof.
  revert st. induction n as [|n IH]; intros st Hinv.
  - exists st. do 3 (split; [done|]). destruct Hinv as [_ [Hlen _] _ _ _]. lia.
  - destruct (runSimulation_simInv st Hinv) as (g & k & r & _ & _ & _ & E & Hinv').
    destruct (IH _ Hinv') as (st' & E' & Hinv'' & Et & El).
    exists st'. cbn [replicate]. rewrite runEvents_cons. cbn [handle].
    rewrite E. split; [exact E'|]. split; [done|]. split; [by rewrite Et|].
    rewrite El. cbn [spinHistory set_page afterTick afterUpdate set_spinHistory].
    rewrite pushHistory_length. destruct Hinv as [_ [Hlen _] _ _ _].
    case_decide; lia.
Qed.

(** ** Theorems *)

(** C5: in every state the page can reach, the grid is a square of
    [gridSize] rows, the history holds at most [historySize] well-formed
    snapshots, at most one interval timer is active, and an active timer is
    the one [simulationInterval] names. *)
Theorem simulation_invariant st :
  reachable st ->
  wf_grid (spins st) /\
  Z.of_nat (length (spinHistory st)) <= historySize /\
  Forall wf_grid (spinHistory st) /\
  (length (timers st) <= 1)%nat /\
  forall id, id ∈ timers st -> simulationInterval st = Some id.
Proof.
  intros Hr. destruct (reachable_inv st Hr) as [Hg [Hlen Hall] Ht _ _].
  do 3 (split; [done|]).
  destruct Ht as [-> | (id & -> & -> & _)]; (split; [simpl; lia|]).
  - by intros id ?%elem_of_nil.
  - by intros id' ->%list_elem_of_singleton.
Qed.

(** C10: the page always shows the lattice: in every reachable state the
    grid holds one cell per site, row by row, whose class is the spin at the
    site its listener toggles; the grid is as high as it is wide, and the
    listeners are those the script registers, each once. *)
Theorem page_shows_lattice st :
  reachable st ->
  cells (page st) = renderGrid (spins st) /\
  (forall c, c ∈ cells (page st) ->
     in_grid (clickListener c).1 (clickListener c).2 /\
     className c
     = "cell " +:+ spinText (cellAt (spins st) (clickListener c).1 (clickListener c).2)) /\
  styleHeight (page st) = integerToString (clientWidth (page st)) +:+ "px" /\
  listeners (page st) = wiring.
Proof.
  intros Hr. destruct (inv_page st (reachable_inv st Hr)) as [_ Hc Hl Hh _].
  split; [done|]. split; [|done]. rewrite Hc.
  intros c (s & -> & Hs)%list_elem_of_fmap. by apply elem_of_allSites in Hs.
Qed.

(** C22: no handler throws: in a reachable state every event that can
    happen (a click on a cell of the grid, a slider or selector change, a
    click on a button, a resize, a tick of an active timer) is handled and
    leads to a next state. *)
Theorem simulation_never_throws st e :
  reachable st -> enabled e st -> exists st', step st e st'.
Proof.
  intros Hr Hen.
  destruct (handle_simInv e st (reachable_inv st Hr) Hen) as (st' & E & _).
  exists st'. by constructor.
Qed.

(** In a reachable state every control has its listener: the events that
    cannot happen are a click outside the grid, a resize to a negative
    width, and a tick of a timer that is not active. *)
Theorem reachable_enabled st e :
  reachable st ->
  enabled e st <->
  match e with
  | CellClick row col => in_grid row col
  | Resize width => 0 <= width
  | TimerFires id => id ∈ timers st
  | _ => True
  end.
Proof. intros Hr. by apply enabled_simInv, reachable_inv. Qed.

(** However often the start button has been clicked, after a click on
    it exactly one timer runs, the one just created, and
    [simulationInterval] holds its identifier. *)
Theorem startSimulation_single_timer st :
  reachable st ->
  timers (startSimulation st) = [nextTimer st] /\
  simulationInterval (startSimulation st) = Some (nextTimer st).
Proof.
  intros Hr.
  destruct (startSimulation_timers st (reachable_inv st Hr)) as (Et & Ei & _).
  done.
Qed.

(** While no timer is active, a step other than a click on start is not a
    tick and activates no timer; it leaves the history as it is, and the
    lattice too unless it is a click on a cell. *)
Lemma halted_step st e st' :
  simInv st -> timers st = [] -> step st e st' -> e <> StartClick ->
  simInv st' /\ timers st' = [] /\ (forall id, e <> TimerFires id) /\
  spinHistory st' = spinHistory st /\
  ((forall row col, e <> CellClick row col) -> spins st' = spins st).
Proof.
  intros Hinv Ht Hstep Hstart. destruct Hstep as [st0 e0 st1 Hen Hh].
  destruct (handle_simInv e0 st0 Hinv Hen) as (st2 & E & Hinv').
  assert (st2 = st1) as -> by congruence. split; [done|].
  pose proof (handle_data e0 st0 st1 Hinv Hen Hh) as Hd.
  assert (forall id, e0 <> TimerFires id) as Htick.
  { intros id ->. cbn [enabled] in Hen. rewrite Ht in Hen. by apply elem_of_nil in Hen. }
  split; [|split; [done|]].
  - destruct e0; try done;
      try (by rewrite (handle_timers _ st0 st1 Hinv Hen Hh)).
    pose proof (handle_inv _ _ _ Hinv Hen Hh) as ->. by apply stopSimulation_timers.
  - destruct e0; try (by destruct Hd); [|by destruct (Htick id)].
    split; [by destruct Hd|]. intros Hclick. by destruct (Hclick row col).
Qed.

Lemma halted_steps st es st' :
  simInv st -> timers st = [] -> steps st es st' -> StartClick ∉ es ->
  timers st' = [] /\ (forall id, TimerFires id ∉ es) /\
  spinHistory st' = spinHistory st /\
  ((forall row col, CellClick row col ∉ es) -> spins st' = spins st).
Proof.
  intros Hinv Ht Hsteps. induction Hsteps as [st | st e st1 es st2 Hstep _ IH].
  - intros _. split; [done|]. split; [intros id; apply not_elem_of_nil | done].
  - intros [Hne Hstart]%not_elem_of_cons.
    destruct (halted_step st e st1 Hinv Ht Hstep) as (Hinv1 & Ht1 & Htick & Eh & Es);
      [done|].
    destruct (IH Hinv1 Ht1 Hstart) as (Ht2 & Hticks & Eh2 & Es2).
    split; [done|]. split; [|split; [congruence|]].
    + intros id. apply not_elem_of_cons. split; [by intros <-; apply (Htick id) | done].
    + intros Hclick. rewrite Es2, Es; [done | |];
        intros row col; specialize (Hclick row col);
        apply not_elem_of_cons in Hclick as [? ?]; done.
Qed.

(** C34: a click on the stop button halts the simulation until start is
    clicked: it leaves the lattice and the history as they are, and in
    whatever the page does afterwards, as long as start is not clicked, no
    timer fires and none is active at the end, the history stays what it
    was, and the lattice changes by clicks on cells only. *)
Theorem stopSimulation_halts st es st' :
  reachable st -> steps (stopSimulation st) es st' -> StartClick ∉ es ->
  spins (stopSimulation st) = spins st /\
  timers st' = [] /\ (forall id, TimerFires id ∉ es) /\
  spinHistory st' = spinHistory st /\
  ((forall row col, CellClick row col ∉ es) -> spins st' = spins st).
Proof.
  intros Hr%reachable_inv Hsteps Hstart.
  destruct (stopSimulation_data st) as (Es & Eh & _). split; [done|].
  rewrite <- Es, <- Eh.
  by apply halted_steps; [apply stopSimulation_simInv | apply stopSimulation_timers | |].
Qed.

(** C31: a tick pushes the grid it has produced onto the history and shows
    results; the two-point correlation shown is the sentinel 0 at the first
    tick, and the temporal correlation (lag 10) shown is 0 during the first
    ten ticks. *)
Theorem runSimulation_sentinels st st' :
  reachable st -> runSimulation st = Ok st' ->
  spinHistory st' = pushHistory (spinHistory st) (spins st') /\
  (spinHistory st = [] ->
   contents (page st') !! "twoPointCorrelation"
   = Some ("Two-Point Correlation (distance 1): " +:+ formatNumber (Fin 0))) /\
  ((length (spinHistory st) < 10)%nat ->
   contents (page st') !! "temporalCorrelation"
   = Some ("Temporal Correlation (lag 10): " +:+ formatNumber (Fin 0))).
Proof.
  intros Hr E.
  destruct (runSimulation_simInv st (reachable_inv st Hr))
    as (g & k & r & _ & Er & _ & E' & _).
  rewrite E' in E. injection E as <-. split; [done|].
  cbn [page afterTick set_page shown contents set_contents].
  destruct (shownContents_lookup r (contents (redrawn g (page st))))
    as (_ & _ & _ & -> & _ & -> & _).
  apply computeResults_inv in Er as (_ & _ & _ & Et & _ & Ec & _).
  cbn [spinHistory spins afterUpdate set_spinHistory set_cursor set_spins] in Et, Ec.
  assert (length (pushHistory (spinHistory st) g) <= Datatypes.S (length (spinHistory st)))%nat
    as El by (rewrite pushHistory_length; case_decide; lia).
  unfold calculateTwoPointCorrelation in Et.
  unfold calculateTemporalCorrelation in Ec. split.
  - intros Hnil. rewrite Hnil in El, Et. cbn [length] in El.
    rewrite decide_True in Et by lia. congruence.
  - intros Hlt. rewrite decide_True in Ec by lia. congruence.
Qed.

(** From the initial page, a click on start followed by [n] ticks of
    the timer never throws, leaves that one timer running, and leaves
    [min n historySize] snapshots in the history. *)
Theorem simulation_history_length n :
  exists st,
    runEvents (StartClick :: replicate n (TimerFires 1)) initialState = Ok st /\
    timers st = [1%nat] /\
    Z.of_nat (length (spinHistory st)) = Z.min (Z.of_nat n) historySize.
Proof.
  destruct (runEvents_ticks n 1 (startSimulation initialState)
              (startSimulation_simInv _ simInv_initial)) as (st & E & _ & Et & El).
  exists st. rewrite runEvents_cons. cbn [handle mbind res_bind].
  split; [exact E|]. split; [by rewrite Et|]. by rewrite El.
Qed.

(** C9: the page refines the core of the specification, label by label.
    Every step of the page from a reachable state is the transition of the
    core that the event names: a click on the cell [(row, col)] is
    [toggle(row, col)], the flip of that cell and no other; a tick is
    [step] of the algorithm that [algorithm] names, followed by the push of
    the new lattice; every other event (a slider, the selector, start, stop,
    export, resize) leaves lattice and history as they are.  On a tick the
    lattice and the cursor of the random stream are those that
    [runMetropolisHastings] returns when [algorithm] is ['metropolis'], those
    that [runWolffCluster] returns when it is ['wolff'], and unchanged
    otherwise; no other event draws a random number. *)
Theorem simulation_refines_core st e st' :
  reachable st -> step st e st' ->
  coreStep (abstraction st) (labelOf st e) (abstraction st') /\
  match e with
  | TimerFires _ =>
      (algorithm st = "metropolis" ->
       runMetropolisHastings (temperature st) (interactionStrength st)
         (magneticField st) (spins st, cursor st) = Ok (spins st', cursor st')) /\
      (algorithm st = "wolff" ->
       runWolffCluster (temperature st) (interactionStrength st)
         (magneticField st) (spins st, cursor st) = Ok (spins st', cursor st')) /\
      (algorithm st <> "metropolis" -> algorithm st <> "wolff" ->
       (spins st', cursor st') = (spins st, cursor st))
  | _ => cursor st' = cursor st
  end.
Proof.
  intros Hr Hstep. pose proof (reachable_inv st Hr) as Hinv.
  destruct Hstep as [st0 e0 st1 Hen Hh].
  pose proof (handle_data e0 st0 st1 Hinv Hen Hh) as Hd.
  pose proof (handle_draws e0 st0 st1 Hinv Hen Hh) as Hk.
  pose proof (proj1 (enabled_simInv st0 e0 Hinv) Hen) as Hen'.
  split; [|destruct e0; try done; by apply runAlgorithm_cases].
  apply coreStep_label. unfold abstraction.
  destruct e0; destruct Hd as [Es Eh]; cbn [labelOf lattice history];
    try (by rewrite Es, Eh).
  exists (spins st1). by rewrite Eh.
Qed.

(** C12: in every reachable state the seven functions of [updateResults]
    return, and what they return has the shape that the page and the export
    rely on: every number is finite, the pair correlations are those of the
    distances 1 to [gridSize / 2] in this order, and the structure factor
    has [gridSize] rows of [gridSize] entries. *)
Theorem results_well_formed st :
  reachable st -> exists r, computeResults st = Ok r /\ wf_results r.
Proof.
  intros Hr. destruct (reachable_inv st Hr) as [Hg [_ Hall] _ _ _].
  by apply computeResults_wf.
Qed.

(** C26: a click on the export button offers one file,
    [simulation_data.json], and changes nothing else: the globals are what
    they were, and so are the elements, the cells, the size and the
    listeners of the page.  The text of the file is the JSON text of an
    object from which the grid, the three parameters and the results of the
    state are read back, the results twice; every number in it is finite, so
    none is written as [null]. *)
Theorem exportData_download st :
  reachable st ->
  exists r st', computeResults st = Ok r /\ exportData st = Ok st' /\
    let data := dataObject (spins st) (temperature st) (magneticField st)
                  (interactionStrength st) r r in
    downloads (page st')
    = downloads (page st)
      ++ [Download "simulation_data.json" "application/json" (stringify data 2)] /\
    decodeData data
    = Some (spins st, temperature st, magneticField st, interactionStrength st, r, r) /\
    finiteJson data /\
    set_page st' (page st) = st /\
    set_downloads (page st') (downloads (page st)) = page st.
Proof.
  intros Hr.
  destruct (exportData_simInv st (reachable_inv st Hr)) as (r & Er & Hwf & E & _).
  exists r, (afterExport st r). do 2 (split; [done|]). cbv zeta.
  split; [done|]. split; [apply decodeData_returns|].
  split; [apply dataObject_finiteJson; apply Hwf|].
  split; [by destruct st | by destruct st as [? ? ? ? ? ? ? ? ? ? []]].
Qed.

(** The listener of the temperature slider stores the value and shows
    its text, which [sanitizeText] leaves as it is; an integer below [10^21]
    is shown in decimal notation.  The lattice and the history are not
    touched. *)
Theorem temperatureInput_shows st (v : Q) :
  reachable st ->
  exists st', handle (TemperatureInput v) st = Ok st' /\
    temperature st' = v /\
    contents (page st') !! "temperatureValue" = Some (numberToString v) /\
    (forall z, (v == inject_Z z)%Q -> Z.abs z < 10 ^ 21 ->
       contents (page st') !! "temperatureValue" = Some (integerToString z)) /\
    abstraction st' = abstraction st.
Proof.
  intros Hr. pose proof (reachable_inv st Hr) as Hinv.
  destruct (showValue_simInv (set_temperature st v) "temperatureValue" v) as [E _];
    [by apply (simInv_parameters st v "") | solve_element |].
  eexists. split; [exact E|]. cbn [page withText set_page contents set_contents].
  rewrite lookup_insert_eq. do 2 (split; [done|]). split; [|done].
  intros z Hz Hlt. by rewrite Hz, numberToString_integer.
Qed.

(** C28: a click on a cell redraws the grid and leaves the results as they
    are: after the click the text of every element is what it was, while the
    magnetization of the lattice is another one.  The results on the page
    belong to the lattice of the last tick. *)
Theorem cellClick_results_stale st row col st' :
  reachable st -> step st (CellClick row col) st' ->
  contents (page st') = contents (page st) /\
  cells (page st') = renderGrid (spins st') /\
  exists m m',
    calculateMagnetization (spins st) = Fin m /\
    calculateMagnetization (spins st') = Fin m' /\ ~ (m' == m)%Q.
Proof.
  intros Hr Hstep. pose proof (reachable_inv st Hr) as Hinv.
  inversion Hstep as [st0 e0 st1 Hen Hh]; subst.
  pose proof (handle_inv _ _ _ Hinv Hen Hh) as ->.
  apply enabled_cell in Hen; [|done]. do 2 (split; [done|]).
  destruct (calculateMagnetization_toggle (spins st) row col (inv_grid _ Hinv) Hen)
    as (g' & m & m' & Eg & Em & Em' & Hm).
  unfold toggleSpin in Eg.
  pose proof (flipSpin_flipAt (spins st) (row, col) (inv_grid _ Hinv) Hen) as Ef.
  cbn [fst snd] in Ef. rewrite Ef in Eg.
  injection Eg as <-. exists m, m'. do 2 (split; [done|]).
  apply (toggle_changes_mean (spinAt (spins st) row col) m m');
    [apply spinToValue_cases | done].
Qed.

(** The run of the script leaves the initial state, which keeps the
    invariant. *)
Theorem loadScript_initialState : loadScript = Ok initialState /\ simInv initialState.
Proof. split; [apply loadScript_returns | apply simInv_initial]. Qed.

End invariant.

(** An [algorithm] that is neither of the two names leaves the grid as it
    is; the tick still pushes a snapshot. *)
Lemma runAlgorithm_other st :
  algorithm st <> "metropolis" -> algorithm st <> "wolff" ->
  runAlgorithm st = Ok (spins st, cursor st).
Proof. intros. unfold runAlgorithm. by rewrite !decide_False. Qed.

End simulation.

(** ** Witnesses *)

Section witnesses.
#[local] Existing Instance source_params.
#[local] Existing Instance source_browser.
#[local] Instance page_stream : RandomSource := lcg_random 7.

Lemma source_capacity : 0 <= historySize.
Proof. by vm_compute. Defined.

Lemma enabled_start : enabled StartClick initialState.
Proof. apply (bool_decide_unpack _). by vm_compute. Defined.

Lemma reachable_started : reachable (startSimulation initialState).
Proof.
  apply (reachable_step initialState StartClick); [constructor|].
  constructor; [apply enabled_start | reflexivity].
Defined.

Lemma click_step :
  step initialState (CellClick 2 3) (afterClick initialState (2, 3)).
Proof.
  constructor; [|by vm_compute]. apply (bool_decide_unpack _). by vm_compute.
Defined.

Lemma simulation_invariant_witness :
  wf_grid (spins (startSimulation initialState)) /\
  Z.of_nat (length (spinHistory (startSimulation initialState))) <= historySize /\
  Forall wf_grid (spinHistory (startSimulation initialState)) /\
  (length (timers (startSimulation initialState)) <= 1)%nat /\
  forall id, id ∈ timers (startSimulation initialState) ->
    simulationInterval (startSimulation initialState) = Some id.
Proof.
  exact (simulation_invariant source_capacity source_size _ reachable_started).
Defined.

Lemma page_shows_lattice_witness :
  cells (page initialState) = renderGrid (spins initialState) /\
  (forall c, c ∈ cells (page initialState) ->
     in_grid (clickListener c).1 (clickListener c).2 /\
     className c
     = "cell " +:+ spinText (cellAt (spins initialState)
                               (clickListener c).1 (clickListener c).2)) /\
  styleHeight (page initialState)
  = integerToString (clientWidth (page initialState)) +:+ "px" /\
  listeners (page initialState) = wiring.
Proof.
  exact (page_shows_lattice source_capacity source_size _ reachable_initial).
Defined.

Lemma simulation_never_throws_witness :
  exists st', step (startSimulation initialState) (TimerFires 1) st'.
Proof.
  apply (simulation_never_throws source_capacity source_size _ _ reachable_started).
  cbn. apply list_elem_of_singleton. reflexivity.
Defined.

Lemma reachable_enabled_witness :
  enabled (CellClick 2 3) initialState <-> in_grid 2 3.
Proof.
  exact (reachable_enabled source_capacity source_size _ (CellClick 2 3)
           reachable_initial).
Defined.

Lemma startSimulation_single_timer_witness :
  timers (startSimulation (startSimulation initialState)) = [2%nat] /\
  simulationInterval (startSimulation (startSimulation initialState)) = Some 2%nat.
Proof.
  exact (startSimulation_single_timer source_capacity source_size _ reachable_started).
Defined.

Lemma stopped_steps :
  steps (stopSimulation (startSimulation initialState))
    [AlgorithmChange "wolff"; StopClick]
    (stopSimulation
       (set_algorithm (stopSimulation (startSimulation initialState)) "wolff")).
Proof.
  eapply steps_cons; [|eapply steps_cons; [|apply steps_nil]];
    (constructor; [apply (bool_decide_unpack _); by vm_compute | reflexivity]).
Defined.

Lemma stopSimulation_halts_witness :
  spins (stopSimulation (startSimulation initialState))
  = spins (startSimulation initialState) /\
  timers (stopSimulation
            (set_algorithm (stopSimulation (startSimulation initialState)) "wolff"))
  = [] /\
  (forall id, TimerFires id ∉ [AlgorithmChange "wolff"; StopClick]) /\
  spinHistory (stopSimulation
                 (set_algorithm (stopSimulation (startSimulation initialState)) "wolff"))
  = spinHistory (startSimulation initialState) /\
  ((forall row col, CellClick row col ∉ [AlgorithmChange "wolff"; StopClick]) ->
   spins (stopSimulation
            (set_algorithm (stopSimulation (startSimulation initialState)) "wolff"))
   = spins (startSimulation initialState)).
Proof.
  apply (stopSimulation_halts source_capacity source_size _ _ _ reachable_started
           stopped_steps).
  intros Hin. repeat (apply elem_of_cons in Hin as [[=] | Hin]).
  by apply elem_of_nil in Hin.
Defined.

Lemma runSimulation_sentinels_witness :
  exists st', runSimulation initialState = Ok st' /\
    spinHistory st' = pushHistory [] (spins st') /\
    contents (page st') !! "twoPointCorrelation"
    = Some "Two-Point Correlation (distance 1): 0" /\
    contents (page st') !! "temporalCorrelation"
    = Some "Temporal Correlation (lag 10): 0".
Proof.
  destruct (runSimulation_simInv source_capacity source_size initialState
              (simInv_initial source_capacity)) as (g & k & r & _ & _ & _ & E & _).
  eexists. split; [exact E|].
  destruct (runSimulation_sentinels source_capacity source_size _ _
              reachable_initial E) as (Eh & Ht & Hc).
  split; [exact Eh|]. split; [by apply Ht | apply Hc; cbn; lia].
Defined.

Lemma simulation_refines_core_witness :
  (coreStep (abstraction initialState) (Some (Toggle 2 3))
     (abstraction (afterClick initialState (2, 3))) /\
   cursor (afterClick initialState (2, 3)) = cursor initialState) /\
  exists st', step (startSimulation initialState) (TimerFires 1) st' /\
    coreStep (abstraction (startSimulation initialState))
      (Some (Step UseMetropolis)) (abstraction st') /\
    runMetropolisHastings 50 1 0 (initialSpins, 0%nat) = Ok (spins st', cursor st').
Proof.
  split.
  - exact (simulation_refines_core source_capacity source_size initialState
             (CellClick 2 3) _ reachable_initial click_step).
  - destruct (handle_simInv source_capacity source_size (TimerFires 1)
                (startSimulation initialState)
                (reachable_inv source_capacity source_size _ reachable_started))
      as (st' & E & _); [cbn; apply list_elem_of_singleton; reflexivity|].
    assert (step (startSimulation initialState) (TimerFires 1) st') as Hstep.
    { constructor; [cbn; apply list_elem_of_singleton; reflexivity | exact E]. }
    exists st'. split; [exact Hstep|].
    destruct (simulation_refines_core source_capacity source_size _ _ _
                reachable_started Hstep) as [Hc [Hm _]].
    split; [exact Hc | by apply Hm].
Defined.

Lemma cellClick_results_stale_witness :
  contents (page (afterClick initialState (2, 3))) = contents (page initialState) /\
  cells (page (afterClick initialState (2, 3)))
  = renderGrid (spins (afterClick initialState (2, 3))) /\
  exists m m',
    calculateMagnetization (spins initialState) = Fin m /\
    calculateMagnetization (spins (afterClick initialState (2, 3))) = Fin m' /\
    ~ (m' == m)%Q.
Proof.
  exact (cellClick_results_stale source_capacity source_size initialState 2 3 _
           reachable_initial click_step).
Defined.

Lemma simulation_history_length_witness :
  exists st,
    runEvents (StartClick :: replicate 3 (TimerFires 1)) initialState = Ok st /\
    timers st = [1%nat] /\
    Z.of_nat (length (spinHistory st)) = 3.
Proof. exact (simulation_history_length source_capacity source_size 3). Defined.

Lemma results_well_formed_witness :
  exists r, computeResults initialState = Ok r /\ wf_results r.
Proof.
  exact (results_well_formed source_capacity source_size _ reachable_initial).
Defined.

Lemma exportData_download_witness :
  exists r st', computeResults initialState = Ok r /\
    exportData initialState = Ok st' /\
    let data := dataObject (spins initialState) 50 0 1 r r in
    downloads (page st')
    = [Download "simulation_data.json" "application/json" (stringify data 2)] /\
    decodeData data = Some (spins initialState, 50%Q, 0%Q, 1%Q, r, r) /\
    finiteJson data /\
    set_page st' (page initialState) = initialState /\
    set_downloads (page st') (downloads (page initialState)) = page initialState.
Proof.
  exact (exportData_download source_capacity source_size _ reachable_initial).
Defined.

Lemma temperatureInput_shows_witness :
  exists st', handle (TemperatureInput 37) initialState = Ok st' /\
    temperature st' = 37%Q /\
    contents (page st') !! "temperatureValue" = Some "37".
Proof.
  destruct (temperatureInput_shows source_capacity source_size initialState 37
              reachable_initial) as (st' & E & Ht & _ & Hz & _).
  exists st'. split; [exact E|]. split; [exact Ht|].
  apply (Hz 37); [reflexivity | by vm_compute].
Defined.

End witnesses.

