(* ===== verification/Liveness.v ===== *)
(** * Progress: runs of the page and the fairness of the timer

    A run of the page is an infinite sequence of states, the first one
    [initialState], in which every instant either handles one event that can
    happen ([Simulation.step]) or leaves the state as it is.  The run that a
    schedule of events produces is [runOf]: an event of the schedule that
    cannot happen, or whose handler throws, is dropped.

    The browser calls the callback of an interval timer again and again while
    the timer is active.  [fair] states this of a run: a timer that is active
    at some instant fires later, unless it is cleared first.  Under this
    assumption the theorems show what the timer achieves: once the start and
    the stop button are left alone while a timer is active, the ticks keep
    coming and the history fills up to [historySize] snapshots and stays
    full.  The assumption on the buttons is needed: [startSimulation] clears
    the timer and creates a new one, so a click on start at every instant
    leaves a fair run in which no timer ever fires ([restartRun]). *)

From Stdlib Require Import ZArith QArith Lia.
From stdpp Require Import base tactics option list list_numbers strings.
From S2P Require Import Prelude Numeric Lattice History StructureFactor.
From S2P Require Import Text Page Core Simulation.

#[local] Open Scope Z_scope.

(** ** Runs *)

Record run : Type := Run {
  stateAt : nat -> simState;
  eventAt : nat -> option event;
}.

(** The number of snapshots in the history at an instant. *)
Definition historyLength (ρ : run) (n : nat) : Z :=
  Z.of_nat (length (spinHistory (stateAt ρ n))).

(** A timer that is active fires later or is cleared. *)
Definition fair (ρ : run) : Prop :=
  forall n id, id ∈ timers (stateAt ρ n) ->
    exists m, (n <= m)%nat /\
      (eventAt ρ m = Some (TimerFires id) \/ id ∉ timers (stateAt ρ m)).

(** From the instant [n] on nobody clicks on start or on stop. *)
Definition undisturbed (ρ : run) (n : nat) : Prop :=
  forall m, (n <= m)%nat ->
    eventAt ρ m <> Some StartClick /\ eventAt ρ m <> Some StopClick.

(** The timer fires at the instant [n]. *)
Definition ticksAt (ρ : run) (n : nat) : Prop :=
  exists id, eventAt ρ n = Some (TimerFires id).

(** Start at the first instant, then the timer 1 at every instant. *)
Definition tickingSchedule (n : nat) : option event :=
  match n with
  | O => Some StartClick
  | S _ => Some (TimerFires 1)
  end.

(** A click on start at every instant. *)
Definition restartSchedule (n : nat) : option event := Some StartClick.

Section liveness.
Context `{Params, RandomSource, ExpModel, TrigModel, Browser}.

(** What happens between the instants [n] and [n + 1]. *)
Definition moves (ρ : run) (n : nat) : Prop :=
  match eventAt ρ n with
  | Some e => step (stateAt ρ n) e (stateAt ρ (S n))
  | None => stateAt ρ (S n) = stateAt ρ n
  end.

Definition isRun (ρ : run) : Prop :=
  stateAt ρ 0 = initialState /\ forall n, moves ρ n.

(** The event of a schedule that the page handles in a state, if any, with
    the state it leaves. *)
Definition attempt (e : option event) (st : simState) : option event * simState :=
  match e with
  | Some e =>
      if decide (enabled e st) then
        match handle e st with
        | Ok st' => (Some e, st')
        | Throw _ => (None, st)
        end
      else (None, st)
  | None => (None, st)
  end.

Fixpoint stateAfter (schedule : nat -> option event) (n : nat) : simState :=
  match n with
  | O => initialState
  | S n' => (attempt (schedule n') (stateAfter schedule n')).2
  end.

(** The run that a schedule produces. *)
Definition runOf (schedule : nat -> option event) : run :=
  Run (stateAfter schedule)
    (fun n => (attempt (schedule n) (stateAfter schedule n)).1).

(** The run in which the simulation is started and then left alone. *)
Definition tickingRun : run := runOf tickingSchedule.

(** The run in which the start button is clicked at every instant. *)
Definition restartRun : run := runOf restartSchedule.

End liveness.

(** ** Lemmas *)

Section liveness_lemmas.
Context `{Params, RandomSource, ExpModel, TrigModel, Browser}.
Context (Hcap : 0 <= historySize) (Hsize : gridSize <= maxIndex).
Implicit Types (ρ : run) (n m k : nat).

Lemma runOf_isRun schedule : isRun (runOf schedule).
Proof.
  split; [done|]. intros n. unfold moves. cbn [eventAt stateAt runOf stateAfter].
  unfold attempt. destruct (schedule n) as [e|]; [|done].
  case_decide; [|done]. destruct (handle e _) eqn:E; [|done]. by constructor.
Qed.

Lemma run_step ρ n e :
  isRun ρ -> eventAt ρ n = Some e ->
  enabled e (stateAt ρ n) /\ handle e (stateAt ρ n) = Ok (stateAt ρ (S n)).
Proof.
  intros [_ Hm] He. specialize (Hm n). unfold moves in Hm. rewrite He in Hm.
  by destruct Hm.
Qed.

Lemma run_idle ρ n :
  isRun ρ -> eventAt ρ n = None -> stateAt ρ (S n) = stateAt ρ n.
Proof. intros [_ Hm] He. specialize (Hm n). unfold moves in Hm. by rewrite He in Hm. Qed.

Lemma run_reachable ρ n : isRun ρ -> reachable (stateAt ρ n).
Proof.
  intros Hρ. induction n as [|n IH]; [rewrite (proj1 Hρ); constructor|].
  destruct (eventAt ρ n) as [e|] eqn:He.
  - destruct (run_step ρ n e Hρ He). by eapply reachable_step.
  - by rewrite run_idle.
Qed.

Lemma run_inv ρ n : isRun ρ -> simInv (stateAt ρ n).
Proof. intros Hρ. by apply reachable_inv, run_reachable. Qed.

Lemma historyLength_bound ρ n : isRun ρ -> historyLength ρ n <= historySize.
Proof. intros Hρ. apply (inv_history _ (run_inv ρ n Hρ)). Qed.

(** The history never shrinks, and a tick adds a snapshot unless the
    history is full. *)
Lemma historyLength_S ρ n :
  isRun ρ ->
  historyLength ρ n <= historyLength ρ (S n) /\
  (ticksAt ρ n ->
   historyLength ρ (S n) = Z.min (historyLength ρ n + 1) historySize).
Proof.
  intros Hρ. pose proof (historyLength_bound ρ n Hρ) as Hb. unfold historyLength in *.
  destruct (eventAt ρ n) as [e|] eqn:He; unfold ticksAt; rewrite He.
  - destruct (run_step ρ n e Hρ He) as [Hen Hh].
    pose proof (handle_data Hcap Hsize e _ _ (run_inv ρ n Hρ) Hen Hh) as Hd.
    assert (forall id, e = TimerFires id ->
      Z.of_nat (length (spinHistory (stateAt ρ (S n))))
      = Z.min (Z.of_nat (length (spinHistory (stateAt ρ n))) + 1) historySize) as Htick.
    { intros id ->. destruct Hd as [_ ->]. rewrite pushHistory_length.
      case_decide; lia. }
    split; [|by intros [id [= ->]]; eapply Htick].
    destruct e; try (destruct Hd as [_ ->]; lia). rewrite (Htick id) by done. lia.
  - rewrite run_idle by done. split; [lia | by intros [id ?]].
Qed.

Lemma historyLength_mono ρ n m :
  isRun ρ -> (n <= m)%nat -> historyLength ρ n <= historyLength ρ m.
Proof.
  intros Hρ. induction 1 as [|m _ IH]; [lia|].
  pose proof (proj1 (historyLength_S ρ m Hρ)). lia.
Qed.

(** While nobody clicks on start or stop, the timers stay as they are. *)
Lemma timers_stable ρ n m :
  isRun ρ -> undisturbed ρ n -> (n <= m)%nat ->
  timers (stateAt ρ m) = timers (stateAt ρ n).
Proof.
  intros Hρ Hu. induction 1 as [|m Hle IH]; [done|]. rewrite <- IH.
  destruct (eventAt ρ m) as [e|] eqn:He; [|by rewrite run_idle].
  destruct (run_step ρ m e Hρ He) as [Hen Hh]. destruct (Hu m Hle) as [Hstart Hstop].
  eapply (handle_timers Hcap Hsize e); [by apply run_inv | done | done | |];
    intros ->; congruence.
Qed.

(** In a fair run with an active timer that is left alone, a tick follows
    every instant. *)
Lemma next_tick ρ n m :
  isRun ρ -> fair ρ -> undisturbed ρ n -> timers (stateAt ρ n) <> [] ->
  (n <= m)%nat -> exists k, (m <= k)%nat /\ ticksAt ρ k.
Proof.
  intros Hρ Hfair Hu Hactive Hle.
  destruct (timers (stateAt ρ n)) as [|id ids] eqn:Et; [done|].
  destruct (Hfair m id) as (k & Hk & [Hfires | Hgone]).
  - rewrite (timers_stable ρ n m), Et by done. by left.
  - exists k. split; [done | by exists id].
  - rewrite (timers_stable ρ n k), Et in Hgone by (done || lia).
    destruct Hgone. by left.
Qed.

(** A history that lacks at most [d] snapshots is full after at most [d]
    further ticks. *)
Lemma history_fills ρ n (d : nat) m :
  isRun ρ -> fair ρ -> undisturbed ρ n -> timers (stateAt ρ n) <> [] ->
  (n <= m)%nat -> historySize - historyLength ρ m <= Z.of_nat d ->
  exists k, (m <= k)%nat /\ historyLength ρ k = historySize.
Proof.
  intros Hρ Hfair Hu Hactive. revert m. induction d as [|d IH]; intros m Hle Hd.
  - exists m. split; [done|]. pose proof (historyLength_bound ρ m Hρ). lia.
  - destruct (next_tick ρ n m Hρ Hfair Hu Hactive Hle) as (k & Hk & Htick).
    pose proof (historyLength_mono ρ m k Hρ Hk).
    pose proof (proj2 (historyLength_S ρ k Hρ) Htick).
    destruct (IH (S k)) as (k' & Hk' & Hfull); [lia | lia |].
    exists k'. split; [lia | done].
Qed.

(** ** The two runs *)

Lemma attempt_handled e st st' :
  enabled e st -> handle e st = Ok st' -> attempt (Some e) st = (Some e, st').
Proof. intros Hen Hh. unfold attempt. by rewrite decide_True, Hh. Qed.

(** An event of the schedule that can happen is handled. *)
Lemma stateAfter_inv schedule n : simInv (stateAfter schedule n).
Proof. apply (run_inv (runOf schedule) n), runOf_isRun. Qed.

Lemma runOf_handled schedule n e :
  schedule n = Some e -> enabled e (stateAfter schedule n) ->
  handle e (stateAfter schedule n) = Ok (stateAfter schedule (S n)) /\
  eventAt (runOf schedule) n = Some e.
Proof.
  intros Hs Hen.
  destruct (handle_simInv Hcap Hsize e _ (stateAfter_inv schedule n) Hen)
    as (st' & Hh & _).
  cbn [eventAt stateAt runOf stateAfter].
  by rewrite Hs, (attempt_handled e _ st').
Qed.

(** A click on start is handled in every state of a run of a schedule. *)
Lemma runOf_start schedule n :
  schedule n = Some StartClick ->
  stateAfter schedule (S n) = startSimulation (stateAfter schedule n) /\
  eventAt (runOf schedule) n = Some StartClick.
Proof.
  intros Hs. destruct (runOf_handled schedule n StartClick) as [Hh He]; [done | |].
  - apply enabled_simInv; [apply stateAfter_inv | done].
  - cbn [handle] in Hh. split; [congruence | done].
Qed.

(** After the click on start the timer 1 is active and fires at every
    instant. *)
Lemma tickingRun_ticks n :
  timers (stateAt tickingRun (S n)) = [1%nat] /\
  eventAt tickingRun (S n) = Some (TimerFires 1).
Proof.
  change (stateAt tickingRun (S n)) with (stateAfter tickingSchedule (S n)).
  assert (timers (stateAfter tickingSchedule (S n)) = [1%nat]) as Ht.
  { induction n as [|n IH].
    - destruct (runOf_start tickingSchedule 0) as [-> _]; [done|].
      exact (proj1 (startSimulation_timers initialState (simInv_initial Hcap))).
    - assert (enabled (TimerFires 1) (stateAfter tickingSchedule (S n))) as Hen
        by (cbn [enabled]; rewrite IH; by left).
      destruct (runOf_handled tickingSchedule (S n) (TimerFires 1)) as [Hh _];
        [done | done |].
      rewrite <- IH.
      by eapply (handle_timers Hcap Hsize (TimerFires 1));
        [apply stateAfter_inv | | exact Hh | |]. }
  split; [done|]. apply (runOf_handled tickingSchedule (S n)); [done|].
  cbn [enabled]. rewrite Ht. by left.
Qed.

Lemma tickingRun_fair : fair tickingRun.
Proof.
  intros [|n] id Hid.
  - by apply elem_of_nil in Hid.
  - destruct (tickingRun_ticks n) as [Ht He]. rewrite Ht in Hid.
    apply list_elem_of_singleton in Hid as ->. exists (S n). split; [done | by left].
Qed.

Lemma tickingRun_undisturbed : undisturbed tickingRun 1.
Proof.
  intros [|m] Hm; [lia|]. destruct (tickingRun_ticks m) as [_ ->]. by split.
Qed.

(** In the run of the restarts the timer of each click is cleared by the
    next one. *)
Lemma restartRun_timers n :
  eventAt restartRun n = Some StartClick /\
  nextTimer (stateAt restartRun n) = S n /\
  timers (stateAt restartRun (S n)) = [S n] /\
  spinHistory (stateAt restartRun n) = [].
Proof.
  change (stateAt restartRun) with (stateAfter restartSchedule).
  destruct (runOf_start restartSchedule n) as [Es He]; [done|].
  split; [done|].
  assert (nextTimer (stateAfter restartSchedule n) = S n /\
          spinHistory (stateAfter restartSchedule n) = []) as [En Eh].
  { clear Es He. induction n as [|n [IHn IHh]]; [done|].
    destruct (runOf_start restartSchedule n) as [-> _]; [done|].
    destruct (startSimulation_timers _ (stateAfter_inv restartSchedule n))
      as (_ & _ & ->).
    destruct (startSimulation_data (stateAfter restartSchedule n)) as (_ & -> & _).
    by rewrite IHn. }
  split; [done|]. split; [|done]. rewrite Es.
  destruct (startSimulation_timers _ (stateAfter_inv restartSchedule n)) as (-> & _).
  by rewrite En.
Qed.

End liveness_lemmas.

(** ** Theorems *)

Section liveness_theorems.
Context `{Params, RandomSource, ExpModel, TrigModel, Browser}.
Context (Hcap : 0 <= historySize) (Hsize : gridSize <= maxIndex).

(** C11: the history fills: in a fair run, from an instant at which a timer
    is active and after which nobody clicks on start or stop, the history
    reaches [historySize] snapshots and keeps that many for ever. *)
Theorem history_eventually_full (ρ : run) (n : nat) :
  isRun ρ -> fair ρ -> undisturbed ρ n -> timers (stateAt ρ n) <> [] ->
  exists m, (n <= m)%nat /\
    forall k, (m <= k)%nat -> historyLength ρ k = historySize.
Proof.
  intros Hρ Hfair Hu Hactive.
  destruct (history_fills Hcap Hsize ρ n
              (Z.to_nat (historySize - historyLength ρ n)) n)
    as (m & Hm & Hfull); try done; [lia|].
  exists m. split; [done|]. intros k Hk.
  pose proof (historyLength_mono Hcap Hsize ρ m k Hρ Hk).
  pose proof (historyLength_bound Hcap Hsize ρ k Hρ). lia.
Qed.

(** The simulation keeps running: under the same assumptions a tick
    follows every instant, and every tick runs the update that the selector
    names at that instant and pushes the lattice it leaves. *)
Theorem timer_keeps_firing (ρ : run) (n m : nat) :
  isRun ρ -> fair ρ -> undisturbed ρ n -> timers (stateAt ρ n) <> [] ->
  (n <= m)%nat ->
  exists k, (m <= k)%nat /\ ticksAt ρ k /\
    updateSpec (selectedUpdate (algorithm (stateAt ρ k)))
      (spins (stateAt ρ k)) (spins (stateAt ρ (S k))) /\
    spinHistory (stateAt ρ (S k))
    = pushHistory (spinHistory (stateAt ρ k)) (spins (stateAt ρ (S k))).
Proof.
  intros Hρ Hfair Hu Hactive Hle.
  destruct (next_tick Hcap Hsize ρ n m Hρ Hfair Hu Hactive Hle) as (k & Hk & [id He]).
  exists k. split; [done|]. split; [by exists id|].
  destruct (run_step ρ k _ Hρ He) as [Hen Hh].
  exact (handle_data Hcap Hsize _ _ _ (run_inv Hcap Hsize ρ k Hρ) Hen Hh).
Qed.

(** C27: the assumption on the start button is needed: the run in which
    start is clicked at every instant is a fair run, a timer is active from
    the first click on, and yet no timer ever fires and the history stays
    empty, because every click clears the timer of the click before. *)
Theorem restart_starves :
  isRun restartRun /\ fair restartRun /\
  forall n, timers (stateAt restartRun (S n)) <> [] /\
    ~ ticksAt restartRun n /\ historyLength restartRun n = 0.
Proof.
  split; [apply runOf_isRun|]. split.
  - intros [|n] id Hid; [by apply elem_of_nil in Hid|].
    destruct (restartRun_timers Hcap Hsize n) as (_ & _ & Et & _).
    destruct (restartRun_timers Hcap Hsize (S n)) as (_ & _ & Et' & _).
    rewrite Et in Hid. apply list_elem_of_singleton in Hid as ->.
    exists (S (S n)). split; [lia|]. right. rewrite Et'.
    intros Hin%list_elem_of_singleton. lia.
  - intros n. destruct (restartRun_timers Hcap Hsize n) as (He & _ & Et & Eh).
    split; [by rewrite Et|]. unfold ticksAt, historyLength. rewrite He, Eh.
    split; [by intros [id ?] | done].
Qed.

End liveness_theorems.

(** ** Witnesses *)

Section witnesses.
#[local] Existing Instance source_params.
#[local] Existing Instance source_browser.
#[local] Existing Instance page_stream.

Lemma tickingRun_active : timers (stateAt tickingRun 1) <> [].
Proof.
  destruct (tickingRun_ticks source_capacity source_size 0) as [-> _]. done.
Defined.

Lemma history_eventually_full_witness :
  exists m, (1 <= m)%nat /\
    forall k, (m <= k)%nat -> historyLength tickingRun k = historySize.
Proof.
  exact (history_eventually_full source_capacity source_size tickingRun 1
           (runOf_isRun _) (tickingRun_fair source_capacity source_size)
           (tickingRun_undisturbed source_capacity source_size)
           tickingRun_active).
Defined.

Lemma timer_keeps_firing_witness :
  exists k, (5 <= k)%nat /\ ticksAt tickingRun k /\
    updateSpec (selectedUpdate (algorithm (stateAt tickingRun k)))
      (spins (stateAt tickingRun k)) (spins (stateAt tickingRun (S k))) /\
    spinHistory (stateAt tickingRun (S k))
    = pushHistory (spinHistory (stateAt tickingRun k))
        (spins (stateAt tickingRun (S k))).
Proof.
  apply (timer_keeps_firing source_capacity source_size tickingRun 1 5
           (runOf_isRun _) (tickingRun_fair source_capacity source_size)
           (tickingRun_undisturbed source_capacity source_size)
           tickingRun_active).
  lia.
Defined.

Lemma restart_starves_witness :
  timers (stateAt restartRun 3) <> [] /\
  ~ ticksAt restartRun 2 /\ historyLength restartRun 2 = 0.
Proof.
  exact (proj2 (proj2 (restart_starves source_capacity source_size)) 2%nat).
Defined.

End witnesses.
